(* ===== verification/_CoqProject ===== *)
-Q . S2P
Prelude.v
Metrics.v
QbftMessage.v
QbftVerifier.v
QbftState.v
Codec.v
Files.v
StateStore.v
QbftWal.v
Sha256.v
NoncePool.v
Payload.v
Dfba.v
Builder.v
P2p.v
Consensus.v
Tss.v
CryptoOps.v
TssStores.v
Lifecycle.v
Beast.v
Private.v
Feldman.v
Runner.v
RunnerCrash.v
RunnerLife.v
RunnerRaces.v
DkgNet.v
GenConfig.v
GoStrings.v
SessionPaths.v
GoFlags.v
Api.v
Transport.v
Client.v
Node.v
Committee.v
Main.v
CommandLine.v
Tools.v
Monitoring.v
NodeMetrics.v
Endpoints.v
JsonPayload.v
Tbls.v
PairingGroups.v
BeastCorrect.v
PprfCorrect.v
FeldmanCorrect.v
ClientCorrect.v
TblsCorrect.v
