(* ===== verification/Prelude.v ===== *)
(** * Verification of the Aequa node

    The repository is a distributed validator node: it takes duties and
    transactions over HTTP, gossips transactions and votes, keeps mempools,
    runs the QBFT state machine over the votes, builds blocks by a deterministic
    auction, and opens encrypted ("BEAST") transactions with a committee whose
    keys come from a dealer or from a distributed key generation (DKG). This
    development models that program, file by file, and proves what makes its
    parts correct, alone and put together. Where the code does not do what it
    means to, the theorem states what it does.

    ** The parts, and how they correspond to the code

    Consensus.
    - QbftMessage: consensus/qbft/message.go, p2p/wire/message.go.
    - QbftVerifier: consensus/qbft/verifier.go, every guard of [Verify] in order.
    - QbftState: consensus/qbft/state.go, [Process] branch by branch; a write to a
      nil map is a panic, and [Process] returns [None].
    - QbftWal: consensus/qbft/wal.go, the vote log on the file system of Files.
    - StateStore: state/db.go and file_store.go.
    - Consensus: consensus/service.go, adapter.go, sink.go. A turn of the loop of
      [Start] is [handle_event], from the service to the service and its effects
      in order; it calls verifier, processor, store and decrypter through classes
      (VerifierI, ProcessorI, Store, PrivateDecrypter) that the components implement.

    Transactions and blocks.
    - NoncePool: payload/plaintext_v1/pool.go and auction_bid_v1/pool.go, one pool
      over the transaction type. Payload: private_v1/pool.go, interface.go,
      container.go. Sha256: the hash that the identifiers use.
    - Dfba: dfba/dfba.go. Builder: payload/builder.go, beast.go, standard_block.go.
    - Api: api/service.go, p2p/wire/tx.go.

    Encrypted transactions.
    - CryptoOps: the operations of the blst library and of AES-GCM, as classes.
    - Beast: beast/ibe, beast/pprf, beast/bte. Feldman: tss/dkg/feldman_crypto_blst.go.
    - Private: payload/private_v1 (decrypters, configuration, share tables) and
      beast/engine*.go. Client: cmd/beast-keygen and cmd/beast-encrypt.
    - Tbls: tss/core, tss/core/bls381, tss/bls, tss/api.
    - PairingGroups, BeastCorrect, PprfCorrect, FeldmanCorrect, ClientCorrect,
      TblsCorrect: the same operations over a pairing group of prime order, in
      MathComp.

    Threshold layer.
    - Tss: tss/session/manager.go, tss/dkg/engine.go, feldman.go.
    - TssStores: tss/dkg/storage.go, session_store.go, beast_session_store.go,
      beast_dkg_config.go. Runner: tss/dkg/beast_runner_blst.go, p2p/wire/tss_dkg.go,
      handler by handler. DkgNet: the runners of a committee over a network
      ([net_step]: any message that was sent is delivered to a member, or a
      member's retry loop ticks before the epoch times out). RunnerCrash: a member that
      stops between the writes of onShare. RunnerLife: a member that stops after
      any of its effects and is started again, any number of times ([life_step]).
      RunnerRaces: the windows between the receive loop and the retry loop.
      SessionPaths: the paths that session ids give, and both session stores over
      one directory. GenConfig: .github/scripts/gen-beast-dkg-config.go, which
      writes their configurations.

    Network and program.
    - P2p: peer admission (p2p/gating.go, resources.go, tss_limits.go, service.go,
      manager.go), with the lock-free counter as interleaved steps.
    - Transport: p2p/factory_p2p.go, transport.go, config_net.go, wire/beast_share.go.
    - Lifecycle: pkg/bus, pkg/trace, pkg/lifecycle, tss/service.go. Metrics:
      pkg/metrics.
    - Node: the callbacks of cmd/dvt-node/main.go. Main: what [main] builds from
      flags, environment and files. Committee: a node among its peers. CommandLine:
      the flags of [main], from the arguments. Tools: the command lines of
      beast-keygen, beast-encrypt and the configuration script, from the arguments
      to the exit status and the files. GoFlags: the rules of Go's flag and strconv
      packages that these use.
    - Monitoring: monitoring/service.go, with the locks of pkg/metrics. NodeMetrics:
      the metrics of all that main.go wires. Endpoints: the API server as a service,
      consensus/sink_webhook.go, the e2e endpoints, pkg/logger, pkg/config.
      JsonPayload: consensus/payload/manager.go.

    Shared: this file (notations, Go's integers and errors, sorting, map
    iteration, runs), GoStrings, Codec (big-endian, CRC-32, the JSON interface,
    framed headers) and Files (crashes, the replace protocol, the recovery class).

    ** How the code is rendered

    A method is a function from the state, a record with the fields of the struct,
    to the state and what the method returns; effects (sends, writes, metrics) are
    lists in program order. Locks make the methods of a component atomic, so a
    concurrent run is a list of calls ([run]). Where a handler leaves its lock,
    RunnerRaces takes its parts apart; the counters of P2p, which use
    compare-and-swap, are a step relation, and Monitoring has the locks of the
    metrics themselves, since a panic can leave them held. uint64 is N and int is Z, with the
    wrap-around written where the code can reach it ([u64], [i64]). An error is
    [goerr]; the functions of the cryptographic packages return [res]. Iteration over
    a Go map takes its order from [MapIter], about which nothing more is assumed
    than that it lists the entries. Clocks, randomness, the outcomes of file
    operations and of the network are arguments.

    Recursion is structural, with two exceptions where the fuel is computed from
    the data and proved to be enough: [promote] of NoncePool, with the number of
    waiting transactions plus one ([promote_ok]), and [trim_front] of GoStrings, with
    the length of the string ([trim_front_done]).

    ** What the theorems show

    - QBFT: a commit phase rests on a prepare certificate of two distinct senders
      and a commit, all for one proposal; no sequence of messages panics; the
      verifier accepts exactly the messages its guards admit; a vote is logged
      before it is broadcast, and after a crash the log gives back the last one, so
      that older votes are stopped. With the verifier that [Start] installs no
      quorum is ever reached ([default_wiring_never_prepares]), and the wiring of
      main.go casts no vote at all ([main_never_votes]).
    - Stores: after any crash or error the last-state store, the key store and the
      session stores give back an acknowledged value or a newer one; sessions with ids
      without a slash have files of their own ([sessions_apart]).
    - Mempools and builder: the pool implements the map of first valid transactions
      per nonce; the solver takes equal numbers of the best bids and the best
      transactions; proposals do not depend on map order when keys and hashes
      differ; the blocks a node builds without BEAST pass its own check and are stored, for all flags.
    - API and gossip: a request acts exactly when it is admissible; what it submits
      reaches the mempools of both nodes; wire forms round-trip.
    - BEAST: the files of beast-keygen, and the shares that pass the Feldman check,
      are shares of a threshold scheme; a committee in threshold mode opens
      what clients encrypt, in any order of arrival; the puncturable PRF agrees with itself
      in every evaluation. Batched mode opens too with a threshold of one; with more it
      never does, and its secret exponent is public.
    - DKG: whatever the messages, a participant holds only shares that fit the
      commitments, never changes its result, and resumes after a crash; one message
      can end its epochs, and a key share of an abandoned epoch can survive. The
      runner relies on the class VerifiedDKG of Feldman, which FeldmanCorrect proves
      of every pairing group: members that finish on the same commitments hold a
      threshold scheme, and an honest committee, which the configuration script
      sets up, does finish once everything sent has arrived ([honest_dkg_completes]). A lost
      acknowledgement is never sent again ([lost_ack_stalls]), nor one that a crash kept
      from being sent ([crash_loses_ack]). Over all its lives a participant deals
      one polynomial per epoch and keeps its result, as long as its saves succeed
      ([one_dealing_per_epoch], [result_survives_restarts], [lost_write_deals_twice]). An
      honest dealer can be disqualified by its own epoch change ([late_opening_disqualifies]).
    - Command lines: the options of the node can all be given, and are numbers
      of the machine ([node_command_range]); the tools write the files that the
      other theorems start from ([keygen_main_refines], [encrypt_main_prints]).
    - Metrics: for all that the wired node emits, no metric call panics or blocks
      and every page is served ([node_metrics_never_stop]).
    - BLS: partial signatures verify, alone and combined; under one group key only
      when that is the key of the sum of the secrets, for want of weights.
    - Admission: the limits hold in every interleaving, and gauges agree with them.

    ** What is a parameter

    encoding/json is the class Json: decoding inverts encoding on the values it is
    stable on, and no proper prefix decodes. blst is the class Blst; the algebraic theorems
    instantiate it with a field, two modules and a bilinear map (PairingGroup), and small concrete instances
    witness them. AES-GCM opens what it sealed and refuses keys of other sizes;
    ed25519 and X25519 are operations of DKGAuth, and their key generation of
    KeyGeneration, with the laws that signatures verify and secrets agree where
    a theorem needs them; BlsSig is what tss/bls calls of blst. encoding/json on values of any
    type is AnyJson. libp2p and gossipsub answer
    [Start] through NetEnv and publish through a function; the operating system
    answers file operations through the outcomes of Files.

    ** Not modelled

    Sockets, the HTTP servers behind the handlers, the reverse proxy,
    signals and the plain log lines: input and output only. The stubs of builds
    without tags. cmd/dkg prints a line, test/attacker generates load, pkg/dkg and
    consensus/qbft.go are placeholders. In DkgNet no member crashes, and no epoch times
    out or is abandoned; Runner, RunnerCrash and RunnerLife have both for one member. Of the
    interleavings of a runner's two goroutines, only those of RunnerRaces split a handler. Timing: timeouts are events
    that may happen at any point. *)
From stdpp Require Export base tactics decidable option list gmap strings sorting.
From Stdlib Require Export NArith ZArith Lia.
From Stdlib Require Export Strings.Byte Strings.Ascii.

#[global] Set Default Goal Selector "!".

#[global] Arguments Nat.leb : simpl never.
#[global] Arguments Nat.ltb : simpl never.

(** ** Notations

    Go's early returns [if c { return r }] read [RETURN r IF c ;; rest]. *)

Declare Scope go_scope.
Delimit Scope go_scope with go.
Open Scope go_scope.

Notation "'RETURN' r 'IF' c ;; k" := (if c then r else k)
  (at level 10, r at level 99, c at level 99, k at level 200,
   format "'[v' 'RETURN'  r  'IF'  c ;; '/' k ']'") : go_scope.

(** A decidable proposition used as a Go condition. *)
Notation "⌜? P ⌝" := (bool_decide P) (P at level 200) : go_scope.

(** ** Go values

    A Go [error] is [nil] or a value; [errors.New(s)] is [Some s]. *)
Definition goerr : Type := option string.
Abbreviation nil_err := (@None string).

(** [uint64] values are [N]; arithmetic that may exceed 64 bits is wrapped. *)
Definition two64 : N := 2 ^ 64.
Definition u64 (n : N) : N := (n mod two64)%N.
Definition u64_add (a b : N) : N := u64 (a + b).
Definition is_u64 (n : N) : Prop := (n < two64)%N.

(** [int] and [int64] values are [Z] in two's complement range. *)
Definition i64 (z : Z) : Z := ((z + 2 ^ 63) mod 2 ^ 64 - 2 ^ 63)%Z.
Definition maxInt64 : Z := (2 ^ 63 - 1)%Z.

Lemma u64_small n : is_u64 n → u64 n = n.
Proof. unfold is_u64, u64. apply N.mod_small. Qed.

Lemma u64_range n : is_u64 (u64 n).
Proof. unfold is_u64, u64. apply N.mod_lt. done. Qed.

Lemma i64_small z : (- 2 ^ 63 <= z < 2 ^ 63)%Z → i64 z = z.
Proof. unfold i64. intros H. rewrite Z.mod_small; lia. Qed.

(** ** Bytes *)
Abbreviation bytes := (list Byte.byte).

#[export] Instance byte_eq_dec : EqDecision Byte.byte := Byte.byte_eq_dec.
#[export] Program Instance byte_countable : Countable Byte.byte :=
  inj_countable Byte.to_N Byte.of_N _.
Next Obligation. intros b. apply Byte.of_to_N. Qed.

(** [byte(x)]: the low eight bits. *)
Definition byte_of (n : N) : Byte.byte :=
  match Byte.of_N (n mod 256) with Some b => b | None => Byte.x00 end.

(** [[]byte(s)]. *)
Definition str_bytes (s : string) : bytes := String.list_byte_of_string s.

Lemma byte_to_of n : Byte.to_N (byte_of n) = (n mod 256)%N.
Proof.
  unfold byte_of. destruct (Byte.of_N (n mod 256)) as [b|] eqn:E.
  - by apply Byte.to_of_N.
  - apply Byte.of_N_None_iff in E.
    pose proof (N.mod_lt n 256 ltac:(done)). lia.
Qed.

Lemma byte_of_to b : byte_of (Byte.to_N b) = b.
Proof.
  unfold byte_of. pose proof (Byte.to_N_bounded b).
  rewrite N.mod_small by lia. by rewrite Byte.of_to_N.
Qed.

(** Lexicographic comparison of two byte slices, as the comparators of the
    builder write it: first differing byte, then the shorter one. *)
Fixpoint bytes_lt (a b : bytes) : bool :=
  match a, b with
  | x :: a', y :: b' =>
      if ⌜? x = y ⌝ then bytes_lt a' b' else (Byte.to_N x <? Byte.to_N y)%N
  | [], _ :: _ => true
  | _, [] => false
  end.

Lemma byte_to_N_inj x y : Byte.to_N x = Byte.to_N y → x = y.
Proof. intros H. rewrite <-(byte_of_to x), <-(byte_of_to y). by rewrite H. Qed.

Lemma bytes_lt_irrefl a : bytes_lt a a = false.
Proof. induction a; simpl; [done|]. by case_bool_decide. Qed.

Lemma bytes_lt_total a b : a ≠ b → bytes_lt a b = negb (bytes_lt b a).
Proof.
  revert b. induction a as [|x a IH]; intros [|y b] H; simpl; try done.
  destruct (decide (x = y)) as [->|Hne].
  - rewrite !bool_decide_true by done. apply IH. congruence.
  - rewrite !bool_decide_false by done.
    assert (Byte.to_N x ≠ Byte.to_N y) by (intros ?%byte_to_N_inj; done).
    rewrite <-N.leb_antisym. destruct (N.ltb_spec (Byte.to_N x) (Byte.to_N y));
      destruct (N.leb_spec (Byte.to_N x) (Byte.to_N y)); lia || done.
Qed.

Lemma bytes_lt_trans a b c : bytes_lt a b → bytes_lt b c → bytes_lt a c.
Proof.
  revert b c. induction a as [|x a IH]; intros [|y b] [|z c]; simpl; try done.
  intros H1 H2. repeat case_bool_decide; subst; try done; eauto.
  all: apply Is_true_true in H1; apply Is_true_true in H2.
  all: rewrite ?N.ltb_lt in *; apply Is_true_true.
  - exfalso. lia.
  - rewrite N.ltb_lt. lia.
Qed.

Lemma bytes_lt_asym a b : bytes_lt a b = true → bytes_lt b a = false.
Proof.
  intros H. destruct (decide (b = a)) as [->|Hne]; [by rewrite bytes_lt_irrefl in H|].
  by rewrite (bytes_lt_total b a), H.
Qed.

Lemma bytes_lt_ge_trans a b c : bytes_lt a b = false → bytes_lt b c = false → bytes_lt a c = false.
Proof.
  intros Hab Hbc. destruct (bytes_lt a c) eqn:Hac; [exfalso|done].
  destruct (decide (b = c)) as [->|Hne]; [congruence|].
  rewrite bytes_lt_total in Hbc by done. apply negb_false_iff in Hbc.
  assert (bytes_lt a b) as H by (eapply (bytes_lt_trans a c b); by apply Is_true_true).
  apply Is_true_true in H. congruence.
Qed.

(** ** [sort.SliceStable]

    Go's stable sort returns the unique permutation that is ordered by [less]
    and keeps equivalent elements in their original order; on a strict weak
    order this is what insertion from the right computes. *)

Section slice_stable.
Context {A : Type} (less : A → A → bool).

Fixpoint insert_stable (x : A) (l : list A) : list A :=
  match l with
  | [] => [x]
  | y :: l' => if less y x then y :: insert_stable x l' else x :: y :: l'
  end.

Definition SliceStable (l : list A) : list A := foldr insert_stable [] l.

(** [a] may stand before [b]. *)
Definition may_precede (a b : A) : Prop := less b a = false.

Lemma insert_stable_perm x l : insert_stable x l ≡ₚ x :: l.
Proof.
  induction l as [|y l IH]; simpl; [done|].
  destruct (less y x); [|done]. rewrite IH. by rewrite Permutation_swap.
Qed.

Lemma SliceStable_perm l : SliceStable l ≡ₚ l.
Proof. induction l as [|x l IH]; simpl; [done|]. by rewrite insert_stable_perm, IH. Qed.

Lemma length_SliceStable l : length (SliceStable l) = length l.
Proof. by rewrite SliceStable_perm. Qed.

Lemma elem_of_SliceStable x l : x ∈ SliceStable l ↔ x ∈ l.
Proof. by rewrite SliceStable_perm. Qed.
End slice_stable.

Lemma insert_stable_ext {A} (f g : A → A → bool) x l :
  (∀ y, y ∈ l → f y x = g y x) → insert_stable f x l = insert_stable g x l.
Proof.
  induction l as [|y l IH]; intros H; simpl; [done|]. rewrite H, IH; [done| |].
  - intros z Hz. apply H. by apply elem_of_cons; right.
  - by apply elem_of_cons; left.
Qed.

(** Comparators that agree on the elements sort alike. *)
Lemma SliceStable_ext {A} (f g : A → A → bool) l :
  (∀ x y, x ∈ l → y ∈ l → f x y = g x y) → SliceStable f l = SliceStable g l.
Proof.
  induction l as [|x l IH]; intros H; simpl; [done|].
  rewrite IH by (intros y z ??; apply H; apply elem_of_cons; auto).
  apply insert_stable_ext. intros y Hy%elem_of_SliceStable.
  apply H; apply elem_of_cons; auto.
Qed.

(** A comparator that is a strict weak order, the contract of package sort. *)
Class StrictWeak {A} (less : A → A → bool) : Prop := {
  sw_asym a b : less a b = true → less b a = false;
  sw_ge_trans a b c : less a b = false → less b c = false → less a c = false;
}.

Section slice_stable_ordered.
Context {A : Type} (less : A → A → bool) `{!StrictWeak less}.

Lemma insert_stable_sorted x l :
  StronglySorted (may_precede less) l →
  StronglySorted (may_precede less) (insert_stable less x l).
Proof.
  induction 1 as [|y l Hl IH Hy]; simpl; [by repeat constructor|].
  destruct (less y x) eqn:Hyx.
  - constructor; [done|]. rewrite insert_stable_perm. constructor; [|done].
    unfold may_precede. by apply sw_asym.
  - constructor; [by constructor|]. constructor; [done|].
    eapply Forall_impl; [done|]. unfold may_precede. intros z Hz.
    by eapply sw_ge_trans.
Qed.

Lemma SliceStable_sorted l : StronglySorted (may_precede less) (SliceStable less l).
Proof. induction l; simpl; [constructor|]. by apply insert_stable_sorted. Qed.

(** When no two distinct elements tie, the result is a function of the
    multiset: the order in which the elements were collected is immaterial. *)
Lemma SliceStable_unique l1 l2 :
  l1 ≡ₚ l2 →
  (∀ x y, x ∈ l1 → y ∈ l1 → less x y = false → less y x = false → x = y) →
  SliceStable less l1 = SliceStable less l2.
Proof.
  intros Hp Htie. apply (StronglySorted_unique_strong (may_precede less)).
  - intros x y. rewrite !elem_of_SliceStable, <-Hp. unfold may_precede. eauto.
  - apply SliceStable_sorted.
  - apply SliceStable_sorted.
  - by rewrite !SliceStable_perm.
Qed.

(** Stability: elements of a class of pairwise ties keep their order. *)
Lemma insert_stable_filter (P : A → Prop) `{∀ x, Decision (P x)} x l :
  (∀ a b, P a → P b → less a b = false) →
  StronglySorted (may_precede less) l →
  filter P (insert_stable less x l) = filter P (x :: l).
Proof.
  intros HP. induction 1 as [|y l Hl IH Hy]; simpl; [done|].
  destruct (less y x) eqn:Hyx; [|done].
  rewrite !filter_cons, IH, filter_cons.
  destruct (decide (P y)), (decide (P x)); try done.
  by rewrite HP in Hyx.
Qed.

Lemma SliceStable_stable (P : A → Prop) `{∀ x, Decision (P x)} l :
  (∀ a b, P a → P b → less a b = false) →
  filter P (SliceStable less l) = filter P l.
Proof.
  intros HP. induction l as [|x l IH]; [done|]. simpl.
  rewrite insert_stable_filter by (done || apply SliceStable_sorted).
  rewrite !filter_cons, IH. done.
Qed.

(** The first [n] elements dominate the rest. *)
Lemma SliceStable_take_best l n x y :
  x ∈ take n (SliceStable less l) → y ∈ drop n (SliceStable less l) →
  less y x = false.
Proof.
  intros Hx Hy. pose proof (SliceStable_sorted l) as Hs.
  rewrite <-(take_drop n (SliceStable less l)) in Hs.
  by eapply (StronglySorted_app_1_elem_of (may_precede less)) in Hs.
Qed.
End slice_stable_ordered.

Lemma StronglySorted_weaken {A} (R S : A → A → Prop) l :
  (∀ x y, R x y → S x y) → StronglySorted R l → StronglySorted S l.
Proof.
  intros H. induction 1 as [|x l Hl IH Hx]; constructor; [done|].
  eapply Forall_impl; [done|]. auto.
Qed.

Lemma lookup_after_prefix {A} (pre post : list A) x y i :
  (pre ++ x :: post) !! i = Some y → y ∉ pre → y ≠ x → length pre < i.
Proof.
  intros [H|[Hle H]]%lookup_app_Some Hpre Hne; [by apply list_elem_of_lookup_2 in H|].
  destruct (decide (i = length pre)) as [->|]; [|lia].
  rewrite Nat.sub_diag in H. simpl in H. congruence.
Qed.

Lemma elem_of_concat {A} (x : A) (ls : list (list A)) : x ∈ concat ls ↔ ∃ l, x ∈ l ∧ l ∈ ls.
Proof.
  induction ls as [|l ls IH]; simpl; [by split; [intros ?%elem_of_nil|intros (? & _ & ?%elem_of_nil)]|].
  rewrite elem_of_app, IH. setoid_rewrite elem_of_cons. naive_solver.
Qed.

(** ** Map iteration

    [for k, v := range m] visits every entry once in an unspecified order: an
    iteration order is any function from maps to enumerations of their
    entries. *)
Class MapIter := {
  iter_map {A} : gmap string A → list (string * A);
  iter_map_perm {A} (m : gmap string A) : iter_map m ≡ₚ map_to_list m;
}.

(** One admissible order, and another one. *)
Definition iter_forward : MapIter :=
  {| iter_map A m := map_to_list m; iter_map_perm A m := reflexivity _ |}.
Program Definition iter_backward : MapIter :=
  {| iter_map A m := reverse (map_to_list m) |}.
Next Obligation. intros A m. by rewrite reverse_Permutation. Qed.

(** ** Runs of a deterministic handler *)
Section runs.
Context {St Ev Out : Type} (step : St → Ev → St * Out).

Fixpoint run (s : St) (xs : list Ev) : St * list Out :=
  match xs with
  | [] => (s, [])
  | i :: xs' =>
      let '(s1, o) := step s i in
      let '(s2, os) := run s1 xs' in (s2, o :: os)
  end.

Lemma run_app s xs1 xs2 :
  run s (xs1 ++ xs2) =
    (let '(s1, os1) := run s xs1 in
     let '(s2, os2) := run s1 xs2 in (s2, os1 ++ os2)).
Proof.
  revert s. induction xs1 as [|i xs1 IH]; intros s; simpl.
  - by destruct (run s xs2).
  - destruct (step s i) as [s1 o]. rewrite IH.
    destruct (run s1 xs1) as [s2 os]. by destruct (run s2 xs2).
Qed.

Lemma run_snoc s xs i :
  run s (xs ++ [i]) =
    (let '(s1, os) := run s xs in
     let '(s2, o) := step s1 i in (s2, os ++ [o])).
Proof. rewrite run_app. simpl. destruct (run s xs), (step _ i). done. Qed.

(** Invariants of runs, by induction on the inputs. *)
Lemma run_invariant (P : St → Prop) s xs :
  P s → (∀ s i, P s → P (step s i).1) → P (run s xs).1.
Proof.
  intros H0 Hs. revert s H0. induction xs as [|i xs IH]; intros s H0; simpl; [done|].
  specialize (Hs s i H0). destruct (step s i) as [s1 o]. simpl in Hs.
  specialize (IH _ Hs). by destruct (run s1 xs).
Qed.

Lemma length_run s xs : length (run s xs).2 = length xs.
Proof.
  revert s. induction xs as [|i xs IH]; intros s; simpl; [done|].
  destruct (step s i) as [s1 o]. specialize (IH s1).
  destruct (run s1 xs). simpl in *. by f_equal.
Qed.
End runs.

(** ** Tactics *)

(** Split every [RETURN .. IF] and [match] of the goal or of a hypothesis about
    an unfolded handler, and clear the impossible branches. *)
Ltac split_handler := repeat (case_match; simplify_eq/=).

Ltac split_ifs :=
  repeat match goal with
  | |- context [bool_decide ?P] => destruct (bool_decide_reflect P)
  | |- context [if ?b then _ else _] => destruct b eqn:?
  | |- context [match ?x with Some _ => _ | None => _ end] => destruct x eqn:?
  end; simplify_eq/=.

(** Turn the boolean guards collected by [split_handler] into propositions. *)
Ltac guards :=
  repeat match goal with
  | H : _ || _ = false |- _ => apply orb_false_iff in H as [? ?]
  | H : _ && _ = true |- _ => apply andb_true_iff in H as [? ?]
  | H : _ || _ = true |- _ => apply orb_true_iff in H
  | H : _ && _ = false |- _ => apply andb_false_iff in H
  | H : negb _ = true |- _ => apply negb_true_iff in H
  | H : negb _ = false |- _ => apply negb_false_iff in H
  | H : bool_decide _ = true |- _ => apply bool_decide_eq_true in H
  | H : bool_decide _ = false |- _ => apply bool_decide_eq_false in H
  | H : (_ <? _)%N = true |- _ => apply N.ltb_lt in H
  | H : (_ <? _)%N = false |- _ => apply N.ltb_ge in H
  | H : (_ <=? _)%N = true |- _ => apply N.leb_le in H
  | H : (_ <=? _)%N = false |- _ => apply N.leb_gt in H
  | H : (_ =? _)%N = true |- _ => apply N.eqb_eq in H
  | H : (_ =? _)%N = false |- _ => apply N.eqb_neq in H
  | H : (_ <? _)%Z = true |- _ => apply Z.ltb_lt in H
  | H : (_ <? _)%Z = false |- _ => apply Z.ltb_ge in H
  | H : (_ <=? _)%Z = true |- _ => apply Z.leb_le in H
  | H : (_ <=? _)%Z = false |- _ => apply Z.leb_gt in H
  | H : (_ =? _)%Z = true |- _ => apply Z.eqb_eq in H
  | H : (_ =? _)%Z = false |- _ => apply Z.eqb_neq in H
  | H : (_ <? _)%nat = true |- _ => apply Nat.ltb_lt in H
  | H : (_ <? _)%nat = false |- _ => apply Nat.ltb_ge in H
  | H : (_ <=? _)%nat = true |- _ => apply Nat.leb_le in H
  | H : (_ <=? _)%nat = false |- _ => apply Nat.leb_gt in H
  end.
