(* ===== verification/Metrics.v ===== *)
(** The metrics registry (src/pkg/metrics/metrics.go): counters, summaries and
    gauges keyed by name and canonical label string, the events by which every
    other component updates it, and the Prometheus exposition. *)
From S2P Require Import Prelude.
From stdpp Require Import pretty.

(** ** Strings *)

Definition string_lt (a b : string) : bool := bytes_lt (str_bytes a) (str_bytes b).

Fixpoint join (sep : string) (l : list string) : string :=
  match l with
  | [] => ""
  | [x] => x
  | x :: l' => x +:+ sep +:+ join sep l'
  end.

(** [strings.Split(s, c)] for a one-byte separator. *)
Fixpoint split_on (c : Ascii.ascii) (s : string) : list string :=
  match s with
  | EmptyString => [""]
  | String a s' =>
      if ⌜? a = c ⌝ then "" :: split_on c s'
      else match split_on c s' with
           | h :: t => String a h :: t
           | [] => [String a ""]
           end
  end.

(** [strings.SplitN(s, c, 2)] when it yields two parts. *)
Fixpoint cut_at (c : Ascii.ascii) (s : string) : option (string * string) :=
  match s with
  | EmptyString => None
  | String a s' =>
      if ⌜? a = c ⌝ then Some ("", s')
      else '(x, y) ← cut_at c s'; Some (String a x, y)
  end.

Fixpoint has_char (c : Ascii.ascii) (s : string) : bool :=
  match s with
  | EmptyString => false
  | String a s' => ⌜? a = c ⌝ || has_char c s'
  end.

(** ** Events *)

(** A [float64] argument of ObserveSummary: every call site converts a
    non-negative integer, so finite values are naturals. *)
Inductive float64 := NaN | Inf | Fin (n : N).

(** [float64(x)] of an integer: round to nearest even on 53 significant bits. *)
Definition float64_of (x : N) : float64 :=
  let e := (N.log2 x - 52)%N in
  if (x <? 2 ^ 53)%N then Fin x
  else
    let q := N.shiftr x e in
    let r := (x - N.shiftl q e)%N in
    let half := (2 ^ (e - 1))%N in
    let up := (half <? r)%N || ((r =? half)%N && N.odd q) in
    Fin (N.shiftl (if up then q + 1 else q) e).

Definition Labels : Type := gmap string string.
Definition labels (l : list (string * string)) : gmap string string := list_to_map l.

Inductive MEvent :=
  | Inc (name : string) (ls : list (string * string))
  | Observe (name : string) (ls : list (string * string)) (v : float64)
  | AddGauge (name : string) (ls : list (string * string)) (delta : Z)
  | SetGauge (name : string) (ls : list (string * string)) (value : Z).

#[export] Instance float64_eq_dec : EqDecision float64.
Proof. solve_decision. Defined.
#[export] Instance MEvent_eq_dec : EqDecision MEvent.
Proof. solve_decision. Defined.

(** ** The registry *)

Record Registry := mkRegistry {
  counters : gmap (string * string) N;
  summaries : gmap (string * string) (N * N);   (* sum, count *)
  gauges : gmap (string * string) Z;
}.

Definition empty_registry : Registry := mkRegistry ∅ ∅ ∅.

Section registry.
Context {MI : MapIter}.

Definition key_less (a b : string * string) : bool := string_lt a.1 b.1.

Definition labelsKey (m : gmap string string) : string :=
  join "," (map (λ '(k, v), k +:+ "=" +:+ v) (SliceStable key_less (iter_map m))).

Definition inc (r : Registry) (name : string) (ls : gmap string string) : Registry :=
  let key := (name, labelsKey ls) in
  mkRegistry (<[key := u64_add (default 0%N (counters r !! key)) 1]> (counters r))
    (summaries r) (gauges r).

Definition observe (r : Registry) (name : string) (ls : gmap string string)
    (value : float64) : Registry :=
  match value with
  | NaN | Inf => r
  | Fin n =>
      let key := (name, labelsKey ls) in
      let '(sum, count) := default (0%N, 0%N) (summaries r !! key) in
      mkRegistry (counters r)
        (<[key := (u64_add sum (u64 n), u64_add count 1)]> (summaries r)) (gauges r)
  end.

Definition add_gauge (r : Registry) (name : string) (ls : gmap string string)
    (delta : Z) : Registry :=
  let key := (name, labelsKey ls) in
  mkRegistry (counters r) (summaries r)
    (<[key := i64 (default 0%Z (gauges r !! key) + delta)]> (gauges r)).

Definition set_gauge (r : Registry) (name : string) (ls : gmap string string)
    (value : Z) : Registry :=
  mkRegistry (counters r) (summaries r) (<[(name, labelsKey ls) := value]> (gauges r)).

Definition apply_event (r : Registry) (e : MEvent) : Registry :=
  match e with
  | Inc n ls => inc r n (labels ls)
  | Observe n ls v => observe r n (labels ls) v
  | AddGauge n ls d => add_gauge r n (labels ls) d
  | SetGauge n ls v => set_gauge r n (labels ls) v
  end.

Definition apply_events (r : Registry) (es : list MEvent) : Registry :=
  foldl apply_event r es.

Definition Reset (_ : Registry) : Registry := empty_registry.
End registry.

(** ** Exposition *)

Definition nl : string := String (Ascii.ascii_of_nat 10) "".
Definition quote : string := String (Ascii.ascii_of_nat 34) "".

Definition pair_less (a b : string * string) : bool :=
  if ⌜? a.1 = b.1 ⌝ then string_lt a.2 b.2 else string_lt a.1 b.1.

(** The label part [k1="v1",k2="v2"]; [None] is the run-time panic of [p[1]]
    when a part holds no equals sign. *)
Definition render_labels (ls : string) : option string :=
  parts ← mapM (λ kv, '(k, v) ← cut_at "="%char kv; Some (k +:+ "=" +:+ quote +:+ v +:+ quote))
            (split_on ","%char ls);
  Some (join "," parts).

Definition render_line (name suffix ls value : string) : option string :=
  if ⌜? ls = "" ⌝ then Some (name +:+ suffix +:+ " " +:+ value +:+ nl)
  else
    lb ← render_labels ls;
    Some (name +:+ suffix +:+ "{" +:+ lb +:+ "} " +:+ value +:+ nl).

Definition render_family {V} (line : string → string → V → option string)
    (m : gmap (string * string) V) : option string :=
  lines ← mapM (λ kv : string * string * V, line kv.1.1 kv.1.2 kv.2)
            (SliceStable (λ a b, pair_less a.1 b.1) (map_to_list m));
  Some (join "" lines).

(** The three parts of the exposition, each read under the lock of its family. *)
Definition dump_counters (r : Registry) : option string :=
  render_family (λ n ls v, render_line n "" ls (pretty v)) (counters r).
Definition dump_gauges (r : Registry) : option string :=
  render_family (λ n ls v, render_line n "" ls (pretty v)) (gauges r).
Definition dump_summaries (r : Registry) : option string :=
  render_family (λ n ls v,
    a ← render_line n "_sum" ls (pretty v.1);
    b ← render_line n "_count" ls (pretty v.2);
    Some (a +:+ b)) (summaries r).

Definition dump_header : string :=
  "# HELP dvt_up 1" +:+ nl +:+ "# TYPE dvt_up gauge" +:+ nl +:+ "dvt_up 1" +:+ nl.

Definition DumpProm (r : Registry) : option string :=
  cs ← dump_counters r;
  gs ← dump_gauges r;
  ss ← dump_summaries r;
  Some (dump_header +:+ cs +:+ gs +:+ ss).

(** ** Lemmas *)

#[export] Instance key_order_strict_weak {A} (f : A → bytes) :
  StrictWeak (λ a b, bytes_lt (f a) (f b)).
Proof.
  split.
  - intros a b H. destruct (decide (f a = f b)) as [E|E].
    + by rewrite E, bytes_lt_irrefl in H.
    + rewrite bytes_lt_total in H by done. by destruct (bytes_lt (f b) (f a)).
  - intros a b c H1 H2. destruct (bytes_lt (f a) (f c)) eqn:E; [|done].
    destruct (decide (f a = f b)) as [Eab|Eab]; [by rewrite <-Eab, E in H2|].
    assert (bytes_lt (f b) (f a) = true) as H3.
    { rewrite bytes_lt_total by done. by rewrite H1. }
    pose proof (bytes_lt_trans (f b) (f a) (f c)) as Ht.
    rewrite H3, E, H2 in Ht. by destruct (Ht I I).
Qed.

#[export] Instance key_less_strict_weak : StrictWeak key_less.
Proof. apply (key_order_strict_weak (λ p : string * string, str_bytes p.1)). Qed.

Lemma str_bytes_inj a b : str_bytes a = str_bytes b → a = b.
Proof.
  unfold str_bytes. intros H. rewrite <-(String.string_of_list_byte_of_string a), H.
  apply String.string_of_list_byte_of_string.
Qed.

Lemma string_lt_tie a b : string_lt a b = false → string_lt b a = false → a = b.
Proof.
  unfold string_lt. intros H1 H2. apply str_bytes_inj.
  destruct (decide (str_bytes a = str_bytes b)); [done|].
  rewrite bytes_lt_total, H2 in H1 by done. done.
Qed.

Lemma iter_map_perm_2 (i1 i2 : MapIter) {A} (m : gmap string A) :
  @iter_map i1 A m ≡ₚ @iter_map i2 A m.
Proof. by rewrite !iter_map_perm. Qed.

Lemma elem_of_iter_map {MI : MapIter} {A} (m : gmap string A) k v :
  (k, v) ∈ iter_map m ↔ m !! k = Some v.
Proof. rewrite iter_map_perm. apply elem_of_map_to_list. Qed.

(** Counter keys are canonical: the label string of a metric does not
    depend on the order in which Go iterates over the label map, so every
    increment of one metric reaches one counter. *)
Theorem labelsKey_canonical (i1 i2 : MapIter) (m : gmap string string) :
  @labelsKey i1 m = @labelsKey i2 m.
Proof.
  unfold labelsKey. do 2 f_equal. apply SliceStable_unique.
  - apply key_less_strict_weak.
  - apply iter_map_perm_2.
  - intros [k v] [k' v'] H1 H2. unfold key_less; simpl. intros ??.
    assert (k = k') as -> by by apply string_lt_tie.
    rewrite !elem_of_iter_map in *. by simplify_eq.
Qed.

(** Number of increments of a counter in a list of events. *)
Definition is_inc {MI : MapIter} (key : string * string) (e : MEvent) : bool :=
  match e with
  | Inc n ls => ⌜? (n, labelsKey (labels ls)) = key ⌝
  | _ => false
  end.

Definition inc_count {MI : MapIter} (key : string * string) (es : list MEvent) : N :=
  N.of_nat (length (List.filter (is_inc key) es)).

Lemma inc_count_cons {MI : MapIter} key e es :
  inc_count key (e :: es) = ((if is_inc key e then 1 else 0) + inc_count key es)%N.
Proof. unfold inc_count. simpl. destruct (is_inc key e); simpl; lia. Qed.

Lemma apply_event_counter {MI : MapIter} r e key :
  default 0%N (counters (apply_event r e) !! key) =
    if is_inc key e then u64_add (default 0%N (counters r !! key)) 1
    else default 0%N (counters r !! key).
Proof.
  destruct e; simpl; try done.
  - unfold inc; simpl. case_bool_decide as Hk; [subst|]; simpl.
    + by rewrite lookup_insert_eq.
    + by rewrite lookup_insert_ne.
  - unfold observe. destruct v; try done. by destruct (default (0%N, 0%N) _).
Qed.

Lemma apply_events_counter {MI : MapIter} es r key :
  is_u64 (default 0%N (counters r !! key)) →
  default 0%N (counters (apply_events r es) !! key) =
    u64 (default 0%N (counters r !! key) + inc_count key es).
Proof.
  revert r. induction es as [|e es IH]; intros r Hr; simpl.
  - unfold inc_count; simpl. rewrite N.add_0_r. by rewrite u64_small.
  - rewrite IH, inc_count_cons, apply_event_counter.
    + destruct (is_inc key e); [|done].
      unfold u64_add, u64. rewrite N.Div0.add_mod_idemp_l. f_equal. lia.
    + rewrite apply_event_counter. destruct (is_inc key e); [apply u64_range|done].
Qed.

(** Every counter equals the number of increments emitted for its name and
    label set since start-up, modulo 2^64; gauge and summary events never
    disturb it. *)
Theorem counters_count_events {MI : MapIter} (es : list MEvent) (key : string * string) :
  default 0%N (counters (apply_events empty_registry es) !! key) = u64 (inc_count key es).
Proof. by rewrite apply_events_counter. Qed.

(** *** The exposition format *)

Lemma split_on_no_char c s : has_char c s = false → split_on c s = [s].
Proof.
  induction s as [|a s IH]; simpl; [done|].
  rewrite orb_false_iff, bool_decide_eq_false. intros [Ha Hs].
  rewrite bool_decide_false by done. by rewrite IH.
Qed.

Lemma split_on_app c p s :
  has_char c p = false → split_on c (p +:+ String c s) = p :: split_on c s.
Proof.
  induction p as [|a p IH]; simpl.
  - intros _. by rewrite bool_decide_true.
  - rewrite orb_false_iff, bool_decide_eq_false. intros [Ha Hp].
    rewrite bool_decide_false by done. by rewrite IH.
Qed.

Lemma split_join (ps : list string) :
  ps ≠ [] → Forall (λ p, has_char ","%char p = false) ps →
  split_on ","%char (join "," ps) = ps.
Proof.
  induction ps as [|p ps IH]; [done|]. intros _ [Hp Hps]%Forall_cons.
  destruct ps as [|q ps].
  - by apply split_on_no_char.
  - change (join "," (p :: q :: ps)) with (p +:+ String ","%char (join "," (q :: ps))).
    rewrite split_on_app by done. f_equal. by apply IH.
Qed.

Lemma has_char_app c a b : has_char c (a +:+ b) = has_char c a || has_char c b.
Proof. induction a; simpl; [done|]. by rewrite IHa, orb_assoc. Qed.

Lemma cut_at_app c k v : is_Some (cut_at c (k +:+ String c "" +:+ v)).
Proof.
  induction k as [|a k IH]; simpl.
  - by rewrite bool_decide_true.
  - case_bool_decide; [done|]. destruct IH as [[x y] ->]. done.
Qed.

Lemma mapM_total {A B} (f : A → option B) l :
  (∀ x, x ∈ l → is_Some (f x)) → is_Some (mapM f l).
Proof. intros H. by apply mapM_is_Some_2, Forall_forall. Qed.

Definition comma_free (p : string * string) : Prop :=
  has_char ","%char p.1 = false ∧ has_char ","%char p.2 = false.

Lemma render_labels_total {MI : MapIter} (m : gmap string string) :
  m ≠ ∅ → (∀ k v, m !! k = Some v → comma_free (k, v)) →
  is_Some (render_labels (labelsKey m)).
Proof.
  intros Hm Hc. unfold render_labels, labelsKey.
  set (ps := map _ _).
  assert (∀ p, p ∈ ps → ∃ k v, p = k +:+ "=" +:+ v ∧ m !! k = Some v) as Hps.
  { intros p [[k v] [-> Hin]]%list_elem_of_fmap. exists k, v. split; [done|].
    by rewrite elem_of_SliceStable, elem_of_iter_map in Hin. }
  rewrite split_join.
  - assert (is_Some (mapM (λ kv, '(k, v) ← cut_at "="%char kv;
              Some (k +:+ "=" +:+ quote +:+ v +:+ quote)) ps)) as [x ->]; [|done].
    apply mapM_total. intros p (k & v & -> & _)%Hps.
    destruct (cut_at_app "="%char k v) as [[x y] Hxy]. cbv beta.
    by rewrite Hxy.
  - intros E. apply Hm. apply map_to_list_empty_iff.
    apply Permutation_nil_r. rewrite <-iter_map_perm.
    apply (f_equal length) in E. unfold ps in E.
    rewrite length_map, length_SliceStable in E.
    apply length_zero_iff_nil in E. by rewrite E.
  - apply Forall_forall. intros p (k & v & -> & Hkv)%Hps.
    destruct (Hc k v Hkv) as [H1 H2]. rewrite !has_char_app. simpl in *.
    by rewrite H1, H2.
Qed.

Lemma render_family_total {V} (line : string → string → V → option string) (m : gmap (string * string) V) :
  (∀ n ls v, m !! (n, ls) = Some v → is_Some (line n ls v)) →
  is_Some (render_family line m).
Proof.
  intros H. unfold render_family.
  destruct (mapM_total (λ kv : string * string * V, line kv.1.1 kv.1.2 kv.2)
    (SliceStable (λ a b, pair_less a.1 b.1) (map_to_list m))) as [x ->]; [|done].
  intros [[n ls] v]. rewrite elem_of_SliceStable, elem_of_map_to_list. apply H.
Qed.

(** The label strings a registry may hold: the empty one, or those whose
    rendering succeeds. *)
Definition renderable (key : string * string) : Prop :=
  key.2 = "" ∨ is_Some (render_labels key.2).

Definition registry_ok (r : Registry) : Prop :=
  (∀ k v, counters r !! k = Some v → renderable k) ∧
  (∀ k v, summaries r !! k = Some v → renderable k) ∧
  (∀ k v, gauges r !! k = Some v → renderable k).

Lemma render_line_total n sfx ls v : renderable (n, ls) → is_Some (render_line n sfx ls v).
Proof.
  unfold render_line. case_bool_decide; [done|]. intros [?|[x Hx]]; [done|].
  simpl in Hx. by rewrite Hx.
Qed.

(** One ill-formed label string is enough to lose the whole family. *)
Lemma render_family_Some {V} (line : string → string → V → option string) (m : gmap (string * string) V) out :
  render_family line m = Some out → ∀ n ls v, m !! (n, ls) = Some v → is_Some (line n ls v).
Proof.
  unfold render_family. intros H n ls v Hm. apply bind_Some in H as (lines & H & _).
  apply mapM_Some in H. assert (((n, ls), v) ∈ SliceStable (λ a b : string * string * V, pair_less a.1 b.1) (map_to_list m)) as Hin.
  { by rewrite elem_of_SliceStable, elem_of_map_to_list. }
  apply list_elem_of_lookup in Hin as [i Hi]. destruct (Forall2_lookup_l _ _ _ _ _ H Hi) as (y & _ & Hy). by exists y.
Qed.

Lemma dump_parts_total r : registry_ok r → is_Some (dump_counters r) ∧ is_Some (dump_gauges r) ∧ is_Some (dump_summaries r).
Proof.
  intros (Hc & Hs & Hg). split_and!; apply render_family_total; intros n ls v Hv.
  1, 2: eauto using render_line_total.
  destruct (render_line_total n "_sum" ls (pretty v.1)) as [a ->]; [eauto|].
  by destruct (render_line_total n "_count" ls (pretty v.2)) as [b ->]; [eauto|].
Qed.

Lemma DumpProm_total r : registry_ok r → is_Some (DumpProm r).
Proof. intros ([? Hc] & [? Hg] & [? Hs])%dump_parts_total. unfold DumpProm. by rewrite Hc, Hg, Hs. Qed.

Definition event_labels (e : MEvent) : list (string * string) :=
  match e with
  | Inc _ ls | Observe _ ls _ | AddGauge _ ls _ | SetGauge _ ls _ => ls
  end.

Lemma labelsKey_renderable {MI : MapIter} n ls :
  Forall comma_free ls → renderable (n, labelsKey (labels ls)).
Proof.
  intros H. destruct (decide (labels ls = ∅)) as [->|Hne].
  - left. unfold labelsKey. simpl.
    assert (iter_map (∅ : gmap string string) = []) as ->; [|done].
    apply Permutation_nil_r. by rewrite iter_map_perm, map_to_list_empty.
  - right. apply render_labels_total; [done|]. intros k v Hkv.
    rewrite Forall_forall in H. apply H. by apply elem_of_list_to_map_2.
Qed.

Lemma insert_renderable {V} (m : gmap (string * string) V) k v :
  renderable k → (∀ k v, m !! k = Some v → renderable k) →
  ∀ k' v', <[k := v]> m !! k' = Some v' → renderable k'.
Proof. intros Hk Hm k' v' [[<- ?]|[? ?]]%lookup_insert_Some; eauto. Qed.

Lemma apply_event_ok {MI : MapIter} r e :
  registry_ok r → Forall comma_free (event_labels e) → registry_ok (apply_event r e).
Proof.
  intros (Hc & Hs & Hg) He.
  assert (∀ n, renderable (n, labelsKey (labels (event_labels e)))) as Hk
    by (intros n; by apply labelsKey_renderable).
  destruct e; simpl in *; [| |split_and!; [assumption|assumption|]..]; simpl.
  - split_and!; [|assumption|assumption]. by apply insert_renderable.
  - unfold observe. destruct v; try done. destruct (default (0%N, 0%N) _).
    split_and!; [assumption| |assumption]. by apply insert_renderable.
  - by apply insert_renderable.
  - by apply insert_renderable.
Qed.

(** The exposition never panics as long as no label key or value holds a
    comma: whatever events were emitted since start-up, DumpProm returns. *)
Theorem DumpProm_no_panic {MI : MapIter} (es : list MEvent) :
  Forall (λ e, Forall comma_free (event_labels e)) es →
  is_Some (DumpProm (apply_events empty_registry es)).
Proof.
  intros H. apply DumpProm_total.
  assert (registry_ok empty_registry) as H0 by done.
  revert H0. generalize empty_registry. induction H as [|e es He Hes IH]; [done|].
  intros r Hr. simpl. apply IH. by apply apply_event_ok.
Qed.

Definition sample_events : list MEvent :=
  [Inc "qbft_msg_total" [("type", "prepare")]; Inc "qbft_view_changes_total" [];
   Observe "consensus_proc_ms" [("kind", "duty")] (Fin 3);
   AddGauge "mempool_size" [] 1; Inc "api_requests_total" [("route", "proxy"); ("code", "502")]].

Lemma DumpProm_no_panic_witness :
  Forall (λ e, Forall comma_free (event_labels e)) sample_events ∧
  is_Some (DumpProm (apply_events (MI := iter_forward) empty_registry sample_events)).
Proof.
  assert (Forall (λ e, Forall comma_free (event_labels e)) sample_events) as H.
  { repeat constructor. }
  split; [exact H|]. exact (DumpProm_no_panic (MI := iter_forward) _ H).
Defined.

(** A label value with a comma makes the exposition panic: the part after the
    comma has no equals sign and [p[1]] is out of range. *)
Example DumpProm_panics_on_comma :
  DumpProm (apply_events (MI := iter_forward) empty_registry
    [Inc "qbft_msg_total" [("type", "a,b")]]) = None.
Proof. vm_compute. reflexivity. Qed.
