(* ===== verification/QbftMessage.v ===== *)
(** QBFT messages (src/internal/consensus/qbft/message.go), their wire form
    (src/internal/p2p/wire/message.go) and the round trip between the two. *)
From S2P Require Import Prelude.

(** [type Type string]: any string can be carried, five are meaningful. *)
Definition MsgType : Type := string.
Definition MsgPreprepare : MsgType := "preprepare".
Definition MsgPrepare : MsgType := "prepare".
Definition MsgCommit : MsgType := "commit".
Definition MsgViewChange : MsgType := "view_change".
Definition MsgNewView : MsgType := "new_view".

Record Message := mkMessage {
  From : string;
  Height : N;
  Round : N;
  Type_ : MsgType;
  Payload : bytes;
  ID : string;
  TraceID : string;
  Sig : bytes;
}.

(** The zero value [Message{}]. *)
Definition zero_message : Message := mkMessage "" 0 0 "" [] "" "" [].

#[export] Instance Message_eq_dec : EqDecision Message.
Proof. solve_decision. Defined.

(** A prepare or commit vote, the only messages the write-ahead log keeps. *)
Definition is_vote (m : Message) : bool :=
  ⌜? Type_ m = MsgPrepare ⌝ || ⌜? Type_ m = MsgCommit ⌝.

(** *** Wire form *)
Module Wire.
Record QBFT := mkQBFT {
  w_ID : string;
  w_From : string;
  w_Height : N;
  w_Round : N;
  w_Type : string;
  w_Payload : bytes;
  w_TraceID : string;
  w_Sig : bytes;
}.

Definition FromInternal (msg : Message) : QBFT :=
  {| w_ID := ID msg; w_From := From msg; w_Height := Height msg; w_Round := Round msg;
     w_Type := Type_ msg; w_Payload := Payload msg; w_TraceID := TraceID msg;
     w_Sig := Sig msg |}.

Definition ToInternal (w : QBFT) : Message :=
  {| ID := w_ID w; From := w_From w; Height := w_Height w; Round := w_Round w;
     Type_ := w_Type w; Payload := w_Payload w; TraceID := w_TraceID w;
     Sig := w_Sig w |}.

Lemma ToInternal_FromInternal m : ToInternal (FromInternal m) = m.
Proof. by destruct m. Qed.
End Wire.
