(* ===== verification/QbftVerifier.v ===== *)
(** The QBFT message verifier (src/internal/consensus/qbft/verifier.go): the
    anti-replay tables, the policy, and [BasicVerifier.Verify] with every
    guard in the order of the code.

    Nil maps of the source are the empty map: they are only read through
    lookups, and the setters allocate before they write. *)
From S2P Require Import Prelude Metrics QbftMessage.

Record Policy := mkPolicy {
  MinHeight : N;
  RoundWindow : N;
  ReplayWindow : N;
  TypeMinHeight : gmap string N;
  TypeRoundMax : gmap string N;
  Allowed : list string;
}.

Definition DefaultPolicy : Policy := mkPolicy 0 0 0 ∅ ∅ [].

(** ** Anti-replay *)

Record AntiReplay := mkAntiReplay {
  seen : gset string;
  hSeen : gmap string N;
}.

Definition NewAntiReplay : AntiReplay := mkAntiReplay ∅ ∅.

Definition Seen (r : AntiReplay) (id : string) : AntiReplay * bool :=
  RETURN (r, false) IF ⌜? id = "" ⌝;;
  RETURN (r, true) IF ⌜? id ∈ seen r ⌝;;
  (mkAntiReplay ({[id]} ∪ seen r) (hSeen r), false).

Definition SeenWithin (r : AntiReplay) (id : string) (h window : N) : AntiReplay * bool :=
  RETURN (r, false) IF ⌜? id = "" ⌝ || (window =? 0)%N;;
  RETURN (r, true) IF match hSeen r !! id with
                      | Some last => (last <=? h)%N && (h - last <=? window)%N
                      | None => false
                      end;;
  (mkAntiReplay (seen r) (<[id := h]> (hSeen r)), false).

(** ** The verifier *)

Record BasicVerifier := mkBasicVerifier {
  replay : option AntiReplay;
  minHeight : N;
  roundWindow : N;
  allowed : gset string;
  replayWindow : N;
  typeMinHeight : gmap string N;
  typeRoundMax : gmap string N;
}.

Definition NewBasicVerifier : BasicVerifier :=
  mkBasicVerifier (Some NewAntiReplay) 0 0 ∅ 0 ∅ ∅.

Definition SetMinHeight (v : BasicVerifier) (h : N) : BasicVerifier :=
  mkBasicVerifier (replay v) h (roundWindow v) (allowed v) (replayWindow v)
    (typeMinHeight v) (typeRoundMax v).
Definition SetRoundWindow (v : BasicVerifier) (w : N) : BasicVerifier :=
  mkBasicVerifier (replay v) (minHeight v) w (allowed v) (replayWindow v)
    (typeMinHeight v) (typeRoundMax v).
Definition SetAllowed (v : BasicVerifier) (ids : list string) : BasicVerifier :=
  mkBasicVerifier (replay v) (minHeight v) (roundWindow v)
    (list_to_set ids ∪ allowed v) (replayWindow v) (typeMinHeight v) (typeRoundMax v).
Definition SetReplayWindow (v : BasicVerifier) (w : N) : BasicVerifier :=
  mkBasicVerifier (replay v) (minHeight v) (roundWindow v) (allowed v) w
    (typeMinHeight v) (typeRoundMax v).
Definition SetTypeMinHeight (v : BasicVerifier) (t : MsgType) (h : N) : BasicVerifier :=
  mkBasicVerifier (replay v) (minHeight v) (roundWindow v) (allowed v) (replayWindow v)
    (<[t := h]> (typeMinHeight v)) (typeRoundMax v).
Definition SetTypeRoundMax (v : BasicVerifier) (t : MsgType) (m : N) : BasicVerifier :=
  mkBasicVerifier (replay v) (minHeight v) (roundWindow v) (allowed v) (replayWindow v)
    (typeMinHeight v) (<[t := m]> (typeRoundMax v)).

Definition NewBasicVerifierWithPolicy (p : Policy) : BasicVerifier :=
  let v := NewBasicVerifier in
  let v := if (0 <? MinHeight p)%N then SetMinHeight v (MinHeight p) else v in
  let v := if (0 <? RoundWindow p)%N then SetRoundWindow v (RoundWindow p) else v in
  let v := if (0 <? ReplayWindow p)%N then SetReplayWindow v (ReplayWindow p) else v in
  let v := mkBasicVerifier (replay v) (minHeight v) (roundWindow v) (allowed v)
             (replayWindow v)
             (if ⌜? TypeMinHeight p = ∅ ⌝ then typeMinHeight v else TypeMinHeight p)
             (if ⌜? TypeRoundMax p = ∅ ⌝ then typeRoundMax v else TypeRoundMax p) in
  if ⌜? Allowed p = [] ⌝ then v else SetAllowed v (Allowed p).

Definition validType (t : MsgType) : bool :=
  ⌜? t ∈ [MsgPreprepare; MsgPrepare; MsgCommit; MsgViewChange; MsgNewView] ⌝.

(** The anti-replay step of [Verify]: height-windowed when a window is
    configured, id-level otherwise. *)
Definition check_replay (v : BasicVerifier) (msg : Message) : BasicVerifier * bool :=
  match replay v with
  | None => (v, false)
  | Some r =>
      let '(r', dup) :=
        if (0 <? replayWindow v)%N then SeenWithin r (ID msg) (Height msg) (replayWindow v)
        else Seen r (ID msg) in
      (mkBasicVerifier (Some r') (minHeight v) (roundWindow v) (allowed v)
         (replayWindow v) (typeMinHeight v) (typeRoundMax v), dup)
  end.

Definition verified (labels : list (string * string)) : list MEvent :=
  [Inc "qbft_msg_verified_total" labels].

(** [Verify] returns the new verifier, the error, and the metrics it emits. *)
Definition Verify (v : BasicVerifier) (msg : Message)
    : BasicVerifier * goerr * list MEvent :=
  let reject v result err := (v, Some err, verified [("result", result)]) in
  (* structural checks *)
  RETURN reject v "error" "invalid message"
    IF ⌜? ID msg = "" ⌝ || ⌜? From msg = "" ⌝ || negb (validType (Type_ msg));;
  (* optional sender whitelist *)
  RETURN reject v "unauthorized" "unauthorized"
    IF negb ⌜? allowed v = ∅ ⌝ && negb ⌜? From msg ∈ allowed v ⌝;;
  (* signature shape *)
  RETURN reject v "sig_invalid" "sig invalid"
    IF (0 <? length (Sig msg))%nat && (length (Sig msg) <? 32)%nat;;
  RETURN reject v "error" "invalid round for preprepare"
    IF ⌜? Type_ msg = MsgPreprepare ⌝ && negb (Round msg =? 0)%N;;
  (* height and round windows *)
  RETURN reject v "old" "old height"
    IF (0 <? minHeight v)%N && (Height msg <? minHeight v)%N;;
  RETURN reject v "round_oob" "round out of bound"
    IF (0 <? roundWindow v)%N && (roundWindow v <? Round msg)%N;;
  (* anti-replay *)
  let '(v, dup) := check_replay v msg in
  RETURN reject v "replay" "replay" IF dup;;
  RETURN reject v "error" "invalid round for preprepare"
    IF ⌜? Type_ msg = MsgPreprepare ⌝ && negb (Round msg =? 0)%N;;
  RETURN reject v "error" ("invalid round for " +:+ Type_ msg)
    IF is_vote msg && (Round msg <? 1)%N;;
  (* type-scoped windows *)
  RETURN reject v "old" "type-scoped old height"
    IF match typeMinHeight v !! Type_ msg with
       | Some min => (0 <? min)%N && (Height msg <? min)%N
       | None => false
       end;;
  RETURN reject v "round_oob" "type-scoped round out of bound"
    IF match typeRoundMax v !! Type_ msg with
       | Some max => (0 <? max)%N && (max <? Round msg)%N
       | None => false
       end;;
  (v, nil_err, verified [("type", Type_ msg)]).

(** ** What acceptance means *)

Definition replayed (v : BasicVerifier) (msg : Message) : Prop :=
  match replay v with
  | None => False
  | Some r =>
      if (0 <? replayWindow v)%N then
        ∃ last, hSeen r !! ID msg = Some last ∧
                (last <= Height msg)%N ∧ (Height msg - last <= replayWindow v)%N
      else ID msg ∈ seen r
  end.

Record acceptable (v : BasicVerifier) (msg : Message) : Prop := {
  acc_id : ID msg ≠ "";
  acc_from : From msg ≠ "";
  acc_type : Type_ msg ∈ [MsgPreprepare; MsgPrepare; MsgCommit; MsgViewChange; MsgNewView];
  acc_sender : allowed v = ∅ ∨ From msg ∈ allowed v;
  acc_sig : length (Sig msg) = 0 ∨ 32 ≤ length (Sig msg);
  acc_propose_round : Type_ msg = MsgPreprepare → Round msg = 0%N;
  acc_vote_round : is_vote msg = true → (1 <= Round msg)%N;
  acc_height : (minHeight v <= Height msg)%N;
  acc_round : roundWindow v = 0%N ∨ (Round msg <= roundWindow v)%N;
  acc_type_height h : typeMinHeight v !! Type_ msg = Some h → (h <= Height msg)%N;
  acc_type_round m : typeRoundMax v !! Type_ msg = Some m → m = 0%N ∨ (Round msg <= m)%N;
  acc_fresh : ¬ replayed v msg;
}.

(** ** Lemmas *)

Lemma check_replay_dup v msg : ID msg ≠ "" → (check_replay v msg).2 = true ↔ replayed v msg.
Proof.
  intros Hid. unfold check_replay, replayed. destruct (replay v) as [r|]; [|done].
  destruct (0 <? replayWindow v)%N eqn:Hw.
  - unfold SeenWithin. rewrite bool_decide_false by done. simpl.
    destruct (replayWindow v =? 0)%N eqn:E; guards; [lia|].
    destruct (hSeen r !! ID msg) as [last|]; simpl.
    + destruct (_ && _) eqn:E2; simpl.
      * guards. split; eauto.
      * split; [done|]. intros (l & [= <-] & ? & ?). guards. destruct E2; guards; lia.
    + split; [done|]. by intros (? & ? & _).
  - unfold Seen. rewrite bool_decide_false by done.
    case_bool_decide; simpl; done.
Qed.

Ltac verify_cases := unfold Verify; split_handler; guards.

Lemma Verify_accepted v msg v' ev :
  Verify v msg = (v', None, ev) →
  v' = (check_replay v msg).1 ∧ ev = verified [("type", Type_ msg)].
Proof. unfold Verify. intros H. split_handler; done. Qed.

(** The verifier after a call: untouched, or with the replay table updated. *)
Lemma Verify_state v msg :
  (Verify v msg).1.1 = v ∨ (Verify v msg).1.1 = (check_replay v msg).1.
Proof. unfold Verify. split_handler; auto. Qed.

Definition same_config (v v' : BasicVerifier) : Prop :=
  minHeight v' = minHeight v ∧ roundWindow v' = roundWindow v ∧ allowed v' = allowed v ∧
  replayWindow v' = replayWindow v ∧ typeMinHeight v' = typeMinHeight v ∧
  typeRoundMax v' = typeRoundMax v.

Lemma check_replay_config v msg : same_config v (check_replay v msg).1.
Proof. unfold check_replay. destruct (replay v); [|done]. by split_handler. Qed.

(** The guards before the anti-replay step, and those after it. *)
Definition pre_ok (v : BasicVerifier) (msg : Message) : Prop :=
  ID msg ≠ "" ∧ From msg ≠ "" ∧ validType (Type_ msg) = true ∧
  (allowed v = ∅ ∨ From msg ∈ allowed v) ∧
  (length (Sig msg) = 0 ∨ 32 ≤ length (Sig msg)) ∧
  (Type_ msg = MsgPreprepare → Round msg = 0%N) ∧
  (minHeight v <= Height msg)%N ∧
  (roundWindow v = 0%N ∨ (Round msg <= roundWindow v)%N).

Definition post_ok (v : BasicVerifier) (msg : Message) : Prop :=
  (is_vote msg = true → (1 <= Round msg)%N) ∧
  (∀ h, typeMinHeight v !! Type_ msg = Some h → (h <= Height msg)%N) ∧
  (∀ m, typeRoundMax v !! Type_ msg = Some m → m = 0%N ∨ (Round msg <= m)%N).

Lemma acceptable_split v msg : acceptable v msg ↔ pre_ok v msg ∧ ¬ replayed v msg ∧ post_ok v msg.
Proof.
  unfold pre_ok, post_ok, validType. rewrite bool_decide_eq_true. split.
  - intros []. tauto.
  - intros ((?&?&?&?&?&?&?&?)&?&?&?&?). by split.
Qed.

(** [Verify] as a three-way case: rejected before the replay table is
    touched, rejected after, or accepted. *)
Lemma Verify_rejects_early v msg :
  ¬ pre_ok v msg → (Verify v msg).1.1 = v ∧ (Verify v msg).1.2 ≠ None.
Proof.
  intros Hpre. unfold Verify.
  repeat match goal with
  | |- context [if ?b then (?v', Some _, _) else _] => destruct b eqn:?; [done|]
  end.
  exfalso. apply Hpre. guards. unfold pre_ok.
  repeat split; guards; try done.
  all: try (intros; guards); try tauto; try lia.
  all: repeat match goal with H : _ ∨ _ |- _ => destruct H end; guards;
    try (right; lia); try (left; lia); try lia; try tauto; naive_solver.
Qed.

Lemma Verify_past_replay v msg :
  pre_ok v msg →
  (Verify v msg).1.1 = (check_replay v msg).1 ∧
  ((Verify v msg).1.2 = None ↔ ¬ replayed v msg ∧ post_ok v msg).
Proof.
  intros Hpre. pose proof (check_replay_dup v msg (proj1 Hpre)) as Hdup.
  destruct (check_replay_config v msg) as (_ & _ & _ & _ & Hth & Htr).
  destruct Hpre as (Hid & Hfrom & Hty & Hs & Hsig & Hpr & Hh & Hrw). unfold Verify.
  destruct (check_replay v msg) as [v' dup]. simpl in Hdup, Hth, Htr |- *.
  rewrite (bool_decide_false (ID msg = "")), (bool_decide_false (From msg = "")), Hty by done.
  simpl.
  assert (negb ⌜? allowed v = ∅ ⌝ && negb ⌜? From msg ∈ allowed v ⌝ = false) as ->.
  { destruct Hs; [by rewrite bool_decide_true|]. rewrite (bool_decide_true (_ ∈ _)) by done.
    apply andb_false_r. }
  assert ((0 <? length (Sig msg))%nat && (length (Sig msg) <? 32)%nat = false) as ->.
  { apply andb_false_iff. rewrite !Nat.ltb_ge. lia. }
  assert (⌜? Type_ msg = MsgPreprepare ⌝ && negb (Round msg =? 0)%N = false) as ->.
  { case_bool_decide as E; [|done]. by rewrite Hpr. }
  assert ((0 <? minHeight v)%N && (Height msg <? minHeight v)%N = false) as ->.
  { apply andb_false_iff. rewrite !N.ltb_ge. lia. }
  assert ((0 <? roundWindow v)%N && (roundWindow v <? Round msg)%N = false) as ->.
  { apply andb_false_iff. rewrite !N.ltb_ge. lia. }
  rewrite Hth, Htr. unfold post_ok. destruct dup; simpl.
  { split; [done|]. split; [done|]. intros [[] _]. by apply Hdup. }
  assert (¬ replayed v msg) as Hnr by (intros ?%Hdup; done).
  split; [by split_ifs|].
  destruct (is_vote msg && _) eqn:Hv; guards; simpl.
  { split; [done|]. intros (_ & Hr & _). specialize (Hr ltac:(done)). lia. }
  assert (is_vote msg = true → (1 <= Round msg)%N) as Hvr.
  { intros E. rewrite E in Hv. destruct Hv; [done|]. by guards. }
  destruct (match typeMinHeight v !! Type_ msg with Some _ => _ | None => _ end) eqn:Eh; simpl.
  { split; [done|]. intros (_ & _ & Hth' & _). case_match; [|done]. guards.
    specialize (Hth' _ eq_refl). lia. }
  destruct (match typeRoundMax v !! Type_ msg with Some _ => _ | None => _ end) eqn:Er; simpl.
  { split; [done|]. intros (_ & _ & _ & Hm). case_match; [|done]. guards.
    specialize (Hm _ eq_refl). lia. }
  split; [intros _|done]. split_and!; try done.
  - intros h E. rewrite E in Eh. guards. destruct Eh; guards; lia.
  - intros m E. rewrite E in Er. guards. destruct Er; guards; lia.
Qed.

(** C2. [Verify] accepts exactly the acceptable messages: well formed, from a
    whitelisted sender, inside the height and round windows (global and per
    type), with the round its type demands, and not a replay. *)
Theorem Verify_accepts_iff (v : BasicVerifier) (msg : Message) :
  (Verify v msg).1.2 = nil_err ↔ acceptable v msg.
Proof.
  rewrite acceptable_split.
  assert (Decision (pre_ok v msg)) as [Hp|Hp].
  { unfold pre_ok. apply _. }
  - destruct (Verify_past_replay v msg Hp) as [_ ->]. tauto.
  - destruct (Verify_rejects_early v msg Hp). tauto.
Qed.

(** ** Runs of the verifier *)

Fixpoint accepted (v : BasicVerifier) (msgs : list Message) : list Message :=
  match msgs with
  | [] => []
  | m :: ms =>
      let '(v', err, _) := Verify v m in
      match err with
      | None => m :: accepted v' ms
      | Some _ => accepted v' ms
      end
  end.

Fixpoint after (v : BasicVerifier) (msgs : list Message) : BasicVerifier :=
  match msgs with
  | [] => v
  | m :: ms => after (Verify v m).1.1 ms
  end.

Lemma accepted_cons v m ms :
  accepted v (m :: ms) =
    (if decide ((Verify v m).1.2 = None) then [m] else []) ++ accepted (Verify v m).1.1 ms.
Proof. simpl. destruct (Verify v m) as [[v' [e|]] ev]; simpl; try case_decide; done. Qed.

(** The ids an id-level verifier refuses. *)
Definition seen_ids (v : BasicVerifier) : gset string :=
  match replay v with Some r => seen r | None => ∅ end.

(** A verifier with id-level anti-replay, such as the default one. *)
Definition id_mode (v : BasicVerifier) : Prop := replayWindow v = 0%N ∧ is_Some (replay v).

Lemma id_mode_check v msg :
  id_mode v → ID msg ≠ "" →
  id_mode (check_replay v msg).1 ∧
  seen_ids (check_replay v msg).1 = {[ID msg]} ∪ seen_ids v.
Proof.
  intros [Hw [r Hr]] Hid. unfold id_mode, seen_ids, check_replay, Seen.
  rewrite Hr, Hw. rewrite (bool_decide_false (ID msg = "")) by done. simpl.
  case_bool_decide; simpl; (split; [done|]); set_solver.
Qed.

Lemma id_mode_Verify v msg :
  id_mode v →
  id_mode (Verify v msg).1.1 ∧ seen_ids v ⊆ seen_ids (Verify v msg).1.1 ∧
  ((Verify v msg).1.2 = None → ID msg ∉ seen_ids v ∧ ID msg ∈ seen_ids (Verify v msg).1.1).
Proof.
  intros Hm. destruct (decide (pre_ok v msg)) as [Hp|Hp].
  - destruct (Verify_past_replay v msg Hp) as [-> ->].
    destruct (id_mode_check v msg Hm (proj1 Hp)) as [? Hs]. rewrite Hs.
    split_and!; [done|set_solver|]. intros [Hnr _]. split; [|set_solver].
    unfold replayed in Hnr. destruct Hm as [Hw [r Hr]].
    unfold seen_ids. rewrite Hr, Hw in *. done.
  - destruct (Verify_rejects_early v msg Hp) as [-> ?]. split_and!; [done..|]. done.
Qed.

Lemma accepted_not_seen v msgs m : id_mode v → m ∈ accepted v msgs → ID m ∉ seen_ids v.
Proof.
  revert v. induction msgs as [|m' ms IH]; intros v Hv; [set_solver|].
  destruct (id_mode_Verify v m' Hv) as (Hv' & Hsub & Hacc).
  rewrite accepted_cons, elem_of_app. intros [Hin|Hin].
  - case_decide; [|set_solver]. apply list_elem_of_singleton in Hin as ->. naive_solver.
  - apply IH in Hin; [|done]. set_solver.
Qed.

(** At-most-once acceptance: a verifier in id mode (the default policy)
    never accepts two messages with the same id, whatever it is fed. *)
Theorem accepted_ids_unique (v : BasicVerifier) (msgs : list Message) :
  id_mode v → NoDup (ID <$> accepted v msgs).
Proof.
  revert v. induction msgs as [|m ms IH]; intros v Hv; [constructor|].
  destruct (id_mode_Verify v m Hv) as (Hv' & _ & Hacc).
  rewrite accepted_cons. case_decide as E; simpl; [|by apply IH].
  constructor; [|by apply IH]. intros (m' & Heq & Hin)%list_elem_of_fmap.
  apply accepted_not_seen in Hin; [|done]. rewrite <-Heq in Hin.
  by destruct (Hacc E).
Qed.

Lemma seen_ids_grow v msgs : id_mode v → id_mode (after v msgs) ∧ seen_ids v ⊆ seen_ids (after v msgs).
Proof.
  revert v. induction msgs as [|m ms IH]; intros v Hv; simpl; [done|].
  destruct (id_mode_Verify v m Hv) as (Hv' & Hsub & _). destruct (IH _ Hv'). set_solver.
Qed.

(** *** A rejected message burns its id *)

(** A well-placed vote whose round is the only thing wrong with it. *)
Definition vote_at (m : Message) (round : N) : Message :=
  mkMessage (From m) (Height m) round (Type_ m) (Payload m) (ID m) (TraceID m) (Sig m).

(** The replay table is written before the last checks: a vote with round
    0 is rejected, yet from then on every message with its id is refused, the
    corrected vote included. *)
Theorem rejected_vote_burns_id (v : BasicVerifier) (m : Message) (rest : list Message) :
  id_mode v → pre_ok v m → is_vote m = true → Round m = 0%N →
  (Verify v m).1.2 ≠ nil_err ∧
  ∀ m', m' ∈ accepted (Verify v m).1.1 rest → ID m' ≠ ID m.
Proof.
  intros Hv Hp Hvote Hr. destruct (Verify_past_replay v m Hp) as [Hst Hiff].
  destruct (id_mode_check v m Hv (proj1 Hp)) as [Hv' Hs]. split.
  - intros E. apply Hiff in E as [_ [Hr' _]]. specialize (Hr' Hvote). lia.
  - rewrite Hst. intros m' Hin Heq. apply accepted_not_seen in Hin; [|done].
    rewrite Hs, Heq in Hin. set_solver.
Qed.

Definition sample_vote (round : N) : Message :=
  mkMessage "node-1" 7 round MsgPrepare [] "proposal-7" "" [].

Lemma rejected_vote_burns_id_witness :
  (Verify NewBasicVerifier (sample_vote 0)).1.2 ≠ nil_err ∧
  ∀ m', m' ∈ accepted (Verify NewBasicVerifier (sample_vote 0)).1.1 [sample_vote 1] →
        ID m' ≠ "proposal-7".
Proof.
  apply (rejected_vote_burns_id NewBasicVerifier (sample_vote 0) [sample_vote 1]).
  - split; [reflexivity|]. by exists NewAntiReplay.
  - repeat split; try done; by left.
  - reflexivity.
  - reflexivity.
Defined.

Lemma accepted_ids_unique_witness :
  id_mode (NewBasicVerifierWithPolicy DefaultPolicy) ∧
  NoDup (ID <$> accepted (NewBasicVerifierWithPolicy DefaultPolicy)
                  [sample_vote 1; sample_vote 1; sample_vote 2]).
Proof.
  assert (id_mode (NewBasicVerifierWithPolicy DefaultPolicy)) as H.
  { split; [reflexivity|]. by exists NewAntiReplay. }
  split; [exact H|]. apply (accepted_ids_unique _ _ H).
Defined.

(** *** Height-windowed anti-replay *)

Definition window_mode (v : BasicVerifier) (w : N) : Prop :=
  replayWindow v = w ∧ (0 < w)%N ∧ is_Some (replay v).

Definition last_height (v : BasicVerifier) (id : string) : option N :=
  r ← replay v; hSeen r !! id.

Lemma window_check v w msg :
  window_mode v w → ID msg ≠ "" →
  window_mode (check_replay v msg).1 w ∧
  (∀ id, id ≠ ID msg → last_height (check_replay v msg).1 id = last_height v id) ∧
  (if (check_replay v msg).2
   then last_height (check_replay v msg).1 (ID msg) = last_height v (ID msg)
   else last_height (check_replay v msg).1 (ID msg) = Some (Height msg)).
Proof.
  intros (Hw & Hpos & [r Hr]) Hid. pose proof (check_replay_dup v msg Hid) as Hdup.
  unfold window_mode, last_height, check_replay in *. rewrite Hr, Hw in *.
  assert ((0 <? w)%N = true) as Hw' by (by apply N.ltb_lt). rewrite Hw' in *.
  unfold SeenWithin in *. rewrite (bool_decide_false (ID msg = "")) in * by done.
  assert ((w =? 0)%N = false) as Hw0 by (apply N.eqb_neq; lia). rewrite Hw0 in *. simpl in *.
  destruct (match hSeen r !! ID msg with Some _ => _ | None => _ end); simpl in *.
  - by split_and!.
  - split_and!; try done.
    + intros id Hne. by rewrite lookup_insert_ne.
    + by rewrite lookup_insert_eq.
Qed.

(** One call of the verifier seen from one id: its recorded height stays, or
    moves to the height of a fresh message with that id. *)
Lemma window_step v w m id last :
  window_mode v w → last_height v id = Some last → (last <= Height m)%N →
  window_mode (Verify v m).1.1 w ∧
  ∃ last', last_height (Verify v m).1.1 id = Some last' ∧
    (last <= last')%N ∧ (last' <= Height m)%N ∧
    ((Verify v m).1.2 = None → ID m = id → (last + w < Height m)%N).
Proof.
  intros Hm Hl Hle. destruct (decide (pre_ok v m)) as [Hp|Hp].
  2: { destruct (Verify_rejects_early v m Hp) as [-> ?]. split; [done|]. by exists last. }
  destruct (Verify_past_replay v m Hp) as [-> Hiff].
  destruct (window_check v w m Hm (proj1 Hp)) as (Hm' & Hne & Hid). split; [done|].
  destruct (decide (ID m = id)) as [<-|Hd].
  - pose proof (check_replay_dup v m (proj1 Hp)) as Hdup.
    destruct (check_replay v m).2 eqn:Ed.
    + exists last. rewrite Hid. split_and!; [done|lia|done|].
      intros [Hnr _]%Hiff. exfalso. by apply Hnr, Hdup.
    + exists (Height m). split_and!; [done|done|done|]. intros [Hnr _]%Hiff _.
      unfold replayed, last_height in *. destruct Hm as (Hw & Hpos & [r Hr]).
      rewrite Hr, Hw in Hnr. rewrite Hr in Hl. simpl in Hl.
      rewrite (proj2 (N.ltb_lt 0 w)) in Hnr by done.
      apply N.nle_gt. intros ?. apply Hnr. exists last. split_and!; [done|done|lia].
  - exists last. rewrite Hne by done. by split_and!.
Qed.

Definition heights_nondecreasing (msgs : list Message) : Prop :=
  StronglySorted (λ m1 m2, (Height m1 <= Height m2)%N) msgs.

Lemma window_later v w msgs id last :
  window_mode v w → last_height v id = Some last →
  heights_nondecreasing msgs → (∀ m, m ∈ msgs → (last <= Height m)%N) →
  ∀ m, m ∈ accepted v msgs → ID m = id → (last + w < Height m)%N.
Proof.
  revert v last. induction msgs as [|m0 ms IH]; intros v last Hm Hl Hs Hle m; [set_solver|].
  destruct (window_step v w m0 id last Hm Hl) as (Hm' & l' & Hl' & H1 & H2 & Hacc).
  { apply Hle. by left. }
  apply StronglySorted_inv in Hs as [Hs Hfirst]. rewrite Forall_forall in Hfirst.
  rewrite accepted_cons, elem_of_app. intros [Hin|Hin] Heq.
  - case_decide; [|set_solver]. apply list_elem_of_singleton in Hin as ->. auto.
  - assert (l' + w < Height m)%N; [|lia]. eapply IH; eauto.
    intros m1 H. specialize (Hfirst m1 H). lia.
Qed.

Lemma window_mode_Verify v w m :
  window_mode v w → window_mode (Verify v m).1.1 w ∧
  ((Verify v m).1.2 = None → last_height (Verify v m).1.1 (ID m) = Some (Height m)).
Proof.
  intros Hm. destruct (decide (pre_ok v m)) as [Hp|Hp].
  2: { destruct (Verify_rejects_early v m Hp) as [-> ?]. done. }
  destruct (Verify_past_replay v m Hp) as [-> Hiff].
  destruct (window_check v w m Hm (proj1 Hp)) as (Hm' & _ & Hid). split; [done|].
  intros [Hnr _]%Hiff. pose proof (check_replay_dup v m (proj1 Hp)) as Hdup.
  destruct (check_replay v m).2; [|done]. exfalso. by apply Hnr, Hdup.
Qed.

(** With a height window of [w] and heights arriving in order, two accepted
    messages with the same id are more than [w] heights apart. *)
Theorem windowed_no_replay (v : BasicVerifier) (w : N) (msgs : list Message) :
  window_mode v w → heights_nondecreasing msgs →
  StronglySorted (λ m1 m2, ID m1 = ID m2 → (Height m1 + w < Height m2)%N) (accepted v msgs).
Proof.
  revert v. induction msgs as [|m ms IH]; intros v Hm Hs; [constructor|].
  apply StronglySorted_inv in Hs as [Hs Hfirst]. rewrite Forall_forall in Hfirst.
  destruct (window_mode_Verify v w m Hm) as [Hm' Hacc].
  rewrite accepted_cons. case_decide as E; simpl; [|by apply IH].
  constructor; [by apply IH|]. apply Forall_forall. intros m' Hin Heq.
  eapply (window_later (Verify v m).1.1 w ms (ID m)); eauto.
Qed.

Definition windowed_verifier : BasicVerifier := SetReplayWindow NewBasicVerifier 5.
Definition vote_height (h : N) : Message :=
  mkMessage "node-1" h 1 MsgPrepare [] "proposal-7" "" [].

Lemma windowed_no_replay_witness :
  window_mode windowed_verifier 5 ∧
  StronglySorted (λ m1 m2, ID m1 = ID m2 → (Height m1 + 5 < Height m2)%N)
    (accepted windowed_verifier [vote_height 10; vote_height 12; vote_height 16]).
Proof.
  assert (window_mode windowed_verifier 5) as H.
  { split; [reflexivity|]. split; [reflexivity|]. by exists NewAntiReplay. }
  split; [exact H|]. apply (windowed_no_replay _ _ _ H).
  unfold heights_nondecreasing, vote_height.
  repeat first [apply SSorted_cons | apply SSorted_nil | apply Forall_cons; split
               | apply Forall_nil]; simpl; try lia; done.
Defined.

(** Without the ordering assumption the window can be reset: a message is
    accepted a second time, at the same height, because a lower height was
    recorded for its id in between. *)
Theorem windowed_replay_reset :
  accepted windowed_verifier [vote_height 10; vote_height 4; vote_height 10]
    = [vote_height 10; vote_height 4; vote_height 10].
Proof. vm_compute. reflexivity. Qed.
