(* ===== verification/QbftState.v ===== *)
(** The QBFT state machine (src/internal/consensus/qbft/state.go):
    [State.Process] branch by branch, [OnTimeout] and [Restore]; its invariant
    and the certificates behind each phase.

    The vote sets are Go maps that may be nil: [None] is nil, and a write to a
    nil map is a run-time panic, [Process] returning [None]. *)
From S2P Require Import Prelude Metrics QbftMessage.

Record State := mkState {
  st_Height : N;
  st_Round : N;
  Phase : string;
  Leader : string;
  proposalID : string;
  prepareVotes : option (gset string);   (* by From *)
  commitVotes : option (gset string);    (* by From *)
  viewVotes : gmap N (gset string);      (* target round -> voters *)
}.

(** [State{}]. *)
Definition zero_state : State := mkState 0 0 "" "" "" None None ∅.

(** [len(m)] and [_, ok := m[k]] of a possibly nil set. *)
Definition votes (m : option (gset string)) : gset string := default ∅ m.

(** [m[k] = struct{}{}]: panics on a nil map. *)
Definition add_vote (m : option (gset string)) (k : string) : option (gset string) :=
  s ← m; Some ({[k]} ∪ s).

Definition set_coords (s : State) (h r : N) : State :=
  mkState h r (Phase s) (Leader s) (proposalID s) (prepareVotes s) (commitVotes s) (viewVotes s).

(** Result of a call: the error and the metrics. *)
Definition Outcome : Type := goerr * list MEvent.

Definition counted (msg : Message) : list MEvent := [Inc "qbft_msg_total" [("type", Type_ msg)]].
Definition transition (msg : Message) : list MEvent :=
  [Inc "qbft_state_transitions_total" [("type", Type_ msg)]].

(** [goto END]: log, count the transition, return nil. *)
Definition finish (msg : Message) (s : State) (extra : list MEvent) : option (State * Outcome) :=
  Some (s, (nil_err, counted msg ++ extra ++ transition msg)).

Definition fail (msg : Message) (s : State) (err : string) : option (State * Outcome) :=
  Some (s, (Some err, counted msg)).

Definition processPreprepare (s : State) (msg : Message) : option (State * Outcome) :=
  RETURN fail msg s "unauthorized leader"
    IF negb ⌜? Leader s = "" ⌝ && negb ⌜? From msg = Leader s ⌝;;
  finish msg (mkState (st_Height s) (st_Round s) "preprepared" (Leader s) (ID msg)
                (Some ∅) (Some ∅) (viewVotes s)) [].

Definition processPrepare (s : State) (msg : Message) : option (State * Outcome) :=
  RETURN fail msg s "prepare before preprepared"
    IF ⌜? proposalID s = "" ⌝ ||
       (negb ⌜? Phase s = "preprepared" ⌝ && negb ⌜? Phase s = "prepared" ⌝);;
  RETURN fail msg s "proposal mismatch" IF negb ⌜? ID msg = proposalID s ⌝;;
  RETURN finish msg s [] IF ⌜? From msg ∈ votes (prepareVotes s) ⌝;;
  pv ← add_vote (prepareVotes s) (From msg);
  let s' := mkState (st_Height s) (st_Round s) (Phase s) (Leader s) (proposalID s)
              (Some pv) (commitVotes s) (viewVotes s) in
  if ⌜? Phase s = "preprepared" ⌝ && (2 <=? size pv)%nat then
    finish msg (mkState (st_Height s) (st_Round s) "prepared" (Leader s) (proposalID s)
                  (Some pv) (commitVotes s) (viewVotes s))
      [Inc "qbft_qc_built_total" [("kind", "prepare")]]
  else finish msg s' [].

Definition processCommit (s : State) (msg : Message) : option (State * Outcome) :=
  RETURN fail msg s "commit before prepared"
    IF negb ⌜? Phase s = "prepared" ⌝ && negb ⌜? Phase s = "commit" ⌝;;
  RETURN fail msg s "proposal mismatch" IF negb ⌜? ID msg = proposalID s ⌝;;
  RETURN finish msg s [] IF ⌜? From msg ∈ votes (commitVotes s) ⌝;;
  cv ← add_vote (commitVotes s) (From msg);
  let with_phase p := mkState (st_Height s) (st_Round s) p (Leader s) (proposalID s)
              (prepareVotes s) (Some cv) (viewVotes s) in
  if negb ⌜? Phase s = "commit" ⌝ && (1 <=? size cv)%nat then
    finish msg (with_phase "commit") [Inc "qbft_qc_built_total" [("kind", "commit")]]
  else finish msg (with_phase (Phase s)) [].

(** The reset shared by view-change and new-view. *)
Definition advance_round (s : State) (r : N) (vv : gmap N (gset string)) : State :=
  mkState (st_Height s) r "" (Leader s) "" None None vv.

Definition processViewChange (s : State) (msg : Message) : option (State * Outcome) :=
  let bucket := default ∅ (viewVotes s !! Round msg) in
  let with_bucket b := mkState (st_Height s) (st_Round s) (Phase s) (Leader s) (proposalID s)
              (prepareVotes s) (commitVotes s) (<[Round msg := b]> (viewVotes s)) in
  RETURN finish msg (with_bucket bucket) [] IF ⌜? From msg ∈ bucket ⌝;;
  let bucket' := {[From msg]} ∪ bucket in
  if (2 <=? size bucket')%nat && (st_Round s <? Round msg)%N then
    finish msg (advance_round s (Round msg) (<[Round msg := bucket']> (viewVotes s)))
      [Inc "qbft_view_changes_total" []]
  else finish msg (with_bucket bucket') [].

Definition processNewView (s : State) (msg : Message) : option (State * Outcome) :=
  if (st_Round s <? Round msg)%N then
    finish msg (advance_round s (Round msg) (viewVotes s)) [Inc "qbft_view_changes_total" []]
  else finish msg s [].

(** [Process]: coordinates first, then the switch on the type. *)
Definition Process (s : State) (msg : Message) : option (State * Outcome) :=
  let s := set_coords s (Height msg)
             (if ⌜? Type_ msg = MsgViewChange ⌝ || ⌜? Type_ msg = MsgNewView ⌝
              then st_Round s else Round msg) in
  if ⌜? Type_ msg = MsgPreprepare ⌝ then processPreprepare s msg
  else if ⌜? Type_ msg = MsgPrepare ⌝ then processPrepare s msg
  else if ⌜? Type_ msg = MsgCommit ⌝ then processCommit s msg
  else if ⌜? Type_ msg = MsgViewChange ⌝ then processViewChange s msg
  else if ⌜? Type_ msg = MsgNewView ⌝ then processNewView s msg
  else finish msg s [].

Definition OnTimeout (s : State) : Message * list MEvent :=
  (mkMessage "self" (st_Height s) (u64_add (st_Round s) 1) MsgViewChange [] "vc" "" [],
   [Inc "qbft_timeouts_total" [("phase", if ⌜? Phase s = "" ⌝ then "idle" else Phase s)]]).

Definition Restore (s : State) (height round : N) : State := set_coords s height round.

(** ** Invariant *)

(** What each phase says about the stored votes. *)
Record state_ok (s : State) : Prop := {
  ok_phase : Phase s ∈ ["" ; "preprepared"; "prepared"; "commit"];
  ok_maps : Phase s ≠ "" → is_Some (prepareVotes s) ∧ is_Some (commitVotes s);
  ok_idle : Phase s = "" → proposalID s = "" ∧ prepareVotes s = None ∧ commitVotes s = None;
  ok_preprepared : Phase s = "preprepared" → size (votes (prepareVotes s)) < 2
                     ∧ votes (commitVotes s) = ∅;
  ok_prepared : Phase s ∈ ["prepared"; "commit"] → 2 ≤ size (votes (prepareVotes s));
  ok_commit : Phase s = "prepared" → votes (commitVotes s) = ∅;
  ok_committed : Phase s = "commit" → 1 ≤ size (votes (commitVotes s));
}.

Lemma zero_state_ok : state_ok zero_state.
Proof. split; simpl; set_solver. Qed.

Lemma set_coords_ok s h r : state_ok s → state_ok (set_coords s h r).
Proof. intros []. by split. Qed.

Lemma state_ok_idle s r vv : state_ok (advance_round s r vv).
Proof. split; simpl; set_solver. Qed.

Definition is_fresh_type (t : MsgType) : bool :=
  ⌜? t = MsgViewChange ⌝ || ⌜? t = MsgNewView ⌝.

(** The five branches, each from an arbitrary well-formed state. *)
Lemma processPreprepare_ok s msg :
  state_ok s → ∃ s' o, processPreprepare s msg = Some (s', o) ∧ state_ok s'.
Proof.
  intros Hs. unfold processPreprepare, finish, fail.
  destruct (negb _ && negb _); eexists _, _; (split; [done|]); [done|].
  split; simpl; try set_solver.
Qed.

Lemma processPrepare_ok s msg :
  state_ok s → ∃ s' o, processPrepare s msg = Some (s', o) ∧ state_ok s'.
Proof.
  intros Hs. unfold processPrepare, finish, fail.
  destruct (_ || (_ && _)) eqn:E1; [by eexists _, _|].
  destruct (negb ⌜? ID msg = proposalID s ⌝) eqn:E2; [by eexists _, _|].
  destruct (bool_decide (From msg ∈ _)) eqn:E3; [by eexists _, _|]. guards.
  assert (Phase s = "preprepared" ∨ Phase s = "prepared") as Hph by (destruct H0; guards; auto).
  destruct (ok_maps s Hs) as [[pv Hpv] [cv Hcv]]; [by destruct Hph as [-> | ->]|].
  rewrite Hpv in *. simpl in *.
  destruct (⌜? Phase s = "preprepared" ⌝ && _) eqn:E4; guards.
  - eexists _, _; split; [done|].
    destruct (ok_preprepared s Hs) as [_ ?]; [done|].
    split; simpl; try set_solver.
  - eexists _, _; split; [done|]. destruct Hs as [Hp Hm Hi Hpp Hpr Hc Hcm].
    rewrite Hpv in *. simpl in *.
    split; simpl; try done.
    + intros Hn. rewrite Hn in Hph. by destruct Hph.
    + intros Hpre. split; [|by apply Hpp].
      destruct E4 as [E4|E4]; guards; [done|lia].
    + intros Hin. rewrite size_union by set_solver. specialize (Hpr Hin). lia.
Qed.

Lemma processCommit_ok s msg :
  state_ok s → ∃ s' o, processCommit s msg = Some (s', o) ∧ state_ok s'.
Proof.
  intros Hs. unfold processCommit, finish, fail.
  destruct (_ && _) eqn:E1; [by eexists _, _|].
  destruct (negb ⌜? ID msg = proposalID s ⌝) eqn:E2; [by eexists _, _|].
  destruct (bool_decide (From msg ∈ _)) eqn:E3; [by eexists _, _|]. guards.
  assert (Phase s = "prepared" ∨ Phase s = "commit") as Hph by (destruct E1; guards; auto).
  destruct (ok_maps s Hs) as [[pv Hpv] [cv Hcv]]; [by destruct Hph as [-> | ->]|].
  rewrite Hcv in *. simpl in *.
  assert (1 ≤ size ({[From msg]} ∪ cv)) as Hsz.
  { rewrite size_union, size_singleton by set_solver. lia. }
  assert (2 ≤ size (votes (prepareVotes s))) as Hpr.
  { apply (ok_prepared s Hs). destruct Hph as [-> | ->]; set_solver. }
  assert ((1 <=? size ({[From msg]} ∪ cv))%nat = true) as -> by (by apply Nat.leb_le).
  rewrite andb_true_r.
  destruct (negb ⌜? Phase s = "commit" ⌝) eqn:E4; guards; eexists _, _; (split; [done|]).
  - split; simpl; try set_solver.
  - split; simpl; rewrite ?E4; try set_solver.
Qed.

Lemma processViewChange_ok s msg :
  state_ok s → ∃ s' o, processViewChange s msg = Some (s', o) ∧ state_ok s'.
Proof.
  intros Hs. unfold processViewChange, finish.
  destruct (bool_decide _); [|destruct (_ && _)]; eexists _, _; (split; [done|]).
  - destruct Hs; by split.
  - apply state_ok_idle.
  - destruct Hs; by split.
Qed.

Lemma processNewView_ok s msg :
  state_ok s → ∃ s' o, processNewView s msg = Some (s', o) ∧ state_ok s'.
Proof.
  intros Hs. unfold processNewView, finish.
  destruct (_ <? _)%N; eexists _, _; (split; [done|]); [apply state_ok_idle|done].
Qed.

Lemma Process_ok s msg : state_ok s → ∃ s' o, Process s msg = Some (s', o) ∧ state_ok s'.
Proof.
  intros Hs. unfold Process.
  set (s1 := set_coords s _ _).
  assert (state_ok s1) as Hs1 by (by apply set_coords_ok). clearbody s1.
  repeat case_bool_decide; simpl in *;
    eauto using processPreprepare_ok, processPrepare_ok, processCommit_ok,
      processViewChange_ok, processNewView_ok.
Qed.

(** ** Runs: [Process] on a list of messages, errors ignored as the service does. *)

Fixpoint exec (s : State) (msgs : list Message) : option State :=
  match msgs with
  | [] => Some s
  | m :: ms => '(s', _) ← Process s m; exec s' ms
  end.

Lemma exec_snoc s msgs m :
  exec s (msgs ++ [m]) = (s' ← exec s msgs; '(s'', _) ← Process s' m; Some s'').
Proof.
  revert s. induction msgs as [|m' ms IH]; intros s; simpl.
  - by destruct (Process s m) as [[??]|].
  - destruct (Process s m') as [[s' o]|]; simpl; [|done]. by rewrite IH.
Qed.

Lemma exec_ok s msgs : state_ok s → ∃ s', exec s msgs = Some s' ∧ state_ok s'.
Proof.
  intros H0. induction msgs as [|m ms IH] using rev_ind; [by exists s|].
  destruct IH as (s1 & Hs & Hok). rewrite exec_snoc, Hs. simpl.
  destruct (Process_ok s1 m Hok) as (s' & o & -> & Hok'). by exists s'.
Qed.

(** C3. The state machine never panics and stays well formed: from the zero
    state, whatever messages arrive, no vote is ever written to a nil map, and
    each phase is backed by its quorum (two prepare voters once prepared, one
    commit voter once committed). *)
Theorem exec_safe (msgs : list Message) :
  ∃ s, exec zero_state msgs = Some s ∧ state_ok s.
Proof. apply exec_ok, zero_state_ok. Qed.

(** ** Certificates *)

(** The messages that justify the stored votes: the accepted proposal, then,
    after it, one prepare (commit) message per stored prepare (commit) vote. *)
Definition vote_for (t : MsgType) (pid f : string) (m : Message) : Prop :=
  Type_ m = t ∧ ID m = pid ∧ From m = f.

Definition backed (hist : list Message) (s : State) : Prop :=
  Phase s = "" ∨
  ∃ pre pp post, hist = pre ++ pp :: post ∧
    Type_ pp = MsgPreprepare ∧ ID pp = proposalID s ∧
    (Leader s = "" ∨ From pp = Leader s) ∧
    (∀ f, f ∈ votes (prepareVotes s) → ∃ m, m ∈ post ∧ vote_for MsgPrepare (proposalID s) f m) ∧
    (∀ f, f ∈ votes (commitVotes s) → ∃ m, m ∈ post ∧ vote_for MsgCommit (proposalID s) f m).

(** [s'] keeps the proposal of [s] and adds at most the vote of [m]. *)
Lemma backed_extend hist s s' m :
  backed hist s → Phase s ≠ "" → proposalID s' = proposalID s → Leader s' = Leader s →
  (∀ f, f ∈ votes (prepareVotes s') →
     f ∈ votes (prepareVotes s) ∨ vote_for MsgPrepare (proposalID s) f m) →
  (∀ f, f ∈ votes (commitVotes s') →
     f ∈ votes (commitVotes s) ∨ vote_for MsgCommit (proposalID s) f m) →
  backed (hist ++ [m]) s'.
Proof.
  intros [?|(pre & pp & post & -> & Ht & Hid & Hl & Hp & Hc)] Hne Hpid Hlead Hp' Hc'; [done|].
  right. exists pre, pp, (post ++ [m]). rewrite Hpid, Hlead.
  split_and!; [by rewrite <-app_assoc|done..| |].
  - intros f Hf. destruct (Hp' f Hf) as [Hf'|?]; [|exists m; set_solver].
    destruct (Hp f Hf') as (m' & ? & ?). exists m'. set_solver.
  - intros f Hf. destruct (Hc' f Hf) as [Hf'|?]; [|exists m; set_solver].
    destruct (Hc f Hf') as (m' & ? & ?). exists m'. set_solver.
Qed.

Lemma backed_same hist s s' m :
  backed hist s → Phase s' = Phase s → proposalID s' = proposalID s → Leader s' = Leader s →
  prepareVotes s' = prepareVotes s → commitVotes s' = commitVotes s →
  backed (hist ++ [m]) s'.
Proof.
  intros Hb Hph Hpid Hl Hp Hc. destruct (decide (Phase s = "")) as [E|E].
  - left. by rewrite Hph.
  - eapply backed_extend; eauto; rewrite ?Hp, ?Hc; auto.
Qed.

Lemma elem_of_add_vote pv pv' f g :
  add_vote pv f = Some pv' → g ∈ pv' → g ∈ votes pv ∨ g = f.
Proof. destruct pv; simpl; intros [= <-]; set_solver. Qed.

Lemma processPrepare_backed hist s m s' o :
  Type_ m = MsgPrepare → backed hist s → processPrepare s m = Some (s', o) →
  backed (hist ++ [m]) s'.
Proof.
  unfold processPrepare, finish, fail. intros Ht Hb H.
  destruct (_ || (_ && _)) eqn:E1; [simplify_eq; by eapply backed_same|].
  destruct (negb ⌜? ID m = proposalID s ⌝) eqn:E2; [simplify_eq; by eapply backed_same|].
  destruct (bool_decide (From m ∈ _)) eqn:E3; [simplify_eq; by eapply backed_same|].
  destruct (add_vote (prepareVotes s) (From m)) as [pv|] eqn:Ea; simpl in H; [|done].
  guards. assert (Phase s ≠ "") as Hne by (intros E; rewrite E in *; naive_solver).
  assert (∀ f, f ∈ pv → f ∈ votes (prepareVotes s) ∨ vote_for MsgPrepare (proposalID s) f m).
  { intros f [?| ->]%(elem_of_add_vote _ _ _ _ Ea); [by left|by right]. }
  destruct (⌜? Phase s = "preprepared" ⌝ && _); simplify_eq;
    (eapply backed_extend; [done|done|done|done|done|]); simpl; auto.
Qed.

Lemma processCommit_backed hist s m s' o :
  Type_ m = MsgCommit → backed hist s → processCommit s m = Some (s', o) →
  backed (hist ++ [m]) s'.
Proof.
  unfold processCommit, finish, fail. intros Ht Hb H.
  destruct (_ && _) eqn:E1; [simplify_eq; by eapply backed_same|].
  destruct (negb ⌜? ID m = proposalID s ⌝) eqn:E2; [simplify_eq; by eapply backed_same|].
  destruct (bool_decide (From m ∈ _)) eqn:E3; [simplify_eq; by eapply backed_same|].
  destruct (add_vote (commitVotes s) (From m)) as [cv|] eqn:Ea; simpl in H; [|done].
  guards. assert (Phase s ≠ "") as Hne by (intros E; rewrite E in *; naive_solver).
  assert (∀ f, f ∈ cv → f ∈ votes (commitVotes s) ∨ vote_for MsgCommit (proposalID s) f m).
  { intros f [?| ->]%(elem_of_add_vote _ _ _ _ Ea); [by left|by right]. }
  destruct (negb ⌜? Phase s = "commit" ⌝ && _); simplify_eq;
    (eapply backed_extend; [done|done|done|done| |done]); simpl; auto.
Qed.

Lemma processPreprepare_backed hist s m s' o :
  Type_ m = MsgPreprepare → backed hist s → processPreprepare s m = Some (s', o) →
  backed (hist ++ [m]) s'.
Proof.
  unfold processPreprepare, finish, fail. intros Ht Hb H.
  destruct (negb _ && negb _) eqn:E; simplify_eq; [by eapply backed_same|].
  right. exists hist, m, []. simpl. split_and!; [done..| | |]; try set_solver.
  guards. destruct E; guards; auto.
Qed.

Lemma processViewChange_backed hist s m s' o :
  backed hist s → processViewChange s m = Some (s', o) → backed (hist ++ [m]) s'.
Proof.
  unfold processViewChange, finish. intros Hb H.
  destruct (bool_decide _); [simplify_eq; by eapply backed_same|].
  destruct (_ && _); simplify_eq; [by left|by eapply backed_same].
Qed.

Lemma processNewView_backed hist s m s' o :
  backed hist s → processNewView s m = Some (s', o) → backed (hist ++ [m]) s'.
Proof.
  unfold processNewView, finish. intros Hb H.
  destruct (_ <? _)%N; simplify_eq; [by left|by eapply backed_same].
Qed.

Lemma Process_backed hist s m s' o :
  backed hist s → Process s m = Some (s', o) → backed (hist ++ [m]) s'.
Proof.
  unfold Process. set (s1 := set_coords s _ _). intros Hb.
  assert (backed hist s1) as Hb1 by done. clearbody s1.
  repeat case_bool_decide; simpl.
  - by apply processPreprepare_backed.
  - by apply processPrepare_backed.
  - by apply processCommit_backed.
  - by apply processViewChange_backed.
  - by apply processNewView_backed.
  - intros [= <- <-]. by eapply backed_same.
Qed.

(** A node that has just started, optionally with a configured leader. *)
Definition fresh_state (leader : string) : State := mkState 0 0 "" leader "" None None ∅.

Lemma fresh_state_ok leader : state_ok (fresh_state leader).
Proof. split; simpl; set_solver. Qed.

Lemma exec_backed leader msgs s : exec (fresh_state leader) msgs = Some s → backed msgs s.
Proof.
  revert s. induction msgs as [|m ms IH] using rev_ind; intros s.
  - intros [= <-]. by left.
  - rewrite exec_snoc. destruct (exec (fresh_state leader) ms) as [s1|]; simpl; [|done].
    destruct (Process s1 m) as [[s2 o]|] eqn:E; simpl; [|done].
    intros [= <-]. eapply Process_backed; eauto.
Qed.

Lemma Process_leader s m s' o : Process s m = Some (s', o) → Leader s' = Leader s.
Proof.
  unfold Process, processPreprepare, processPrepare, processCommit, processViewChange,
    processNewView, finish, fail, advance_round.
  destruct (add_vote _ _), (add_vote _ _); intros H; split_handler; done.
Qed.

Lemma exec_leader s msgs s' : exec s msgs = Some s' → Leader s' = Leader s.
Proof.
  revert s. induction msgs as [|m ms IH]; intros s; simpl; [by intros [= <-]|].
  destruct (Process s m) as [[s1 o]|] eqn:E; simpl; [|done].
  intros ->%IH. by eapply Process_leader.
Qed.

Lemma two_distinct (X : gset string) : 2 ≤ size X → ∃ a b, a ≠ b ∧ a ∈ X ∧ b ∈ X.
Proof.
  intros H. destruct (size_pos_elem_of X) as [a Ha]; [lia|].
  destruct (size_pos_elem_of (X ∖ {[a]})) as [b Hb].
  - rewrite size_difference by set_solver. rewrite size_singleton. lia.
  - exists a, b. set_solver.
Qed.

(** C1. Commit certificate: a node that reached the commit phase has received,
    in this order, a proposal from the configured leader and then, for that
    very proposal, prepares from two distinct senders and a commit. *)
Theorem commit_certificate (leader : string) (msgs : list Message) (s : State) :
  exec (fresh_state leader) msgs = Some s → Phase s = "commit" →
  ∃ pre pp post p1 p2 c,
    msgs = pre ++ pp :: post ∧
    Type_ pp = MsgPreprepare ∧ ID pp = proposalID s ∧ (leader = "" ∨ From pp = leader) ∧
    p1 ∈ post ∧ p2 ∈ post ∧ c ∈ post ∧
    Type_ p1 = MsgPrepare ∧ Type_ p2 = MsgPrepare ∧ Type_ c = MsgCommit ∧
    ID p1 = proposalID s ∧ ID p2 = proposalID s ∧ ID c = proposalID s ∧
    From p1 ≠ From p2.
Proof.
  intros Hex Hph. destruct (exec_ok (fresh_state leader) msgs (fresh_state_ok leader))
    as (s' & Hs' & Hok). rewrite Hex in Hs'. simplify_eq.
  pose proof (exec_leader _ _ _ Hex) as Hl. simpl in Hl.
  destruct (exec_backed _ _ _ Hex) as [?|(pre & pp & post & -> & Ht & Hid & Hlead & Hp & Hc)];
    [congruence|].
  destruct (two_distinct (votes (prepareVotes s'))) as (a & b & Hab & Ha & Hb).
  { apply (ok_prepared s' Hok). rewrite Hph. set_solver. }
  destruct (size_pos_elem_of (votes (commitVotes s'))) as [g Hg].
  { pose proof (ok_committed s' Hok Hph). lia. }
  destruct (Hp a Ha) as (p1 & ? & ? & ? & ?), (Hp b Hb) as (p2 & ? & ? & ? & ?),
    (Hc g Hg) as (c & ? & ? & ? & ?).
  exists pre, pp, post, p1, p2, c. rewrite Hl in Hlead. split_and!; congruence.
Qed.

(** A complete round with leader [L] and two voters. *)
Definition msg_of (t : MsgType) (from id : string) (h r : N) : Message :=
  mkMessage from h r t [] id "" [].

Definition full_round : list Message :=
  [msg_of MsgPreprepare "L" "blk" 1 0; msg_of MsgPrepare "a" "blk" 1 1;
   msg_of MsgPrepare "b" "blk" 1 1; msg_of MsgCommit "a" "blk" 1 1].

Definition committed_state : State :=
  mkState 1 1 "commit" "L" "blk" (Some {["b"; "a"]}) (Some {["a"]}) ∅.

Lemma commit_certificate_witness :
  exec (fresh_state "L") full_round = Some committed_state ∧
  ∃ pre pp post p1 p2 c,
    full_round = pre ++ pp :: post ∧
    Type_ pp = MsgPreprepare ∧ ID pp = "blk" ∧ ("L" = "" ∨ From pp = "L") ∧
    p1 ∈ post ∧ p2 ∈ post ∧ c ∈ post ∧
    Type_ p1 = MsgPrepare ∧ Type_ p2 = MsgPrepare ∧ Type_ c = MsgCommit ∧
    ID p1 = "blk" ∧ ID p2 = "blk" ∧ ID c = "blk" ∧ From p1 ≠ From p2.
Proof.
  assert (exec (fresh_state "L") full_round = Some committed_state) as H
    by (vm_compute; reflexivity).
  split; [exact H|].
  exact (commit_certificate "L" full_round committed_state H eq_refl).
Defined.

(** ** Observability and errors *)

Definition qc (kind : string) : MEvent := Inc "qbft_qc_built_total" [("kind", kind)].

Definition qc_tracks (s s' : State) (ev : list MEvent) : Prop :=
  (qc "prepare" ∈ ev ↔ Phase s = "preprepared" ∧ Phase s' = "prepared") ∧
  (qc "commit" ∈ ev ↔ Phase s = "prepared" ∧ Phase s' = "commit").

Lemma qc_in k m x : qc k ∈ counted m ++ x ++ transition m ↔ qc k ∈ x.
Proof. rewrite !elem_of_app. unfold counted, transition, qc. set_solver. Qed.

Lemma qc_not_counted k m : qc k ∉ counted m.
Proof. unfold counted, qc. set_solver. Qed.

(** A call that counts no certificate and does not advance the phase. *)
Lemma qc_quiet s s' m x :
  x = counted m ∨ x = counted m ++ transition m ∨
    x = counted m ++ [Inc "qbft_view_changes_total" []] ++ transition m →
  Phase s' = Phase s ∨ Phase s' = "preprepared" ∨ Phase s' = "" →
  qc_tracks s s' x.
Proof.
  intros Hx Hph.
  assert (∀ k, qc k ∉ x) as Hk.
  { intros k. destruct Hx as [-> |[-> | ->]].
    - apply qc_not_counted.
    - change (counted m ++ transition m) with (counted m ++ [] ++ transition m).
      rewrite qc_in. set_solver.
    - rewrite qc_in. unfold qc. set_solver. }
  split; (split; [by intros ?%Hk|]); intros [H1 H2]; exfalso;
    rewrite H2 in Hph; destruct Hph as [Hph|[Hph|Hph]]; congruence.
Qed.

Lemma processPrepare_qc s m s' e ev :
  processPrepare s m = Some (s', (e, ev)) → qc_tracks s s' ev.
Proof.
  unfold processPrepare, finish, fail. intros H.
  destruct (_ || (_ && _)); [simplify_eq; eapply qc_quiet; auto|].
  destruct (negb ⌜? ID m = proposalID s ⌝); [simplify_eq; eapply qc_quiet; auto|].
  destruct (bool_decide (From m ∈ _)); [simplify_eq; eapply qc_quiet; auto|].
  destruct (add_vote _ _); simpl in H; [|done].
  destruct (⌜? Phase s = "preprepared" ⌝ && _) eqn:E; simplify_eq;
    [|eapply qc_quiet; auto].
  guards. unfold qc_tracks. rewrite (qc_in "prepare" m [qc "prepare"]),
    (qc_in "commit" m [qc "prepare"]). simpl. rewrite !list_elem_of_singleton.
  split; [by split|]. split; [done|]. intros [? ?]; congruence.
Qed.

Lemma processCommit_qc s m s' e ev :
  processCommit s m = Some (s', (e, ev)) → qc_tracks s s' ev.
Proof.
  unfold processCommit, finish, fail. intros H.
  destruct (negb ⌜? Phase s = "prepared" ⌝ && negb ⌜? Phase s = "commit" ⌝) eqn:E0;
    [simplify_eq; eapply qc_quiet; auto|].
  destruct (negb ⌜? ID m = proposalID s ⌝); [simplify_eq; eapply qc_quiet; auto|].
  destruct (bool_decide (From m ∈ _)); [simplify_eq; eapply qc_quiet; auto|].
  destruct (add_vote _ _); simpl in H; [|done].
  destruct (negb ⌜? Phase s = "commit" ⌝ && _) eqn:E; simplify_eq; [|eapply qc_quiet; auto].
  guards. assert (Phase s = "prepared") as Hph by (destruct E0; guards; done).
  unfold qc_tracks. rewrite (qc_in "prepare" m [qc "commit"]),
    (qc_in "commit" m [qc "commit"]). simpl. rewrite !list_elem_of_singleton.
  split; [|by split]. split; [done|]. intros [? ?]; congruence.
Qed.

(** The certificate counters are faithful: a prepare (commit) certificate
    is counted exactly when the call moves the phase from preprepared to
    prepared (from prepared to commit). *)
Theorem qc_metrics_track_phases (s s' : State) (m : Message) (e : goerr) (ev : list MEvent) :
  Process s m = Some (s', (e, ev)) →
  (qc "prepare" ∈ ev ↔ Phase s = "preprepared" ∧ Phase s' = "prepared") ∧
  (qc "commit" ∈ ev ↔ Phase s = "prepared" ∧ Phase s' = "commit").
Proof.
  unfold Process. set (s1 := set_coords s _ _). change (Phase s) with (Phase s1).
  clearbody s1. intros H. change (qc_tracks s1 s' ev). revert H.
  repeat case_bool_decide; [|by apply processPrepare_qc|by apply processCommit_qc| | |];
    unfold processPreprepare, processViewChange, processNewView, finish, fail; intros ?;
    repeat case_match; simplify_eq; eapply qc_quiet; auto.
Qed.

Lemma qc_metrics_track_phases_witness :
  let s := mkState 1 1 "preprepared" "L" "blk" (Some {["a"]}) (Some ∅) ∅ in
  let s' := mkState 1 1 "prepared" "L" "blk" (Some {["b"; "a"]}) (Some ∅) ∅ in
  qc "prepare" ∈ [Inc "qbft_msg_total" [("type", "prepare")]; qc "prepare";
                  Inc "qbft_state_transitions_total" [("type", "prepare")]].
Proof.
  intros s s'. apply (qc_metrics_track_phases s s' (msg_of MsgPrepare "b" "blk" 1 1) None).
  - vm_compute. reflexivity.
  - split; reflexivity.
Defined.

Ltac branch_error :=
  unfold processPreprepare, processPrepare, processCommit, processViewChange,
    processNewView, finish, fail;
  try destruct (add_vote _ _); simpl; intros ?; repeat case_match; by simplify_eq.

Lemma processPreprepare_error s m s' err ev :
  processPreprepare s m = Some (s', (Some err, ev)) → s' = s ∧ ev = counted m.
Proof. branch_error. Qed.
Lemma processPrepare_error s m s' err ev :
  processPrepare s m = Some (s', (Some err, ev)) → s' = s ∧ ev = counted m.
Proof. branch_error. Qed.
Lemma processCommit_error s m s' err ev :
  processCommit s m = Some (s', (Some err, ev)) → s' = s ∧ ev = counted m.
Proof. branch_error. Qed.
Lemma processViewChange_error s m s' err ev :
  processViewChange s m ≠ Some (s', (Some err, ev)).
Proof. branch_error. Qed.
Lemma processNewView_error s m s' err ev :
  processNewView s m ≠ Some (s', (Some err, ev)).
Proof. branch_error. Qed.

(** An error leaves the phase, the proposal and every vote untouched: only
    the coordinates move to those of the rejected message, and only the message
    counter is incremented. *)
Theorem Process_error_frame (s s' : State) (m : Message) (err : string) (ev : list MEvent) :
  Process s m = Some (s', (Some err, ev)) →
  s' = set_coords s (Height m) (Round m) ∧ ev = counted m ∧
  Type_ m ∈ [MsgPreprepare; MsgPrepare; MsgCommit].
Proof.
  unfold Process. set (t := ⌜? Type_ m = MsgViewChange ⌝ || ⌜? Type_ m = MsgNewView ⌝).
  destruct (decide (Type_ m ∈ [MsgPreprepare; MsgPrepare; MsgCommit])) as [Hin|Hnin].
  - assert (t = false) as ->.
    { unfold t. rewrite !elem_of_cons, elem_of_nil in Hin.
      destruct Hin as [-> |[-> |[-> |[]]]]; vm_compute; reflexivity. }
    intros He. assert (s' = set_coords s (Height m) (Round m) ∧ ev = counted m) as [-> ->]; [|done].
    revert He. generalize (set_coords s (Height m) (Round m)); intros s1.
    repeat case_bool_decide; intros He.
    + eapply processPreprepare_error, He.
    + eapply processPrepare_error, He.
    + eapply processCommit_error, He.
    + destruct (processViewChange_error _ _ _ _ _ He).
    + destruct (processNewView_error _ _ _ _ _ He).
    + discriminate He.
  - rewrite (bool_decide_false (Type_ m = MsgPreprepare)) by set_solver.
    rewrite (bool_decide_false (Type_ m = MsgPrepare)) by set_solver.
    rewrite (bool_decide_false (Type_ m = MsgCommit)) by set_solver.
    repeat case_bool_decide.
    + intros He. destruct (processViewChange_error _ _ _ _ _ He).
    + intros He. destruct (processNewView_error _ _ _ _ _ He).
    + intros He. discriminate He.
Qed.

Lemma Process_error_frame_witness :
  Process (fresh_state "L") (msg_of MsgPreprepare "evil" "blk" 9 0)
    = Some (mkState 9 0 "" "L" "" None None ∅,
            (Some "unauthorized leader", [Inc "qbft_msg_total" [("type", "preprepare")]])) ∧
  mkState 9 0 "" "L" "" None None ∅ = set_coords (fresh_state "L") 9 0.
Proof.
  assert (Process (fresh_state "L") (msg_of MsgPreprepare "evil" "blk" 9 0)
    = Some (mkState 9 0 "" "L" "" None None ∅,
            (Some "unauthorized leader", [Inc "qbft_msg_total" [("type", "preprepare")]]))) as H
    by (vm_compute; reflexivity).
  split; [exact H|]. exact (proj1 (Process_error_frame _ _ _ _ _ H)).
Defined.

(** ** View changes *)

(** View-change votes are collected per round number and never cleared: the
    two voters who changed to round 2 at height 1 cannot change to round 2
    again at height 2, their votes are dropped as duplicates and the round
    stays at 0. *)
Theorem view_change_once_per_round :
  let vc from h := msg_of MsgViewChange from "vc" h 2 in
  st_Round <$> exec zero_state [vc "a" 1%N; vc "b" 1%N] = Some 2%N ∧
  (λ s, (st_Height s, st_Round s, Phase s)) <$>
    exec zero_state [vc "a" 1%N; vc "b" 1%N; msg_of MsgPreprepare "L" "blk2" 2 0; vc "a" 2%N; vc "b" 2%N]
    = Some (2, 0, "preprepared")%N.
Proof. vm_compute. done. Qed.

(** The view change of a timeout names its voter "self" on every node, so the
    timeouts of all the nodes together are one vote: however many of them a
    node processes, it never leaves its round or phase. *)
Definition only_self (s : State) : Prop := ∀ r b, viewVotes s !! r = Some b → b ⊆ {["self"]}.

Theorem timeouts_never_change_view (s s' : State) (ts : list State) :
  only_self s → exec s ((λ t, (OnTimeout t).1) <$> ts) = Some s' →
  st_Round s' = st_Round s ∧ Phase s' = Phase s ∧ proposalID s' = proposalID s.
Proof.
  revert s. induction ts as [|t ts IH]; intros s Hs; cbn [fmap list_fmap exec]; [by intros [= <-]|].
  set (m := (OnTimeout t).1).
  assert (∃ s1 o, Process s m = Some (s1, o) ∧ only_self s1 ∧
    st_Round s1 = st_Round s ∧ Phase s1 = Phase s ∧ proposalID s1 = proposalID s) as (s1 & o & -> & H1 & <- & <- & <-);
    [|simpl; by apply IH].
  change (Process s m) with (processViewChange (set_coords s (Height m) (st_Round s)) m).
  unfold processViewChange. cbn [set_coords viewVotes st_Round st_Height Phase proposalID].
  change (From m) with "self". set (b := default ∅ (viewVotes s !! Round m)).
  assert (b ⊆ {["self"]}) as Hb by (unfold b; destruct (viewVotes s !! Round m) eqn:E; [by apply (Hs (Round m))|apply empty_subseteq]).
  assert (size ({["self"]} ∪ b) = 1) as Hsz.
  { assert ({["self"]} ∪ b = {["self"]}) as -> by set_solver. apply size_singleton. }
  assert (∀ c, c ⊆ {["self"]} → ∀ r x, <[Round m := c]> (viewVotes s) !! r = Some x → x ⊆ {["self"]}) as Hin.
  { intros c Hc r x [[_ <-]|[_ H]]%lookup_insert_Some; [done|by apply (Hs r)]. }
  case_bool_decide.
  - do 2 eexists. split; [reflexivity|]. split; [exact (Hin b Hb)|done].
  - rewrite Hsz. cbn [Nat.leb andb]. do 2 eexists. split; [reflexivity|]. split; [|done].
    refine (Hin ({["self"]} ∪ b) _). by apply union_least.
Qed.

Lemma timeouts_never_change_view_witness :
  (st_Round <$> exec (fresh_state "L") ((λ t, (OnTimeout t).1) <$> [fresh_state "A"; fresh_state "B"; fresh_state "C"]))
  = Some 0%N.
Proof.
  destruct (exec (fresh_state "L") ((λ t, (OnTimeout t).1) <$> [fresh_state "A"; fresh_state "B"; fresh_state "C"]))
    as [s'|] eqn:E; [|revert E; by vm_compute].
  simpl. f_equal. apply (timeouts_never_change_view (fresh_state "L") s' [fresh_state "A"; fresh_state "B"; fresh_state "C"]).
  - intros r b H. cbn in H. by rewrite lookup_empty in H.
  - exact E.
Defined.
