(* ===== verification/Codec.v ===== *)
(** Encodings shared by the durable components: big-endian integers
    (encoding/binary), CRC-32 (hash/crc32, IEEE), the JSON codec interface
    (encoding/json) and the 16-byte header of the framed record files. *)
From S2P Require Import Prelude.

(** ** Big-endian integers *)

Fixpoint be_encode (k : nat) (n : N) : bytes :=
  match k with
  | O => []
  | S k' => be_encode k' (n / 256) ++ [byte_of n]
  end.

Definition be_decode (bs : bytes) : N :=
  foldl (λ acc b, acc * 256 + Byte.to_N b)%N 0%N bs.

Lemma length_be_encode k n : length (be_encode k n) = k.
Proof. revert n. induction k; intros n; simpl; [done|]. rewrite length_app, IHk. simpl. lia. Qed.

Lemma be_decode_encode k n : (n < 256 ^ N.of_nat k)%N → be_decode (be_encode k n) = n.
Proof.
  revert n. induction k as [|k IH]; intros n Hn.
  - simpl in *. unfold be_decode. simpl. lia.
  - simpl. unfold be_decode in *. rewrite foldl_app, IH; simpl.
    + rewrite byte_to_of. pose proof (N.div_mod n 256). lia.
    + rewrite Nat2N.inj_succ, N.pow_succ_r in Hn by lia.
      apply N.Div0.div_lt_upper_bound. lia.
Qed.

Lemma take_be k n (r : bytes) : take k (be_encode k n ++ r) = be_encode k n.
Proof. apply take_app_length'. by rewrite length_be_encode. Qed.

Lemma drop_be k n (r : bytes) : drop k (be_encode k n ++ r) = r.
Proof. apply drop_app_length'. by rewrite length_be_encode. Qed.

(** ** CRC-32 *)

Definition crc_poly : N := 0xEDB88320.
Definition crc_ones : N := 0xFFFFFFFF.

Definition crc_bit (c : N) : N :=
  if N.odd c then N.lxor (N.shiftr c 1) crc_poly else N.shiftr c 1.

Definition crc_byte (c : N) (b : Byte.byte) : N :=
  Nat.iter 8 crc_bit (N.lxor c (Byte.to_N b)).

Definition crc32 (bs : bytes) : N := N.lxor (foldl crc_byte crc_ones bs) crc_ones.

Example crc32_check_value : crc32 (str_bytes "123456789") = 0xCBF43926%N.
Proof. vm_compute. reflexivity. Qed.

Lemma bits_below n k : (n < 2 ^ k)%N ↔ ∀ i, (k <= i)%N → N.testbit n i = false.
Proof.
  split.
  - intros Hn i Hi. destruct (decide (n = 0%N)) as [->|Hz]; [apply N.bits_0|].
    apply N.bits_above_log2. apply N.log2_lt_pow2 in Hn; lia.
  - intros H. destruct (N.lt_ge_cases n (2 ^ k)) as [|Hge]; [done|].
    assert (n ≠ 0%N) as Hz by (pose proof (N.pow_nonzero 2 k); lia).
    specialize (H (N.log2 n)). rewrite N.bit_log2 in H by done.
    assert (k <= N.log2 n)%N as Hk; [|by specialize (H Hk)].
    rewrite <-(N.log2_pow2 k) by lia. by apply N.log2_le_mono.
Qed.

Lemma lxor_below a b k : (a < 2 ^ k)%N → (b < 2 ^ k)%N → (N.lxor a b < 2 ^ k)%N.
Proof.
  rewrite !bits_below. intros Ha Hb i Hi. by rewrite N.lxor_spec, Ha, Hb.
Qed.

Lemma shiftr1_below a k : (a < 2 ^ k)%N → (N.shiftr a 1 < 2 ^ k)%N.
Proof. rewrite !bits_below. intros Ha i Hi. rewrite N.shiftr_spec', Ha; [done|lia]. Qed.

Lemma crc_bit_below c : (c < 2 ^ 32)%N → (crc_bit c < 2 ^ 32)%N.
Proof.
  intros Hc. unfold crc_bit. destruct (N.odd c); [|by apply shiftr1_below].
  apply lxor_below; [by apply shiftr1_below|done].
Qed.

(** One step of the register is injective: the top bit of the result tells
    whether the polynomial was added. *)
Lemma crc_bit_top c : (c < 2 ^ 32)%N → N.testbit (crc_bit c) 31 = N.odd c.
Proof.
  intros Hc. unfold crc_bit.
  assert (N.testbit (N.shiftr c 1) 31 = false) as Ht.
  { rewrite N.shiftr_spec'. by apply (proj1 (bits_below c 32)). }
  destruct (N.odd c); [|done]. by rewrite N.lxor_spec, Ht.
Qed.

Lemma crc_bit_inj c d : (c < 2 ^ 32)%N → (d < 2 ^ 32)%N → crc_bit c = crc_bit d → c = d.
Proof.
  intros Hc Hd H. pose proof (crc_bit_top c Hc) as Tc. pose proof (crc_bit_top d Hd) as Td.
  rewrite H, Td in Tc. unfold crc_bit in H. rewrite Tc in H.
  assert (N.shiftr c 1 = N.shiftr d 1) as Hs.
  { destruct (N.odd c); [|done].
    apply (f_equal (λ x, N.lxor x crc_poly)) in H.
    by rewrite !N.lxor_assoc, N.lxor_nilpotent, !N.lxor_0_r in H. }
  rewrite <-!N.div2_spec in Hs. rewrite (N.div2_odd c), (N.div2_odd d). by rewrite Hs, Tc.
Qed.

Lemma crc_iter_inj k c d :
  (c < 2 ^ 32)%N → (d < 2 ^ 32)%N → Nat.iter k crc_bit c = Nat.iter k crc_bit d → c = d.
Proof.
  intros Hc Hd.
  assert (∀ k x, (x < 2 ^ 32)%N → (Nat.iter k crc_bit x < 2 ^ 32)%N) as Hb.
  { intros j x Hx. induction j; simpl; [done|]. by apply crc_bit_below. }
  induction k as [|k IH]; simpl; [done|]. intros H. apply IH.
  apply crc_bit_inj; [by apply Hb..|done].
Qed.

Lemma byte_below b : (Byte.to_N b < 2 ^ 32)%N.
Proof. pose proof (Byte.to_N_bounded b). lia. Qed.

Lemma crc_byte_below c b : (c < 2 ^ 32)%N → (crc_byte c b < 2 ^ 32)%N.
Proof.
  intros Hc. unfold crc_byte. generalize 8. intros k.
  induction k; simpl; [apply lxor_below; [done|apply byte_below]|]. by apply crc_bit_below.
Qed.

Lemma crc_fold_below bs c : (c < 2 ^ 32)%N → (foldl crc_byte c bs < 2 ^ 32)%N.
Proof. revert c. induction bs; intros c Hc; simpl; [done|]. by apply IHbs, crc_byte_below. Qed.

Lemma lxor_cancel_r a b c : N.lxor a c = N.lxor b c → a = b.
Proof.
  intros H. apply (f_equal (λ x, N.lxor x c)) in H.
  by rewrite !N.lxor_assoc, N.lxor_nilpotent, !N.lxor_0_r in H.
Qed.

Lemma crc_fold_inj bs c d :
  (c < 2 ^ 32)%N → (d < 2 ^ 32)%N → foldl crc_byte c bs = foldl crc_byte d bs → c = d.
Proof.
  revert c d. induction bs as [|b bs IH]; intros c d Hc Hd; simpl; [done|].
  intros H%IH; [|by apply crc_byte_below..].
  unfold crc_byte in H. apply crc_iter_inj in H.
  - by apply lxor_cancel_r in H.
  - apply lxor_below; [done|apply byte_below].
  - apply lxor_below; [done|apply byte_below].
Qed.

(** Changing one byte of a message always changes its checksum. *)
Lemma crc32_one_byte pre x y post :
  crc32 (pre ++ x :: post) = crc32 (pre ++ y :: post) → x = y.
Proof.
  unfold crc32. intros H%lxor_cancel_r. rewrite !foldl_app in H. simpl in H.
  set (c := foldl crc_byte crc_ones pre) in *.
  assert (c < 2 ^ 32)%N as Hc by (by apply crc_fold_below).
  apply crc_fold_inj in H; [|by apply crc_byte_below..].
  unfold crc_byte in H. apply crc_iter_inj in H; [|apply lxor_below; [done|apply byte_below]..].
  rewrite !(N.lxor_comm c) in H. apply lxor_cancel_r in H. by apply byte_to_N_inj.
Qed.

Lemma crc32_below bs : (crc32 bs < 2 ^ 32)%N.
Proof. apply lxor_below; [by apply crc_fold_below|done]. Qed.

(** ** JSON

    [json.Marshal]/[json.Unmarshal] for one Go struct type. The encoding of a
    struct is a compact object on one line, which no proper prefix of it parses
    as; the round trip holds on the values whose strings are valid UTF-8
    (encoding/json replaces other bytes). *)
Class Json (A : Type) := {
  marshal : A → bytes;
  unmarshal : bytes → option A;
  json_stable : A → Prop;
  unmarshal_marshal a : json_stable a → unmarshal (marshal a) = Some a;
  unmarshal_nil : unmarshal [] = None;
  unmarshal_prefix a n : n < length (marshal a) → unmarshal (take n (marshal a)) = None;
  marshal_no_newline a : Byte.x0a ∉ marshal a;
  marshal_no_cr a : last (marshal a) ≠ Some Byte.x0d;
}.

(** A concrete codec for any countable type, to instantiate the interface: the
    bits of the type's encoding, as digits, closed by a brace. *)
Fixpoint digits_of_pos (p : positive) : bytes :=
  match p with
  | xH => [Byte.x7d]
  | xO p' => Byte.x30 :: digits_of_pos p'
  | xI p' => Byte.x31 :: digits_of_pos p'
  end.

Fixpoint pos_of_digits (bs : bytes) : option positive :=
  match bs with
  | [Byte.x7d] => Some xH
  | Byte.x30 :: bs' => xO <$> pos_of_digits bs'
  | Byte.x31 :: bs' => xI <$> pos_of_digits bs'
  | _ => None
  end.

Lemma pos_of_digits_of_pos p : pos_of_digits (digits_of_pos p) = Some p.
Proof. induction p; simpl; by rewrite ?IHp. Qed.

Lemma pos_of_digits_prefix p n :
  n < length (digits_of_pos p) → pos_of_digits (take n (digits_of_pos p)) = None.
Proof.
  revert n. induction p as [p IH|p IH|]; intros [|n]; simpl; try done; try lia.
  all: intros H; rewrite IH; [done|lia].
Qed.

Lemma digits_ascii p : Forall (λ b, b = Byte.x30 ∨ b = Byte.x31 ∨ b = Byte.x7d) (digits_of_pos p).
Proof. induction p; simpl; auto. Qed.

Program Definition countable_json (A : Type) `{Countable A} : Json A :=
  {| marshal a := digits_of_pos (encode a);
     unmarshal bs := pos_of_digits bs ≫= decode;
     json_stable _ := True |}.
Next Obligation. intros A ?? a _. simpl. by rewrite pos_of_digits_of_pos, <-(decode_encode a). Qed.
Next Obligation. done. Qed.
Next Obligation. intros A ?? a n Hn. simpl in *. by rewrite pos_of_digits_prefix. Qed.
Next Obligation.
  intros A ?? a Hin. pose proof (digits_ascii (encode a)) as HF. rewrite Forall_forall in HF.
  by destruct (HF _ Hin) as [|[]].
Qed.
Next Obligation.
  intros A ?? a Hl%last_Some_elem_of. pose proof (digits_ascii (encode a)) as HF.
  rewrite Forall_forall in HF. by destruct (HF _ Hl) as [|[]].
Qed.

(** A codec that knows one value. *)
Program Definition one_json {A : Type} (a : A) : Json A :=
  {| marshal _ := [Byte.x7d];
     unmarshal bs := if ⌜? bs = [Byte.x7d] ⌝ then Some a else None;
     json_stable x := x = a |}.
Next Obligation. intros A a x ->. done. Qed.
Next Obligation. done. Qed.
Next Obligation. intros A a x [|n] Hn; simpl in *; [done|lia]. Qed.
Next Obligation. intros A a x Hin. by apply list_elem_of_singleton in Hin. Qed.
Next Obligation. done. Qed.

(** ** Framed records

    [magic u32][version u16][flags u16][length u32][crc32 u32][body]. *)
Record Header := mkHeader {
  h_magic : N;
  h_version : N;
  h_flags : N;
  h_length : N;
  h_crc : N;
}.

Definition encode_header (h : Header) : bytes :=
  be_encode 4 (h_magic h) ++ be_encode 2 (h_version h) ++ be_encode 2 (h_flags h) ++
  be_encode 4 (h_length h) ++ be_encode 4 (h_crc h).

(** [io.ReadFull(f, buf[:n])]: fails unless [n] bytes are there. *)
Definition ReadFull (n : nat) (bs : bytes) : option (bytes * bytes) :=
  if (n <=? length bs)%nat then Some (take n bs, drop n bs) else None.

Definition decode_header (b : bytes) : Header :=
  {| h_magic := be_decode (take 4 b);
     h_version := be_decode (take 2 (drop 4 b));
     h_flags := be_decode (take 2 (drop 6 b));
     h_length := be_decode (take 4 (drop 8 b));
     h_crc := be_decode (take 4 (drop 12 b)) |}.

Definition header_fits (h : Header) : Prop :=
  (h_magic h < 2 ^ 32)%N ∧ (h_version h < 2 ^ 16)%N ∧ (h_flags h < 2 ^ 16)%N ∧
  (h_length h < 2 ^ 32)%N ∧ (h_crc h < 2 ^ 32)%N.

Lemma length_encode_header h : length (encode_header h) = 16.
Proof. unfold encode_header. rewrite !length_app, !length_be_encode. done. Qed.

Lemma ReadFull_app a b n : length a = n → ReadFull n (a ++ b) = Some (a, b).
Proof.
  intros <-. unfold ReadFull. rewrite length_app.
  rewrite (proj2 (Nat.leb_le _ _)) by lia. by rewrite take_app_length, drop_app_length.
Qed.

Lemma decode_encode_header h : header_fits h → decode_header (encode_header h) = h.
Proof.
  intros (H1 & H2 & H3 & H4 & H5). destruct h as [m v f l c]. simpl in *.
  unfold decode_header, encode_header; simpl h_magic; simpl h_version; simpl h_flags;
    simpl h_length; simpl h_crc.
  assert (∀ k n (r : bytes), take k (be_encode k n ++ r) = be_encode k n) as Ht.
  { intros k n r. rewrite take_app_le by (by rewrite length_be_encode).
    by rewrite take_ge by (by rewrite length_be_encode). }
  assert (∀ k j n (r : bytes), drop (k + j) (be_encode k n ++ r) = drop j r) as Hd.
  { intros k j n r. rewrite drop_app_ge by (rewrite length_be_encode; lia).
    rewrite length_be_encode. f_equal. lia. }
  rewrite (Hd 4 0), (Hd 4 2), (Hd 4 4), (Hd 4 8), (Hd 2 0), (Hd 2 2), (Hd 2 6),
    (Hd 2 0), (Hd 2 4), (Hd 4 0), !drop_0, !Ht.
  rewrite (take_ge (be_encode 4 c)) by (by rewrite length_be_encode).
  by rewrite !be_decode_encode by done.
Qed.
