(* ===== verification/Files.v ===== *)
(** Files, crashes, and the replace protocol shared by the node's stores
    (file_store.go, storage.go, session_store.go, beast_session_store.go):
    write a temporary, sync it, move the current file to the backup, promote the
    temporary; read the main file and fall back to the backup.

    A file is its contents and the length of the prefix known to be on disk.
    A power loss truncates every file to some length not below that prefix;
    renames are atomic and reach the disk in program order (the stores sync the
    directory, best effort). *)
From S2P Require Import Prelude Codec.

Record File := mkFile { data : bytes; synced : nat }.

Abbreviation FS := (gmap string File).

Inductive FsOp :=
  | OpCreate (p : string)                  (* OpenFile with O_CREATE|O_TRUNC *)
  | OpOpen (p : string)                    (* OpenFile with O_CREATE|O_APPEND *)
  | OpAppend (p : string) (b : bytes)      (* Write *)
  | OpSync (p : string)                    (* Sync *)
  | OpBackup (p q : string)                (* Rename, error ignored *)
  | OpRename (p q : string).               (* Rename *)

Definition rename (p q : string) (fs : FS) : FS :=
  match fs !! p with
  | Some c => <[q := c]> (delete p fs)
  | None => fs
  end.

Definition append (b : bytes) (f : File) : File :=
  {| data := data f ++ b; synced := synced f |}.

Definition sync (f : File) : File := {| data := data f; synced := length (data f) |}.

Definition run_op (fs : FS) (op : FsOp) : FS :=
  match op with
  | OpCreate p => <[p := mkFile [] 0]> fs
  | OpOpen p => match fs !! p with Some _ => fs | None => <[p := mkFile [] 0]> fs end
  | OpAppend p b => alter (append b) p fs
  | OpSync p => alter sync p fs
  | OpBackup p q | OpRename p q => rename p q fs
  end.

Definition run_ops (ops : list FsOp) (fs : FS) : FS := foldl run_op fs ops.

(** Where a sequence of operations stops: at operation number [f_op], after
    [f_bytes] bytes when it is a write. *)
Record Fault := mkFault { f_op : nat; f_bytes : nat }.

Definition torn_op (op : FsOp) (n : nat) (fs : FS) : FS :=
  match op with
  | OpAppend p b => run_op fs (OpAppend p (take n b))
  | _ => fs
  end.

Definition stop_at (ft : Fault) (ops : list FsOp) (fs : FS) : FS :=
  match ops !! f_op ft with
  | Some op => torn_op op (f_bytes ft) (run_ops (take (f_op ft) ops) fs)
  | None => run_ops ops fs
  end.

(** An I/O error in a running process: the failing call returns its error at
    once, except the best-effort backup, which is skipped. *)
Definition io_error (ft : Fault) (ops : list FsOp) (fs : FS) : FS * goerr :=
  match ops !! f_op ft with
  | Some (OpBackup _ _) =>
      (run_ops (take (f_op ft) ops ++ drop (S (f_op ft)) ops) fs, nil_err)
  | Some _ => (stop_at ft ops fs, Some "io error")
  | None => (run_ops ops fs, nil_err)
  end.

Definition lose (n : nat) (f : File) : File :=
  let d := take (synced f `max` n) (data f) in {| data := d; synced := length d |}.

Definition power_loss (keep : string → nat) (fs : FS) : FS :=
  map_imap (M := gmap string) (λ p f, Some (lose (keep p) f)) fs.

(** ** The replace protocol *)
Definition tmp_of (path : string) : string := path +:+ ".tmp".
Definition bak_of (path : string) : string := path +:+ ".bak".

Definition replace_ops (fs : FS) (path : string) (hdr body : bytes) : list FsOp :=
  [OpCreate (tmp_of path); OpAppend (tmp_of path) hdr; OpAppend (tmp_of path) body;
   OpSync (tmp_of path)] ++
  (match fs !! path with Some _ => [OpBackup path (bak_of path)] | None => [] end) ++
  [OpRename (tmp_of path) path].

(** How one attempt to replace a file ends. *)
Inductive Outcome :=
  | Completed
  | IOError (ft : Fault)
  | Crashed (ft : Fault) (keep : string → nat).

Definition attempt (o : Outcome) (ops : list FsOp) (fs : FS) : FS * goerr :=
  match o with
  | Completed => (run_ops ops fs, nil_err)
  | IOError ft => io_error ft ops fs
  | Crashed ft keep => (power_loss keep (stop_at ft ops fs), Some "crash")
  end.

Lemma string_app_ne p s : s ≠ "" → p +:+ s ≠ p.
Proof. intros Hs. induction p as [|a p IH]; simpl; [done|]. by intros [= H]. Qed.

Lemma string_app_inj p s t : p +:+ s = p +:+ t → s = t.
Proof. induction p as [|a p IH]; simpl; [done|]. intros [= H]. auto. Qed.

Lemma tmp_ne path : tmp_of path ≠ path.
Proof. by apply string_app_ne. Qed.
Lemma bak_ne path : bak_of path ≠ path.
Proof. by apply string_app_ne. Qed.
Lemma tmp_bak_ne path : tmp_of path ≠ bak_of path.
Proof. by intros ?%string_app_inj. Qed.

Create HintDb files.
#[export] Hint Resolve tmp_ne bak_ne tmp_bak_ne : files.
#[export] Hint Extern 1 (_ ≠ _) => (apply not_eq_sym; solve [auto with files]) : files.

(** A file that survives a power loss unchanged. *)
Definition intact (fs : FS) (p : string) (c : bytes) : Prop :=
  ∃ f, fs !! p = Some f ∧ data f = c ∧ length c ≤ synced f.

Lemma lookup_power_loss keep fs p : power_loss keep fs !! p = lose (keep p) <$> fs !! p.
Proof. unfold power_loss. rewrite (map_lookup_imap (M := gmap string)). by destruct (fs !! p). Qed.

Lemma intact_power_loss keep fs p c : intact fs p c → intact (power_loss keep fs) p c.
Proof.
  intros (f & Hf & <- & Hs). exists (lose (keep p) f).
  rewrite lookup_power_loss, Hf. split; [done|]. unfold lose; simpl.
  rewrite take_ge by lia. done.
Qed.

(** What an attempt can leave behind: the old files; the old main file moved to
    the backup; or the new main file. *)
Inductive replaced (fs : FS) (path : string) (content : bytes) : FS → Prop :=
  | replaced_not fs' :
      fs' !! path = fs !! path → fs' !! bak_of path = fs !! bak_of path →
      replaced fs path content fs'
  | replaced_moved fs' :
      fs' !! path = None → fs' !! bak_of path = fs !! path → is_Some (fs !! path) →
      replaced fs path content fs'
  | replaced_done fs' :
      intact fs' path content →
      replaced fs path content fs'.
#[export] Hint Constructors replaced : files.

(** Evaluate lookups in a file system built by known operations. *)
Ltac fs_eval :=
  unfold torn_op, run_ops, run_op, rename; simpl;
  repeat (first
    [ rewrite lookup_insert_eq | rewrite lookup_delete_eq | rewrite lookup_alter_eq
    | rewrite lookup_insert_ne by auto with files
    | rewrite lookup_delete_ne by auto with files
    | rewrite lookup_alter_ne by auto with files
    | match goal with E : ?fs !! ?p = Some _ |- context [?fs !! ?p] => rewrite E end
    | match goal with E : ?fs !! ?p = None |- context [?fs !! ?p] => rewrite E end ]; simpl).

Lemma replace_ops_run fs path hdr body :
  let fs' := run_ops (replace_ops fs path hdr body) fs in
  intact fs' path (hdr ++ body) ∧
  fs' !! bak_of path = match fs !! path with Some f => Some f | None => fs !! bak_of path end.
Proof.
  unfold replace_ops, intact. destruct (fs !! path) as [f|] eqn:E; cbn [app]; split;
    fs_eval; try done; eexists; (split; [reflexivity|simpl; auto]).
Qed.

Lemma replace_ops_stop fs path hdr body ft :
  replaced fs path (hdr ++ body) (stop_at ft (replace_ops fs path hdr body) fs).
Proof.
  destruct (replace_ops_run fs path hdr body) as [Hrun _]. revert Hrun.
  unfold replace_ops, stop_at. destruct ft as [n k]; cbn [f_op f_bytes].
  destruct (fs !! path) as [f|] eqn:E; cbn [app];
    do 5 (destruct n as [|n]; [intros _; cbn [lookup list_lookup take];
      first [ apply replaced_not; fs_eval; done | apply replaced_moved; fs_eval; done ]|]).
  all: intros H; try (destruct n); cbn [lookup list_lookup take]; try (by apply replaced_done).
  apply replaced_moved; fs_eval; done.
Qed.

Lemma replace_ops_io_error fs path hdr body ft :
  let r := io_error ft (replace_ops fs path hdr body) fs in
  replaced fs path (hdr ++ body) r.1 ∧ (r.2 = nil_err → intact r.1 path (hdr ++ body)).
Proof.
  destruct (replace_ops_run fs path hdr body) as [Hrun _].
  pose proof (replace_ops_stop fs path hdr body ft) as Hstop.
  unfold io_error. destruct (replace_ops fs path hdr body !! f_op ft) as [op|] eqn:Eop;
    [|split; [by apply replaced_done|done]].
  destruct op; try (split; [exact Hstop|done]).
  cut (intact (run_ops (take (f_op ft) (replace_ops fs path hdr body) ++
    drop (S (f_op ft)) (replace_ops fs path hdr body)) fs) path (hdr ++ body));
    [intros H; split; [by apply replaced_done|done]|].
  clear Hrun Hstop. revert Eop. unfold replace_ops, intact. destruct ft as [n k]; cbn [f_op].
  destruct (fs !! path) as [f|] eqn:E; cbn [app];
    destruct n as [|[|[|[|[|[|n]]]]]]; try done.
  all: intros _; cbn [take drop app]; fs_eval; eexists; (split; [reflexivity|simpl; auto]).
Qed.

(** ** The stores over one record type

    A store is the framing of its records: a header and a body to write, and a
    reader of whole files. What is written ([W]) may carry more than what is read
    back ([A]): a nonce, say. *)
Class RecordCodec (W A : Type) := {
  rc_header : W → bytes;
  rc_body : W → bytes;
  rc_read : bytes → string + A;
  rc_value : W → A;
  rc_storable : W → Prop;
  rc_read_write w : rc_storable w → rc_read (rc_header w ++ rc_body w) = inr (rc_value w);
}.

Inductive Recovery := RecMain | RecBackup | RecFail.

Section store.
Context {W A : Type} {RC : RecordCodec W A}.

Definition save_ops (fs : FS) (path : string) (w : W) : list FsOp :=
  replace_ops fs path (rc_header w) (rc_body w).

(** [readFile(path)]: an absent file does not open. *)
Definition read_path (fs : FS) (path : string) : string + A :=
  match fs !! path with
  | Some f => rc_read (data f)
  | None => inl "no such file"
  end.

Definition load (fs : FS) (path : string) : Recovery * option A :=
  match read_path fs path with
  | inr a => (RecMain, Some a)
  | inl _ =>
      match read_path fs (bak_of path) with
      | inr a => (RecBackup, Some a)
      | inl _ => (RecFail, None)
      end
  end.

(** The store holds [a] so that no crash can lose it. *)
Definition holds (fs : FS) (path : string) (a : A) : Prop :=
  (∃ c, intact fs path c ∧ rc_read c = inr a) ∨
  (fs !! path = None ∧ ∃ c, intact fs (bak_of path) c ∧ rc_read c = inr a).

Lemma load_holds fs path a : holds fs path a → (load fs path).2 = Some a.
Proof.
  unfold load, read_path. intros [(c & (f & -> & -> & _) & H)|(-> & c & (f & -> & -> & _) & H)];
    by rewrite H.
Qed.

Lemma holds_power_loss keep fs path a : holds fs path a → holds (power_loss keep fs) path a.
Proof.
  intros [(c & Hc & H)|(Hn & c & Hc & H)]; [left|right; split].
  - exists c. split; [by apply intact_power_loss|done].
  - by rewrite lookup_power_loss, Hn.
  - exists c. split; [by apply intact_power_loss|done].
Qed.

Lemma intact_ext fs fs' p q c : fs' !! q = fs !! p → intact fs p c → intact fs' q c.
Proof. unfold intact. by intros ->. Qed.

Lemma holds_replaced fs path a b fs' :
  rc_storable b → holds fs path a → replaced fs path (rc_header b ++ rc_body b) fs' →
  holds fs' path a ∨ holds fs' path (rc_value b).
Proof.
  intros Hb Ha [fs2 Hm Hbak|fs2 Hm Hbak [f Hf]|fs2 Hd].
  - left. destruct Ha as [(c & Hc & H)|(Hn & c & Hc & H)]; [left|right].
    + exists c. split; [by eapply intact_ext|done].
    + split; [by rewrite Hm|]. exists c. split; [by eapply intact_ext|done].
  - left. destruct Ha as [(c & Hc & H)|(Hn & _)]; [|by rewrite Hn in Hf].
    right. split; [done|]. exists c. split; [by eapply intact_ext|done].
  - right. left. eexists. split; [done|]. by apply rc_read_write.
Qed.

(** A reported success is a success, whatever the files were before. *)
Lemma attempt_success fs path b o :
  (attempt o (save_ops fs path b) fs).2 = nil_err →
  intact (attempt o (save_ops fs path b) fs).1 path (rc_header b ++ rc_body b).
Proof.
  unfold save_ops. destruct o as [|ft|ft keep]; cbn [attempt]; [intros _|apply replace_ops_io_error|done].
  apply replace_ops_run.
Qed.

Lemma read_intact fs path b :
  rc_storable b → intact fs path (rc_header b ++ rc_body b) → read_path fs path = inr (rc_value b).
Proof. intros Hb (f & Hf & Hd & _). unfold read_path. rewrite Hf, Hd. by apply rc_read_write. Qed.

(** One attempt keeps the store: afterwards it holds the old value or the new
    one, and the new one when the attempt reports success. *)
Lemma holds_attempt fs path a b o :
  rc_storable b → holds fs path a →
  let r := attempt o (save_ops fs path b) fs in
  (holds r.1 path a ∨ holds r.1 path (rc_value b)) ∧ (r.2 = nil_err → holds r.1 path (rc_value b)).
Proof.
  intros Hb Ha. unfold save_ops. destruct o as [|ft|ft keep]; cbn [attempt].
  - assert (holds (run_ops (replace_ops fs path (rc_header b) (rc_body b)) fs) path (rc_value b)) as H.
    { left. eexists. split; [apply replace_ops_run|by apply rc_read_write]. }
    by split; [right|].
  - destruct (replace_ops_io_error fs path (rc_header b) (rc_body b) ft) as [Hr Hok].
    split; [by eapply holds_replaced|]. intros H%Hok. left. eexists.
    split; [done|by apply rc_read_write].
  - split; [|done]. pose proof (replace_ops_stop fs path (rc_header b) (rc_body b) ft) as Hr.
    destruct (holds_replaced _ _ _ _ _ Hb Ha Hr); [left|right]; by apply holds_power_loss.
Qed.

(** A history of attempts, in order. *)
Fixpoint attempts (path : string) (hist : list (W * Outcome)) (fs : FS) : FS * list goerr :=
  match hist with
  | [] => (fs, [])
  | (a, o) :: hist' =>
      let '(fs1, e) := attempt o (save_ops fs path a) fs in
      let '(fs2, es) := attempts path hist' fs1 in (fs2, e :: es)
  end.

(** Whatever happens after a value is held, the store holds that value or one
    that a later attempt wrote, and nothing older than the last success. *)
Lemma holds_attempts hist fs path a :
  holds fs path a → Forall (λ x, rc_storable x.1) hist →
  ∃ k v, holds (attempts path hist fs).1 path v ∧
    (a :: (rc_value <$> hist.*1)) !! k = Some v ∧
    ∀ i, (attempts path hist fs).2 !! i = Some nil_err → S i ≤ k.
Proof.
  revert fs a. induction hist as [|[b o] hist IH]; intros fs a Ha Hs; simpl.
  - exists 0, a. split; [done|]. split; [done|]. intros i Hi. by rewrite lookup_nil in Hi.
  - apply Forall_cons in Hs as [Hb Hs]. pose proof (holds_attempt fs path a b o Hb Ha) as [Hor Hok].
    destruct (attempt o (save_ops fs path b) fs) as [fs1 e]; simpl in *.
    assert (∀ x, holds fs1 path x → ∃ k v, holds (attempts path hist fs1).1 path v ∧
      (x :: (rc_value <$> hist.*1)) !! k = Some v ∧
      ∀ i, (attempts path hist fs1).2 !! i = Some nil_err → S i ≤ k) as IH' by auto.
    destruct (attempts path hist fs1) as [fs2 es]; simpl in *.
    assert (e = nil_err ∨ e ≠ nil_err) as [He|He] by (destruct e; auto).
    + destruct (IH' _ (Hok He)) as (k & v & Hv & Hk & Hi). exists (S k), v.
      split; [done|]. split; [done|]. intros [|i]; simpl; [lia|]. intros ?%Hi. lia.
    + destruct Hor as [Hx|Hx]; destruct (IH' _ Hx) as (k & v & Hv & Hk & Hi).
      * destruct k as [|k]; [exists 0|exists (S (S k))]; exists v; (split; [done|]); (split; [done|]);
          intros [|i]; simpl; try (intros [= ?]; done); intros ?%Hi; lia.
      * exists (S k), v. split; [done|]. split; [done|]. intros [|i]; simpl; [intros [= ?]; done|].
        intros ?%Hi. lia.
Qed.
End store.
