(* ===== verification/StateStore.v ===== *)
(** The last-state store (src/internal/state): the in-memory store and the
    file-backed one, behind the interface the consensus service uses. *)
From S2P Require Import Prelude Metrics Codec Files.

Record LastState := mkLastState { ls_Height : N; ls_Round : N }.

#[export] Instance LastState_eq_dec : EqDecision LastState.
Proof. solve_decision. Defined.

Definition ErrNotFound : goerr := Some "not found".

Definition state_fits (s : LastState) : Prop := is_u64 (ls_Height s) ∧ is_u64 (ls_Round s).

(** ** The interface

    A store is a state with the two operations; [env] is what the outside world
    does to one call (latency, faults). The law is what the service relies on. *)
Class Store (S env : Type) := {
  SaveLastState : env → S → LastState → S * goerr * list MEvent;
  LoadLastState : S → (LastState + string) * list MEvent;
  save_load e st s :
    state_fits s → (SaveLastState e st s).1.2 = nil_err →
    (LoadLastState (SaveLastState e st s).1.1).1 = inl s;
}.

(** ** MemoryStore *)
Record MemoryStore := mkMemoryStore { have : bool; last : LastState }.

Definition NewMemoryStore : MemoryStore := {| have := false; last := mkLastState 0 0 |}.

Definition mem_SaveLastState (m : MemoryStore) (s : LastState) : MemoryStore * goerr :=
  ({| have := true; last := s |}, nil_err).

Definition mem_LoadLastState (m : MemoryStore) : LastState + string :=
  if have m then inl (last m) else inr "not found".

#[export] Program Instance memory_store : Store MemoryStore unit :=
  {| SaveLastState _ m s := (mem_SaveLastState m s, []);
     LoadLastState m := (mem_LoadLastState m, []) |}.
Next Obligation. done. Qed.

(** ** FileStore *)
Definition magic : N := 0x53544442.
Definition version : N := 1.

Definition encode_payload (s : LastState) : bytes :=
  be_encode 8 (ls_Height s) ++ be_encode 8 (ls_Round s).

Definition decode_payload (p : bytes) : LastState :=
  {| ls_Height := be_decode (take 8 p); ls_Round := be_decode (take 8 (drop 8 p)) |}.

Definition state_header (s : LastState) : bytes :=
  let payload := encode_payload s in
  encode_header {| h_magic := magic; h_version := version; h_flags := 0;
    h_length := N.of_nat (length payload); h_crc := crc32 payload |}.

Definition readFile (content : bytes) : string + LastState :=
  match ReadFull 16 content with
  | None => inl "unexpected EOF"
  | Some (hdr, rest) =>
      let h := decode_header hdr in
      RETURN inl "bad magic" IF ⌜? h_magic h ≠ magic ⌝ ;;
      RETURN inl "bad length" IF ⌜? h_length h ≠ 16%N ⌝ ;;
      match ReadFull 16 rest with
      | None => inl "unexpected EOF"
      | Some (payload, _) =>
          RETURN inl "crc mismatch" IF ⌜? crc32 payload ≠ h_crc h ⌝ ;;
          inr (decode_payload payload)
      end
  end.

Lemma length_encode_payload s : length (encode_payload s) = 16.
Proof. unfold encode_payload. by rewrite length_app, !length_be_encode. Qed.

Lemma decode_encode_payload s : state_fits s → decode_payload (encode_payload s) = s.
Proof.
  intros [H1 H2]. destruct s as [h r]. unfold decode_payload, encode_payload.
  cbn [ls_Height ls_Round] in *. rewrite take_be, drop_be.
  rewrite <-(app_nil_r (be_encode 8 r)), take_be. by rewrite !be_decode_encode.
Qed.

Lemma readFile_write s : state_fits s → readFile (state_header s ++ encode_payload s) = inr s.
Proof.
  intros Hs. unfold readFile, state_header.
  rewrite ReadFull_app by apply length_encode_header.
  rewrite decode_encode_header.
  2:{ pose proof (crc32_below (encode_payload s)). rewrite length_encode_payload.
      repeat split; simpl; done. }
  cbn [h_magic h_length h_crc]. rewrite length_encode_payload.
  rewrite <-(app_nil_r (encode_payload s)) at 1.
  rewrite ReadFull_app by apply length_encode_payload.
  rewrite !bool_decide_false by (by intros []). by rewrite decode_encode_payload.
Qed.

#[export] Instance state_codec : RecordCodec LastState LastState :=
  {| rc_header := state_header; rc_body := encode_payload; rc_read := readFile; rc_value s := s;
     rc_storable := state_fits; rc_read_write := readFile_write |}.

(** [writeFileAtomic]: the operations of a save, run to the outcome [o]. *)
Definition writeFileAtomic (o : Outcome) (path : string) (s : LastState) (fs : FS) : FS * goerr :=
  attempt o (save_ops fs path s) fs.

(** [SaveLastState]; [ms] is the measured latency. *)
Definition fs_SaveLastState (o : Outcome) (ms : N) (path : string) (s : LastState) (fs : FS)
    : FS * goerr * list MEvent :=
  let '(fs', err) := writeFileAtomic o path s fs in
  RETURN (fs', err, [Inc "state_persist_errors_total" []]) IF ⌜? err ≠ nil_err ⌝ ;;
  (fs', nil_err, [Observe "state_persist_ms" [] (float64_of ms)]).

Definition fs_LoadLastState (path : string) (fs : FS) : (LastState + string) * list MEvent :=
  match read_path fs path with
  | inr s => (inl s, [Inc "state_recovery_total" [("result", "ok")]])
  | inl _ =>
      match read_path fs (path +:+ ".bak") with
      | inr s => (inl s, [Inc "state_recovery_total" [("result", "fallback")]])
      | inl _ => (inr "not found", [Inc "state_recovery_total" [("result", "fail")]])
      end
  end.

Lemma fs_Load_load path fs :
  (fs_LoadLastState path fs).1 =
    match (load fs path).2 with Some s => inl s | None => inr "not found" end.
Proof.
  unfold fs_LoadLastState, load, bak_of. destruct (read_path fs path); [|done].
  by destruct (read_path fs _).
Qed.

Lemma fs_Save_attempt o ms path s fs :
  (fs_SaveLastState o ms path s fs).1 = attempt o (save_ops fs path s) fs.
Proof.
  unfold fs_SaveLastState, writeFileAtomic. destruct (attempt _ _ _) as [fs' e]. simpl.
  destruct e; [by rewrite bool_decide_true|by rewrite bool_decide_false by (intros []; done)].
Qed.

Lemma fs_Save_nil o ms path s fs :
  state_fits s → (fs_SaveLastState o ms path s fs).1.2 = nil_err →
  read_path (fs_SaveLastState o ms path s fs).1.1 path = inr s.
Proof. rewrite fs_Save_attempt. intros Hs H. by apply (read_intact (RC := state_codec) _ _ s), (attempt_success _ _ s). Qed.

(** The file store of one path implements the interface. *)
#[export] Program Instance file_store (path : string) : Store FS (Outcome * N) :=
  {| SaveLastState e fs s := fs_SaveLastState e.1 e.2 path s fs;
     LoadLastState fs := fs_LoadLastState path fs |}.
Next Obligation.
  intros path [o ms] fs s Hs H. simpl in *. unfold fs_LoadLastState. by rewrite fs_Save_nil.
Qed.

(** A run of saves, each with its outcome and latency. *)
Fixpoint saves (path : string) (hist : list (LastState * Outcome)) (fs : FS) : FS * list goerr :=
  match hist with
  | [] => (fs, [])
  | (s, o) :: hist' =>
      let '(fs1, e, _) := fs_SaveLastState o 0 path s fs in
      let '(fs2, es) := saves path hist' fs1 in (fs2, e :: es)
  end.

Lemma saves_attempts path hist fs : saves path hist fs = attempts path hist fs.
Proof.
  revert fs. induction hist as [|[s o] hist IH]; intros fs; simpl; [done|].
  pose proof (fs_Save_attempt o 0 path s fs) as H.
  destruct (fs_SaveLastState o 0 path s fs) as [[fs1 e] ev]. simpl in H. rewrite <-H.
  by rewrite IH.
Qed.

(** C30. Durability of the file store. Once a save has returned nil, then after
    any later history of saves, each of which may complete, fail with an I/O
    error at any operation and byte, or be cut by a power loss that drops
    unsynced bytes, LoadLastState returns a state: the saved one or one of a
    later save, and never one older than the last save that returned nil. *)
Theorem file_store_durable (o : Outcome) (ms : N) (path : string) (s : LastState) (fs : FS)
    (hist : list (LastState * Outcome)) :
  state_fits s → Forall (λ x, state_fits x.1) hist →
  (fs_SaveLastState o ms path s fs).1.2 = nil_err →
  let r := saves path hist (fs_SaveLastState o ms path s fs).1.1 in
  ∃ k v, (fs_LoadLastState path r.1).1 = inl v ∧ (s :: hist.*1) !! k = Some v ∧
    ∀ i, r.2 !! i = Some nil_err → S i ≤ k.
Proof.
  rewrite fs_Save_attempt. intros Hs Hh Hok r. subst r. rewrite saves_attempts.
  assert (holds (attempt o (save_ops fs path s) fs).1 path s) as H.
  { left. eexists. split; [by apply (attempt_success _ _ s)|]. by apply readFile_write. }
  destruct (holds_attempts hist _ _ _ H Hh) as (k & v & Hv & Hk & Hi).
  exists k, v. rewrite fs_Load_load, (load_holds _ _ _ Hv). split; [done|]. split; [|done].
  rewrite <-Hk. f_equal. f_equal. symmetry. apply list_fmap_id.
Qed.

Definition sample_history : list (LastState * Outcome) :=
  [(mkLastState 2 0, IOError (mkFault 5 0)); (mkLastState 3 1, Crashed (mkFault 4 7) (λ _, 0));
   (mkLastState 4 2, Crashed (mkFault 2 9) (λ _, 3))].

Lemma file_store_durable_witness :
  let r := saves "s.dat" sample_history (fs_SaveLastState Completed 1 "s.dat" (mkLastState 1 0) ∅).1.1 in
  (∃ k v, (fs_LoadLastState "s.dat" r.1).1 = inl v ∧
    (mkLastState 1 0 :: sample_history.*1) !! k = Some v ∧
    ∀ i, r.2 !! i = Some nil_err → S i ≤ k) ∧
  (fs_LoadLastState "s.dat" r.1).1 = inl (mkLastState 1 0).
Proof.
  split.
  - apply (file_store_durable Completed 1 "s.dat" (mkLastState 1 0) ∅ sample_history).
    + split; reflexivity.
    + repeat constructor.
    + reflexivity.
  - vm_compute. reflexivity.
Defined.

Lemma length_state_header s : length (state_header s) = 16.
Proof. apply length_encode_header. Qed.

Lemma insert_payload s i b :
  <[16 + i := b]> (state_header s ++ encode_payload s) =
    state_header s ++ <[i := b]> (encode_payload s).
Proof.
  rewrite insert_app_r_alt by (rewrite length_state_header; lia).
  rewrite length_state_header. do 2 f_equal. lia.
Qed.

Lemma readFile_corrupt s i b :
  i < 16 → encode_payload s !! i ≠ Some b →
  readFile (state_header s ++ <[i := b]> (encode_payload s)) = inl "crc mismatch".
Proof.
  intros Hi Hb. unfold readFile, state_header.
  rewrite ReadFull_app by apply length_encode_header.
  rewrite decode_encode_header.
  2:{ pose proof (crc32_below (encode_payload s)). rewrite length_encode_payload.
      repeat split; simpl; done. }
  cbn [h_magic h_length h_crc]. rewrite length_encode_payload.
  rewrite <-(app_nil_r (<[i := b]> (encode_payload s))).
  rewrite ReadFull_app by (by rewrite length_insert, length_encode_payload).
  rewrite (bool_decide_false (magic ≠ magic)), (bool_decide_false (N.of_nat 16 ≠ 16%N))
    by (by intros []).
  rewrite bool_decide_true; [done|]. intros Heq.
  destruct (lookup_lt_is_Some_2 (encode_payload s) i) as [x Hx];
    [by rewrite length_encode_payload|].
  rewrite insert_take_drop in Heq by (by rewrite length_encode_payload).
  assert (encode_payload s = take i (encode_payload s) ++ x :: drop (S i) (encode_payload s)) as Hs
    by (by rewrite take_drop_middle).
  rewrite Hs in Heq at 3.
  apply crc32_one_byte in Heq. by subst.
Qed.

(** Damage to the bytes of a file. *)
Definition corrupt (path : string) (i : nat) (b : Byte.byte) (fs : FS) : FS :=
  alter (λ f, mkFile (<[i := b]> (data f)) (synced f)) path fs.

(** A corrupted payload byte is detected and the backup answers: after two
    successful saves, changing any byte of the payload of the main file makes
    LoadLastState fall back to the previous state, and count the fallback. *)
Theorem corruption_falls_back (path : string) (s1 s2 : LastState) (fs : FS) (i : nat)
    (b : Byte.byte) :
  state_fits s1 → state_fits s2 → i < 16 → encode_payload s2 !! i ≠ Some b →
  let fs1 := (fs_SaveLastState Completed 0 path s1 fs).1.1 in
  let fs2 := (fs_SaveLastState Completed 0 path s2 fs1).1.1 in
  fs_LoadLastState path (corrupt path (16 + i) b fs2) =
    (inl s1, [Inc "state_recovery_total" [("result", "fallback")]]).
Proof.
  intros H1 H2 Hi Hb fs1 fs2. subst fs2 fs1. rewrite !fs_Save_attempt. unfold attempt, save_ops.
  cbn [rc_header rc_body state_codec fst].
  destruct (replace_ops_run fs path (state_header s1) (encode_payload s1)) as [(f1 & Hf1 & Hd1 & _) _].
  set (fs1 := run_ops _ fs) in *.
  destruct (replace_ops_run fs1 path (state_header s2) (encode_payload s2))
    as [(f2 & Hf2 & Hd2 & _) Hbak].
  set (fs2 := run_ops _ fs1) in *. rewrite Hf1 in Hbak.
  unfold fs_LoadLastState, read_path, corrupt. cbn [rc_read state_codec].
  rewrite lookup_alter_eq, Hf2. cbn [fmap option_fmap option_map data].
  rewrite Hd2, insert_payload, readFile_corrupt by done.
  rewrite lookup_alter_ne by (fold (bak_of path); auto with files).
  fold (bak_of path). rewrite Hbak, Hd1. by rewrite readFile_write.
Qed.

Lemma corruption_falls_back_witness :
  let fs1 := (fs_SaveLastState Completed 0 "s" (mkLastState 1 2) ∅).1.1 in
  let fs2 := (fs_SaveLastState Completed 0 "s" (mkLastState 3 4) fs1).1.1 in
  fs_LoadLastState "s" (corrupt "s" (16 + 7) Byte.xff fs2) =
    (inl (mkLastState 1 2), [Inc "state_recovery_total" [("result", "fallback")]]).
Proof.
  apply (corruption_falls_back "s" (mkLastState 1 2) (mkLastState 3 4) ∅ 7 Byte.xff).
  - split; reflexivity.
  - split; reflexivity.
  - lia.
  - vm_compute. discriminate.
Defined.

(** The previous main file replaces the backup even when it is unreadable: a
    save over a corrupt main file that is cut before the promotion leaves
    neither a good main file nor a good backup. *)
Example save_over_corrupt_main_can_lose_both :
  let fs1 := (fs_SaveLastState Completed 0 "s" (mkLastState 1 0) ∅).1.1 in
  let fs2 := (fs_SaveLastState Completed 0 "s" (mkLastState 2 0) fs1).1.1 in
  let fs3 := corrupt "s" 20 Byte.xff fs2 in
  let fs4 := (fs_SaveLastState (Crashed (mkFault 5 0) (λ _, 0)) 0 "s" (mkLastState 3 0) fs3).1.1 in
  (fs_LoadLastState "s" fs3).1 = inl (mkLastState 1 0) ∧
  (fs_LoadLastState "s" fs4).1 = inr "not found".
Proof. vm_compute. done. Qed.
