(* ===== verification/QbftWal.v ===== *)
(** The write-ahead log of votes (src/internal/consensus/qbft/wal.go): one JSON
    line per prepare or commit, appended and synced before the vote is used,
    and scanned for the last one at start. *)
From S2P Require Import Prelude Metrics QbftMessage Codec Files.

Record walEntry := mkWalEntry {
  we_Type : string;
  we_Height : N;
  we_Round : N;
  we_ID : string;
  we_From : string;
}.

#[export] Instance walEntry_eq_dec : EqDecision walEntry.
Proof. solve_decision. Defined.
#[export] Program Instance walEntry_countable : Countable walEntry :=
  inj_countable' (λ e, (we_Type e, we_Height e, we_Round e, we_ID e, we_From e))
    (λ '(t, h, r, i, f), mkWalEntry t h r i f) _.
Next Obligation. by intros []. Qed.

Definition entry_of (msg : Message) : walEntry :=
  {| we_Type := Type_ msg; we_Height := Height msg; we_Round := Round msg; we_ID := ID msg;
     we_From := From msg |}.

Definition message_of (e : walEntry) : Message :=
  {| From := we_From e; Height := we_Height e; Round := we_Round e; Type_ := we_Type e;
     Payload := []; ID := we_ID e; TraceID := ""; Sig := [] |}.

(** ** [bufio.Scanner] with [ScanLines]

    Lines end at a newline; a last line without one is a token too; a trailing
    carriage return is dropped; a line of 64 KiB or more stops the scan. *)
Definition newline : Byte.byte := Byte.x0a.
Definition MaxScanTokenSize : N := 65536.

Fixpoint split_lines (bs : bytes) : list bytes * bytes :=
  match bs with
  | [] => ([], [])
  | b :: bs' =>
      let '(ls, tl) := split_lines bs' in
      if ⌜? b = newline ⌝ then ([] :: ls, tl)
      else match ls with
           | [] => ([], b :: tl)
           | l :: ls' => ((b :: l) :: ls', tl)
           end
  end.

Definition dropCR (l : bytes) : bytes :=
  if ⌜? last l = Some Byte.x0d ⌝ then take (length l - 1) l else l.

Fixpoint until_too_long (ls : list bytes) : list bytes :=
  match ls with
  | [] => []
  | l :: ls' => RETURN [] IF (MaxScanTokenSize <=? N.of_nat (length l))%N ;; l :: until_too_long ls'
  end.

Definition scan_lines (bs : bytes) : list bytes :=
  let '(ls, tl) := split_lines bs in
  dropCR <$> until_too_long (ls ++ match tl with [] => [] | _ => [tl] end).

Section wal.
Context {J : Json walEntry}.

(** A [*WAL] is nil or the path of its file. *)
Definition WAL : Type := option string.
Definition NewWAL (path : string) : WAL := Some path.

Definition wal_line (msg : Message) : bytes := marshal (entry_of msg) ++ [newline].

Definition append_ops (path : string) (msg : Message) : list FsOp :=
  [OpOpen path; OpAppend path (wal_line msg); OpSync path].

(** [o] is what the operating system does to the call's file operations. *)
Definition AppendIntent (o : Outcome) (w : WAL) (msg : Message) (fs : FS) : FS * goerr * list MEvent :=
  match w with
  | None => (fs, nil_err, [])
  | Some path =>
      RETURN (fs, nil_err, []) IF ⌜? Type_ msg ≠ MsgPrepare ⌝ && ⌜? Type_ msg ≠ MsgCommit ⌝ ;;
      let '(fs', err) := attempt o (append_ops path msg) fs in
      RETURN (fs', err, []) IF ⌜? err ≠ nil_err ⌝ ;;
      (fs', nil_err, [Inc "qbft_wal_appends_total" []])
  end.

Definition scan_step (last : Message) (line : bytes) : Message :=
  match unmarshal line with
  | Some e => message_of e
  | None => last
  end.

Definition LastIntent (w : WAL) (fs : FS) : (Message + string) * list MEvent :=
  match w with
  | None => (inr "nil wal", [])
  | Some path =>
      match fs !! path with
      | None => (inr "no such file", [])
      | Some f =>
          let last := foldl scan_step zero_message (scan_lines (data f)) in
          RETURN (inr "no entries", []) IF ⌜? Type_ last = "" ⌝ ;;
          (inl last, [Inc "qbft_wal_recover_total" [("result", "ok")]])
      end
  end.

(** ** Scanning a log *)
Lemma split_lines_cons l bs :
  newline ∉ l → split_lines (l ++ newline :: bs) = (l :: (split_lines bs).1, (split_lines bs).2).
Proof.
  induction l as [|b l IH]; simpl; intros Hl.
  - by destruct (split_lines bs).
  - apply not_elem_of_cons in Hl as [Hb Hl]. rewrite IH by done. by rewrite bool_decide_false.
Qed.

Lemma split_lines_tail l : newline ∉ l → split_lines l = ([], l).
Proof.
  induction l as [|b l IH]; simpl; intros Hl; [done|].
  apply not_elem_of_cons in Hl as [Hb Hl]. rewrite IH by done. by rewrite bool_decide_false.
Qed.

Lemma split_lines_log ls tl :
  Forall (λ l, newline ∉ l) ls → newline ∉ tl →
  split_lines (concat ((λ l, l ++ [newline]) <$> ls) ++ tl) = (ls, tl).
Proof.
  intros Hls Htl. induction Hls as [|l ls Hl Hls IH]; [by apply split_lines_tail|].
  rewrite fmap_cons. cbn [concat]. rewrite <-!app_assoc. cbn [app].
  by rewrite split_lines_cons, IH.
Qed.

Lemma until_too_long_short ls :
  Forall (λ l, N.of_nat (length l) < MaxScanTokenSize)%N ls → until_too_long ls = ls.
Proof.
  induction 1 as [|l ls Hl Hls IH]; simpl; [done|].
  rewrite (proj2 (N.leb_gt _ _)) by done. by rewrite IH.
Qed.

(** The entries a vote log may hold without hiding others. *)
Definition loggable (m : Message) : Prop :=
  is_vote m = true ∧ json_stable (entry_of m) ∧
  (N.of_nat (length (marshal (entry_of m))) < MaxScanTokenSize)%N.

Definition log_bytes (vs : list Message) : bytes := concat (wal_line <$> vs).

Lemma dropCR_marshal e : dropCR (marshal e) = marshal e.
Proof. unfold dropCR. rewrite bool_decide_false; [done|apply marshal_no_cr]. Qed.

(** What LastIntent reports of a vote. *)
Definition intent_of (m : Message) : Message := message_of (entry_of m).

Lemma foldl_scan_log vs m0 :
  Forall loggable vs →
  foldl scan_step m0 ((λ m, marshal (entry_of m)) <$> vs) = default m0 (intent_of <$> last vs).
Proof.
  intros Hvs. revert m0. induction Hvs as [|m vs (Hv & Hs & Hl) Hvs IH]; intros m0; simpl; [done|].
  rewrite IH. unfold scan_step. rewrite unmarshal_marshal by done.
  destruct vs; simpl; [done|]. by destruct (last _) eqn:E; [|apply last_None in E].
Qed.

Lemma scan_lines_log vs tl :
  Forall loggable vs → newline ∉ tl → (N.of_nat (length tl) < MaxScanTokenSize)%N →
  scan_lines (log_bytes vs ++ tl) =
    ((λ m, marshal (entry_of m)) <$> vs) ++ (dropCR <$> match tl with [] => [] | _ => [tl] end).
Proof.
  intros Hvs Htl Hlen. unfold scan_lines, log_bytes, wal_line.
  assert ((λ m, marshal (entry_of m) ++ [newline]) <$> vs =
    (λ l, l ++ [newline]) <$> ((λ m, marshal (entry_of m)) <$> vs)) as ->
    by (by rewrite <-list_fmap_compose).
  rewrite split_lines_log.
  2:{ apply Forall_fmap, Forall_true. intros m. apply marshal_no_newline. }
  2:{ done. }
  rewrite until_too_long_short.
  2:{ apply Forall_app. split; [|by destruct tl; repeat constructor].
      apply Forall_fmap. eapply Forall_impl; [done|]. by intros m (_ & _ & ?). }
  rewrite fmap_app. f_equal. rewrite <-list_fmap_compose.
  apply list_fmap_ext. intros i m _. simpl. apply dropCR_marshal.
Qed.

(** The last intent read from a log followed by the first [n] bytes of a line. *)
Lemma scan_torn_log vs m n m0 :
  Forall loggable vs → loggable m →
  foldl scan_step m0 (scan_lines (log_bytes vs ++ take n (wal_line m))) =
    if (n <? length (marshal (entry_of m)))%nat then default m0 (intent_of <$> last vs)
    else intent_of m.
Proof.
  intros Hvs Hm. pose proof Hm as (Hv & Hs & Hlen). unfold wal_line.
  destruct (Nat.ltb_spec n (length (marshal (entry_of m)))) as [Hn|Hn].
  - rewrite take_app_le by lia.
    assert (newline ∉ take n (marshal (entry_of m))) as Hnl.
    { intros H%elem_of_take. destruct H as (i & H & _). apply list_elem_of_lookup_2 in H.
      by apply marshal_no_newline in H. }
    rewrite scan_lines_log; [|done|done|rewrite length_take; lia].
    rewrite foldl_app, foldl_scan_log by done.
    destruct (take n (marshal (entry_of m))) as [|b tl] eqn:E; [done|].
    cbn [fmap list_fmap foldl]. unfold scan_step, dropCR.
    destruct (bool_decide _); rewrite <-E.
    + rewrite take_take, unmarshal_prefix; [done|lia].
    + by rewrite unmarshal_prefix.
  - destruct (decide (n = length (marshal (entry_of m)))) as [->|Hne].
    + rewrite take_app_length. rewrite scan_lines_log by (done || apply marshal_no_newline).
      rewrite foldl_app. destruct (marshal (entry_of m)) as [|b tl] eqn:E.
      * exfalso. pose proof (unmarshal_marshal _ Hs) as Hu. by rewrite E, unmarshal_nil in Hu.
      * cbn [fmap list_fmap foldl]. rewrite <-E, dropCR_marshal. unfold scan_step.
        by rewrite unmarshal_marshal.
    + rewrite take_ge by (rewrite length_app; simpl; lia).
      replace (log_bytes vs ++ marshal (entry_of m) ++ [newline]) with (log_bytes (vs ++ [m]) ++ []).
      2:{ unfold log_bytes, wal_line. rewrite fmap_app, concat_app. simpl.
          by rewrite !app_nil_r. }
      rewrite scan_lines_log; [|by apply Forall_app; auto|by apply not_elem_of_nil|done].
      rewrite foldl_app, foldl_scan_log by (by apply Forall_app; auto).
      by rewrite last_snoc.
Qed.

(** ** A log file and one append *)
Definition logged (fs : FS) (path : string) (vs : list Message) : Prop :=
  (fs !! path = None ∧ vs = []) ∨ intact fs path (log_bytes vs).

Lemma append_ops_run fs path m vs :
  logged fs path vs → intact (run_ops (append_ops path m) fs) path (log_bytes (vs ++ [m])).
Proof.
  assert (log_bytes (vs ++ [m]) = log_bytes vs ++ wal_line m) as ->.
  { unfold log_bytes. rewrite fmap_app, concat_app. simpl. by rewrite app_nil_r. }
  intros [[Hn ->]|(f & Hf & Hd & Hs)]; unfold intact, append_ops; fs_eval;
    eexists; (split; [reflexivity|]); simpl; [auto|]. by rewrite Hd.
Qed.

(** What the log can contain when the append was not reported as done. *)
Definition torn (fs : FS) (path : string) (vs : list Message) (m : Message) : Prop :=
  (fs !! path = None ∧ vs = []) ∨
  ∃ f n, fs !! path = Some f ∧ data f = log_bytes vs ++ take n (wal_line m) ∧
    length (log_bytes vs) ≤ synced f.

Lemma torn_power_loss keep fs path vs m : torn fs path vs m → torn (power_loss keep fs) path vs m.
Proof.
  intros [[Hn ->]|(f & n & Hf & Hd & Hs)]; [left|right]; rewrite lookup_power_loss.
  - by rewrite Hn.
  - rewrite Hf. eexists _, _. split; [reflexivity|]. unfold lose; simpl.
    rewrite Hd, take_app_ge, take_take by lia. split; [reflexivity|]. rewrite length_app. lia.
Qed.

Lemma logged_torn fs path vs m : logged fs path vs → torn fs path vs m.
Proof.
  intros [[Hn ->]|(f & Hf & Hd & Hs)]; [by left|right]. exists f, 0.
  by rewrite take_0, app_nil_r.
Qed.

Lemma append_ops_stop fs path m vs ft :
  logged fs path vs → torn (stop_at ft (append_ops path m) fs) path vs m.
Proof.
  intros Hl. destruct ft as [n k]. unfold stop_at, append_ops. cbn [f_op f_bytes].
  destruct n as [|[|n]]; cbn [lookup list_lookup take].
  - by apply logged_torn.
  - right. destruct Hl as [[Hn ->]|(f & Hf & Hd & Hs)]; fs_eval;
      eexists _, k; (split; [reflexivity|]); simpl; [auto with lia|by rewrite Hd].
  - right. destruct Hl as [[Hn ->]|(f & Hf & Hd & Hs)]; destruct n; fs_eval;
      eexists _, (length (wal_line m)); (split; [reflexivity|]); simpl; rewrite take_ge by done;
      rewrite ?Hd, ?length_app; auto with lia.
Qed.

Lemma attempt_append fs path m vs o :
  logged fs path vs →
  let r := attempt o (append_ops path m) fs in
  torn r.1 path vs m ∧ (r.2 = nil_err → intact r.1 path (log_bytes (vs ++ [m]))).
Proof.
  intros Hl r. subst r. pose proof (append_ops_run fs path m vs Hl) as Hrun.
  pose proof (append_ops_stop fs path m vs (mkFault 3 0) Hl : torn (run_ops _ fs) _ _ _) as Hfull.
  destruct o as [|ft|ft keep]; cbn [attempt]; [done| |split; [|done]].
  - pose proof (append_ops_stop fs path m vs ft Hl) as Hst.
    unfold io_error. destruct (append_ops path m !! f_op ft) as [op|] eqn:E; [|done].
    destruct op; try done. by destruct ft as [[|[|[|n]]] k].
  - by apply torn_power_loss, append_ops_stop.
Qed.

Lemma LastIntent_torn fs path vs m :
  Forall loggable vs → loggable m → torn fs path vs m →
  (LastIntent (NewWAL path) fs).1 ∈
    [inl (intent_of m); default (inr "no entries") (inl ∘ intent_of <$> last vs); inr "no such file"]
  ∧ (vs ≠ [] → (LastIntent (NewWAL path) fs).1 ≠ inr "no such file").
Proof.
  intros Hvs Hm Ht. assert (∀ x, loggable x → Type_ (intent_of x) ≠ "") as Hne.
  { intros x (Hx & _) Hxe. unfold is_vote in Hx. simpl in Hxe. by rewrite Hxe in Hx. }
  unfold LastIntent, NewWAL. destruct Ht as [[-> ->]|(f & n & -> & -> & _)];
    [by split; [set_solver|]|].
  rewrite scan_torn_log by done. destruct (n <? _)%nat.
  - destruct (last vs) as [x|] eqn:Hx; cbn [fmap option_fmap option_map default].
    + rewrite bool_decide_false; [split; [set_solver|done]|].
      apply Hne. apply last_Some_elem_of in Hx. by eapply Forall_forall in Hx.
    + rewrite bool_decide_true by done. split; [set_solver|done].
  - rewrite bool_decide_false by auto. split; [set_solver|done].
Qed.

Lemma LastIntent_logged fs path vs :
  Forall loggable vs → intact fs path (log_bytes vs) →
  (LastIntent (NewWAL path) fs).1 = default (inr "no entries") (inl ∘ intent_of <$> last vs).
Proof.
  intros Hvs (f & Hf & Hd & _). unfold LastIntent, NewWAL. rewrite Hf, Hd.
  rewrite <-(app_nil_r (log_bytes vs)), scan_lines_log by (done || apply not_elem_of_nil).
  rewrite foldl_app, foldl_scan_log by done. cbn [fmap list_fmap foldl].
  destruct (last vs) as [x|] eqn:Hx; simpl; [|done].
  rewrite bool_decide_false; [done|]. apply last_Some_elem_of in Hx.
  eapply Forall_forall in Hvs as (Hv & _); [|done]. intros He.
  unfold is_vote in Hv. simpl in *. by rewrite He in Hv.
Qed.

Lemma AppendIntent_vote o path m fs :
  is_vote m = true →
  (AppendIntent o (NewWAL path) m fs).1 = attempt o (append_ops path m) fs.
Proof.
  intros Hv. unfold AppendIntent, NewWAL. unfold is_vote in Hv.
  assert (⌜? Type_ m ≠ MsgPrepare ⌝ && ⌜? Type_ m ≠ MsgCommit ⌝ = false) as ->.
  { rewrite !bool_decide_not. by destruct ⌜? Type_ m = MsgPrepare ⌝, ⌜? Type_ m = MsgCommit ⌝. }
  by destruct (attempt _ _ _) as [fs' [e|]].
Qed.

(** Votes appended one after the other without a fault. *)
Definition append_all (path : string) (vs : list Message) (fs : FS) : FS :=
  foldl (λ fs v, (AppendIntent Completed (NewWAL path) v fs).1.1) fs vs.

Lemma append_all_logged path vs : Forall loggable vs → logged (append_all path vs ∅) path vs.
Proof.
  intros Hvs. unfold append_all. induction vs as [|v vs IH] using rev_ind; [by left|].
  apply Forall_app in Hvs as [Hvs [Hv _]%Forall_singleton].
  rewrite foldl_snoc, AppendIntent_vote by done. right.
  eapply attempt_append; [by apply IH|done].
Qed.


(** A line that does not fit the scanner's buffer hides every later vote. *)
Lemma oversized_line_hides_later vs big ws :
  Forall loggable vs → newline ∉ big → (MaxScanTokenSize <= N.of_nat (length big))%N →
  Forall loggable ws →
  foldl scan_step zero_message (scan_lines (log_bytes vs ++ big ++ [newline] ++ log_bytes ws)) =
    default zero_message (intent_of <$> last vs).
Proof.
  intros Hvs Hbig Hlen Hws. set (f := λ m, marshal (entry_of m)).
  assert (∀ us, log_bytes us = concat ((λ l, l ++ [newline]) <$> (f <$> us))) as Hlog.
  { intros us. unfold log_bytes, wal_line. by rewrite <-list_fmap_compose. }
  replace (log_bytes vs ++ big ++ [newline] ++ log_bytes ws) with
    (concat ((λ l, l ++ [newline]) <$> ((f <$> vs) ++ big :: (f <$> ws))) ++ []).
  2:{ rewrite fmap_app, fmap_cons, concat_app. cbn [concat]. rewrite <-!Hlog, app_nil_r.
      by rewrite <-!app_assoc. }
  unfold scan_lines. rewrite split_lines_log; [| |apply not_elem_of_nil].
  2:{ apply Forall_app. split; [|constructor; [done|]];
        apply Forall_fmap, Forall_true; intros m; apply marshal_no_newline. }
  rewrite app_nil_r.
  assert (until_too_long ((f <$> vs) ++ big :: (f <$> ws)) = f <$> vs) as ->.
  { clear -Hvs Hlen. induction Hvs as [|v vs (_ & _ & Hv) Hvs IH]; csimpl.
    - by rewrite (proj2 (N.leb_le _ _)).
    - rewrite (proj2 (N.leb_gt _ _)) by done. by rewrite IH. }
  rewrite <-list_fmap_compose, (list_fmap_ext _ f); [by apply foldl_scan_log|].
  intros i m _. apply dropCR_marshal.
Qed.
End wal.

Definition wal_json : Json walEntry := countable_json walEntry.

Definition vote (r : N) : Message := mkMessage "n1" 7 r MsgPrepare [] "b1" "" [].


(** A torn line is not cut off on restart: the next vote is appended to it, the
    call returns nil, and the vote is not in the log. *)
Example torn_tail_swallows_next_vote :
  let _ := wal_json in
  let w := NewWAL "w.log" in
  let fs1 := append_all "w.log" [vote 0] ∅ in
  let fs2 := (AppendIntent (Crashed (mkFault 1 9) (λ _, 4096)) w (vote 1) fs1).1.1 in
  let r := AppendIntent Completed w (vote 2) fs2 in
  r.1.2 = nil_err ∧ (LastIntent w r.1.1).1 = inl (intent_of (vote 0)).
Proof. vm_compute. done. Qed.
