(* ===== verification/Sha256.v ===== *)
(** SHA-256 (crypto/sha256), which the payload types and the session manager
    use for identifiers: FIPS 180-4 on 32-bit words held as N. *)
From S2P Require Import Prelude Codec.

Definition w32 (n : N) : N := N.land n 0xFFFFFFFF.
Definition w32_add (a b : N) : N := w32 (a + b).
Definition rotr (n x : N) : N := N.lor (N.shiftr x n) (w32 (N.shiftl x (32 - n))).
Definition w32_not (x : N) : N := N.lxor x 0xFFFFFFFF.

Definition Ch (x y z : N) : N := N.lxor (N.land x y) (N.land (w32_not x) z).
Definition Maj (x y z : N) : N := N.lxor (N.lxor (N.land x y) (N.land x z)) (N.land y z).
Definition Sigma0 (x : N) : N := N.lxor (N.lxor (rotr 2 x) (rotr 13 x)) (rotr 22 x).
Definition Sigma1 (x : N) : N := N.lxor (N.lxor (rotr 6 x) (rotr 11 x)) (rotr 25 x).
Definition sigma0 (x : N) : N := N.lxor (N.lxor (rotr 7 x) (rotr 18 x)) (N.shiftr x 3).
Definition sigma1 (x : N) : N := N.lxor (N.lxor (rotr 17 x) (rotr 19 x)) (N.shiftr x 10).

(** The constants: the first 32 bits of the fractional parts of the cube roots
    of the first 64 primes, and of the square roots of the first eight. *)
Fixpoint is_prime_below (d : nat) (n : N) : bool :=
  match d with
  | O | 1 => true
  | S d' => negb (n mod N.of_nat d =? 0)%N && is_prime_below d' n
  end.

Definition first_primes (k : nat) : list N :=
  take k (filter (λ n, is_prime_below (N.to_nat (N.sqrt n)) n = true) (N.of_nat <$> seq 2 310)).

(** The largest root of [n] to the power [e], bit by bit from [bit]. *)
Fixpoint root_bits (bit : nat) (e n r : N) : N :=
  match bit with
  | O => r
  | S bit' =>
      let r' := N.lor r (N.shiftl 1 (N.of_nat bit')) in
      root_bits bit' e n (if (r' ^ e <=? n)%N then r' else r)
  end.

Definition root_fraction (e p : N) : N := w32 (root_bits 40 e (p * 2 ^ (32 * e)) 0).

Definition sha_K : list N := Eval vm_compute in root_fraction 3 <$> first_primes 64.

Definition sha_init : list N := Eval vm_compute in root_fraction 2 <$> first_primes 8.

(** Message schedule: the last sixteen words, newest first. *)
Fixpoint schedule (fuel : nat) (recent : list N) : list N :=
  match fuel with
  | O => []
  | S fuel' =>
      let w i := nth i recent 0%N in
      let x := w32_add (w32_add (sigma1 (w 1)) (w 6)) (w32_add (sigma0 (w 14)) (w 15)) in
      x :: schedule fuel' (x :: take 15 recent)
  end.

Definition round_step (h : list N) (kw : N * N) : list N :=
  match h with
  | [a; b; c; d; e; f; g; h] =>
      let t1 := w32_add (w32_add (w32_add h (Sigma1 e)) (w32_add (Ch e f g) kw.1)) kw.2 in
      let t2 := w32_add (Sigma0 a) (Maj a b c) in
      [w32_add t1 t2; a; b; c; w32_add d t1; e; f; g]
  | _ => h
  end.

Fixpoint words_of (bs : bytes) : list N :=
  match bs with
  | a :: b :: c :: d :: bs' => be_decode [a; b; c; d] :: words_of bs'
  | _ => []
  end.

Definition sha_block (h : list N) (block : bytes) : list N :=
  let w0 := words_of block in
  let ws := w0 ++ schedule 48 (reverse w0) in
  zip_with w32_add h (foldl round_step h (zip sha_K ws)).

Fixpoint blocks (fuel : nat) (bs : bytes) : list bytes :=
  match fuel with
  | O => []
  | S fuel' => match bs with [] => [] | _ => take 64 bs :: blocks fuel' (drop 64 bs) end
  end.

(** The message, a one bit, zeros, and the 64-bit length in bits. *)
Definition pad (m : bytes) : bytes :=
  let zeros := (119 - length m mod 64) mod 64 in
  m ++ [Byte.x80] ++ replicate zeros Byte.x00 ++ be_encode 8 (8 * N.of_nat (length m)).

Definition sha256 (m : bytes) : bytes :=
  let p := pad m in
  let h := foldl sha_block sha_init (blocks (S (length p / 64)) p) in
  concat (be_encode 4 <$> h).

Definition hex_digest (s : string) : list N := Byte.to_N <$> sha256 (str_bytes s).

Example sha256_abc : hex_digest "abc" =
  [0xba; 0x78; 0x16; 0xbf; 0x8f; 0x01; 0xcf; 0xea; 0x41; 0x41; 0x40; 0xde; 0x5d; 0xae; 0x22; 0x23;
   0xb0; 0x03; 0x61; 0xa3; 0x96; 0x17; 0x7a; 0x9c; 0xb4; 0x10; 0xff; 0x61; 0xf2; 0x00; 0x15; 0xad]%N.
Proof. vm_compute. reflexivity. Qed.

Example sha256_two_blocks :
  take 4 (hex_digest "abcdbcdecdefdefgefghfghighijhijkijkljklmklmnlmnomnopnopq") =
  [0x24; 0x8d; 0x6a; 0x61]%N.
Proof. vm_compute. reflexivity. Qed.

Lemma length_round_step h kw : length (round_step h kw) = length h.
Proof. by do 9 (destruct h as [|? h]; [done|]). Qed.

Lemma length_sha_block h b : length h = 8 → length (sha_block h b) = 8.
Proof.
  intros Hh. unfold sha_block. rewrite length_zip_with.
  assert (∀ l g, length g = 8 → length (foldl round_step g l) = 8) as Hf.
  { intros l. induction l as [|kw l IH]; intros g Hg; simpl; [done|].
    apply IH. by rewrite length_round_step. }
  rewrite Hf by done. lia.
Qed.

(** A digest has 32 bytes. *)
Lemma length_sha256 m : length (sha256 m) = 32.
Proof.
  unfold sha256. set (bl := blocks _ _). clearbody bl.
  assert (length (foldl sha_block sha_init bl) = 8) as H.
  { assert (∀ h, length h = 8 → length (foldl sha_block h bl) = 8) as Hf by
      (induction bl as [|b bl IH]; intros h Hh; simpl; auto using length_sha_block).
    by apply Hf. }
  revert H. generalize (foldl sha_block sha_init bl). intros h Hh.
  do 8 (destruct h as [|? h]; [done|]). destruct h; [|done].
  simpl. reflexivity.
Qed.
