(* ===== verification/NoncePool.v ===== *)
(** The nonce-ordered mempool that plaintext_v1/pool.go and
    auction_bid_v1/pool.go both implement, over the transaction type: per
    sender, a list of ready transactions with consecutive nonces and a map of
    transactions that wait for a gap to be filled. *)
From S2P Require Import Prelude Metrics.

(** What the pool uses of a transaction. *)
Class NonceTx (T : Type) := {
  tx_From : T → string;
  tx_Nonce : T → N;
  tx_Validate : T → goerr;
  tx_SortKey : T → N;
}.

Section pool.
Context {T : Type} {NT : NonceTx T} {MI : MapIter}.

Record Pool := mkPool {
  expect : gmap string N;
  pendBySender : gmap string (list T);
  future : gmap string (gmap N T);
}.

Definition New : Pool := mkPool ∅ ∅ ∅.

(** Reads of absent map entries give the zero value. *)
Definition expect_of (p : Pool) (s : string) : N := default 0%N (expect p !! s).
Definition pend_of (p : Pool) (s : string) : list T := default [] (pendBySender p !! s).
Definition future_of (p : Pool) (s : string) : gmap N T := default ∅ (future p !! s).

(** Append to the ready list and advance the expected nonce. *)
Definition push_ready (s : string) (tx : T) (p : Pool) : Pool :=
  {| expect := <[s := u64_add (expect_of p s) 1]> (expect p);
     pendBySender := <[s := pend_of p s ++ [tx]]> (pendBySender p);
     future := future p |}.

(** The promotion loop. *)
Fixpoint promote (fuel : nat) (s : string) (p : Pool) : Pool :=
  match fuel with
  | O => p
  | S fuel' =>
      let nx := expect_of p s in
      match future p !! s with
      | None => p
      | Some futs =>
          match futs !! nx with
          | Some next =>
              promote fuel' s (push_ready s next
                {| expect := expect p; pendBySender := pendBySender p;
                   future := <[s := delete nx futs]> (future p) |})
          | None => p
          end
      end
  end.

(** Each turn of the loop deletes one waiting transaction. *)
Definition promote_fuel (s : string) (p : Pool) : nat := S (size (future_of p s)).

Definition mempool_in (result : string) : MEvent := Inc "mempool_in_total" [("result", result)].

Definition Add (p : Pool) (tx : T) : Pool * goerr * list MEvent :=
  RETURN (p, tx_Validate tx, [mempool_in "invalid"]) IF ⌜? tx_Validate tx ≠ nil_err ⌝ ;;
  let s := tx_From tx in
  let exp := expect_of p s in
  RETURN (p, Some "old nonce", [mempool_in "old"]) IF (tx_Nonce tx <? exp)%N ;;
  RETURN (let p1 := push_ready s tx p in (promote (promote_fuel s p1) s p1, nil_err,
            [mempool_in "ok"; AddGauge "mempool_size" [] 1]))
    IF (tx_Nonce tx =? exp)%N ;;
  match future_of p s !! tx_Nonce tx with
  | Some _ => ({| expect := expect p; pendBySender := pendBySender p;
                  future := <[s := future_of p s]> (future p) |},
               Some "duplicate future", [mempool_in "dup"])
  | None => ({| expect := expect p; pendBySender := pendBySender p;
                future := <[s := <[tx_Nonce tx := tx]> (future_of p s)]> (future p) |},
             nil_err, [mempool_in "future"])
  end.

Definition by_key_desc (a b : T) : bool := (tx_SortKey b <? tx_SortKey a)%N.

(** The ready lists, flattened in the order of the map's iteration. *)
Definition flatten (p : Pool) : list T := concat ((iter_map (pendBySender p)).*2).

Definition Get (p : Pool) (n : Z) : list T :=
  let buf := SliceStable by_key_desc (flatten p) in
  if (0 <? n)%Z && (n <? Z.of_nat (length buf))%Z then take (Z.to_nat n) buf else buf.

Definition Len (p : Pool) : nat := sum_list (length <$> (iter_map (pendBySender p)).*2).

#[export] Instance by_key_desc_strict_weak : StrictWeak by_key_desc.
Proof.
  split; unfold by_key_desc; intros *; rewrite ?N.ltb_lt, ?N.ltb_ge; lia.
Qed.

(** ** Reference: the first valid transaction of each sender and nonce *)
Definition first_tx (txs : list T) (s : string) (n : N) : option T :=
  list_find (λ tx, tx_Validate tx = nil_err ∧ tx_From tx = s ∧ tx_Nonce tx = n) txs ≫= λ r, Some r.2.

Definition add_all (txs : list T) : Pool := foldl (λ p tx, (Add p tx).1.1) New txs.

Lemma first_tx_snoc txs tx s n :
  first_tx (txs ++ [tx]) s n =
    match first_tx txs s n with
    | Some t => Some t
    | None => if ⌜? tx_Validate tx = nil_err ∧ tx_From tx = s ∧ tx_Nonce tx = n ⌝
              then Some tx else None
    end.
Proof.
  unfold first_tx. induction txs as [|t txs IH]; simpl.
  - case_bool_decide; case_decide; done.
  - destruct (decide _) as [H|H]; [done|]. destruct (list_find _ (txs ++ [tx])) as [[]|];
      destruct (list_find _ txs) as [[]|]; simpl in *; done.
Qed.

Lemma first_tx_nonce txs s n t :
  first_tx txs s n = Some t → t ∈ txs ∧ tx_Validate t = nil_err ∧ tx_From t = s ∧ tx_Nonce t = n.
Proof.
  unfold first_tx. intros H. apply bind_Some in H as [[i x] [H [= <-]]].
  apply list_find_Some in H as (H & HP & _). simpl. split; [|done].
  by eapply list_elem_of_lookup_2.
Qed.

(** The pool of one sender against a function from nonces to transactions:
    while transactions are being promoted, and once the gap is reached. *)
Record loop_ok (p : Pool) (s : string) (first : N → option T) : Prop := {
  lo_expect : expect_of p s = N.of_nat (length (pend_of p s));
  lo_ready i t : pend_of p s !! i = Some t → first (N.of_nat i) = Some t;
  lo_past n : (n < expect_of p s)%N → future_of p s !! n = None;
  lo_ahead n : (expect_of p s <= n)%N → future_of p s !! n = first n;
}.

Definition sender_ok (p : Pool) (s : string) (first : N → option T) : Prop :=
  loop_ok p s first ∧ first (expect_of p s) = None.

(** Operations on one sender leave the others alone. *)
Definition same_sender (s : string) (p p' : Pool) : Prop :=
  expect_of p s = expect_of p' s ∧ pend_of p s = pend_of p' s ∧ future_of p s = future_of p' s.

Lemma sender_ok_same s p p' first : same_sender s p p' → sender_ok p s first → sender_ok p' s first.
Proof. intros (He & Hp & Hf) [[]]. split; [split|]; by rewrite <-?He, <-?Hp, <-?Hf. Qed.

Lemma same_sender_push s s' tx p : s ≠ s' → same_sender s p (push_ready s' tx p).
Proof.
  intros H. unfold same_sender, expect_of, pend_of, future_of, push_ready; simpl.
  by rewrite !lookup_insert_ne by done.
Qed.

Lemma same_sender_future s s' e q f m :
  s ≠ s' → same_sender s (mkPool e q f) (mkPool e q (<[s' := m]> f)).
Proof.
  intros H. unfold same_sender, expect_of, pend_of, future_of; simpl.
  by rewrite lookup_insert_ne by done.
Qed.

Lemma same_sender_trans s p q r : same_sender s p q → same_sender s q r → same_sender s p r.
Proof. intros (?&?&?) (?&?&?). repeat split; congruence. Qed.

Lemma same_sender_promote fuel s s' p : s ≠ s' → same_sender s p (promote fuel s' p).
Proof.
  intros Hs. revert p. induction fuel as [|fuel IH]; intros p; simpl; [done|].
  destruct (future p !! s') as [futs|]; [|done]. destruct (futs !! _) as [tx|]; [|done].
  eapply same_sender_trans; [|by apply IH].
  eapply same_sender_trans; [|by apply same_sender_push].
  destruct p as [e q f]. simpl. by apply same_sender_future.
Qed.

Definition nonces_fit (first : N → option T) : Prop :=
  ∀ n t, first n = Some t → (n + 1 < two64)%N.

Lemma push_ready_of s tx p :
  expect_of (push_ready s tx p) s = u64_add (expect_of p s) 1 ∧
  pend_of (push_ready s tx p) s = pend_of p s ++ [tx] ∧
  future_of (push_ready s tx p) s = future_of p s.
Proof.
  unfold push_ready, expect_of, pend_of, future_of; simpl. by rewrite !lookup_insert_eq.
Qed.

(** Pushing the transaction the sender waits for. *)
Lemma push_ready_ok s tx p q first :
  expect_of p s = N.of_nat (length (pend_of p s)) →
  (∀ i t, pend_of p s !! i = Some t → first (N.of_nat i) = Some t) →
  (∀ n, (n < expect_of p s)%N → future_of p s !! n = None) →
  (∀ n, (expect_of p s < n)%N → future_of p s !! n = first n) →
  nonces_fit first → first (expect_of p s) = Some tx →
  expect_of q s = expect_of p s → pend_of q s = pend_of p s →
  future_of q s = delete (expect_of p s) (future_of p s) →
  loop_ok (push_ready s tx q) s first.
Proof.
  intros He Hr Hp Ha Hfit Htx Heq Hpq Hfq.
  destruct (push_ready_of s tx q) as (Ee & Ep & Ef).
  assert (u64_add (expect_of q s) 1 = expect_of p s + 1)%N as Hu.
  { rewrite Heq. apply N.mod_small. by eapply Hfit. }
  split; rewrite ?Ee, ?Ep, ?Ef, ?Hu, ?Hpq, ?Hfq.
  - rewrite length_app, He. simpl. lia.
  - intros i t [H|[Hi [Hi2 <-]%list_lookup_singleton_Some]]%lookup_app_Some; [by apply Hr|].
    replace i with (length (pend_of p s)) by lia. by rewrite <-He.
  - intros n Hn. destruct (decide (n = expect_of p s)) as [->|Hne]; [by rewrite lookup_delete_eq|].
    rewrite lookup_delete_ne by done. apply Hp. lia.
  - intros n Hn. rewrite lookup_delete_ne by lia. apply Ha. lia.
Qed.

Lemma promote_ok fuel s p first :
  loop_ok p s first → nonces_fit first → size (future_of p s) < fuel →
  sender_ok (promote fuel s p) s first.
Proof.
  revert p. induction fuel as [|fuel IH]; intros p Hp Hfit Hsz; [lia|]. simpl.
  assert (future_of p s = default ∅ (future p !! s)) as Hf by done.
  pose proof (lo_ahead _ _ _ Hp (expect_of p s) ltac:(lia)) as Hx.
  destruct (future p !! s) as [futs|] eqn:E; simpl in Hf.
  2:{ split; [done|]. by rewrite <-Hx, Hf. }
  rewrite Hf in Hx. destruct (futs !! expect_of p s) as [tx|] eqn:Etx.
  2:{ split; [done|]. by rewrite <-Hx. }
  assert (∀ e q f m, future_of (mkPool e q (<[s := m]> f)) s = m) as Hfo.
  { intros. unfold future_of; simpl. by rewrite lookup_insert_eq. }
  apply IH; [|done|].
  - destruct Hp as [He Hr Hp Ha].
    apply (push_ready_ok s tx p); [done..| |done|by rewrite <-Hx|done|done|by rewrite Hfo, Hf].
    intros n Hn. apply Ha. lia.
  - destruct (push_ready_of s tx (mkPool (expect p) (pendBySender p)
      (<[s := delete (expect_of p s) futs]> (future p)))) as (_ & _ & ->).
    rewrite Hfo, map_size_delete, Etx. rewrite Hf in Hsz. simpl.
    assert (size futs ≠ 0); [|lia]. intros H0%map_size_empty_inv. by rewrite H0 in Etx.
Qed.

Definition pool_ok (p : Pool) (txs : list T) : Prop := ∀ s, sender_ok p s (first_tx txs s).

Lemma Add_other p tx s : s ≠ tx_From tx → same_sender s p (Add p tx).1.1.
Proof.
  intros Hs. unfold Add. destruct ⌜? tx_Validate tx ≠ nil_err ⌝; [done|].
  destruct (_ <? _)%N; [done|]. destruct (_ =? _)%N; cbn [fst snd].
  { eapply same_sender_trans; [by apply same_sender_push|by apply same_sender_promote]. }
  destruct p. destruct (_ !! _); simpl; by apply same_sender_future.
Qed.

Lemma loop_ok_ext p s f g : (∀ n, f n = g n) → loop_ok p s f → loop_ok p s g.
Proof.
  intros H [He Hr Hp Ha]. split; [done| |done|].
  - intros i t ?%Hr. by rewrite <-H.
  - intros n Hn. rewrite <-H. by apply Ha.
Qed.

Lemma sender_ok_ext p s f g : (∀ n, f n = g n) → sender_ok p s f → sender_ok p s g.
Proof. intros H [Hl Hg]. split; [by eapply loop_ok_ext|by rewrite <-H]. Qed.

(** What a further transaction does to the reference function: nothing when it is
    invalid or its nonce is taken, and otherwise it fills its nonce. *)
Lemma first_tx_invalid txs tx n :
  tx_Validate tx ≠ nil_err → first_tx txs (tx_From tx) n = first_tx (txs ++ [tx]) (tx_From tx) n.
Proof.
  intros H. rewrite first_tx_snoc, bool_decide_false by (intros (? & _); congruence). by destruct (first_tx txs _ n).
Qed.

Lemma first_tx_taken txs tx t n :
  first_tx txs (tx_From tx) (tx_Nonce tx) = Some t →
  first_tx txs (tx_From tx) n = first_tx (txs ++ [tx]) (tx_From tx) n.
Proof.
  intros Ht. rewrite first_tx_snoc. destruct (first_tx txs _ n) eqn:En; [done|].
  rewrite bool_decide_false; [done|]. intros (_ & _ & <-). congruence.
Qed.

Lemma first_tx_free txs tx n :
  tx_Validate tx = nil_err → first_tx txs (tx_From tx) (tx_Nonce tx) = None →
  first_tx (txs ++ [tx]) (tx_From tx) n = if ⌜? n = tx_Nonce tx ⌝ then Some tx else first_tx txs (tx_From tx) n.
Proof.
  intros Hv Hn. rewrite first_tx_snoc. destruct (decide (n = tx_Nonce tx)) as [->|Hne].
  - by rewrite Hn, !bool_decide_true.
  - rewrite !bool_decide_false by (try intros (_ & _ & ?); congruence). by destruct (first_tx txs _ n).
Qed.

(** The transaction the sender waits for: it is pushed, and those behind it promoted. *)
Lemma add_next_ok p s tx first :
  sender_ok p s first → tx_Nonce tx = expect_of p s →
  let first' := λ n, if ⌜? n = tx_Nonce tx ⌝ then Some tx else first n in
  nonces_fit first' →
  let p1 := push_ready s tx p in sender_ok (promote (promote_fuel s p1) s p1) s first'.
Proof.
  intros [[He Hr Hp Ha] Hgap] Heq first' Hfit p1. apply promote_ok; [|done|unfold promote_fuel; lia].
  apply (push_ready_ok s tx p); [done| |done| |done| |done|done|].
  - intros i t Ht. unfold first'. rewrite bool_decide_false; [by apply Hr|]. apply lookup_lt_Some in Ht. lia.
  - intros n Hn. unfold first'. rewrite bool_decide_false by lia. apply Ha. lia.
  - unfold first'. by rewrite bool_decide_true.
  - rewrite delete_id; [done|]. by rewrite Ha by lia.
Qed.

(** A transaction ahead of the sender's nonce: it waits, unless one waits there already. *)
Lemma future_of_insert p s m : future_of (mkPool (expect p) (pendBySender p) (<[s := m]> (future p))) s = m.
Proof. unfold future_of; simpl. by rewrite lookup_insert_eq. Qed.

Lemma add_future_ok p s tx first :
  sender_ok p s first → (expect_of p s < tx_Nonce tx)%N →
  sender_ok (mkPool (expect p) (pendBySender p) (<[s := <[tx_Nonce tx := tx]> (future_of p s)]> (future p))) s
    (λ n, if ⌜? n = tx_Nonce tx ⌝ then Some tx else first n).
Proof.
  intros [[He Hr Hp Ha] Hgap] Hgt. split; [split|]; rewrite ?future_of_insert.
  - done.
  - intros i t Ht. rewrite bool_decide_false; [by apply Hr|].
    apply lookup_lt_Some in Ht. change (pend_of _ s) with (pend_of p s) in Ht. lia.
  - intros n Hn. change (expect_of _ s) with (expect_of p s) in Hn. rewrite lookup_insert_ne by lia. by apply Hp.
  - intros n Hn. change (expect_of _ s) with (expect_of p s) in Hn. destruct (decide (n = tx_Nonce tx)) as [->|Hne].
    + by rewrite lookup_insert_eq, bool_decide_true.
    + rewrite lookup_insert_ne, bool_decide_false by done. by apply Ha.
  - change (expect_of _ s) with (expect_of p s). rewrite bool_decide_false by lia. done.
Qed.

Definition add_error (p : Pool) (txs : list T) (tx : T) : goerr :=
  RETURN tx_Validate tx IF ⌜? tx_Validate tx ≠ nil_err ⌝ ;;
  RETURN nil_err IF ⌜? first_tx txs (tx_From tx) (tx_Nonce tx) = None ⌝ ;;
  Some (if (tx_Nonce tx <? expect_of p (tx_From tx))%N then "old nonce" else "duplicate future").

(** [Add] for its own sender. *)
Lemma Add_own p txs tx :
  let s := tx_From tx in
  sender_ok p s (first_tx txs s) → nonces_fit (first_tx (txs ++ [tx]) s) →
  sender_ok (Add p tx).1.1 s (first_tx (txs ++ [tx]) s) ∧ (Add p tx).1.2 = add_error p txs tx.
Proof.
  intros s Hok Hnf. pose proof Hok as [[He Hr Hp Ha] Hgap]. unfold Add, add_error. fold s.
  destruct (bool_decide_reflect (tx_Validate tx ≠ nil_err)) as [Hinv|Hval%dec_stable].
  { split; [|done]. eapply sender_ok_ext; [|done]. intros n. by apply first_tx_invalid. }
  destruct (N.ltb_spec (tx_Nonce tx) (expect_of p s)) as [Hlt|Hge]; cbn [fst snd].
  { destruct (lookup_lt_is_Some_2 (pend_of p s) (N.to_nat (tx_Nonce tx))) as [t Ht]; [lia|].
    apply Hr in Ht. rewrite N2Nat.id in Ht. rewrite Ht. split; [|done].
    eapply sender_ok_ext; [|done]. intros n. by eapply first_tx_taken. }
  destruct (N.eqb_spec (tx_Nonce tx) (expect_of p s)) as [Heq|Hne]; cbn [fst snd].
  - pose proof (first_tx_free txs tx) as Hfree. fold s in Hfree. rewrite Heq, Hgap in *.
    rewrite bool_decide_true by done. split; [|done]. specialize (λ n, Hfree n Hval eq_refl) as Hf.
    eapply sender_ok_ext; [symmetry; apply Hf|]. rewrite <-Heq. apply add_next_ok; [done|done|].
    intros n t Ht. apply (Hnf n t). by rewrite Hf, <-Heq.
  - rewrite (Ha (tx_Nonce tx)) by lia. destruct (first_tx txs s (tx_Nonce tx)) as [t|] eqn:Et; cbn [fst snd]; (split; [|done]).
    + eapply sender_ok_ext; [intros n; by eapply first_tx_taken|].
      eapply sender_ok_same; [|exact Hok]. by split_and!; [..|rewrite future_of_insert].
    + eapply sender_ok_ext; [intros n; symmetry; by apply first_tx_free|]. apply add_future_ok; [done|lia].
Qed.

Lemma Add_ok p txs tx :
  pool_ok p txs → (∀ t, t ∈ txs ++ [tx] → (tx_Nonce t + 1 < two64)%N) →
  pool_ok (Add p tx).1.1 (txs ++ [tx]) ∧ (Add p tx).1.2 = add_error p txs tx.
Proof.
  intros Hok Hfit. destruct (Add_own p txs tx) as [Hown Herr]; [apply Hok| |].
  { intros n t (Hin & _ & _ & <-)%first_tx_nonce. auto. }
  split; [|done]. intros s. destruct (decide (s = tx_From tx)) as [->|Hs]; [done|].
  apply (sender_ok_same s p); [by apply Add_other|]. apply (sender_ok_ext _ _ (first_tx txs s)); [|done].
  intros n. rewrite first_tx_snoc, bool_decide_false by (intros (? & ? & ?); congruence).
  by destruct (first_tx txs s n).
Qed.

Lemma add_all_ok txs :
  (∀ t, t ∈ txs → (tx_Nonce t + 1 < two64)%N) → pool_ok (add_all txs) txs.
Proof.
  induction txs as [|tx txs IH] using rev_ind; intros Hfit.
  - intros s. by split; [split|].
  - unfold add_all. rewrite foldl_snoc. apply Add_ok; [|done].
    apply IH. intros t Ht. apply Hfit, elem_of_app. by left.
Qed.

(** C33. The pool keeps, per sender, exactly the first valid transaction of every
    nonce it has been given, in whatever order they came: the ready list is the
    run of nonces from 0 up to the first one never submitted, in nonce order, and
    the waiting map holds the rest. In particular the promotion loop always runs
    to the gap and no ready transaction is left waiting. *)
Theorem pool_is_first_valid_per_nonce (txs : list T) (s : string) :
  (∀ t, t ∈ txs → (tx_Nonce t + 1 < two64)%N) →
  let p := add_all txs in
  expect_of p s = N.of_nat (length (pend_of p s)) ∧
  (∀ i, i < length (pend_of p s) → pend_of p s !! i = first_tx txs s (N.of_nat i)) ∧
  first_tx txs s (expect_of p s) = None ∧
  (∀ n, future_of p s !! n = if (n <? expect_of p s)%N then None else first_tx txs s n).
Proof.
  intros Hfit p. destruct (add_all_ok txs Hfit s) as [[He Hr Hp Ha] Hg].
  split; [done|]. split; [|split; [done|]].
  - intros i Hi. destruct (lookup_lt_is_Some_2 _ _ Hi) as [t Ht].
    fold p in Hr. rewrite Ht. symmetry. by apply Hr.
  - intros n. destruct (N.ltb_spec n (expect_of p s)); auto.
Qed.

(** Add returns nil exactly for a valid transaction whose sender and nonce
    were not used by an earlier valid one; a repeated nonce is refused as old or
    as a duplicate, an invalid transaction with its validation error; and a
    refusal leaves what the pool holds unchanged. *)
Theorem Add_result (txs : list T) (tx : T) :
  (∀ t, t ∈ txs ++ [tx] → (tx_Nonce t + 1 < two64)%N) →
  let p := add_all txs in
  let r := Add p tx in
  r.1.2 =
    (RETURN tx_Validate tx IF ⌜? tx_Validate tx ≠ nil_err ⌝ ;;
     RETURN nil_err IF ⌜? first_tx txs (tx_From tx) (tx_Nonce tx) = None ⌝ ;;
     Some (if (tx_Nonce tx <? expect_of p (tx_From tx))%N then "old nonce" else "duplicate future"))
  ∧ (r.1.2 ≠ nil_err → ∀ s, same_sender s p r.1.1).
Proof.
  intros Hfit p r. split.
  - apply Add_ok; [|done]. apply add_all_ok. intros t Ht. apply Hfit, elem_of_app. by left.
  - subst r. unfold Add. destruct ⌜? tx_Validate tx ≠ nil_err ⌝; [done|].
    destruct (_ <? _)%N; [done|]. destruct (_ =? _)%N; [done|].
    destruct (_ !! _) eqn:E; [|done]. intros _ s. simpl.
    destruct (decide (s = tx_From tx)) as [->|Hs]; [|by destruct p; apply same_sender_future].
    split_and!; [done..|]. unfold future_of; simpl. by rewrite lookup_insert_eq.
Qed.

Lemma sum_list_concat (ls : list (list T)) : sum_list (length <$> ls) = length (concat ls).
Proof. induction ls as [|l ls IH]; [done|]. simpl. rewrite length_app, <-IH. done. Qed.

Lemma Len_flatten p : Len p = length (flatten p).
Proof. apply sum_list_concat. Qed.

Lemma elem_of_flatten p t : t ∈ flatten p ↔ ∃ s, t ∈ pend_of p s.
Proof.
  unfold flatten, pend_of. rewrite elem_of_concat. split.
  - intros (l & Ht & Hl). apply list_elem_of_fmap in Hl as ([s l'] & -> & Hl).
    rewrite iter_map_perm, elem_of_map_to_list in Hl. exists s. by rewrite Hl.
  - intros (s & Ht). destruct (pendBySender p !! s) as [l|] eqn:E; [|by apply elem_of_nil in Ht].
    exists l. split; [done|]. apply list_elem_of_fmap. exists (s, l).
    by rewrite iter_map_perm, elem_of_map_to_list.
Qed.

(** Get returns ready transactions in non-increasing order of fee or bid,
    all of them when n <= 0, otherwise min n Len of them, and no ready
    transaction that is left out pays more than one that is returned. *)
Theorem Get_best (p : Pool) (n : Z) :
  let g := Get p n in
  StronglySorted (λ a b, tx_SortKey b <= tx_SortKey a)%N g ∧
  Z.of_nat (length g) =
    (if (0 <? n)%Z then n `min` Z.of_nat (Len p) else Z.of_nat (Len p))%Z ∧
  (∀ t, t ∈ g → ∃ s, t ∈ pend_of p s) ∧
  ∃ rest, g ++ rest ≡ₚ flatten p ∧
    ∀ a b, a ∈ g → b ∈ rest → (tx_SortKey b <= tx_SortKey a)%N.
Proof.
  intros g. set (buf := SliceStable by_key_desc (flatten p)).
  assert (∃ k, g = take k buf ∧ Z.of_nat (k `min` length buf) =
    (if (0 <? n)%Z then n `min` Z.of_nat (Len p) else Z.of_nat (Len p))%Z) as (k & Hg & Hk).
  { subst g. unfold Get. fold buf. assert (Len p = length buf) as Hlen.
    { subst buf. by rewrite length_SliceStable, Len_flatten. }
    rewrite Hlen.
    destruct (Z.ltb_spec 0 n), (Z.ltb_spec n (Z.of_nat (length buf))); simpl;
      first [exists (Z.to_nat n); split; [done|lia] |
             exists (length buf); split; [by rewrite take_ge|lia]]. }
  rewrite Hg. split_and!.
  - pose proof (SliceStable_sorted by_key_desc (flatten p)) as Hs. fold buf in Hs.
    rewrite <-(take_drop k buf) in Hs. apply StronglySorted_app_1_l in Hs.
    eapply StronglySorted_weaken; [|exact Hs]. unfold may_precede, by_key_desc.
    intros x y H. by apply N.ltb_ge in H.
  - by rewrite length_take.
  - intros t (i & Ht%list_elem_of_lookup_2 & _)%elem_of_take. apply elem_of_flatten. by apply elem_of_SliceStable in Ht.
  - exists (drop k buf). rewrite take_drop. split; [apply SliceStable_perm|].
    intros a b Ha Hb. pose proof (SliceStable_take_best by_key_desc _ _ _ _ Ha Hb) as H.
    by apply N.ltb_ge in H.
Qed.
End pool.

(** Transactions for the samples: sender, nonce and fee. *)
Definition sample_tx : Type := string * N * N.
Definition sample_nonce_tx : NonceTx sample_tx :=
  {| tx_From t := t.1.1; tx_Nonce t := t.1.2; tx_SortKey t := t.2;
     tx_Validate t := if ⌜? t.1.1 = "" ⌝ then Some "empty" else nil_err |}.

Definition sample_txs : list sample_tx := [("a", 2, 5); ("a", 0, 7); ("", 1, 9); ("b", 0, 1); ("a", 1, 3); ("a", 2, 8)]%N.

Lemma pool_is_first_valid_per_nonce_witness :
  let p := add_all (NT := sample_nonce_tx) sample_txs in
  expect_of p "a" = 3%N ∧
  (∀ i, i < length (pend_of p "a") →
    pend_of p "a" !! i = first_tx (NT := sample_nonce_tx) sample_txs "a" (N.of_nat i)).
Proof.
  split; [vm_compute; reflexivity|].
  apply (pool_is_first_valid_per_nonce (NT := sample_nonce_tx) sample_txs "a").
  apply Forall_forall. repeat constructor.
Defined.

Lemma Add_result_witness :
  let p := add_all (NT := sample_nonce_tx) sample_txs in
  let r := Add (NT := sample_nonce_tx) p ("a", 1, 4)%N in
  r.1.2 = Some "old nonce" ∧ (r.1.2 ≠ nil_err → ∀ s, same_sender s p r.1.1).
Proof.
  apply (Add_result (NT := sample_nonce_tx) sample_txs ("a", 1, 4)%N).
  apply Forall_forall. repeat constructor.
Defined.
