(* ===== verification/Payload.v ===== *)
(** Payloads and mempools (src/internal/payload): the three transaction types,
    their pools behind the TypedMempool interface, and the container that routes
    payloads to pools and records their arrival. *)
From S2P Require Import Prelude Metrics Codec Sha256 NoncePool.

(** ** plaintext_v1 *)
Record PlaintextTx := mkPlaintextTx {
  pt_From : string;
  pt_Nonce : N;
  pt_Gas : N;
  pt_Fee : N;
  pt_Sig : bytes;
}.

(** The cached hash is the value computed here: no code changes a transaction. *)
Definition pt_Hash (t : PlaintextTx) : bytes :=
  sha256 (str_bytes (pt_From t) ++ [byte_of (pt_Nonce t); byte_of (pt_Gas t); byte_of (pt_Fee t)]).

Definition pt_Validate (t : PlaintextTx) : goerr :=
  RETURN Some "invalid" IF ⌜? pt_From t = "" ⌝ || (pt_Gas t =? 0)%N || (length (pt_Sig t) <? 32)%nat ;;
  nil_err.

(** ** auction_bid_v1 *)
Record AuctionBidTx := mkAuctionBidTx {
  ab_From : string;
  ab_Nonce : N;
  ab_Gas : N;
  ab_Bid : N;
  ab_FeeRecipient : string;
  ab_Sig : bytes;
}.

Definition ab_Hash (t : AuctionBidTx) : bytes :=
  sha256 ((str_bytes (ab_From t) ++ str_bytes (ab_FeeRecipient t)) ++
    [byte_of (ab_Nonce t); byte_of (ab_Gas t); byte_of (ab_Bid t)]).

Definition ab_Validate (t : AuctionBidTx) : goerr :=
  RETURN Some "invalid" IF ⌜? ab_From t = "" ⌝ || ⌜? ab_FeeRecipient t = "" ⌝ ||
    (ab_Gas t =? 0)%N || (ab_Bid t =? 0)%N || (length (ab_Sig t) <? 32)%nat ;;
  nil_err.

(** ** private_v1 *)
Record PrivateTx := mkPrivateTx {
  pv_From : string;
  pv_Nonce : N;
  pv_Ciphertext : bytes;
  pv_EphemeralKey : bytes;
  pv_TargetHeight : N;
  pv_BatchIndex : N;
  pv_PuncturedKey : bytes;
}.

Definition pv_Hash (t : PrivateTx) : bytes :=
  sha256 ((str_bytes (pv_From t) ++ [byte_of (pv_Nonce t)]) ++ pv_Ciphertext t).

Definition pv_Validate (t : PrivateTx) : goerr :=
  RETURN Some "invalid" IF ⌜? pv_From t = "" ⌝ || ⌜? pv_Ciphertext t = [] ⌝ ||
    ⌜? pv_EphemeralKey t = [] ⌝ ;;
  nil_err.

#[export] Instance PlaintextTx_eq_dec : EqDecision PlaintextTx.
Proof. solve_decision. Defined.
#[export] Instance AuctionBidTx_eq_dec : EqDecision AuctionBidTx.
Proof. solve_decision. Defined.
#[export] Instance PrivateTx_eq_dec : EqDecision PrivateTx.
Proof. solve_decision. Defined.

(** ** The Payload interface *)
Inductive Payload :=
  | Plaintext (t : PlaintextTx)
  | Auction (t : AuctionBidTx)
  | Private (t : PrivateTx).

#[export] Instance Payload_eq_dec : EqDecision Payload.
Proof. solve_decision. Defined.

Definition Type_of (p : Payload) : string :=
  match p with
  | Plaintext _ => "plaintext_v1"
  | Auction _ => "auction_bid_v1"
  | Private _ => "private_v1"
  end.

Definition Hash (p : Payload) : bytes :=
  match p with
  | Plaintext t => pt_Hash t
  | Auction t => ab_Hash t
  | Private t => pv_Hash t
  end.

Definition SortKey (p : Payload) : N :=
  match p with
  | Plaintext t => pt_Fee t
  | Auction t => ab_Bid t
  | Private _ => 0
  end.

#[export] Instance plaintext_nonce_tx : NonceTx PlaintextTx :=
  {| tx_From := pt_From; tx_Nonce := pt_Nonce; tx_Validate := pt_Validate; tx_SortKey := pt_Fee |}.
#[export] Instance auction_nonce_tx : NonceTx AuctionBidTx :=
  {| tx_From := ab_From; tx_Nonce := ab_Nonce; tx_Validate := ab_Validate; tx_SortKey := ab_Bid |}.

(** ** The private pool *)
Record PrivatePool := mkPrivatePool {
  pp_items : list PrivateTx;
  pp_seen : gset bytes;
  pp_max : nat;
}.

Definition private_New : PrivatePool := mkPrivatePool [] ∅ (N.to_nat 4096).

Definition private_in (result : string) : MEvent := Inc "private_pool_in_total" [("result", result)].

(** [early] is AEQUA_BEAST_EARLY_SHARE=1; the last component lists the heights
    for which [maybeEnsureShare] is called. *)
Definition private_Add (early : bool) (p : PrivatePool) (tx : PrivateTx)
    : PrivatePool * goerr * list MEvent * list N :=
  RETURN (p, pv_Validate tx, [private_in "invalid"], []) IF ⌜? pv_Validate tx ≠ nil_err ⌝ ;;
  RETURN (p, Some "private pool overflow", [private_in "overflow"], [])
    IF (pp_max p <=? length (pp_items p))%nat ;;
  RETURN (p, Some "duplicate private tx", [private_in "dup"], []) IF ⌜? pv_Hash tx ∈ pp_seen p ⌝ ;;
  let items := pp_items p ++ [tx] in
  ({| pp_items := items; pp_seen := {[pv_Hash tx]} ∪ pp_seen p; pp_max := pp_max p |}, nil_err,
   [private_in "ok"; SetGauge "private_pool_size" [] (Z.of_nat (length items))],
   if early then [pv_TargetHeight tx] else []).

Definition private_Get (p : PrivatePool) (n : Z) : list PrivateTx :=
  if (n <=? 0)%Z || (Z.of_nat (length (pp_items p)) <? n)%Z then pp_items p
  else take (Z.to_nat n) (pp_items p).

(** ** TypedMempool *)
Section container.
Context {MI : MapIter}.

Inductive Mempool :=
  | PlaintextPool (p : Pool (T := PlaintextTx))
  | AuctionPool (p : Pool (T := AuctionBidTx))
  | PrivateTxPool (p : PrivatePool).

(** A pool ignores payloads of another type. *)
Definition mempool_Add (early : bool) (m : Mempool) (pl : Payload) : Mempool * goerr * list MEvent :=
  match m, pl with
  | PlaintextPool p, Plaintext tx =>
      let '(p', err, ev) := Add p tx in (PlaintextPool p', err, ev)
  | AuctionPool p, Auction tx =>
      let '(p', err, ev) := Add p tx in (AuctionPool p', err, ev)
  | PrivateTxPool p, Private tx =>
      let '(p', err, ev, _) := private_Add early p tx in (PrivateTxPool p', err, ev)
  | _, _ => (m, nil_err, [])
  end.

Definition mempool_Get (m : Mempool) (n : Z) : list Payload :=
  match m with
  | PlaintextPool p => Plaintext <$> Get p n
  | AuctionPool p => Auction <$> Get p n
  | PrivateTxPool p => Private <$> private_Get p n
  end.

Definition mempool_Len (m : Mempool) : nat :=
  match m with
  | PlaintextPool p => Len p
  | AuctionPool p => Len p
  | PrivateTxPool p => length (pp_items p)
  end.

(** ** Container *)
Record arrivalMeta := mkArrival { Seq : N; TS : Z }.

Record Container := mkContainer {
  impl : gmap string Mempool;
  meta : gmap bytes arrivalMeta;
  seq : N;
}.

Definition NewContainer (pools : gmap string Mempool) : Container := mkContainer pools ∅ 0.

(** [now] is the clock, in nanoseconds. The arrival is recorded before the pool
    decides. *)
Definition container_Add (early : bool) (now : Z) (c : Container) (p : Payload)
    : Container * goerr * list MEvent :=
  match impl c !! Type_of p with
  | None => (c, nil_err, [])
  | Some pool =>
      let s := u64_add (seq c) 1 in
      let '(pool', err, ev) := mempool_Add early pool p in
      ({| impl := <[Type_of p := pool']> (impl c);
          meta := <[Hash p := mkArrival s now]> (meta c); seq := s |}, err, ev)
  end.

Definition GetN (c : Container) (typ : string) (n : Z) : list Payload :=
  match impl c !! typ with
  | None => []
  | Some pool => mempool_Get pool n
  end.

Definition GetAll (c : Container) (typ : string) : list Payload :=
  match impl c !! typ with
  | None => []
  | Some pool =>
      let n := mempool_Len pool in
      RETURN [] IF (n =? 0)%nat ;;
      mempool_Get pool (Z.of_nat n)
  end.

Definition container_Len (c : Container) : nat :=
  sum_list (mempool_Len <$> (iter_map (impl c)).*2).

Definition Arrival (c : Container) (p : Payload) : option arrivalMeta := meta c !! Hash p.

(** *** Lemmas *)
Lemma GetAll_perm c typ :
  GetAll c typ ≡ₚ
    match impl c !! typ with
    | Some (PlaintextPool p) => Plaintext <$> flatten p
    | Some (AuctionPool p) => Auction <$> flatten p
    | Some (PrivateTxPool p) => Private <$> pp_items p
    | None => []
    end.
Proof.
  unfold GetAll. destruct (impl c !! typ) as [pool|]; [|done].
  assert (∀ {T} {NT : NonceTx T} (p : Pool (T := T)), Get p (Z.of_nat (Len p)) ≡ₚ flatten p) as HG.
  { intros T NT p. unfold Get. rewrite length_SliceStable, Len_flatten, Z.ltb_irrefl, andb_false_r.
    apply SliceStable_perm. }
  destruct pool as [p|p|p]; cbn [mempool_Len mempool_Get].
  1,2: destruct (Nat.eqb_spec (Len p) 0) as [Hz|Hz]; [|by rewrite HG];
    rewrite Len_flatten in Hz; by rewrite (nil_length_inv _ Hz).
  destruct (Nat.eqb_spec (length (pp_items p)) 0) as [Hz|Hz]; [by rewrite (nil_length_inv _ Hz)|].
  unfold private_Get. rewrite Z.ltb_irrefl, orb_false_r, (proj2 (Z.leb_gt _ _)) by lia.
  by rewrite Nat2Z.id, firstn_all.
Qed.

(** A container whose pools are filed under their own type. *)
Definition mempool_type (m : Mempool) : string :=
  match m with
  | PlaintextPool _ => "plaintext_v1"
  | AuctionPool _ => "auction_bid_v1"
  | PrivateTxPool _ => "private_v1"
  end.

Definition well_typed (c : Container) : Prop := map_Forall (λ typ m, mempool_type m = typ) (impl c).

Lemma GetAll_typed c typ p : well_typed c → p ∈ GetAll c typ → Type_of p = typ.
Proof.
  intros Hwt. rewrite GetAll_perm. destruct (impl c !! typ) as [m|] eqn:E; [|by intros ?%elem_of_nil].
  apply Hwt in E. destruct m; simpl in E; intros (t & -> & _)%list_elem_of_fmap; done.
Qed.

Lemma mempool_Add_type early m pl : mempool_type (mempool_Add early m pl).1.1 = mempool_type m.
Proof.
  destruct m as [p|p|p], pl as [tx|tx|tx]; simpl; try done.
  - by destruct (Add p tx) as [[]].
  - by destruct (Add p tx) as [[]].
  - by destruct (private_Add early p tx) as [[[]]].
Qed.

Lemma container_Add_typed early now c p :
  well_typed c → well_typed (container_Add early now c p).1.1.
Proof.
  intros Hwt. unfold container_Add. destruct (impl c !! Type_of p) as [m|] eqn:E; [|done].
  pose proof (mempool_Add_type early m p) as Ht.
  destruct (mempool_Add early m p) as [[m' err] ev]. simpl in *.
  apply map_Forall_insert_2; [|done]. rewrite Ht. by apply Hwt.
Qed.
End container.

(** ** The private pool is bounded and free of duplicates *)
Definition private_ok (p : PrivatePool) : Prop :=
  NoDup (pv_Hash <$> pp_items p) ∧ length (pp_items p) ≤ pp_max p ∧
  pp_seen p = list_to_set (pv_Hash <$> pp_items p) ∧ Forall (λ t, pv_Validate t = nil_err) (pp_items p).

Definition private_add_all (early : bool) (txs : list PrivateTx) : PrivatePool :=
  foldl (λ p tx, (private_Add early p tx).1.1.1) private_New txs.

Lemma private_Add_ok early p tx :
  private_ok p →
  private_ok (private_Add early p tx).1.1.1 ∧
  ((private_Add early p tx).1.1.2 = nil_err ↔
     pv_Validate tx = nil_err ∧ length (pp_items p) < pp_max p ∧
     pv_Hash tx ∉ pv_Hash <$> pp_items p).
Proof.
  intros Hok. pose proof Hok as (Hnd & Hlen & Hseen & Hval). unfold private_Add.
  destruct (bool_decide_reflect (pv_Validate tx ≠ nil_err)) as [Hv|Hv]; [by split; [|naive_solver]|].
  apply dec_stable in Hv. destruct (Nat.leb_spec (pp_max p) (length (pp_items p))).
  { split; [done|]. split; [done|]. intros (_ & ? & _). lia. }
  destruct (bool_decide_reflect (pv_Hash tx ∈ pp_seen p)) as [Hin|Hin];
    rewrite Hseen, elem_of_list_to_set in Hin.
  { split; [done|]. split; [done|]. by intros (_ & _ & ?). }
  split; [|done]. split_and!; cbn [fst snd pp_items pp_seen pp_max].
  - rewrite fmap_app. apply NoDup_app. split_and!; [done| |apply NoDup_singleton].
    intros x Hx ->%list_elem_of_singleton. done.
  - rewrite length_app. simpl. lia.
  - rewrite Hseen. apply set_eq. intros x. rewrite fmap_app, list_to_set_app. simpl. set_solver.
  - apply Forall_app. auto.
Qed.

(** The private pool never holds more than 4096 transactions, all valid and
    with pairwise distinct hashes, after any sequence of submissions; and Add
    returns nil exactly for a valid transaction with a new hash when there is
    room. *)
Theorem private_pool_bounded (early : bool) (txs : list PrivateTx) (tx : PrivateTx) :
  let p := private_add_all early txs in
  (N.of_nat (length (pp_items p)) <= 4096)%N ∧
  NoDup (pv_Hash <$> pp_items p) ∧ Forall (λ t, pv_Validate t = nil_err) (pp_items p) ∧
  ((private_Add early p tx).1.1.2 = nil_err ↔
     pv_Validate tx = nil_err ∧ (N.of_nat (length (pp_items p)) < 4096)%N ∧
     pv_Hash tx ∉ pv_Hash <$> pp_items p).
Proof.
  intros p. assert (private_ok p ∧ pp_max p = N.to_nat 4096) as [Hok Hmax].
  { subst p. unfold private_add_all. induction txs as [|t txs IH] using rev_ind.
    - split; [|done]. split_and!; try done; [apply NoDup_nil_2|simpl; lia].
    - rewrite foldl_snoc. destruct IH as [Hok Hm]. split; [by apply private_Add_ok|].
      rewrite <-Hm. unfold private_Add. by repeat case_match. }
  pose proof (private_Add_ok early p tx Hok) as [_ Hadd].
  destruct Hok as (Hnd & Hlen & _ & Hval). rewrite Hmax in *.
  split_and!; [lia|done|done|]. rewrite Hadd.
  assert (length (pp_items p) < N.to_nat 4096 ↔ (N.of_nat (length (pp_items p)) < 4096)%N) as -> by lia.
  done.
Qed.

(** The hash leaves the ephemeral key out: a copy of a transaction with a wrong
    key takes its place and the original is refused. *)
Example private_pool_front_run :
  let tx := mkPrivateTx "alice" 1 [Byte.x01; Byte.x02] [Byte.xaa] 10 0 [] in
  let bogus := mkPrivateTx "alice" 1 [Byte.x01; Byte.x02] [Byte.x00] 10 0 [] in
  (private_Add false (private_add_all false [bogus]) tx).1.1.2 = Some "duplicate private tx".
Proof. vm_compute. reflexivity. Qed.

(** The transaction hash keeps eight bits of the nonce. *)
Example hash_forgets_high_nonce_bits :
  let tx n := mkPlaintextTx "alice" n 1 5 [] in tx 3%N ≠ tx 259%N ∧ pt_Hash (tx 3%N) = pt_Hash (tx 259%N).
Proof. split; [discriminate|vm_compute; reflexivity]. Qed.

(** Sender and fee recipient are concatenated without a separator. *)
Example auction_hash_is_ambiguous :
  let a := mkAuctionBidTx "ab" 0 1 9 "c" [] in
  let b := mkAuctionBidTx "a" 0 1 9 "bc" [] in
  a ≠ b ∧ ab_Hash a = ab_Hash b.
Proof. split; [discriminate|vm_compute; reflexivity]. Qed.

(** The size gauge counts one transaction when several become ready. *)
Example mempool_size_gauge_drifts :
  let tx n := mkPlaintextTx "alice" n 1 5 (replicate 32 Byte.x00) in
  let p := add_all [tx 1%N; tx 2%N] in
  let r := Add p (tx 0%N) in
  length (pend_of r.1.1 "alice") = 3 ∧
  r.2 = [mempool_in "ok"; AddGauge "mempool_size" [] 1].
Proof. vm_compute. done. Qed.

(** Ready transactions of one sender are not returned in nonce order. *)
Example Get_breaks_nonce_order :
  let tx n b := mkAuctionBidTx "alice" n 1 b "r" (replicate 32 Byte.x00) in
  let _ := iter_forward in
  tx_Nonce <$> Get (add_all [tx 0 1; tx 1 9])%N 0 = [1; 0]%N.
Proof. vm_compute. reflexivity. Qed.
