(* ===== verification/Dfba.v ===== *)
(** The dual-flow batch auction solver (src/internal/dfba/dfba.go). *)
From S2P Require Import Prelude Metrics.

Section dfba.
Context {P : Type}.

Record Item := mkItem { it_Payload : P; it_Type : string; it_Key : N; it_Hash : bytes }.

Record DfbaPolicy := mkDfbaPolicy {
  dp_Order : list string;
  dp_MaxN : Z;
  dp_MinBid : N;
  dp_MinFee : N;
  dp_Window : Z;
  dp_BatchTicks : Z;
}.

Definition clamp_max (MaxN : Z) : Z := if (MaxN <=? 0)%Z then 1024%Z else MaxN.
Definition clamp_window (Window max : Z) : Z :=
  if (Window <=? 0)%Z || (max <? Window)%Z then max else Window.

(** Key descending, then hash ascending when both hashes have one length. *)
Definition lessByKeyHash (a b : Item) : bool :=
  RETURN (it_Key b <? it_Key a)%N IF ⌜? it_Key a ≠ it_Key b ⌝ ;;
  RETURN bytes_lt (it_Hash a) (it_Hash b) IF (length (it_Hash a) =? length (it_Hash b))%nat ;;
  false.

Definition byType (items : list Item) (typ : string) : list Item :=
  filter (λ it, it_Type it = typ) items.

Definition sortItems (l : list Item) : list Item := SliceStable lessByKeyHash l.

(** [list[:need]] with need the least of the three bounds, when positive. *)
Definition take_need (need remain : Z) (l : list Item) : list Item :=
  take (Z.to_nat (need `min` remain `min` Z.of_nat (length l))) l.

Fixpoint selectPerType (items : list Item) (order : list string) (max window : Z)
    (selected : list Item) : list Item :=
  match order with
  | [] => selected
  | typ :: order' =>
      let remain := (max - Z.of_nat (length selected))%Z in
      RETURN selected IF (remain <=? 0)%Z ;;
      selectPerType items order' max window
        (selected ++ take_need window remain (sortItems (byType items typ)))
  end.

(** The grouping loop of the matched case: [bids] and [users] are the matched
    prefixes. *)
Fixpoint groupMatched (items bids users : list Item) (order : list string) (max window : Z)
    (selected : list Item) : list Item :=
  match order with
  | [] => selected
  | typ :: order' =>
      let seg :=
        if ⌜? typ = "auction_bid_v1" ⌝ then bids
        else if ⌜? typ = "plaintext_v1" ⌝ then users
        else take_need window (max - Z.of_nat (length selected)) (sortItems (byType items typ)) in
      groupMatched items bids users order' max window (selected ++ seg)
  end.

Definition flow_event (name : string) (flow : string) (reason : list (string * string)) : MEvent :=
  Inc name (("flow", flow) :: reason).

Definition clearing_price (bids users : list Item) (k : nat) : list MEvent :=
  match bids !! (k - 1)%nat, users !! (k - 1)%nat with
  | Some b, Some u =>
      let cp := if (it_Key u <? it_Key b)%N then it_Key u else it_Key b in
      RETURN [] IF (cp =? 0)%N ;;
      [SetGauge "dfba_clearing_price" [] (Z.of_N cp `min` maxInt64)]
  | _, _ => []
  end.

Definition matched_events (nb nu k : nat) : list MEvent :=
  concat (replicate k [flow_event "dfba_accepted_total" "solver" [];
                       flow_event "dfba_accepted_total" "user" []]) ++
  replicate (nb - k) (flow_event "dfba_rejected_total" "solver" [("reason", "no_pair")]) ++
  replicate (nu - k) (flow_event "dfba_rejected_total" "user" [("reason", "no_pair")]).

Definition match_count (nb nu : nat) (window pairsCap : Z) : Z :=
  Z.of_nat nb `min` Z.of_nat nu `min` window `min` pairsCap.

(** [durMs] is the measured duration. *)
Definition SolveDeterministic (durMs : N) (items : list Item) (pol : DfbaPolicy)
    : list Item * list MEvent :=
  let done_ := Observe "dfba_solve_ms" [] (float64_of durMs) in
  let max := clamp_max (dp_MaxN pol) in
  let window := clamp_window (dp_Window pol) max in
  let bids := byType items "auction_bid_v1" in
  let users := byType items "plaintext_v1" in
  let fallback := (selectPerType items (dp_Order pol) max window [],
                   [Inc "dfba_solve_total" [("result", "fallback")]; done_]) in
  RETURN fallback IF (length bids =? 0)%nat || (length users =? 0)%nat ;;
  let bids := sortItems bids in
  let users := sortItems users in
  let pairsCap := (max / 2)%Z in
  RETURN fallback IF (pairsCap <=? 0)%Z ;;
  let k := match_count (length bids) (length users) window pairsCap in
  RETURN fallback IF (k <=? 0)%Z ;;
  let k := Z.to_nat k in
  (groupMatched items (take k bids) (take k users) (dp_Order pol) max window [],
   clearing_price bids users k ++ matched_events (length bids) (length users) k ++
   [Inc "dfba_solve_total" [("result", "ok")]; done_]).

(** ** Order *)

(** The comparator with hashes of any length; on hashes of one length, the
    digests of the payloads, it is [lessByKeyHash]. *)
Definition keyHashOrder (a b : Item) : bool :=
  if ⌜? it_Key a = it_Key b ⌝ then bytes_lt (it_Hash a) (it_Hash b) else (it_Key b <? it_Key a)%N.

Definition digests (n : nat) (items : list Item) : Prop := Forall (λ it, length (it_Hash it) = n) items.

Lemma lessByKeyHash_digest n a b :
  length (it_Hash a) = n → length (it_Hash b) = n → lessByKeyHash a b = keyHashOrder a b.
Proof.
  intros Ha Hb. unfold lessByKeyHash, keyHashOrder. rewrite Ha, Hb, Nat.eqb_refl.
  rewrite bool_decide_not. by destruct ⌜? it_Key a = it_Key b ⌝.
Qed.

#[export] Instance keyHashOrder_strict_weak : StrictWeak keyHashOrder.
Proof.
  split; unfold keyHashOrder.
  - intros a b. repeat case_bool_decide; try congruence; rewrite ?N.ltb_lt, ?N.ltb_ge; try lia.
    apply bytes_lt_asym.
  - intros a b c. repeat case_bool_decide; try congruence; rewrite ?N.ltb_ge; try lia.
    apply bytes_lt_ge_trans.
Qed.

Lemma sortItems_digests n l : digests n l → sortItems l = SliceStable keyHashOrder l.
Proof.
  unfold digests. rewrite Forall_forall. intros H. apply SliceStable_ext.
  intros x y Hx Hy. apply (lessByKeyHash_digest n); auto.
Qed.

Lemma sortItems_perm l : sortItems l ≡ₚ l.
Proof. apply SliceStable_perm. Qed.

Lemma digests_byType n items typ : digests n items → digests n (byType items typ).
Proof.
  unfold digests, byType. rewrite !Forall_forall. intros H x [_ Hx]%list_elem_of_filter. auto.
Qed.

(** The first [k] items of a sorted flow outrank the others. *)
Lemma take_sortItems_best n k l x y :
  digests n l → x ∈ take k (sortItems l) → y ∈ drop k (sortItems l) → keyHashOrder y x = false.
Proof. intros Hd. rewrite (sortItems_digests n) by done. apply (SliceStable_take_best _). Qed.

(** Both grouping loops append, for each type of the order, a segment of items of
    that type, taken from the input and sorted. *)
Definition segment (items : list Item) (typ : string) (seg : list Item) : Prop :=
  Forall (λ it, it_Type it = typ ∧ it ∈ items) seg ∧
  StronglySorted (may_precede keyHashOrder) seg.

Inductive grouped (items : list Item) : list string → list Item → list Item → Prop :=
  | grouped_nil sel : grouped items [] sel sel
  | grouped_cons typ order sel seg res :
      segment items typ seg →
      grouped items order (sel ++ seg) res → grouped items (typ :: order) sel res.

Lemma grouped_stop items order sel : grouped items order sel sel.
Proof.
  induction order as [|typ order IH]; [constructor|].
  apply (grouped_cons _ _ _ _ []); [by repeat constructor|]. by rewrite app_nil_r.
Qed.

Lemma segment_take n items k typ :
  digests n items → segment items typ (take k (sortItems (byType items typ))).
Proof.
  intros Hd. split.
  - apply Forall_take. rewrite sortItems_perm. apply Forall_forall.
    by intros x [? ?]%list_elem_of_filter.
  - rewrite (sortItems_digests n) by (by apply digests_byType).
    pose proof (SliceStable_sorted keyHashOrder (byType items typ)) as Hs.
    rewrite <-(take_drop k (SliceStable _ _)) in Hs. by apply StronglySorted_app_1_l in Hs.
Qed.

Lemma selectPerType_grouped n items order max window sel :
  digests n items → grouped items order sel (selectPerType items order max window sel).
Proof.
  intros Hd. revert sel. induction order as [|typ order IH]; intros sel; simpl; [constructor|].
  destruct (_ <=? 0)%Z; [apply grouped_stop|]. econstructor; [|apply IH].
  by apply (segment_take n).
Qed.

Lemma groupMatched_grouped n items bids users order max window sel :
  digests n items → segment items "auction_bid_v1" bids → segment items "plaintext_v1" users →
  grouped items order sel (groupMatched items bids users order max window sel).
Proof.
  intros Hd Hb Hu. revert sel. induction order as [|typ order IH]; intros sel; simpl; [constructor|].
  econstructor; [|apply IH]. repeat case_bool_decide; subst; [done..|]. by apply (segment_take n).
Qed.

Lemma byType_app l1 l2 typ : byType (l1 ++ l2) typ = byType l1 typ ++ byType l2 typ.
Proof. apply filter_app. Qed.

Lemma byType_other items typ typ' l : typ' ≠ typ → segment items typ l → byType l typ' = [].
Proof.
  intros Hne [H _]. unfold byType. induction H as [|x l [Hx _] _ IH]; [done|].
  by rewrite filter_cons_False by congruence.
Qed.

Lemma byType_same items typ l : segment items typ l → byType l typ = l.
Proof.
  intros [H _]. unfold byType. induction H as [|x l [Hx _] _ IH]; [done|].
  by rewrite filter_cons_True, IH.
Qed.

Lemma grouped_other items order sel res typ : grouped items order sel res → typ ∉ order →
  byType res typ = byType sel typ.
Proof.
  induction 1 as [|typ' order sel seg res Hseg _ IH]; intros Hn; [done|].
  apply not_elem_of_cons in Hn as [Hne Hn]. rewrite IH by done.
  by rewrite byType_app, (byType_other items typ' typ seg), app_nil_r.
Qed.

Lemma groupMatched_flow n typ flow items bids users order max window sel :
  digests n items → segment items "auction_bid_v1" bids → segment items "plaintext_v1" users →
  (typ = "auction_bid_v1" ∧ flow = bids ∨ typ = "plaintext_v1" ∧ flow = users) →
  NoDup order → typ ∈ order →
  byType (groupMatched items bids users order max window sel) typ = byType sel typ ++ flow.
Proof.
  intros Hd Hb Hu Hflow. revert sel. induction order as [|t order IH]; intros sel;
    [by intros _ ?%elem_of_nil|]. intros [Ht Hnd]%NoDup_cons Hin. cbn [groupMatched].
  set (seg := if ⌜? t = _ ⌝ then _ else _).
  assert (segment items t seg) as Hseg.
  { subst seg. repeat case_bool_decide; subst; [done..|]. by apply (segment_take n). }
  apply elem_of_cons in Hin as [->|Hin].
  - rewrite (grouped_other items order (sel ++ seg)); [|by apply (groupMatched_grouped n)|done].
    rewrite byType_app, (byType_same items t seg) by done. f_equal. subst seg.
    by destruct Hflow as [[-> ->]|[-> ->]].
  - rewrite IH by done. rewrite byType_app, (byType_other items t typ seg), app_nil_r; [done| |done].
    intros ->. done.
Qed.

(** The number of matched pairs. *)
Definition pairs (items : list Item) (pol : DfbaPolicy) : nat :=
  let max := clamp_max (dp_MaxN pol) in
  Z.to_nat (match_count (length (byType items "auction_bid_v1")) (length (byType items "plaintext_v1"))
    (clamp_window (dp_Window pol) max) (max / 2)).

Lemma clamp_max_pos n : (0 < clamp_max n)%Z.
Proof. unfold clamp_max. destruct (Z.leb_spec n 0); lia. Qed.

Lemma clamp_window_bounds w max : (0 < max)%Z → (0 < clamp_window w max <= max)%Z.
Proof. unfold clamp_window. destruct (Z.leb_spec w 0), (Z.ltb_spec max w); simpl; lia. Qed.

Lemma Solve_matched ms items pol :
  (0 < pairs items pol)%nat →
  let max := clamp_max (dp_MaxN pol) in
  (SolveDeterministic ms items pol).1 =
    groupMatched items (take (pairs items pol) (sortItems (byType items "auction_bid_v1")))
      (take (pairs items pol) (sortItems (byType items "plaintext_v1")))
      (dp_Order pol) max (clamp_window (dp_Window pol) max) [].
Proof.
  unfold pairs, match_count. intros Hk. unfold SolveDeterministic, match_count.
  rewrite !(proj2 (Nat.eqb_neq _ _)) by lia. cbn [orb]. rewrite !(proj2 (Z.leb_gt _ _)).
  - unfold sortItems. by rewrite !length_SliceStable.
  - unfold sortItems. rewrite !length_SliceStable. lia.
  - lia.
Qed.


Lemma selectPerType_length items order max window sel :
  (Z.of_nat (length sel) <= max)%Z →
  (Z.of_nat (length (selectPerType items order max window sel)) <= max)%Z.
Proof.
  revert sel. induction order as [|t order IH]; intros sel Hs; simpl; [done|].
  destruct (Z.leb_spec (max - Z.of_nat (length sel)) 0); [done|]. apply IH.
  unfold take_need. rewrite length_app, length_take. lia.
Qed.

Lemma groupMatched_length items bids users order max window sel :
  (∀ it, it ∈ items → it_Type it ∈ ["auction_bid_v1"; "plaintext_v1"]) →
  NoDup order →
  length (groupMatched items bids users order max window sel) ≤
    length sel + (if ⌜? "auction_bid_v1" ∈ order ⌝ then length bids else 0) +
    (if ⌜? "plaintext_v1" ∈ order ⌝ then length users else 0).
Proof.
  intros Hit. revert sel. induction order as [|t order IH]; intros sel Hnd; simpl; [lia|].
  apply NoDup_cons in Hnd as [Ht Hnd]. etrans; [by apply IH|]. rewrite length_app.
  assert (∀ s, bool_decide (s ∈ t :: order) = bool_decide (s = t) || bool_decide (s ∈ order)) as Hb.
  { intros s. rewrite <-bool_decide_or. apply bool_decide_ext, elem_of_cons. }
  rewrite !Hb. clear Hb. destruct (bool_decide_reflect (t = "auction_bid_v1")) as [->|H1].
  { rewrite (bool_decide_true ("auction_bid_v1" = _)), (bool_decide_false ("plaintext_v1" = _)),
      (bool_decide_false ("auction_bid_v1" ∈ order)) by done. simpl. lia. }
  rewrite (bool_decide_false ("auction_bid_v1" = t)) by congruence.
  destruct (bool_decide_reflect (t = "plaintext_v1")) as [->|H2].
  { rewrite (bool_decide_true ("plaintext_v1" = _)), (bool_decide_false ("plaintext_v1" ∈ order))
      by done. simpl. lia. }
  rewrite (bool_decide_false ("plaintext_v1" = t)) by congruence. simpl.
  assert (byType items t = []) as ->.
  { unfold byType. apply elem_of_nil_inv. intros x [<- Hx]%list_elem_of_filter.
    apply Hit in Hx. rewrite !elem_of_cons, elem_of_nil in Hx. naive_solver. }
  unfold take_need, sortItems. simpl. rewrite firstn_nil. simpl. lia.
Qed.

Lemma Solve_fallback ms items pol :
  pairs items pol = 0 →
  (SolveDeterministic ms items pol).1 =
    selectPerType items (dp_Order pol) (clamp_max (dp_MaxN pol))
      (clamp_window (dp_Window pol) (clamp_max (dp_MaxN pol))) [].
Proof.
  intros Hk. unfold SolveDeterministic. destruct (_ || _); [done|]. destruct (_ <=? 0)%Z; [done|].
  destruct (Z.leb_spec (match_count (length (sortItems (byType items "auction_bid_v1")))
    (length (sortItems (byType items "plaintext_v1")))
    (clamp_window (dp_Window pol) (clamp_max (dp_MaxN pol))) (clamp_max (dp_MaxN pol) / 2)) 0)
    as [|Hk2]; [done|]. exfalso. unfold pairs in Hk.
  unfold sortItems in Hk2. rewrite !length_SliceStable in Hk2. lia.
Qed.

Lemma Solve_grouped ms n items pol :
  digests n items → grouped items (dp_Order pol) [] (SolveDeterministic ms items pol).1.
Proof.
  intros Hd. destruct (decide (0 < pairs items pol)) as [Hk|Hk].
  - rewrite Solve_matched by done. apply (groupMatched_grouped n); [done|by apply (segment_take n)..].
  - rewrite Solve_fallback by lia. by apply (selectPerType_grouped n).
Qed.

Lemma Solve_length (ms : N) (items : list Item) (pol : DfbaPolicy) :
  (∀ it, it ∈ items → it_Type it ∈ ["auction_bid_v1"; "plaintext_v1"]) →
  NoDup (dp_Order pol) →
  (Z.of_nat (length (SolveDeterministic ms items pol).1) <= clamp_max (dp_MaxN pol))%Z.
Proof.
  intros Hit Hnd. pose proof (clamp_max_pos (dp_MaxN pol)) as Hpos.
  destruct (decide (0 < pairs items pol)) as [Hk|Hk].
  - rewrite Solve_matched by done. set (k := pairs items pol) in *.
    assert (Z.of_nat (k + k) <= clamp_max (dp_MaxN pol))%Z as Hcap.
    { subst k. unfold pairs, match_count.
      pose proof (Z.mul_div_le (clamp_max (dp_MaxN pol)) 2). lia. }
    pose proof (groupMatched_length items
      (take k (sortItems (byType items "auction_bid_v1")))
      (take k (sortItems (byType items "plaintext_v1"))) (dp_Order pol)
      (clamp_max (dp_MaxN pol)) (clamp_window (dp_Window pol) (clamp_max (dp_MaxN pol))) [] Hit Hnd) as Hlen.
    rewrite !length_take in Hlen. simpl in Hlen. do 2 case_match; lia.
  - rewrite Solve_fallback by lia. apply selectPerType_length. simpl. lia.
Qed.

(** The solver respects the cap when every item belongs to one of the two
    flows: at most MaxN items (1024 when MaxN is not positive). *)
Theorem solver_respects_cap (ms : N) (items : list Item) (pol : DfbaPolicy) :
  (∀ it, it ∈ items → it_Type it ∈ ["auction_bid_v1"; "plaintext_v1"]) →
  NoDup (dp_Order pol) →
  (Z.of_nat (length (SolveDeterministic ms items pol).1) <= clamp_max (dp_MaxN pol))%Z.
Proof. apply Solve_length. Qed.

(** No two different items tie. *)
Definition tie_free (items : list Item) : Prop :=
  ∀ x y, x ∈ items → y ∈ items → it_Type x = it_Type y → it_Key x = it_Key y →
    it_Hash x = it_Hash y → x = y.

Lemma keyHashOrder_total x y :
  keyHashOrder x y = false → keyHashOrder y x = false → it_Key x = it_Key y ∧ it_Hash x = it_Hash y.
Proof.
  unfold keyHashOrder. destruct (bool_decide_reflect (it_Key x = it_Key y)) as [He|He].
  - rewrite bool_decide_true by done. intros H1 H2. split; [done|].
    destruct (decide (it_Hash x = it_Hash y)) as [|Hne]; [done|].
    rewrite bytes_lt_total in H1 by done. by rewrite H2 in H1.
  - rewrite bool_decide_false by congruence. rewrite !N.ltb_ge. lia.
Qed.

Lemma sortItems_unique n l1 l2 :
  digests n l1 → l1 ≡ₚ l2 →
  (∀ x y, x ∈ l1 → y ∈ l1 → it_Key x = it_Key y → it_Hash x = it_Hash y → x = y) →
  sortItems l1 = sortItems l2.
Proof.
  intros Hd Hp Htf. rewrite !(sortItems_digests n) by (done || by unfold digests; rewrite <-Hp).
  apply (SliceStable_unique _); [done|]. intros x y Hx Hy H1 H2.
  destruct (keyHashOrder_total x y H1 H2). auto.
Qed.

Lemma sortItems_deterministic n l1 l2 typ :
  digests n l1 → tie_free l1 → l1 ≡ₚ l2 → sortItems (byType l1 typ) = sortItems (byType l2 typ).
Proof.
  intros Hd Htf Hp. apply (sortItems_unique n).
  - by apply digests_byType.
  - unfold byType. by rewrite Hp.
  - intros x y [Htx Hx]%list_elem_of_filter [Hty Hy]%list_elem_of_filter. apply Htf; congruence.
Qed.

Lemma selectPerType_ext items1 items2 order max window sel :
  (∀ typ, sortItems (byType items1 typ) = sortItems (byType items2 typ)) →
  selectPerType items1 order max window sel = selectPerType items2 order max window sel.
Proof.
  intros H. revert sel. induction order as [|t order IH]; intros sel; simpl; [done|].
  by rewrite IH, H.
Qed.

Lemma groupMatched_ext items1 items2 bids users order max window sel :
  (∀ typ, sortItems (byType items1 typ) = sortItems (byType items2 typ)) →
  groupMatched items1 bids users order max window sel =
  groupMatched items2 bids users order max window sel.
Proof.
  intros H. revert sel. induction order as [|t order IH]; intros sel; simpl; [done|].
  by rewrite IH, H.
Qed.

Lemma Solve_ext ms items1 items2 pol :
  (∀ typ, sortItems (byType items1 typ) = sortItems (byType items2 typ)) →
  SolveDeterministic ms items1 pol = SolveDeterministic ms items2 pol.
Proof.
  intros Hs. assert (∀ typ, length (byType items1 typ) = length (byType items2 typ)) as Hl.
  { intros typ. rewrite <-(sortItems_perm (byType items1 typ)), Hs. by rewrite sortItems_perm. }
  unfold SolveDeterministic. rewrite !Hl, !Hs.
  by rewrite !(selectPerType_ext items1 items2), !(groupMatched_ext items1 items2) by done.
Qed.

(** The solver is deterministic: on tie-free items with digests of one
    length its selection and its metrics depend on the set of items only, not on
    the order in which they were collected. *)
Theorem solver_deterministic (ms : N) (n : nat) (items1 items2 : list Item) (pol : DfbaPolicy) :
  digests n items1 → tie_free items1 → items1 ≡ₚ items2 →
  SolveDeterministic ms items1 pol = SolveDeterministic ms items2 pol.
Proof.
  intros Hd Htf Hp. apply Solve_ext. intros typ. by eapply sortItems_deterministic.
Qed.
End dfba.

Definition item (typ : string) (key : N) (h : N) : Item (P := N) := mkItem h typ key [byte_of h].

Definition sample_items : list Item :=
  [item "auction_bid_v1" 5 1; item "plaintext_v1" 3 2; item "auction_bid_v1" 7 3;
   item "plaintext_v1" 9 4; item "plaintext_v1" 9 5].

Definition sample_policy : DfbaPolicy :=
  mkDfbaPolicy ["auction_bid_v1"; "plaintext_v1"] 4 0 0 0 0.


Lemma solver_respects_cap_witness :
  (Z.of_nat (length (SolveDeterministic 0 sample_items sample_policy).1) <= 4)%Z.
Proof.
  apply (solver_respects_cap 0 sample_items sample_policy).
  - intros it Hit. repeat (apply elem_of_cons in Hit as [->|Hit]; [vm_compute; repeat constructor|]).
    by apply elem_of_nil in Hit.
  - apply (bool_decide_unpack _). vm_compute. exact I.
Defined.

Lemma solver_deterministic_witness :
  SolveDeterministic 0 sample_items sample_policy =
  SolveDeterministic 0 (reverse sample_items) sample_policy.
Proof.
  apply (solver_deterministic 0 1).
  - repeat constructor.
  - intros x y Hx Hy.
    repeat (apply elem_of_cons in Hx as [->|Hx];
      [repeat (apply elem_of_cons in Hy as [->|Hy]; [vm_compute; congruence|]); by apply elem_of_nil in Hy|]).
    by apply elem_of_nil in Hx.
  - symmetry. apply reverse_Permutation.
Defined.

(** Other types placed before the flows use up capacity that the matched flows
    then do not respect. *)
Example solver_exceeds_cap :
  let items := [item "private_v1" 0 1; item "private_v1" 0 2; item "private_v1" 0 3;
                item "private_v1" 0 4; item "auction_bid_v1" 5 5; item "plaintext_v1" 3 6] in
  let pol := mkDfbaPolicy ["private_v1"; "auction_bid_v1"; "plaintext_v1"] 4 0 0 0 0 in
  length (SolveDeterministic 0 items pol).1 = 6.
Proof. vm_compute. reflexivity. Qed.
