(* ===== verification/Builder.v ===== *)
(** Block building (src/internal/payload/builder.go, beast.go,
    standard_block.go): selection of payloads from the container under a policy,
    directly or through the DFBA solver, and the check of a proposed block. *)
From S2P Require Import Prelude Metrics Sha256 NoncePool Payload Dfba.

Record BlockHeader := mkBlockHeader { bh_Height : N; bh_Round : N }.
Record BlockStats := mkBlockStats { TotalFees : N; TotalBids : N; stat_Items : nat }.
Record StandardBlock := mkStandardBlock {
  sb_Header : BlockHeader;
  sb_Items : list Payload;
  sb_Stats : BlockStats;
}.
Definition zero_stats : BlockStats := mkBlockStats 0 0 0.

Record BuilderPolicy := mkBuilderPolicy {
  Order : list string;
  MaxN : Z;
  BudgetBytes : Z;
  MinBid : N;
  MinFee : N;
  Window : Z;
  BatchTicks : Z;
  UseDFBA : bool;
}.

(** ** Decryption of private payloads *)
Inductive PrivErr :=
  | ErrPrivateInvalid | ErrPrivateEarly | ErrPrivateNotReady | ErrPrivateCipher
  | ErrPrivateEmpty | ErrPrivateDecode | ErrPrivateOther (s : string).

(** A decrypter keeps a state of its own (shares, caches); the result is a
    payload or nil, and an error or nil. *)
Class PrivateDecrypter (D : Type) := {
  Decrypt : D → BlockHeader → Payload → D * (option Payload * option PrivErr);
}.

Definition decrypt_metric (result : string) : MEvent := Inc "beast_decrypt_total" [("result", result)].

Definition decrypt_result (e : option PrivErr) : string :=
  match e with
  | Some ErrPrivateEarly => "early"
  | Some ErrPrivateInvalid => "invalid"
  | Some ErrPrivateNotReady => "not_ready"
  | Some ErrPrivateCipher => "cipher_error"
  | Some ErrPrivateEmpty => "empty"
  | Some ErrPrivateDecode => "decode_error"
  | Some (ErrPrivateOther _) | None => "error"
  end.

(** [noopDecrypter]. *)
Definition noop_decrypter : PrivateDecrypter unit := {| Decrypt d _ p := (d, (Some p, None)) |}.

(** What one run of the builder sees of the world: the clock, the environment
    flag and the measured duration of the solver. *)
Record BuildEnv := mkBuildEnv { be_now : Z; be_beast : bool; be_durMs : N }.

Section builder.
Context {MI : MapIter} {D : Type} {PD : PrivateDecrypter D}.

Fixpoint decryptAndMapPrivate (d : D) (hdr : BlockHeader) (cands : list Payload)
    : D * list Payload * list MEvent :=
  match cands with
  | [] => (d, [], [])
  | p :: cands' =>
      match Decrypt d hdr p with
      | (d1, (Some dec, None)) =>
          let '(d2, out, ev) := decryptAndMapPrivate d1 hdr cands' in
          (d2, dec :: out, decrypt_metric "ok" :: ev)
      | (d1, (_, err)) =>
          let '(d2, out, ev) := decryptAndMapPrivate d1 hdr cands' in
          (d2, out, decrypt_metric (decrypt_result err) :: ev)
      end
  end.

Definition belowThreshold (typ : string) (p : Payload) (pol : BuilderPolicy) : string :=
  if ⌜? typ = "auction_bid_v1" ⌝ then
    if (0 <? MinBid pol)%N && (SortKey p <? MinBid pol)%N then "below_min_bid" else ""
  else if ⌜? typ = "plaintext_v1" ⌝ then
    if (0 <? MinFee pol)%N && (SortKey p <? MinFee pol)%N then "below_min_fee" else ""
  else "".

Definition reject_event (typ reason : string) : MEvent :=
  Inc "builder_reject_total" [("type", typ); ("reason", reason)].

(** Reason to drop one candidate, if any. *)
Definition reject_reason (c : Container) (typ : string) (pol : BuilderPolicy) (now windowDur : Z)
    (p : Payload) : option string :=
  let late :=
    (0 <? windowDur)%Z &&
    match Arrival c p with Some m => (TS m <? now - windowDur)%Z | None => false end in
  RETURN Some "late" IF late ;;
  let reject := belowThreshold typ p pol in
  RETURN Some reject IF ⌜? reject ≠ "" ⌝ ;;
  None.

Fixpoint filterByWindowAndThreshold (c : Container) (cands : list Payload) (typ : string)
    (pol : BuilderPolicy) (now windowDur : Z) : list Payload * list MEvent :=
  match cands with
  | [] => ([], [])
  | p :: cands' =>
      let '(out, ev) := filterByWindowAndThreshold c cands' typ pol now windowDur in
      match reject_reason c typ pol now windowDur p with
      | Some reason => (out, reject_event typ reason :: ev)
      | None => (p :: out, ev)
      end
  end.

(** SortKey descending, then hash ascending. *)
Definition payloadLess (a b : Payload) : bool :=
  if ⌜? SortKey a = SortKey b ⌝ then bytes_lt (Hash a) (Hash b) else (SortKey b <? SortKey a)%N.

Definition takeDeterministic (cands : list Payload) (need budget : Z) : list Payload :=
  let need := if (budget <? need)%Z then budget else need in
  let cands := SliceStable payloadLess cands in
  let need := if (need <=? 0)%Z || (Z.of_nat (length cands) <? need)%Z
              then Z.of_nat (length cands) else need in
  take (Z.to_nat need) cands.

(** [time.Duration(BatchTicks) * time.Millisecond]. *)
Definition window_dur (pol : BuilderPolicy) : Z := i64 (BatchTicks pol * 1000000).

(** The candidates of one type that pass the filters, decrypted when they are
    private and BEAST is on. *)
Definition candidates (env : BuildEnv) (d : D) (c : Container) (hdr : BlockHeader)
    (pol : BuilderPolicy) (typ : string) : D * list Payload * list MEvent :=
  let '(filtered, ev) :=
    filterByWindowAndThreshold c (GetAll c typ) typ pol (be_now env) (window_dur pol) in
  if ⌜? typ = "private_v1" ⌝ && be_beast env then
    let '(d', out, ev') := decryptAndMapPrivate d hdr filtered in (d', out, ev ++ ev')
  else (d, filtered, ev).

Definition selected_event (typ : string) : MEvent := Inc "builder_selected_total" [("type", typ)].

Fixpoint prepare_types (env : BuildEnv) (c : Container) (hdr : BlockHeader) (pol : BuilderPolicy)
    (max window : Z) (order : list string) (d : D) (res : list Payload)
    : D * list Payload * list MEvent :=
  match order with
  | [] => (d, res, [])
  | typ :: order' =>
      let remain := (max - Z.of_nat (length res))%Z in
      RETURN (d, res, []) IF (remain <=? 0)%Z ;;
      let need := if (remain <? window)%Z then remain else window in
      let '(d1, filtered, ev) := candidates env d c hdr pol typ in
      let selected := takeDeterministic filtered need (max - Z.of_nat (length res)) in
      let '(d2, res2, ev2) := prepare_types env c hdr pol max window order' d1 (res ++ selected) in
      (d2, res2, ev ++ ((λ _, selected_event typ) <$> selected) ++ ev2)
  end.

Definition dfba_item (typ : string) (p : Payload) : Item (P := Payload) :=
  mkItem p typ (SortKey p) (Hash p).

Fixpoint collect_items (env : BuildEnv) (c : Container) (hdr : BlockHeader) (pol : BuilderPolicy)
    (order : list string) (d : D) : D * list (Item (P := Payload)) * list MEvent :=
  match order with
  | [] => (d, [], [])
  | typ :: order' =>
      let '(d1, filtered, ev) := candidates env d c hdr pol typ in
      let '(d2, items, ev2) := collect_items env c hdr pol order' d1 in
      (d2, (dfba_item typ <$> filtered) ++ items, ev ++ ev2)
  end.

Definition dfba_policy (pol : BuilderPolicy) (max window : Z) : DfbaPolicy :=
  {| dp_Order := Order pol; dp_MaxN := max; dp_MinBid := MinBid pol; dp_MinFee := MinFee pol;
     dp_Window := window; dp_BatchTicks := BatchTicks pol |}.

Definition prepareProposalDFBA (env : BuildEnv) (d : D) (c : Container) (hdr : BlockHeader)
    (pol : BuilderPolicy) : D * StandardBlock * list MEvent :=
  let max := clamp_max (MaxN pol) in
  let window := clamp_window (Window pol) max in
  let '(d1, items, ev) := collect_items env c hdr pol (Order pol) d in
  let '(sel, ev2) := SolveDeterministic (be_durMs env) items (dfba_policy pol max window) in
  let selectedSet := it_Hash <$> sel in
  let unmatched := filter (λ it, it_Hash it ∉ selectedSet) items in
  (d1, mkStandardBlock hdr (it_Payload <$> sel) zero_stats,
   ev ++ ev2 ++ ((λ it, selected_event (it_Type it)) <$> sel) ++
   ((λ it, reject_event (it_Type it) "dfba_no_match") <$> unmatched)).

Definition PrepareProposal (env : BuildEnv) (d : D) (c : Container) (hdr : BlockHeader)
    (pol : BuilderPolicy) : D * StandardBlock * list MEvent :=
  RETURN prepareProposalDFBA env d c hdr pol IF UseDFBA pol ;;
  let max := clamp_max (MaxN pol) in
  let window := clamp_window (Window pol) max in
  let '(d', res, ev) := prepare_types env c hdr pol max window (Order pol) d [] in
  (d', mkStandardBlock hdr res zero_stats, ev).
End builder.

(** ** Checking a block *)

(** [for i, t := range pol.Order { pri[t] = i }]: a repeated type keeps its last
    position. *)
Definition priorities (order : list string) : gmap string nat :=
  foldl (λ m it, <[it.2 := it.1]> m) ∅ (imap pair order).

Fixpoint check_items (pri : gmap string nat) (items : list Payload) (lastPri : Z)
    (lastKey : gmap string N) : goerr :=
  match items with
  | [] => nil_err
  | it :: items' =>
      let t := Type_of it in
      match pri !! t with
      | None => Some ("unexpected payload type: " +:+ t)
      | Some p =>
          let p := Z.of_nat p in
          RETURN Some "type priority violated" IF (p <? lastPri)%Z ;;
          RETURN Some ("sortkey not non-increasing for type: " +:+ t)
            IF match lastKey !! t with Some prev => (prev <? SortKey it)%N | None => false end ;;
          check_items pri items' (if (lastPri <? p)%Z then p else lastPri)
            (<[t := SortKey it]> lastKey)
      end
  end.

Definition ProcessProposal (b : StandardBlock) (pol : BuilderPolicy) : goerr :=
  RETURN nil_err IF ⌜? Order pol = [] ⌝ ;;
  check_items (priorities (Order pol)) (sb_Items b) (-1) ∅.

(** ** What ProcessProposal accepts *)

(** An item may stand before another in a block under the policy. *)
Definition item_before (pri : gmap string nat) (a b : Payload) : Prop :=
  default 0 (pri !! Type_of a) ≤ default 0 (pri !! Type_of b) ∧
  (Type_of a = Type_of b → (SortKey b <= SortKey a)%N).

Definition compliant (order : list string) (items : list Payload) : Prop :=
  Forall (λ it, is_Some (priorities order !! Type_of it)) items ∧
  StronglySorted (item_before (priorities order)) items.

Lemma check_items_iff pri items lastPri lastKey :
  check_items pri items lastPri lastKey = nil_err ↔
    Forall (λ it, is_Some (pri !! Type_of it) ∧ (lastPri <= Z.of_nat (default 0%nat (pri !! Type_of it)))%Z ∧
      ∀ prev, lastKey !! Type_of it = Some prev → (SortKey it <= prev)%N) items ∧
    StronglySorted (item_before pri) items.
Proof.
  revert lastPri lastKey. induction items as [|it items IH]; intros lastPri lastKey; simpl.
  { split; [by repeat constructor|done]. }
  rewrite Forall_cons, StronglySorted_cons.
  destruct (pri !! Type_of it) as [p|] eqn:Ep; [|split; [done|intros [[[[? [=]] _] _] _]]].
  simpl. destruct (Z.ltb_spec (Z.of_nat p) lastPri); [split; [done|lia]|].
  assert ((if (lastPri <? Z.of_nat p)%Z then Z.of_nat p else lastPri) = Z.of_nat p) as ->
    by (destruct (Z.ltb_spec lastPri (Z.of_nat p)); lia).
  assert ((match lastKey !! Type_of it with Some prev => (prev <? SortKey it)%N | None => false end)
    = false ↔ ∀ prev, lastKey !! Type_of it = Some prev → (SortKey it <= prev)%N) as Hk.
  { destruct (lastKey !! Type_of it) as [k|]; [rewrite N.ltb_ge; naive_solver|naive_solver]. }
  destruct (match lastKey !! Type_of it with Some prev => (prev <? SortKey it)%N | None => false end).
  { split; [done|]. intros [[(_ & _ & H1) _] _]. by apply Hk in H1. }
  rewrite IH. apply proj1 in Hk. specialize (Hk eq_refl). split.
  - intros [Hf Hs]. split_and!; [eauto|simpl; lia|done| | |done].
    + eapply Forall_impl; [exact Hf|]. simpl. intros x (Hx & Hpx & Hkx).
      split_and!; [done|lia|]. intros prev Hprev.
      destruct (decide (Type_of x = Type_of it)) as [He|He].
      * rewrite He in *. etrans; [by apply Hkx; rewrite lookup_insert_eq|]. by apply Hk.
      * apply Hkx. by rewrite lookup_insert_ne.
    + eapply Forall_impl; [exact Hf|]. simpl. intros x (Hx & Hpx & Hkx). split.
      * rewrite Ep. simpl. lia.
      * intros He. apply Hkx. by rewrite <-He, lookup_insert_eq.
  - intros [[_ Hf] [Hb Hs]]. split; [|done].
    apply Forall_forall. intros x Hx. eapply Forall_forall in Hf as (H1 & H2 & H3); [|done].
    eapply Forall_forall in Hb as [Hb1 Hb2]; [|done]. rewrite Ep in Hb1. simpl in Hb1.
    split_and!; [done|lia|]. intros prev. destruct (decide (Type_of it = Type_of x)) as [He|He].
    + rewrite He, lookup_insert_eq. intros [= <-]. auto.
    + rewrite lookup_insert_ne by done. auto.
Qed.

(** ProcessProposal accepts a block exactly when the policy names no types,
    or every item has a type of the policy, the types appear in priority order,
    and within a type the sort keys do not increase. *)
Theorem ProcessProposal_iff (b : StandardBlock) (pol : BuilderPolicy) :
  ProcessProposal b pol = nil_err ↔ Order pol = [] ∨ compliant (Order pol) (sb_Items b).
Proof.
  unfold ProcessProposal, compliant. destruct (bool_decide_reflect (Order pol = [])) as [He|He];
    [naive_solver|]. rewrite check_items_iff. setoid_rewrite lookup_empty. split.
  - intros [Hf Hs]. right. split; [|done]. eapply Forall_impl; [exact Hf|]. naive_solver.
  - intros [|[Hf Hs]]; [done|]. split; [|done]. eapply Forall_impl; [exact Hf|].
    intros x Hx. split_and!; [done|lia|done].
Qed.

(** ** Lemmas on selection *)
#[export] Instance payloadLess_strict_weak : StrictWeak payloadLess.
Proof.
  split; unfold payloadLess.
  - intros a b. repeat case_bool_decide; try congruence; rewrite ?N.ltb_lt, ?N.ltb_ge; try lia.
    apply bytes_lt_asym.
  - intros a b c. repeat case_bool_decide; try congruence; rewrite ?N.ltb_ge; try lia.
    apply bytes_lt_ge_trans.
Qed.

Lemma payloadLess_total x y :
  payloadLess x y = false → payloadLess y x = false → SortKey x = SortKey y ∧ Hash x = Hash y.
Proof.
  unfold payloadLess. destruct (bool_decide_reflect (SortKey x = SortKey y)) as [He|He].
  - rewrite bool_decide_true by done. intros H1 H2. split; [done|].
    destruct (decide (Hash x = Hash y)) as [|Hne]; [done|].
    rewrite bytes_lt_total in H1 by done. by rewrite H2 in H1.
  - rewrite bool_decide_false by congruence. rewrite !N.ltb_ge. lia.
Qed.

Lemma length_Hash p : length (Hash p) = 32.
Proof. destruct p; apply length_sha256. Qed.

Definition key_desc (a b : Payload) : Prop := (SortKey b <= SortKey a)%N.

Lemma payloadLess_key a b : payloadLess b a = false → key_desc a b.
Proof. unfold payloadLess, key_desc. case_bool_decide; [lia|]. rewrite N.ltb_ge. lia. Qed.

Lemma takeDeterministic_sub cands need budget x :
  x ∈ takeDeterministic cands need budget → x ∈ cands.
Proof.
  unfold takeDeterministic. intros (i & H%list_elem_of_lookup_2 & _)%elem_of_take.
  by apply elem_of_SliceStable in H.
Qed.

Lemma takeDeterministic_sorted cands need budget :
  StronglySorted key_desc (takeDeterministic cands need budget).
Proof.
  unfold takeDeterministic. set (k := Z.to_nat _).
  pose proof (SliceStable_sorted payloadLess cands) as Hs.
  rewrite <-(take_drop k (SliceStable _ _)) in Hs. apply StronglySorted_app_1_l in Hs.
  eapply StronglySorted_weaken; [|exact Hs]. intros a b. apply payloadLess_key.
Qed.

Lemma takeDeterministic_length cands need budget :
  (0 < need)%Z → (0 < budget)%Z →
  (Z.of_nat (length (takeDeterministic cands need budget)) <= budget)%Z.
Proof.
  intros Hn Hb. unfold takeDeterministic. rewrite length_take, length_SliceStable.
  set (need' := if (budget <? need)%Z then budget else need).
  assert (0 < need' <= budget)%Z by (subst need'; destruct (Z.ltb_spec budget need); lia).
  destruct (Z.leb_spec need' 0), (Z.ltb_spec (Z.of_nat (length cands)) need'); simpl; lia.
Qed.

Lemma priorities_snoc order t : priorities (order ++ [t]) = <[t := length order]> (priorities order).
Proof.
  unfold priorities. rewrite imap_app, foldl_app. simpl. by rewrite Nat.add_0_r.
Qed.

Lemma priorities_lookup order t i :
  NoDup order → order !! i = Some t → priorities order !! t = Some i.
Proof.
  induction order as [|u order IH] using rev_ind; [done|].
  intros (Hnd & Hu & _)%NoDup_app Hi. rewrite priorities_snoc.
  apply lookup_app_Some in Hi as [Hi|[Hi [Hi2 <-]%list_lookup_singleton_Some]].
  - rewrite lookup_insert_ne; [auto|]. intros <-. apply (Hu u); [|by apply elem_of_cons; left].
    by eapply list_elem_of_lookup_2.
  - rewrite lookup_insert_eq. f_equal. lia.
Qed.

Section lemmas.
Context {MI : MapIter} {D : Type} {PD : PrivateDecrypter D}.

Lemma filter_spec c cands typ pol now dur :
  (filterByWindowAndThreshold c cands typ pol now dur).1 =
    filter (λ p, reject_reason c typ pol now dur p = None) cands.
Proof.
  induction cands as [|p cands IH]; [done|]. simpl.
  destruct (filterByWindowAndThreshold _ _ _ _ _ _) as [out ev]. simpl in IH.
  rewrite filter_cons. destruct (reject_reason c typ pol now dur p); simpl; by rewrite IH.
Qed.

(** A payload the builder may select for a type: in the pool and not rejected. *)
Definition eligible (env : BuildEnv) (c : Container) (pol : BuilderPolicy) (typ : string)
    (p : Payload) : Prop :=
  p ∈ GetAll c typ ∧ reject_reason c typ pol (be_now env) (window_dur pol) p = None.

(** No private payload is decrypted. *)
Definition no_decrypt (env : BuildEnv) (pol : BuilderPolicy) : Prop :=
  be_beast env = false ∨ "private_v1" ∉ Order pol.

Lemma candidates_plain env d c hdr pol typ :
  (typ ≠ "private_v1" ∨ be_beast env = false) →
  candidates env d c hdr pol typ =
    (d, filter (λ p, reject_reason c typ pol (be_now env) (window_dur pol) p = None) (GetAll c typ),
     (filterByWindowAndThreshold c (GetAll c typ) typ pol (be_now env) (window_dur pol)).2).
Proof.
  intros H. unfold candidates. rewrite <-filter_spec.
  destruct (filterByWindowAndThreshold _ _ _ _ _ _) as [out ev]. simpl.
  destruct H as [H| ->]; [by rewrite bool_decide_false|by rewrite andb_false_r].
Qed.

Lemma no_decrypt_cons env typ order :
  be_beast env = false ∨ "private_v1" ∉ typ :: order →
  (typ ≠ "private_v1" ∨ be_beast env = false) ∧ (be_beast env = false ∨ "private_v1" ∉ order).
Proof. rewrite not_elem_of_cons. naive_solver. Qed.

(** A block is built by appending, for each type of the order, a segment of
    eligible payloads with non-increasing keys. *)
Inductive built (env : BuildEnv) (c : Container) (pol : BuilderPolicy) :
    list string → list Payload → list Payload → Prop :=
  | built_nil res : built env c pol [] res res
  | built_cons typ order res seg res' :
      Forall (eligible env c pol typ) seg → StronglySorted key_desc seg →
      built env c pol order (res ++ seg) res' → built env c pol (typ :: order) res res'.

Lemma built_stop env c pol order res : built env c pol order res res.
Proof.
  induction order as [|typ order IH]; [constructor|].
  apply (built_cons _ _ _ _ _ _ []); [constructor..|]. by rewrite app_nil_r.
Qed.

Lemma prepare_types_built env c hdr pol max window order d res :
  (be_beast env = false ∨ "private_v1" ∉ order) →
  built env c pol order res (prepare_types env c hdr pol max window order d res).1.2.
Proof.
  revert d res. induction order as [|typ order IH]; intros d res Hnd; [constructor|].
  apply no_decrypt_cons in Hnd as [Ht Ho]. cbn [prepare_types].
  destruct (_ <=? 0)%Z; [apply built_stop|]. rewrite candidates_plain by done.
  set (sel := takeDeterministic _ _ _).
  specialize (IH d (res ++ sel) Ho).
  destruct (prepare_types env c hdr pol max window order d (res ++ sel)) as [[d2 res2] ev2].
  apply (built_cons _ _ _ _ _ _ sel); [|apply takeDeterministic_sorted|exact IH].
  apply Forall_forall. intros x [Hr Hx]%takeDeterministic_sub%list_elem_of_filter. by split.
Qed.

Lemma collect_items_eligible env c hdr pol order d it :
  (be_beast env = false ∨ "private_v1" ∉ order) →
  it ∈ (collect_items env c hdr pol order d).1.2 →
  it = dfba_item (it_Type it) (it_Payload it) ∧ eligible env c pol (it_Type it) (it_Payload it).
Proof.
  revert d. induction order as [|typ order IH]; intros d Hnd; [by intros ?%elem_of_nil|].
  apply no_decrypt_cons in Hnd as [Ht Ho]. cbn [collect_items].
  rewrite candidates_plain by done. specialize (IH d Ho).
  destruct (collect_items env c hdr pol order d) as [[d2 items] ev]. cbn [fst snd] in *.
  rewrite elem_of_app, list_elem_of_fmap. intros [(p & -> & [Hr Hp]%list_elem_of_filter)|]; [done|auto].
Qed.

Lemma grouped_built env c hdr pol items order sel res d :
  (be_beast env = false ∨ "private_v1" ∉ Order pol) →
  items = (collect_items env c hdr pol (Order pol) d).1.2 →
  grouped items order sel res →
  built env c pol order (it_Payload <$> sel) (it_Payload <$> res).
Proof.
  intros Hnd ->. induction 1 as [sel|typ order sel seg res [Hseg Hsort] _ IH]; [constructor|].
  rewrite fmap_app in IH. apply (built_cons _ _ _ _ _ _ (it_Payload <$> seg)); [| |exact IH].
  - apply Forall_fmap. eapply Forall_impl; [exact Hseg|]. intros it [<- Hit].
    by apply collect_items_eligible in Hit as [_ ?].
  - clear IH. induction Hsort as [|x l Hl IHl Hx]; [constructor|].
    apply Forall_cons in Hseg as [[_ Hx2] Hseg]. constructor; [auto|]. apply Forall_fmap.
    rewrite Forall_forall in Hx, Hseg |- *. intros y Hy. specialize (Hx y Hy).
    destruct (Hseg y Hy) as [_ Hy2].
    apply collect_items_eligible in Hx2 as [Ex _]; [|done].
    apply collect_items_eligible in Hy2 as [Ey _]; [|done]. simpl.
    rewrite Ex, Ey in Hx. unfold may_precede, keyHashOrder in Hx. simpl in Hx.
    apply payloadLess_key. unfold payloadLess. done.
Qed.

Lemma collect_items_digests env c hdr pol order d :
  digests 32 (collect_items env c hdr pol order d).1.2.
Proof.
  revert d. induction order as [|typ order IH]; intros d; [constructor|].
  cbn [collect_items]. destruct (candidates env d c hdr pol typ) as [[d1 filtered] ev].
  specialize (IH d1). destruct (collect_items env c hdr pol order d1) as [[d2 items] ev2].
  apply Forall_app. split; [|done]. apply Forall_fmap, Forall_true. intros p. apply length_Hash.
Qed.

Lemma clamp_max_idem n : clamp_max (clamp_max n) = clamp_max n.
Proof. unfold clamp_max at 1. pose proof (clamp_max_pos n). by rewrite (proj2 (Z.leb_gt _ _)). Qed.

(** Every proposal is built from eligible payloads in the order of the policy. *)
Lemma PrepareProposal_built env d c hdr pol :
  no_decrypt env pol →
  built env c pol (Order pol) [] (sb_Items (PrepareProposal env d c hdr pol).1.2).
Proof.
  intros Hnd. unfold PrepareProposal. destruct (UseDFBA pol).
  - unfold prepareProposalDFBA.
    pose proof (collect_items_digests env c hdr pol (Order pol) d) as Hdig.
    destruct (collect_items env c hdr pol (Order pol) d) as [[d1 items] ev] eqn:E. simpl in Hdig.
    set (pol' := dfba_policy _ _ _).
    pose proof (Solve_grouped (be_durMs env) 32 items pol' Hdig) as Hg.
    destruct (SolveDeterministic (be_durMs env) items pol') as [sel ev2]. simpl in Hg. cbn [fst snd sb_Items].
    eapply (grouped_built env c hdr pol items (Order pol) [] sel d); [done| |done].
    by rewrite E.
  - pose proof (prepare_types_built env c hdr pol (clamp_max (MaxN pol))
      (clamp_window (Window pol) (clamp_max (MaxN pol))) (Order pol) d [] Hnd) as H.
    by destruct (prepare_types _ _ _ _ _ _ _ _ _) as [[]].
Qed.

Lemma built_compliant env c pol full pre order sel res :
  well_typed c → NoDup full → full = pre ++ order →
  Forall (λ p, Type_of p ∈ pre) sel → StronglySorted (item_before (priorities full)) sel →
  built env c pol order sel res → compliant full res.
Proof.
  intros Hwt Hnd Hfull Hsel Hsort Hb. revert pre Hfull Hsel Hsort.
  induction Hb as [res|typ order res seg res' Hseg Hdesc _ IH]; intros pre Hfull Hsel Hsort.
  - rewrite app_nil_r in Hfull. subst pre. split; [|done].
    eapply Forall_impl; [exact Hsel|]. intros p (i & Hi)%list_elem_of_lookup.
    exists i. by apply priorities_lookup.
  - assert (Forall (λ p, Type_of p = typ) seg) as Htyp.
    { eapply Forall_impl; [exact Hseg|]. intros p [Hp _]. by eapply GetAll_typed. }
    apply (IH (pre ++ [typ])).
    + by rewrite <-app_assoc.
    + apply Forall_app. split; [eapply Forall_impl; [exact Hsel|]|eapply Forall_impl; [exact Htyp|]];
        intros p Hp; rewrite elem_of_app, list_elem_of_singleton; auto.
    + apply StronglySorted_app. split_and!; [|done|].
      * intros a b Ha Hb. rewrite Forall_forall in Hsel, Htyp.
        specialize (Hsel a Ha). specialize (Htyp b Hb).
        apply list_elem_of_lookup in Hsel as (i & Hi).
        assert (full !! i = Some (Type_of a)) as Hia by (subst full; by apply lookup_app_l_Some).
        assert (full !! length pre = Some typ) as Hib by (subst full; by apply list_lookup_middle).
        unfold item_before. rewrite Htyp.
        rewrite (priorities_lookup _ _ _ Hnd Hia), (priorities_lookup _ _ _ Hnd Hib). simpl.
        apply lookup_lt_Some in Hi. split; [lia|]. intros He. rewrite He in Hia.
        pose proof (NoDup_lookup _ _ _ _ Hnd Hia Hib). lia.
      * clear -Hdesc Htyp. induction Hdesc as [|x l Hl IHl Hx]; [constructor|].
        apply Forall_cons in Htyp as [Htx Htyp]. constructor; [auto|].
        rewrite Forall_forall in Hx, Htyp |- *. intros y Hy. split; [by rewrite Htx, Htyp|].
        intros _. by apply Hx.
Qed.
End lemmas.

Section theorems.
Context {MI : MapIter} {D : Type} {PD : PrivateDecrypter D}.

(** A node accepts its own proposals: when the types of the policy are
    distinct, the pools are filed under their types and no private payload is
    decrypted, ProcessProposal accepts every block PrepareProposal builds, with
    or without the DFBA solver. *)
Theorem own_proposal_accepted (env : BuildEnv) (d : D) (c : Container) (hdr : BlockHeader)
    (pol : BuilderPolicy) :
  well_typed c → NoDup (Order pol) → no_decrypt env pol →
  ProcessProposal (PrepareProposal env d c hdr pol).1.2 pol = nil_err.
Proof.
  intros Hwt Hnd Hno. unfold ProcessProposal. case_bool_decide; [done|].
  destruct (built_compliant env c pol (Order pol) [] (Order pol) []
    (sb_Items (PrepareProposal env d c hdr pol).1.2)) as [Hf Hs];
    [done..|constructor|constructor|by apply PrepareProposal_built|].
  apply check_items_iff. split; [|done]. eapply Forall_impl; [exact Hf|].
  intros x Hx. split_and!; [done|lia|by intros prev; rewrite lookup_empty].
Qed.

Lemma built_eligible env c pol order sel res p :
  built env c pol order sel res → p ∈ res → p ∈ sel ∨ ∃ typ, typ ∈ order ∧ eligible env c pol typ p.
Proof.
  induction 1 as [res|typ order res seg res' Hseg _ _ IH]; [auto|]. intros Hp.
  destruct (IH Hp) as [[Hin|Hin]%elem_of_app|(t & Ht & He)]; [by left| |].
  - right. exists typ. rewrite Forall_forall in Hseg. split; [by apply elem_of_cons; left|auto].
  - right. exists t. split; [by apply elem_of_cons; right|done].
Qed.

(** Every payload of a proposal is in the pool of its type, meets the fee or
    bid threshold of the policy, and arrived within the configured window when
    its arrival is known. *)
Theorem proposal_meets_policy (env : BuildEnv) (d : D) (c : Container) (hdr : BlockHeader)
    (pol : BuilderPolicy) (p : Payload) :
  well_typed c → no_decrypt env pol →
  p ∈ sb_Items (PrepareProposal env d c hdr pol).1.2 →
  Type_of p ∈ Order pol ∧ p ∈ GetAll c (Type_of p) ∧
  (Type_of p = "auction_bid_v1" → (MinBid pol <= SortKey p)%N) ∧
  (Type_of p = "plaintext_v1" → (MinFee pol <= SortKey p)%N) ∧
  ∀ m, Arrival c p = Some m → (0 < window_dur pol)%Z → (be_now env - window_dur pol <= TS m)%Z.
Proof.
  intros Hwt Hno Hp. eapply built_eligible in Hp as [Hp|(typ & Htyp & Hget & Hrej)];
    [by apply elem_of_nil in Hp| |by apply PrepareProposal_built].
  pose proof (GetAll_typed c typ p Hwt Hget) as ->. split; [done|]. split; [done|].
  revert Hrej. unfold reject_reason, belowThreshold.
  destruct (_ && match Arrival c p with Some _ => _ | None => _ end) eqn:Hlate; [done|].
  match goal with |- context [bool_decide (?x ≠ "")] =>
    destruct (bool_decide_reflect (x ≠ "")) as [|Hthr] end; [done|]. intros _.
  apply dec_stable in Hthr. split_and!.
  - intros Ht. rewrite Ht in Hthr. simpl in Hthr.
    destruct (N.ltb_spec 0 (MinBid pol)), (N.ltb_spec (SortKey p) (MinBid pol)); simpl in Hthr;
      (done || lia).
  - intros Ht. rewrite Ht in Hthr. simpl in Hthr.
    destruct (N.ltb_spec 0 (MinFee pol)), (N.ltb_spec (SortKey p) (MinFee pol)); simpl in Hthr;
      (done || lia).
  - intros m Hm Hw. rewrite Hm in Hlate. apply andb_false_iff in Hlate as [Hl|Hl].
    + apply Z.ltb_ge in Hl. lia.
    + by apply Z.ltb_ge in Hl.
Qed.

Lemma prepare_types_length env c hdr pol max window order d res :
  (0 < window)%Z → (Z.of_nat (length res) <= max)%Z →
  (Z.of_nat (length (prepare_types env c hdr pol max window order d res).1.2) <= max)%Z.
Proof.
  intros Hw. revert d res. induction order as [|typ order IH]; intros d res Hres; [done|].
  cbn [prepare_types]. destruct (Z.leb_spec (max - Z.of_nat (length res)) 0); [done|].
  destruct (candidates env d c hdr pol typ) as [[d1 filtered] ev].
  set (sel := takeDeterministic _ _ _).
  assert (Z.of_nat (length sel) <= max - Z.of_nat (length res))%Z as Hsel.
  { apply takeDeterministic_length; [|lia].
    by destruct (Z.ltb_spec (max - Z.of_nat (length res)) window). }
  specialize (IH d1 (res ++ sel)). rewrite length_app in IH.
  destruct (prepare_types env c hdr pol max window order d1 (res ++ sel)) as [[d2 res2] ev2].
  apply IH. lia.
Qed.

(** The builder without the solver never selects more than MaxN payloads
    (1024 when MaxN is not positive), whatever the decrypter returns. *)
Theorem proposal_respects_cap (env : BuildEnv) (d : D) (c : Container) (hdr : BlockHeader)
    (pol : BuilderPolicy) :
  UseDFBA pol = false →
  (Z.of_nat (length (sb_Items (PrepareProposal env d c hdr pol).1.2)) <= clamp_max (MaxN pol))%Z.
Proof.
  intros Hu. unfold PrepareProposal. rewrite Hu.
  pose proof (clamp_max_pos (MaxN pol)) as Hpos.
  pose proof (prepare_types_length env c hdr pol (clamp_max (MaxN pol))
    (clamp_window (Window pol) (clamp_max (MaxN pol))) (Order pol) d []
    (proj1 (clamp_window_bounds _ _ Hpos))) as H. simpl in H.
  destruct (prepare_types _ _ _ _ _ _ _ _ _) as [[]]. simpl in *. lia.
Qed.
End theorems.

(** ** Independence of map iteration order *)
Section determinism.
Context {D : Type} {PD : PrivateDecrypter D} (MI1 MI2 : MapIter).

Lemma flatten_iter {T} {NT : NonceTx T} (p : Pool (T := T)) :
  flatten (MI := MI1) p ≡ₚ flatten (MI := MI2) p.
Proof.
  unfold flatten. assert (∀ l1 l2 : list (list T), l1 ≡ₚ l2 → concat l1 ≡ₚ concat l2) as Hc.
  { induction 1; simpl; [done|by f_equiv|by rewrite !app_assoc, (Permutation_app_comm x)|by etrans]. }
  apply Hc. by rewrite !iter_map_perm.
Qed.

Lemma GetAll_iter c typ : GetAll (MI := MI1) c typ ≡ₚ GetAll (MI := MI2) c typ.
Proof.
  rewrite !GetAll_perm. destruct (impl c !! typ) as [[p|p|p]|]; by rewrite ?flatten_iter.
Qed.

Lemma GetAll_private c :
  well_typed c → GetAll (MI := MI1) c "private_v1" = GetAll (MI := MI2) c "private_v1".
Proof.
  intros Hwt. unfold GetAll. destruct (impl c !! "private_v1") as [m|] eqn:E; [|done].
  apply Hwt in E. by destruct m.
Qed.

(** Different payloads of a public type never have equal keys and hashes. *)
Definition no_ties (c : Container) : Prop :=
  ∀ typ x y, typ ≠ "private_v1" → x ∈ GetAll (MI := MI1) c typ → y ∈ GetAll (MI := MI1) c typ →
    SortKey x = SortKey y → Hash x = Hash y → x = y.

Lemma candidates_iter env d c hdr pol typ :
  well_typed c → no_ties c →
  let r1 := candidates (MI := MI1) env d c hdr pol typ in
  let r2 := candidates (MI := MI2) env d c hdr pol typ in
  r1.1.1 = r2.1.1 ∧ SliceStable payloadLess r1.1.2 = SliceStable payloadLess r2.1.2 ∧
  sortItems (dfba_item typ <$> r1.1.2) = sortItems (dfba_item typ <$> r2.1.2) ∧
  length r1.1.2 = length r2.1.2.
Proof.
  intros Hwt Htf r1 r2. destruct (decide (typ = "private_v1")) as [->|Hne].
  { subst r1 r2. unfold candidates. by rewrite GetAll_private. }
  subst r1 r2. rewrite !candidates_plain by auto. cbn [fst snd]. split; [done|].
  set (P := λ p, reject_reason c typ pol (be_now env) (window_dur pol) p = None).
  assert (filter P (GetAll (MI := MI1) c typ) ≡ₚ filter P (GetAll (MI := MI2) c typ)) as Hp
    by (by rewrite GetAll_iter).
  assert (∀ x y, x ∈ filter P (GetAll (MI := MI1) c typ) → y ∈ filter P (GetAll (MI := MI1) c typ) →
    SortKey x = SortKey y → Hash x = Hash y → x = y) as Hu.
  { intros x y [_ Hx]%list_elem_of_filter [_ Hy]%list_elem_of_filter. by eapply Htf. }
  split_and!; [| |by rewrite Hp].
  - apply (SliceStable_unique _); [done|]. intros x y Hx Hy H1 H2.
    destruct (payloadLess_total x y H1 H2). auto.
  - apply (sortItems_unique 32); [|by rewrite Hp|].
    + apply Forall_fmap, Forall_true. intros p. apply length_Hash.
    + intros x y (a & -> & Ha)%list_elem_of_fmap (b & -> & Hb)%list_elem_of_fmap Hk Hh.
      f_equal. auto.
Qed.

Lemma takeDeterministic_ext l1 l2 need budget :
  SliceStable payloadLess l1 = SliceStable payloadLess l2 →
  takeDeterministic l1 need budget = takeDeterministic l2 need budget.
Proof. unfold takeDeterministic. by intros ->. Qed.

Lemma prepare_types_iter env c hdr pol max window order d res :
  well_typed c → no_ties c →
  (prepare_types (MI := MI1) env c hdr pol max window order d res).1 =
  (prepare_types (MI := MI2) env c hdr pol max window order d res).1.
Proof.
  intros Hwt Htf. revert d res. induction order as [|typ order IH]; intros d res; [done|].
  cbn [prepare_types]. destruct (_ <=? 0)%Z; [done|].
  destruct (candidates_iter env d c hdr pol typ Hwt Htf) as (Hd & Hs & _ & _).
  destruct (candidates (MI := MI1) env d c hdr pol typ) as [[d1 f1] ev1].
  destruct (candidates (MI := MI2) env d c hdr pol typ) as [[d2 f2] ev2]. cbn [fst snd] in *.
  subst d2. rewrite (takeDeterministic_ext f1 f2) by done.
  set (sel := takeDeterministic f2 _ _). specialize (IH d1 (res ++ sel)).
  destruct (prepare_types (MI := MI1) env c hdr pol max window order d1 (res ++ sel)) as [[]].
  destruct (prepare_types (MI := MI2) env c hdr pol max window order d1 (res ++ sel)) as [[]].
  done.
Qed.

Lemma byType_candidates typ typ' (l : list Payload) :
  byType (dfba_item typ' <$> l) typ = if ⌜? typ' = typ ⌝ then dfba_item typ' <$> l else [].
Proof.
  unfold byType. induction l as [|p l IH]; csimpl; [by case_bool_decide|].
  rewrite filter_cons, IH. simpl. by destruct (decide (typ' = typ)), (bool_decide_reflect (typ' = typ)).
Qed.

Lemma collect_items_types {MI : MapIter} env c hdr pol order d typ :
  typ ∉ order → byType (collect_items env c hdr pol order d).1.2 typ = [].
Proof.
  revert d. induction order as [|t order IH]; intros d; [done|].
  intros [Hne Hn]%not_elem_of_cons. cbn [collect_items].
  destruct (candidates env d c hdr pol t) as [[d1 f] ev]. specialize (IH d1 Hn).
  destruct (collect_items env c hdr pol order d1) as [[d2 items] ev2]. simpl in *.
  by rewrite byType_app, IH, byType_candidates, bool_decide_false by congruence.
Qed.

Lemma collect_items_iter env c hdr pol order d typ :
  well_typed c → no_ties c → NoDup order →
  let r1 := collect_items (MI := MI1) env c hdr pol order d in
  let r2 := collect_items (MI := MI2) env c hdr pol order d in
  r1.1.1 = r2.1.1 ∧ sortItems (byType r1.1.2 typ) = sortItems (byType r2.1.2 typ).
Proof.
  intros Hwt Htf. revert d. induction order as [|t order IH]; intros d; [done|].
  intros [Ht Hnd]%NoDup_cons. cbn [collect_items].
  destruct (candidates_iter env d c hdr pol t Hwt Htf) as (Hd & _ & Hs & _).
  destruct (candidates (MI := MI1) env d c hdr pol t) as [[d1 f1] ev1].
  destruct (candidates (MI := MI2) env d c hdr pol t) as [[d2 f2] ev2]. cbn [fst snd] in *.
  subst d2. specialize (IH d1 Hnd).
  pose proof (collect_items_types (MI := MI1) env c hdr pol order d1 t Ht) as H1.
  pose proof (collect_items_types (MI := MI2) env c hdr pol order d1 t Ht) as H2.
  destruct (collect_items (MI := MI1) env c hdr pol order d1) as [[e1 i1] ev1'].
  destruct (collect_items (MI := MI2) env c hdr pol order d1) as [[e2 i2] ev2'].
  cbn [fst snd] in *. destruct IH as [-> IH]. split; [done|].
  rewrite !byType_app, !byType_candidates. destruct (bool_decide_reflect (t = typ)) as [->|]; [|done].
  by rewrite H1, H2, !app_nil_r.
Qed.

End determinism.

(** ** Concrete runs *)
Definition sig32 : bytes := replicate 32 Byte.x00.
Definition bid_tx (from : string) (n b : N) : AuctionBidTx := mkAuctionBidTx from n 1 b "r" sig32.
Definition plain_tx (from : string) (n f : N) : PlaintextTx := mkPlaintextTx from n 1 f sig32.

Definition sample_container : Container :=
  NewContainer {["auction_bid_v1" := AuctionPool (add_all [bid_tx "a" 0 5; bid_tx "b" 0 7]);
                 "plaintext_v1" := PlaintextPool (add_all [plain_tx "a" 0 3; plain_tx "a" 1 9])]}%N.

Definition sample_env : BuildEnv := mkBuildEnv 0 false 0.
Definition sample_builder_policy (dfba : bool) : BuilderPolicy :=
  mkBuilderPolicy ["auction_bid_v1"; "plaintext_v1"] 3 0 2 2 0 0 dfba.

Lemma sample_well_typed : well_typed sample_container.
Proof. unfold well_typed. apply (bool_decide_unpack _). vm_compute. exact I. Qed.

Lemma own_proposal_accepted_witness :
  let _ := iter_forward in let _ := noop_decrypter in
  ProcessProposal (PrepareProposal sample_env tt sample_container (mkBlockHeader 1 0)
    (sample_builder_policy true)).1.2 (sample_builder_policy true) = nil_err ∧
  length (sb_Items (PrepareProposal sample_env tt sample_container (mkBlockHeader 1 0)
    (sample_builder_policy true)).1.2) = 2.
Proof.
  split.
  - apply (own_proposal_accepted (MI := iter_forward) (PD := noop_decrypter) sample_env tt
      sample_container (mkBlockHeader 1 0) (sample_builder_policy true)).
    + apply sample_well_typed.
    + apply (bool_decide_unpack _). vm_compute. exact I.
    + left. reflexivity.
  - vm_compute. reflexivity.
Defined.

Lemma proposal_meets_policy_witness :
  let p := Plaintext (plain_tx "a" 1 9) in
  Type_of p ∈ ["auction_bid_v1"; "plaintext_v1"] ∧
  p ∈ GetAll (MI := iter_forward) sample_container (Type_of p) ∧
  (Type_of p = "auction_bid_v1" → (2 <= SortKey p)%N) ∧
  (Type_of p = "plaintext_v1" → (2 <= SortKey p)%N) ∧
  ∀ m, Arrival sample_container p = Some m → (0 < window_dur (sample_builder_policy false))%Z →
    (0 - window_dur (sample_builder_policy false) <= TS m)%Z.
Proof.
  apply (proposal_meets_policy (MI := iter_forward) (PD := noop_decrypter) sample_env tt
    sample_container (mkBlockHeader 1 0) (sample_builder_policy false)).
  - apply sample_well_typed.
  - left. reflexivity.
  - apply (bool_decide_unpack _). vm_compute. exact I.
Defined.

Lemma proposal_respects_cap_witness :
  (Z.of_nat (length (sb_Items (PrepareProposal (MI := iter_forward) (PD := noop_decrypter) sample_env
    tt sample_container (mkBlockHeader 1 0) (sample_builder_policy false)).1.2)) <= 3)%Z.
Proof.
  apply (proposal_respects_cap (MI := iter_forward) (PD := noop_decrypter) sample_env tt
    sample_container (mkBlockHeader 1 0) (sample_builder_policy false)).
  reflexivity.
Defined.

Lemma NoDup_fmap_eq {A B} (f : A → B) l x y :
  NoDup (f <$> l) → x ∈ l → y ∈ l → f x = f y → x = y.
Proof.
  intros Hnd (i & Hi)%list_elem_of_lookup (j & Hj)%list_elem_of_lookup Hf.
  assert (i = j) as ->; [|congruence]. eapply NoDup_lookup; [exact Hnd| |].
  - by rewrite list_lookup_fmap, Hi.
  - by rewrite list_lookup_fmap, Hj, Hf.
Qed.

Definition tie_key (p : Payload) : N * bytes := (SortKey p, Hash p).

Lemma sample_no_ties : no_ties iter_forward sample_container.
Proof.
  intros typ x y _ Hx Hy Hk Hh.
  apply (NoDup_fmap_eq tie_key (GetAll (MI := iter_forward) sample_container typ)); [|done|done|].
  2:{ unfold tie_key. by rewrite Hk, Hh. }
  destruct (impl sample_container !! typ) as [m|] eqn:E.
  2:{ unfold GetAll in Hx. rewrite E in Hx. by apply elem_of_nil in Hx. }
  clear Hx Hy. simpl in E.
  apply lookup_insert_Some in E as [[<- _]|[_ [<- _]%lookup_singleton_Some]];
    apply (bool_decide_unpack _); vm_compute; exact I.
Qed.


(** ** Where it breaks *)

(** Two bids of different senders whose sender and recipient concatenate alike
    have one hash: their order follows the map's iteration. *)
Example proposal_depends_on_map_order :
  let c := NewContainer {["auction_bid_v1" := AuctionPool (add_all
    [mkAuctionBidTx "ab" 0 1 9 "c" sig32; mkAuctionBidTx "a" 0 1 9 "bc" sig32])]} in
  let build MI := sb_Items (PrepareProposal (MI := MI) (PD := noop_decrypter) sample_env tt c
    (mkBlockHeader 1 0) (sample_builder_policy false)).1.2 in
  build iter_forward ≠ build iter_backward.
Proof. vm_compute. discriminate. Qed.

(** With decryption on, the default order (private_v1 first) places a decrypted
    plaintext payload before the bids, and the node rejects its own block. *)
Definition decrypt_to_plain : PrivateDecrypter unit :=
  {| Decrypt d _ p := (d, (Some (match p with
       | Private t => Plaintext (mkPlaintextTx (pv_From t) (pv_Nonce t) 1 1 [])
       | _ => p end), None)) |}.

Example beast_default_order_rejects_own_block :
  let c := NewContainer {["private_v1" := PrivateTxPool (private_add_all false
                            [mkPrivateTx "p" 0 [Byte.x01] [Byte.x02] 1 0 []]);
                          "auction_bid_v1" := AuctionPool (add_all [bid_tx "a" 0 5])]} in
  let pol := mkBuilderPolicy ["private_v1"; "auction_bid_v1"; "plaintext_v1"] 1024 0 0 0 0 0 false in
  let blk := (PrepareProposal (MI := iter_forward) (PD := decrypt_to_plain) (mkBuildEnv 0 true 0) tt c
    (mkBlockHeader 1 0) pol).1.2 in
  ProcessProposal blk pol = Some "type priority violated".
Proof. vm_compute. reflexivity. Qed.

(** A decrypted payload is not held to the fee threshold. *)
Example decrypted_payload_evades_min_fee :
  let c := NewContainer {["private_v1" := PrivateTxPool (private_add_all false
                            [mkPrivateTx "p" 0 [Byte.x01] [Byte.x02] 1 0 []])]} in
  let pol := mkBuilderPolicy ["private_v1"; "plaintext_v1"] 1024 0 0 100 0 0 false in
  SortKey <$> sb_Items (PrepareProposal (MI := iter_forward) (PD := decrypt_to_plain)
    (mkBuildEnv 0 true 0) tt c (mkBlockHeader 1 0) pol).1.2 = [1%N].
Proof. vm_compute. reflexivity. Qed.
