(* ===== verification/P2p.v ===== *)
(** Peer admission (src/internal/p2p): gates, connection and session limits,
    the peer set, configuration, and the service that combines them. *)
From S2P Require Import Prelude Metrics.

Definition PeerID : Type := string.

(** ** The DKG verifier (src/internal/dkg/lock.go), an interface *)
Record Verifier := mkVerifier { VerifyCluster : goerr; AllowPeer : string → bool }.
Definition NoopVerifier : Verifier := {| VerifyCluster := nil_err; AllowPeer _ := true |}.

(** ** Gates *)
Record ScoreGate := mkScoreGate { threshold : Z; scores : gmap string Z }.

Inductive Gate :=
  | AllowAllGate
  | StaticDenyGate
  | AllowListGate (allowed : gset PeerID)
  | RateLimitGate (remain : Z)
  | ScoredGate (g : ScoreGate)
  | CombinedGate (allow : option (gset PeerID)) (rate : option Z) (score : option ScoreGate).

Definition allowlist_Allow (allowed : gset PeerID) (id : PeerID) : bool := ⌜? id ∈ allowed ⌝.

(** The new remainder, and whether a token was taken. *)
Definition rate_AllowWithReason (remain : Z) : Z * (bool * string) :=
  RETURN (remain, (false, "rate_limited")) IF (remain <=? 0)%Z ;;
  ((remain - 1)%Z, (true, "allowed")).

Definition score_AllowWithReason (g : ScoreGate) (id : PeerID) : bool * string :=
  RETURN (true, "allowed") IF (threshold g <=? 0)%Z ;;
  match scores g !! id with
  | Some s => if (s <? threshold g)%Z then (false, "scored_out") else (true, "allowed")
  | None => (false, "scored_out")
  end.

Definition combined_AllowWithReason (allow : option (gset PeerID)) (rate : option Z)
    (score : option ScoreGate) (id : PeerID) : Gate * (bool * string) :=
  RETURN (CombinedGate allow rate score, (false, "denied"))
    IF match allow with Some a => negb (allowlist_Allow a id) | None => false end ;;
  let '(rate', ok_rate) :=
    match rate with
    | Some r => let '(r', (ok, _)) := rate_AllowWithReason r in (Some r', ok)
    | None => (None, true)
    end in
  RETURN (CombinedGate allow rate' score, (false, "limited")) IF negb ok_rate ;;
  RETURN (CombinedGate allow rate' score, (false, "denied"))
    IF match score with Some g => negb (score_AllowWithReason g id).1 | None => false end ;;
  (CombinedGate allow rate' score, (true, "allowed")).

(** The gate's decision as [Connect] takes it: gates with AllowWithReason give
    their reason, the others are "denied". *)
Definition gate_admit (g : Gate) (id : PeerID) : Gate * (bool * string) :=
  match g with
  | AllowAllGate => (g, (true, "allowed"))
  | StaticDenyGate => (g, (false, "denied"))
  | AllowListGate a => (g, if allowlist_Allow a id then (true, "allowed") else (false, "denied"))
  | RateLimitGate r => let '(r', res) := rate_AllowWithReason r in (RateLimitGate r', res)
  | ScoredGate s => (g, score_AllowWithReason s id)
  | CombinedGate a r s => combined_AllowWithReason a r s id
  end.

Definition NewAllowListGate (ids : list PeerID) : Gate := AllowListGate (list_to_set ids).
Definition NewRateLimitGate (limit : Z) : Gate := RateLimitGate limit.
(** A nil map becomes an empty one. *)
Definition NewScoreGate (thr : Z) (scores : option (gmap PeerID Z)) : ScoreGate := mkScoreGate thr (default ∅ scores).

Definition allowlist_Add (allowed : gset PeerID) (id : PeerID) : gset PeerID := {[id]} ∪ allowed.
Definition allowlist_Remove (allowed : gset PeerID) (id : PeerID) : gset PeerID := allowed ∖ {[id]}.

(** ** Resources *)
Record ResourceManager := mkResourceManager { MaxConns : Z; rm_open : Z }.
Definition NewResourceManager (max : Z) : ResourceManager := mkResourceManager max 0.

Definition TryOpen (r : ResourceManager) : ResourceManager * bool * list MEvent :=
  RETURN (r, false, []) IF (MaxConns r <=? rm_open r)%Z ;;
  (mkResourceManager (MaxConns r) (rm_open r + 1), true,
   [Inc "p2p_conn_open_total" []; AddGauge "p2p_conns_open" [] 1]).

Definition Close (r : ResourceManager) : ResourceManager * list MEvent :=
  RETURN (r, []) IF (rm_open r <=? 0)%Z ;;
  (mkResourceManager (MaxConns r) (rm_open r - 1),
   [Inc "p2p_conn_close_total" []; AddGauge "p2p_conns_open" [] (-1)]).

(** The TSS session limiter; a limiter with max <= 0 or nil limits nothing. *)
Record TSSLimiter := mkTSSLimiter { tl_max : Z; tl_open : Z }.

Definition tss_TryOpen (l : TSSLimiter) : TSSLimiter * bool * list MEvent :=
  RETURN (l, true, []) IF (tl_max l <=? 0)%Z ;;
  RETURN (l, false, [Inc "tss_rate_limited_total" [("kind", "tss_session")]])
    IF (tl_max l <=? tl_open l)%Z ;;
  (mkTSSLimiter (tl_max l) (tl_open l + 1), true, [AddGauge "tss_sessions_open" [] 1]).

Definition tss_Close (l : TSSLimiter) : TSSLimiter * list MEvent :=
  RETURN (l, []) IF (tl_max l <=? 0)%Z ;;
  RETURN (l, []) IF (tl_open l <=? 0)%Z ;;
  (mkTSSLimiter (tl_max l) (tl_open l - 1), [AddGauge "tss_sessions_open" [] (-1)]).

(** ** Configuration *)
Record Config := mkConfig {
  c_MaxConns : Z;
  c_AllowList : list PeerID;
  c_RateLimit : Z;
  c_ScoreThreshold : Z;
  c_DKGRequired : bool;
  c_MaxTSSSessions : Z;
}.

Definition DefaultConfig : Config := mkConfig 128 [] 0 0 false 0.

Definition Validate (c : Config) (dkgPresent : bool) : goerr :=
  RETURN Some "maxConns must be >= 0" IF (c_MaxConns c <? 0)%Z ;;
  RETURN Some "rateLimit must be >= 0" IF (c_RateLimit c <? 0)%Z ;;
  RETURN Some "scoreThreshold must be >= 0" IF (c_ScoreThreshold c <? 0)%Z ;;
  RETURN Some "maxTSSSessions must be >= 0" IF (c_MaxTSSSessions c <? 0)%Z ;;
  RETURN Some "dkg verifier required but missing" IF c_DKGRequired c && negb dkgPresent ;;
  nil_err.

(** ** The service *)
Inductive Hook := NopHook | LogHook.

Definition OnPeerJoin (h : Hook) : list MEvent :=
  match h with NopHook => [] | LogHook => [Inc "p2p_peers_joined_total" []] end.
Definition OnPeerLeave (h : Hook) : list MEvent :=
  match h with NopHook => [] | LogHook => [Inc "p2p_peers_left_total" []] end.

Record Service := mkService {
  peers : gset PeerID;
  gate : Gate;
  rman : ResourceManager;
  hook : Hook;
  dkgv : option Verifier;
  cfg : Config;
  tss : option TSSLimiter;
}.

Definition NewService : Service :=
  mkService ∅ AllowAllGate (NewResourceManager 128) LogHook (Some NoopVerifier) DefaultConfig None.

(** [NewWithOpts]: what is nil takes its default. *)
Definition NewWithOpts (mgr : option (gset PeerID)) (g : option Gate) (r : option ResourceManager) (h : option Hook)
    : Service :=
  mkService (default ∅ mgr) (default AllowAllGate g) (default (NewResourceManager 128) r) (default NopHook h)
    (Some NoopVerifier) DefaultConfig None.

Definition SetConfig (s : Service) (c : Config) : Service :=
  mkService (peers s) (gate s) (rman s) (hook s) (dkgv s) c (tss s).
Definition SetDKG (s : Service) (v : option Verifier) : Service :=
  mkService (peers s) (gate s) (rman s) (hook s) v (cfg s) (tss s).

Definition AddPeer (ps : gset PeerID) (id : PeerID) : gset PeerID * list MEvent :=
  ({[id]} ∪ ps, [Inc "p2p_peers_added_total" []]).
Definition RemovePeer (ps : gset PeerID) (id : PeerID) : gset PeerID * list MEvent :=
  (ps ∖ {[id]}, [Inc "p2p_peers_removed_total" []]).

Definition Broadcast (ms : N) (ps : gset PeerID) : nat * list MEvent :=
  (size ps, [Inc "p2p_messages_total" [("kind", "broadcast")];
             Observe "p2p_broadcast_ms" [("kind", "broadcast")] (float64_of ms)]).

Definition service_op (op : string) (ms : N) : MEvent :=
  Observe "service_op_ms" [("service", "p2p"); ("op", op)] (float64_of ms).

(** The gate that the configuration asks for, or the present one. *)
Definition configured_gate (c : Config) (g : Gate) : Gate :=
  let allow := match c_AllowList c with [] => None | ids => Some (list_to_set ids) end in
  let rate := if (0 <? c_RateLimit c)%Z then Some (c_RateLimit c) else None in
  let score := if (0 <? c_ScoreThreshold c)%Z then Some (mkScoreGate (c_ScoreThreshold c) ∅) else None in
  match allow, rate, score with
  | None, None, None => g
  | _, _, _ => CombinedGate allow rate score
  end.

Definition Start (ms : N) (s : Service) : Service * goerr * list MEvent :=
  match Validate (cfg s) (match dkgv s with Some _ => true | None => false end) with
  | Some e =>
      (s, Some e, [Inc "p2p_config_checks_total" [("result", "error")]; service_op "start" ms])
  | None =>
      let g := configured_gate (cfg s) (gate s) in
      let r := if ⌜? MaxConns (rman s) ≠ c_MaxConns (cfg s) ⌝
               then NewResourceManager (c_MaxConns (cfg s)) else rman s in
      let t := if (0 <? c_MaxTSSSessions (cfg s))%Z
               then Some (mkTSSLimiter (c_MaxTSSSessions (cfg s)) 0) else None in
      let s' := mkService (peers s) g r (hook s) (dkgv s) (cfg s) t in
      let ok := Inc "p2p_config_checks_total" [("result", "ok")] in
      match dkgv s with
      | None => (s', nil_err, [ok; service_op "start" ms])
      | Some v =>
          match VerifyCluster v with
          | Some e => (s', Some e, [ok; Inc "p2p_dkg_cluster_checks_total" [("result", "error")];
                                    service_op "start" ms])
          | None => (s', nil_err, [ok; Inc "p2p_dkg_cluster_checks_total" [("result", "ok")];
                                   service_op "start" ms])
          end
      end
  end.

Definition Stop (ms : N) (s : Service) : Service * goerr * list MEvent := (s, nil_err, [service_op "stop" ms]).

Definition conn_attempt (result : string) : MEvent := Inc "p2p_conn_attempts_total" [("result", result)].

Definition set_gate (s : Service) (g : Gate) : Service :=
  mkService (peers s) g (rman s) (hook s) (dkgv s) (cfg s) (tss s).

Definition Connect (s : Service) (id : PeerID) : Service * goerr * list MEvent :=
  let '(g, (ok, reason)) := gate_admit (gate s) id in
  let s := set_gate s g in
  RETURN (s, Some "peer denied", [conn_attempt (if ⌜? reason = "" ⌝ then "denied" else reason)])
    IF negb ok ;;
  RETURN (s, Some "dkg denied", [conn_attempt "dkg_denied"])
    IF match dkgv s with Some v => negb (AllowPeer v id) | None => false end ;;
  let '(r, opened, ev) := TryOpen (rman s) in
  RETURN (s, Some "resource limit", [conn_attempt "limited"]) IF negb opened ;;
  let '(ps, ev2) := AddPeer (peers s) id in
  (mkService ps (gate s) r (hook s) (dkgv s) (cfg s) (tss s), nil_err,
   ev ++ ev2 ++ [conn_attempt "allowed"] ++ OnPeerJoin (hook s)).

Definition Disconnect (s : Service) (id : PeerID) : Service * list MEvent :=
  let '(ps, ev) := RemovePeer (peers s) id in
  let '(r, ev2) := Close (rman s) in
  (mkService ps (gate s) r (hook s) (dkgv s) (cfg s) (tss s), ev ++ ev2 ++ OnPeerLeave (hook s)).

Definition TryOpenTSS (s : Service) : Service * bool * list MEvent :=
  match tss s with
  | None => (s, true, [])
  | Some l =>
      let '(l', ok, ev) := tss_TryOpen l in
      (mkService (peers s) (gate s) (rman s) (hook s) (dkgv s) (cfg s) (Some l'), ok, ev)
  end.

Definition CloseTSS (s : Service) : Service * list MEvent :=
  match tss s with
  | None => (s, [])
  | Some l =>
      let '(l', ev) := tss_Close l in
      (mkService (peers s) (gate s) (rman s) (hook s) (dkgv s) (cfg s) (Some l'), ev)
  end.

Record StaticVerifier := mkStaticVerifier { sv_allowed : gset string }.
Definition static_verifier (v : StaticVerifier) : Verifier :=
  {| VerifyCluster := nil_err; AllowPeer id := ⌜? id ∈ sv_allowed v ⌝ |}.

(** ** Runs of the service *)
Inductive P2pOp := DoConnect (id : PeerID) | DoDisconnect (id : PeerID) | DoTryTSS | DoCloseTSS.

(** The new service, whether a connection was admitted, and the metrics. *)
Definition p2p_step (s : Service) (op : P2pOp) : Service * (bool * list MEvent) :=
  match op with
  | DoConnect id => let '(s', err, ev) := Connect s id in (s', (⌜? err = nil_err ⌝, ev))
  | DoDisconnect id => let '(s', ev) := Disconnect s id in (s', (false, ev))
  | DoTryTSS => let '(s', _, ev) := TryOpenTSS s in (s', (false, ev))
  | DoCloseTSS => let '(s', ev) := CloseTSS s in (s', (false, ev))
  end.

(** What a list of metric events adds to a gauge without labels. *)
Definition gauge_delta (name : string) (evs : list MEvent) : Z :=
  foldr (λ e acc, match e with
    | AddGauge n [] d => if ⌜? n = name ⌝ then (acc + d)%Z else acc
    | _ => acc end) 0%Z evs.

Lemma gauge_delta_app name e1 e2 :
  gauge_delta name (e1 ++ e2) = (gauge_delta name e1 + gauge_delta name e2)%Z.
Proof.
  unfold gauge_delta. induction e1 as [|e e1 IH]; simpl; [done|].
  rewrite IH. repeat case_match; lia.
Qed.

Definition admitted (outs : list (bool * list MEvent)) : nat := length (filter (λ o, o.1 = true) outs).

(** Tokens left in the gate, when it limits the rate. *)
Definition tokens (g : Gate) : option Z :=
  match g with
  | RateLimitGate r => Some r
  | CombinedGate _ r _ => r
  | _ => None
  end.

Lemma gate_admit_tokens g id :
  match tokens g, tokens (gate_admit g id).1 with
  | Some r, Some r' => ((0 <= r → 0 <= r') ∧ r' + (if (gate_admit g id).2.1 then 1 else 0) <= r)%Z
  | None, None => True
  | _, _ => False
  end.
Proof.
  destruct g as [| | |r| |a r sc]; simpl; try done.
  - unfold rate_AllowWithReason. destruct (Z.leb_spec r 0); simpl; lia.
  - unfold combined_AllowWithReason, rate_AllowWithReason.
    destruct (match a with Some a => negb (allowlist_Allow a id) | None => false end);
      [destruct r; simpl; [lia|done]|].
    destruct r as [r|]; simpl; [destruct (Z.leb_spec r 0); simpl; [lia|]|];
      destruct (match sc with Some g => negb (score_AllowWithReason g id).1 | None => false end);
      simpl; try done; lia.
Qed.

(** One arithmetic fact about a step, after the case analysis of its code. *)
Ltac step_fact :=
  first [ done | lia
        | match goal with |- context [tokens ?a] => destruct (tokens a) end;
          try (match goal with |- context [tokens ?a] => destruct (tokens a) end); (done || lia)
        | match goal with |- context [OnPeerJoin ?h] => destruct h end; simpl; lia
        | match goal with |- context [OnPeerLeave ?h] => destruct h end; simpl; lia ].

(** The facts about a step that the invariants need. *)
Lemma p2p_step_facts s op :
  let s' := (p2p_step s op).1 in
  let o := (p2p_step s op).2 in
  MaxConns (rman s') = MaxConns (rman s) ∧ cfg s' = cfg s ∧
  (rm_open (rman s') - rm_open (rman s) = gauge_delta "p2p_conns_open" o.2)%Z ∧
  ((0 <= rm_open (rman s) <= MaxConns (rman s))%Z → (0 <= rm_open (rman s') <= MaxConns (rman s'))%Z) ∧
  match tokens (gate s), tokens (gate s') with
  | Some r, Some r' => ((0 <= r → 0 <= r') ∧ r' + (if o.1 then 1 else 0) <= r)%Z
  | None, None => True
  | _, _ => False
  end.
Proof.
  destruct op as [id|id| |]; simpl.
  - unfold Connect. pose proof (gate_admit_tokens (gate s) id) as Hg.
    destruct (gate_admit (gate s) id) as [g [ok reason]]. simpl in *.
    destruct ok; simpl; [|split_and!; step_fact].
    destruct (match dkgv s with Some v => negb (AllowPeer v id) | None => false end); simpl;
      [split_and!; step_fact|].
    unfold TryOpen. destruct (Z.leb_spec (MaxConns (rman s)) (rm_open (rman s))); simpl;
      split_and!; step_fact.
  - unfold Disconnect, Close. destruct (Z.leb_spec (rm_open (rman s)) 0); simpl;
      split_and!; step_fact.
  - unfold TryOpenTSS, tss_TryOpen. destruct (tss s) as [l|]; simpl;
      [destruct (_ <=? 0)%Z; [|destruct (_ <=? _)%Z]|]; simpl; split_and!; step_fact.
  - unfold CloseTSS, tss_Close. destruct (tss s) as [l|]; simpl;
      [destruct (_ <=? 0)%Z; [|destruct (_ <=? _)%Z]|]; simpl; split_and!; step_fact.
Qed.

(** Admission control holds in every run of connects, disconnects and TSS
    sessions from a service with no connections: open connections stay between 0
    and MaxConns, the p2p_conns_open gauge adds up to exactly their number, and
    with a rate limit of R tokens at most R connections are ever admitted. *)
Theorem admission_bounds (s : Service) (ops : list P2pOp) :
  (0 <= MaxConns (rman s))%Z → rm_open (rman s) = 0%Z →
  let r := run p2p_step s ops in
  (0 <= rm_open (rman r.1) <= MaxConns (rman s))%Z ∧
  gauge_delta "p2p_conns_open" (concat r.2.*2) = rm_open (rman r.1) ∧
  ∀ R, tokens (gate s) = Some R → (0 <= R)%Z → (Z.of_nat (admitted r.2) <= R)%Z.
Proof.
  intros Hmax Hopen r.
  assert (MaxConns (rman r.1) = MaxConns (rman s) ∧
    (0 <= rm_open (rman r.1) <= MaxConns (rman r.1))%Z ∧
    gauge_delta "p2p_conns_open" (concat r.2.*2) = rm_open (rman r.1) ∧
    ∀ R, tokens (gate s) = Some R → (0 <= R)%Z → ∃ R', tokens (gate r.1) = Some R' ∧
      (0 <= R')%Z ∧ (R' + Z.of_nat (admitted r.2) <= R)%Z) as (H1 & H2 & H3 & H4).
  { subst r. induction ops as [|op ops IH] using rev_ind.
    - simpl. split_and!; [done|lia|lia|done|]. intros R HR H0. exists R. simpl. split_and!; [done|lia|].
      unfold admitted. simpl. lia.
    - rewrite run_snoc. destruct (run p2p_step s ops) as [s1 os]. simpl in IH.
      destruct IH as (I1 & I2 & I3 & I4). pose proof (p2p_step_facts s1 op) as (F1 & _ & F3 & F4 & F5).
      destruct (p2p_step s1 op) as [s2 [adm ev]]. simpl in *.
      rewrite fmap_app, concat_app, gauge_delta_app. simpl. rewrite app_nil_r.
      split_and!; [congruence|lia|lia|lia|]. intros R HR H0.
      destruct (I4 R HR H0) as (R' & HR' & Hpos & Hle). rewrite HR' in F5.
      destruct (tokens (gate s2)) as [R2|]; [|done]. exists R2. split_and!; [done|lia|].
      unfold admitted in *. rewrite filter_app, length_app. destruct adm; simpl; lia. }
  split_and!; [lia|lia|done|]. intros R HR H0. destruct (H4 R HR H0) as (R' & _ & ? & ?). lia.
Qed.

Definition sample_service : Service :=
  mkService ∅ (CombinedGate None (Some 2%Z) None) (NewResourceManager 1) LogHook None DefaultConfig None.

Lemma admission_bounds_witness :
  let r := run p2p_step sample_service
    [DoConnect "a"; DoConnect "b"; DoDisconnect "a"; DoConnect "c"; DoConnect "d"] in
  ((0 <= rm_open (rman r.1) <= 1)%Z ∧
   gauge_delta "p2p_conns_open" (concat r.2.*2) = rm_open (rman r.1) ∧
   ∀ R, Some 2%Z = Some R → (0 <= R)%Z → (Z.of_nat (admitted r.2) <= R)%Z) ∧
  r.2.*1 = [true; false; false; false; false].
Proof.
  split.
  - apply (admission_bounds sample_service); [simpl; lia|reflexivity].
  - vm_compute. reflexivity.
Defined.

(** A peer that was never connected frees a slot: two peers are connected under a
    limit of one. *)
Example disconnect_of_stranger_frees_slot :
  let s := mkService ∅ AllowAllGate (NewResourceManager 1) LogHook None DefaultConfig None in
  let r := run p2p_step s [DoConnect "a"; DoDisconnect "stranger"; DoConnect "b"] in
  r.2.*1 = [true; false; true] ∧ size (peers r.1) = 2 ∧ rm_open (rman r.1) = 1%Z.
Proof. vm_compute. done. Qed.

(** The combined gate takes a rate token before it looks at the score. *)
Example scored_out_peer_spends_token :
  let g := CombinedGate None (Some 1%Z) (Some (mkScoreGate 5 {["good" := 9%Z]})) in
  let '(g1, (ok1, _)) := gate_admit g "bad" in
  let '(_, (ok2, reason2)) := gate_admit g1 "good" in
  ok1 = false ∧ ok2 = false ∧ reason2 = "limited".
Proof. vm_compute. done. Qed.

(** ** Interleavings

    TryOpen and Close run without a lock, from any number of goroutines: each
    loads the counter, compares it with its bound, and swaps it if it has not
    changed since, else starts over. *)
Module Counter.

Inductive Call := CallOpen | CallClose.

Inductive Pc :=
  | Start (c : Call)                (* about to load *)
  | Loaded (c : Call) (o : Z)       (* loaded o *)
  | Done (c : Call) (ok : bool).    (* returned; ok: the counter was changed *)

Record Sys := mkSys { open : Z; threads : list Pc }.

(** The call of thread [i] after loading [o]: return without a change, swap, or
    retry. *)
Definition attempt (max : Z) (c : Call) (o cur : Z) : Z * Pc :=
  match c with
  | CallOpen =>
      RETURN (cur, Done c false) IF (max <=? o)%Z ;;
      RETURN ((o + 1)%Z, Done c true) IF (cur =? o)%Z ;;
      (cur, Start c)
  | CallClose =>
      RETURN (cur, Done c false) IF (o <=? 0)%Z ;;
      RETURN ((o - 1)%Z, Done c true) IF (cur =? o)%Z ;;
      (cur, Start c)
  end.

Inductive step (max : Z) : Sys → Sys → Prop :=
  | step_spawn s c :
      step max s (mkSys (open s) (threads s ++ [Start c]))
  | step_load s i c :
      threads s !! i = Some (Start c) →
      step max s (mkSys (open s) (<[i := Loaded c (open s)]> (threads s)))
  | step_attempt s i c o :
      threads s !! i = Some (Loaded c o) →
      step max s (mkSys (attempt max c o (open s)).1 (<[i := (attempt max c o (open s)).2]> (threads s))).

Definition init : Sys := mkSys 0 [].

Definition effect (pc : Pc) : Z :=
  match pc with
  | Done CallOpen true => 1
  | Done CallClose true => -1
  | _ => 0
  end%Z.

Definition total (ts : list Pc) : Z := foldr (λ pc acc, (effect pc + acc)%Z) 0%Z ts.

Definition loaded_ok (max : Z) (pc : Pc) : Prop :=
  match pc with Loaded _ o => (0 <= o <= max)%Z | _ => True end.

Record inv (max : Z) (s : Sys) : Prop := {
  inv_bound : (0 <= open s <= max)%Z;
  inv_count : open s = total (threads s);
  inv_loaded : Forall (loaded_ok max) (threads s);
}.

Lemma total_app a b : total (a ++ b) = (total a + total b)%Z.
Proof. unfold total. induction a as [|x a IH]; simpl; lia. Qed.

Lemma total_insert ts i pc pc' :
  ts !! i = Some pc → total (<[i := pc']> ts) = (total ts - effect pc + effect pc')%Z.
Proof.
  intros Hi. rewrite insert_take_drop by (by eapply lookup_lt_Some).
  rewrite <-(take_drop_middle _ _ _ Hi) at 3. rewrite !total_app. simpl. lia.
Qed.

Lemma step_inv max s s' : inv max s → step max s s' → inv max s'.
Proof.
  intros [Hb Hc Hl] Hstep. destruct Hstep as [s c|s i c Hi|s i c o Hi].
  - split; simpl; [done| |].
    + rewrite total_app. simpl. lia.
    + apply Forall_app. split; [done|]. by repeat constructor.
  - split; simpl; [done| |].
    + rewrite (total_insert _ _ _ _ Hi). simpl. lia.
    + by apply Forall_insert.
  - pose proof (Forall_lookup_1 _ _ _ _ Hl Hi) as Ho. simpl in Ho.
    destruct (attempt max c o (open s)) as [cur pc] eqn:E. cbn [fst snd].
    assert ((0 <= cur <= max)%Z ∧ cur = (open s + effect pc)%Z ∧ loaded_ok max pc) as (H1 & H2 & H3).
    { destruct c; simpl in E; repeat case_match; simplify_eq/=; guards; lia. }
    split; simpl; [done| |by apply Forall_insert].
    rewrite (total_insert _ _ _ _ Hi). simpl. destruct c; lia.
Qed.

(** C38. The lock-free connection counter is safe in every interleaving of any
    number of concurrent TryOpen and Close calls: it stays between 0 and MaxConns,
    and equals the TryOpen calls that returned true minus the Close calls that
    took effect (no update is lost). *)
Theorem counter_safe (max : Z) (s : Sys) :
  (0 <= max)%Z → rtc (step max) init s →
  (0 <= open s <= max)%Z ∧ open s = total (threads s).
Proof.
  intros Hmax Hr. assert (inv max init) as H0 by (split; simpl; [lia|done|constructor]).
  revert H0 Hr. generalize init. intros s0 H0 Hr.
  assert (inv max s) as [Hb Hc _]; [|done]. induction Hr; eauto using step_inv.
Qed.

Lemma counter_safe_witness :
  let s := mkSys 1 [Done CallOpen true; Loaded CallOpen 0] in
  rtc (step 1) init s ∧ (0 <= open s <= 1)%Z ∧ open s = total (threads s).
Proof.
  assert (rtc (step 1) init (mkSys 1 [Done CallOpen true; Loaded CallOpen 0])) as Hr.
  { eapply rtc_l; [apply (step_spawn 1 init CallOpen)|].
    eapply rtc_l; [apply (step_spawn 1 _ CallOpen)|].
    eapply rtc_l; [apply (step_load 1 _ 0 CallOpen); reflexivity|].
    eapply rtc_l; [apply (step_load 1 _ 1 CallOpen); reflexivity|].
    eapply rtc_l; [apply (step_attempt 1 _ 0 CallOpen 0); reflexivity|]. apply rtc_refl. }
  split; [exact Hr|]. apply (counter_safe 1); [lia|exact Hr].
Defined.

(** An attempt fails to finish only when the counter changed since its load:
    when nobody else runs, a call finishes in one load and one attempt. *)
Lemma attempt_retries max c o cur :
  (attempt max c o cur).2 = Start c → cur ≠ o ∧ (attempt max c o cur).1 = cur.
Proof. destruct c; simpl; repeat case_match; simpl; try done; guards; done. Qed.
End Counter.
