(* ===== verification/Consensus.v ===== *)
(** The consensus service (src/internal/consensus): the adapter from bus events
    to QBFT messages, Start, and the event loop, over the interfaces it calls:
    verifier, state machine, store, write-ahead log, builder, broadcaster,
    signer and fee sink.

    One turn of the loop is a function from the service to the service and the
    list of the effects the turn has, in order. *)
From S2P Require Import Prelude Metrics Codec Files StateStore Sha256.
From S2P Require Import QbftMessage QbftVerifier QbftState QbftWal NoncePool Payload Dfba Builder.
From stdpp Require Import pretty.

(** ** Bus events (src/pkg/bus/event.go) *)
Definition KindDuty : string := "duty".
Definition KindConsensus : string := "consensus".
Definition KindTx : string := "tx".

(** [Body any], as far as consumers look at it. *)
Inductive Body := NilBody | MessageBody (m : Message) | PayloadBody (p : Payload.Payload) | OtherBody.

Record Event := mkEvent {
  ev_Kind : string;
  ev_Height : N;
  ev_Round : N;
  ev_Body : Body;
  ev_TraceID : string;
}.

(** ** The adapter (adapter.go) *)
Definition fallback_id (ev : Event) : string :=
  "ev-" +:+ ev_TraceID ev +:+ "-" +:+ pretty (ev_Height ev) +:+ "-" +:+ pretty 0%N.

Definition MapEventToQBFT (ev : Event) : Message :=
  let fallback :=
    mkMessage "consensus_stub" (ev_Height ev) 0 MsgPreprepare [] (fallback_id ev) (ev_TraceID ev) [] in
  if ⌜? ev_Kind ev = KindConsensus ⌝ then
    match ev_Body ev with MessageBody m => m | _ => fallback end
  else fallback.

(** ** Interfaces *)

(** [qbft.Verifier] and [qbft.Processor]. A [None] of the processor is a panic. *)
Class VerifierI (V : Type) := { v_Verify : V → Message → V * goerr * list MEvent }.
Class ProcessorI (P : Type) := { p_Process : P → Message → option (P * (goerr * list MEvent)) }.

#[export] Instance basic_verifier : VerifierI BasicVerifier := {| v_Verify := Verify |}.
#[export] Instance state_processor : ProcessorI State := {| p_Process := Process |}.

(** [ValueRecord] (sink.go). *)
Record ValueRecord := mkValueRecord {
  vr_Height : N;
  vr_Round : N;
  vr_Bids : N;
  vr_Fees : N;
  vr_Items : nat;
}.

(** What a turn of the loop does to the outside, in order. *)
Inductive Effect :=
  | EMetric (e : MEvent)
  | EAppend (m : Message) (err : goerr)     (* WAL append *)
  | EBroadcast (m : Message)
  | EProcess (m : Message)
  | EPublish (v : ValueRecord)
  | ESign (h r : N) (digest : bytes)
  | ESave (s : LastState).

Definition metrics (es : list MEvent) : list Effect := EMetric <$> es.

Section service.
Context {MI : MapIter} {V P ST SE D : Type}.
Context {VI : VerifierI V} {PI : ProcessorI P} {SI : Store ST SE} {PD : PrivateDecrypter D}.
Context {WJ : Json walEntry} {BJ : Json StandardBlock}.

Record Service := mkService {
  sv_v : V;
  sv_store : ST;
  sv_st : P;
  sv_wal : WAL;
  sv_lastWAL : Message;
  sv_hasTSS : bool;                                       (* tss != nil *)
  sv_enableTSSSync : bool;
  sv_enableBuilder : bool;
  sv_pool : option Container;
  sv_policy : BuilderPolicy;
  sv_polConfigured : bool;
  sv_lastBlock : gmap N (gmap N StandardBlock);
  sv_enableTSSSign : bool;
  sv_hasSigner : bool;                                    (* signer != nil *)
  sv_hasBc : bool;                                        (* bc != nil *)
  (* state outside the struct: the decrypter and the file of the log *)
  sv_dec : D;
  sv_fs : FS;
}.

(** The environment of one turn. *)
Record TurnEnv := mkTurnEnv {
  te_wal : Files.Outcome;          (* what happens to the log write *)
  te_bc_err : bool;          (* broadcast fails *)
  te_build : BuildEnv;
  te_store : SE;
  te_sign_err : bool;
  te_early : bool;           (* AEQUA_BEAST_EARLY_SHARE *)
  te_now : Z;
  te_ms : N;                 (* measured latency *)
}.

(** ** Aggregation of a block's value *)
Definition summarizeStats (items : list Payload.Payload) : BlockStats :=
  foldl (λ st it, match it with
    | Auction tx => mkBlockStats (TotalFees st) (u64_add (TotalBids st) (ab_Bid tx)) (stat_Items st)
    | Plaintext tx => mkBlockStats (u64_add (TotalFees st) (pt_Fee tx)) (TotalBids st) (stat_Items st)
    | Private _ => st
    end) (mkBlockStats 0 0 (length items)) items.

(** ** The steps of one turn on a verified message *)

Definition set_fs (s : Service) (fs : FS) : Service :=
  mkService (sv_v s) (sv_store s) (sv_st s) (sv_wal s) (sv_lastWAL s) (sv_hasTSS s)
    (sv_enableTSSSync s) (sv_enableBuilder s) (sv_pool s) (sv_policy s) (sv_polConfigured s)
    (sv_lastBlock s) (sv_enableTSSSign s) (sv_hasSigner s) (sv_hasBc s) (sv_dec s) fs.
Definition set_v (s : Service) (v : V) : Service :=
  mkService v (sv_store s) (sv_st s) (sv_wal s) (sv_lastWAL s) (sv_hasTSS s)
    (sv_enableTSSSync s) (sv_enableBuilder s) (sv_pool s) (sv_policy s) (sv_polConfigured s)
    (sv_lastBlock s) (sv_enableTSSSign s) (sv_hasSigner s) (sv_hasBc s) (sv_dec s) (sv_fs s).
Definition set_st (s : Service) (st : P) : Service :=
  mkService (sv_v s) (sv_store s) st (sv_wal s) (sv_lastWAL s) (sv_hasTSS s)
    (sv_enableTSSSync s) (sv_enableBuilder s) (sv_pool s) (sv_policy s) (sv_polConfigured s)
    (sv_lastBlock s) (sv_enableTSSSign s) (sv_hasSigner s) (sv_hasBc s) (sv_dec s) (sv_fs s).
Definition set_store (s : Service) (store : ST) : Service :=
  mkService (sv_v s) store (sv_st s) (sv_wal s) (sv_lastWAL s) (sv_hasTSS s)
    (sv_enableTSSSync s) (sv_enableBuilder s) (sv_pool s) (sv_policy s) (sv_polConfigured s)
    (sv_lastBlock s) (sv_enableTSSSign s) (sv_hasSigner s) (sv_hasBc s) (sv_dec s) (sv_fs s).
Definition set_pool (s : Service) (c : Container) : Service :=
  mkService (sv_v s) (sv_store s) (sv_st s) (sv_wal s) (sv_lastWAL s) (sv_hasTSS s)
    (sv_enableTSSSync s) (sv_enableBuilder s) (Some c) (sv_policy s) (sv_polConfigured s)
    (sv_lastBlock s) (sv_enableTSSSign s) (sv_hasSigner s) (sv_hasBc s) (sv_dec s) (sv_fs s).
Definition set_block (s : Service) (d : D) (lb : gmap N (gmap N StandardBlock)) : Service :=
  mkService (sv_v s) (sv_store s) (sv_st s) (sv_wal s) (sv_lastWAL s) (sv_hasTSS s)
    (sv_enableTSSSync s) (sv_enableBuilder s) (sv_pool s) (sv_policy s) (sv_polConfigured s)
    lb (sv_enableTSSSign s) (sv_hasSigner s) (sv_hasBc s) d (sv_fs s).

(** ** Wiring: the setters *)
Definition SetWAL (s : Service) (w : WAL) : Service :=
  mkService (sv_v s) (sv_store s) (sv_st s) w (sv_lastWAL s) (sv_hasTSS s)
    (sv_enableTSSSync s) (sv_enableBuilder s) (sv_pool s) (sv_policy s) (sv_polConfigured s)
    (sv_lastBlock s) (sv_enableTSSSign s) (sv_hasSigner s) (sv_hasBc s) (sv_dec s) (sv_fs s).
Definition SetBuilderPolicy (s : Service) (p : BuilderPolicy) : Service :=
  mkService (sv_v s) (sv_store s) (sv_st s) (sv_wal s) (sv_lastWAL s) (sv_hasTSS s)
    (sv_enableTSSSync s) (sv_enableBuilder s) (sv_pool s) p true
    (sv_lastBlock s) (sv_enableTSSSign s) (sv_hasSigner s) (sv_hasBc s) (sv_dec s) (sv_fs s).
(** SetTSSVerifier, SetTSSSigner and SetBroadcaster: whether each is given. *)
Definition set_parts (s : Service) (tss signer bc : bool) : Service :=
  mkService (sv_v s) (sv_store s) (sv_st s) (sv_wal s) (sv_lastWAL s) tss
    (sv_enableTSSSync s) (sv_enableBuilder s) (sv_pool s) (sv_policy s) (sv_polConfigured s)
    (sv_lastBlock s) (sv_enableTSSSign s) signer bc (sv_dec s) (sv_fs s).
Definition SetTSSVerifier (s : Service) (v : bool) : Service := set_parts s v (sv_hasSigner s) (sv_hasBc s).
Definition SetTSSSigner (s : Service) (si : bool) : Service := set_parts s (sv_hasTSS s) si (sv_hasBc s).
Definition SetBroadcaster (s : Service) (b : bool) : Service := set_parts s (sv_hasTSS s) (sv_hasSigner s) b.

(** Persist the vote intent (best effort). *)
Definition append_intent (e : TurnEnv) (s : Service) (msg : Message) : Service * list Effect :=
  match sv_wal s with
  | Some _ =>
      RETURN (s, []) IF negb (is_vote msg) ;;
      let '(fs', err, ev) := AppendIntent (te_wal e) (sv_wal s) msg (sv_fs s) in
      (set_fs s fs', EAppend msg err :: metrics ev)
  | None => (s, [])
  end.

Definition broadcast_vote (e : TurnEnv) (s : Service) (msg : Message) : list Effect :=
  RETURN [] IF negb (sv_hasBc s && is_vote msg) ;;
  [EBroadcast msg;
   EMetric (Inc "consensus_broadcast_total"
     [("type", Type_ msg); ("result", if te_bc_err e then "error" else "ok")])].

(** Prepare a block for the message's coordinates. *)
Definition build_block (e : TurnEnv) (s : Service) (msg : Message) : Service * list Effect :=
  match sv_pool s with
  | Some pool =>
      RETURN (s, []) IF negb (sv_enableBuilder s) ;;
      let hdr := mkBlockHeader (Height msg) (Round msg) in
      let '(d, blk, ev) := PrepareProposal (te_build e) (sv_dec s) pool hdr (sv_policy s) in
      match ProcessProposal blk (sv_policy s) with
      | None =>
          let blk := mkStandardBlock (sb_Header blk) (sb_Items blk) (summarizeStats (sb_Items blk)) in
          let row := default ∅ (sv_lastBlock s !! Height msg) in
          (set_block s d (<[Height msg := <[Round msg := blk]> row]> (sv_lastBlock s)), metrics ev)
      | Some _ => (set_block s d (sv_lastBlock s), metrics ev)
      end
  | None => (s, [])
  end.

(** The guard against votes older than the last logged one. *)
Definition guard_allows (lastWAL msg : Message) : bool :=
  negb (is_vote msg && negb ⌜? Type_ lastWAL = "" ⌝ &&
        ((Height msg <? Height lastWAL)%N ||
         ((Height msg =? Height lastWAL)%N && (Round msg <? Round lastWAL)%N))).

(** Account for the block of the message's coordinates, if one was built. *)
Definition account_block (e : TurnEnv) (s : Service) (msg : Message) : list Effect :=
  match sv_lastBlock s !! Height msg ≫= λ row, row !! Round msg with
  | Some blk =>
      let st := sb_Stats blk in
      [EMetric (Observe "block_value_bids" [] (float64_of (TotalBids st)));
       EMetric (Observe "block_value_fees" [] (float64_of (TotalFees st)));
       EPublish (mkValueRecord (Height msg) (Round msg) (TotalBids st) (TotalFees st)
                   (length (sb_Items blk)))] ++
      (if sv_enableTSSSign s && sv_hasSigner s && ⌜? Type_ msg = MsgCommit ⌝ then
         [ESign (Height msg) (Round msg) (sha256 (marshal blk));
          EMetric (Inc "block_sign_total" [("result", if te_sign_err e then "error" else "ok")])]
       else [])
  | None => []
  end.

(** Apply the message and save the coordinates; a panic of the processor is
    [None]. *)
Definition apply_message (e : TurnEnv) (s : Service) (msg : Message) : option (Service * list Effect) :=
  '(st', (_, ev)) ← p_Process (sv_st s) msg;
  let ls := mkLastState (Height msg) (Round msg) in
  let '(store', _, ev2) := SaveLastState (te_store e) (sv_store s) ls in
  Some (set_store (set_st s st') store',
        EProcess msg :: metrics ev ++ account_block e s msg ++ ESave ls :: metrics ev2).

Definition handle_verified (e : TurnEnv) (s : Service) (msg : Message) : option (Service * list Effect) :=
  let '(s1, ef1) := append_intent e s msg in
  let ef2 := broadcast_vote e s1 msg in
  let '(s2, ef3) := build_block e s1 msg in
  RETURN Some (s2, ef1 ++ ef2 ++ ef3 ++ [EMetric (Inc "qbft_wal_guard_drops_total" [])])
    IF negb (guard_allows (sv_lastWAL s2) msg) ;;
  '(s3, ef4) ← apply_message e s2 msg;
  Some (s3, ef1 ++ ef2 ++ ef3 ++ ef4).

(** One turn of the loop: [case ev := <-s.sub]. *)
Definition handle_event (e : TurnEnv) (s : Service) (ev : Event) : option (Service * list Effect) :=
  if ⌜? ev_Kind ev = KindTx ⌝ then
    match sv_pool s, ev_Body ev with
    | Some pool, PayloadBody p =>
        let '(pool', _, mev) := container_Add (te_early e) (te_now e) pool p in
        Some (set_pool s pool', metrics mev)
    | _, _ => Some (s, [])
    end
  else
    let received := EMetric (Inc "consensus_events_total" [("kind", ev_Kind ev)]) in
    let observed := EMetric (Observe "consensus_proc_ms" [("kind", ev_Kind ev)] (float64_of (te_ms e))) in
    let msg := MapEventToQBFT ev in
    let '(v', err, vev) := v_Verify (sv_v s) msg in
    let s := set_v s v' in
    match err with
    | Some _ => Some (s, received :: metrics vev ++ [observed])
    | None =>
        '(s', ef) ← handle_verified e s msg;
        Some (s', received :: metrics vev ++ ef ++ [observed])
    end.

Fixpoint handle_events (s : Service) (evs : list (TurnEnv * Event)) : option (Service * list Effect) :=
  match evs with
  | [] => Some (s, [])
  | (e, ev) :: evs' =>
      '(s1, ef1) ← handle_event e s ev;
      '(s2, ef2) ← handle_events s1 evs';
      Some (s2, ef1 ++ ef2)
  end.

(** ** Start *)

(** [beast] is AEQUA_ENABLE_BEAST=1. *)
Definition default_order (beast : bool) : list string :=
  (if beast then ["private_v1"] else []) ++ ["auction_bid_v1"; "plaintext_v1"].

Definition set_order_max (p : BuilderPolicy) (order : list string) (max : Z) : BuilderPolicy :=
  mkBuilderPolicy order max (BudgetBytes p) (MinBid p) (MinFee p) (Window p) (BatchTicks p) (UseDFBA p).

Definition start_policy (beast : bool) (s : Service) : BuilderPolicy * list MEvent :=
  if sv_enableBuilder s then
    if negb (sv_polConfigured s) then
      (mkBuilderPolicy (default_order beast) 1024 0 0 0 0 0 false,
       [Inc "builder_policy_total" [("result", "default")]])
    else
      let p := sv_policy s in
      (set_order_max p (match Order p with [] => default_order beast | o => o end)
         (if (MaxN p <=? 0)%Z then 1024%Z else MaxN p),
       [Inc "builder_policy_total" [("result", "custom")]])
  else (sv_policy s, []).

(** The flags of the environment (AEQUA_ENABLE_TSS_STATE_SYNC, _BUILDER,
    _TSS_SIGN, _BEAST). *)
Record StartEnv := mkStartEnv { se_sync : bool; se_builder : bool; se_sign : bool; se_beast : bool }.

(** Start with a subscriber, on a service whose defaults are filled in. *)
Definition Start (e : StartEnv) (s : Service) : Service * list MEvent :=
  let s := mkService (sv_v s) (sv_store s) (sv_st s) (sv_wal s) (sv_lastWAL s) (sv_hasTSS s)
    (sv_enableTSSSync s || se_sync e) (sv_enableBuilder s || se_builder e) (sv_pool s) (sv_policy s)
    (sv_polConfigured s) (sv_lastBlock s) (sv_enableTSSSign s || se_sign e) (sv_hasSigner s)
    (sv_hasBc s) (sv_dec s) (sv_fs s) in
  let '(pol, ev1) := start_policy (se_beast e) s in
  let '(lastWAL, ev2) :=
    match sv_wal s with
    | None => (sv_lastWAL s, [])
    | Some _ =>
        match LastIntent (sv_wal s) (sv_fs s) with
        | (inl last, ev) => (last, ev)
        | (inr _, ev) => (sv_lastWAL s, ev)
        end
    end in
  let ev3 := (LoadLastState (env := SE) (sv_store s)).2 in
  (mkService (sv_v s) (sv_store s) (sv_st s) (sv_wal s) lastWAL (sv_hasTSS s) (sv_enableTSSSync s)
     (sv_enableBuilder s) (sv_pool s) pol (sv_polConfigured s) (sv_lastBlock s) (sv_enableTSSSign s)
     (sv_hasSigner s) (sv_hasBc s) (sv_dec s) (sv_fs s),
   ev1 ++ ev2 ++ ev3).

(** [VerifyAgg] is the injected verifier's method. *)
Definition VerifyHeaderWithTSS (VerifyAgg : bytes → bytes → bytes → bool) (s : Service)
    (pkGroup header sig : bytes) : bool * list MEvent :=
  let res r := [Inc "state_sync_verified_total" [("result", r)]] in
  RETURN (false, res "disabled") IF negb (sv_enableTSSSync s) || negb (sv_hasTSS s) ;;
  let ok := VerifyAgg pkGroup header sig in
  (ok, res (if ok then "ok" else "fail")).

(** ** Properties of a turn *)

(** The messages processed among some effects. *)
Definition processed (ef : list Effect) : list Message :=
  omap (λ x, match x with EProcess m => Some m | _ => None end) ef.

Lemma processed_app a b : processed (a ++ b) = processed a ++ processed b.
Proof. apply omap_app. Qed.

Lemma processed_metrics es : processed (metrics es) = [].
Proof. unfold processed, metrics. induction es; simpl; auto. Qed.

Lemma metrics_only es x : x ∈ metrics es → ∃ m, x = EMetric m.
Proof. unfold metrics. intros (m & -> & _)%list_elem_of_fmap. eauto. Qed.

Lemma append_intent_vote e s msg path :
  sv_wal s = Some path → is_vote msg = true →
  ∃ err ev, (append_intent e s msg).2 = EAppend msg err :: metrics ev.
Proof.
  intros Hw Hv. unfold append_intent. rewrite Hw, Hv. simpl negb.
  destruct (AppendIntent _ _ _ _) as [[fs' err] ev]. by exists err, ev.
Qed.

(** The parts of the service the earlier steps of a turn leave alone. *)
Definition same_core (s s' : Service) : Prop :=
  sv_v s' = sv_v s ∧ sv_st s' = sv_st s ∧ sv_lastWAL s' = sv_lastWAL s ∧ sv_wal s' = sv_wal s.

Lemma append_intent_core e s msg : same_core s (append_intent e s msg).1.
Proof.
  unfold append_intent. destruct (sv_wal s) as [path|] eqn:Hw; [|done].
  destruct (negb _); [done|]. destruct (AppendIntent _ _ _ _) as [[fs' err] ev]. done.
Qed.

Lemma build_block_core e s msg : same_core s (build_block e s msg).1.
Proof.
  unfold build_block. destruct (sv_pool s); [|done]. destruct (negb _); [done|].
  destruct (PrepareProposal _ _ _ _ _) as [[d blk] ev]. by destruct (ProcessProposal _ _).
Qed.

Lemma append_intent_processed e s msg : processed (append_intent e s msg).2 = [].
Proof.
  unfold append_intent. destruct (sv_wal s); [|done]. destruct (negb _); [done|].
  destruct (AppendIntent _ _ _ _) as [[fs' err] ev]. simpl. apply processed_metrics.
Qed.

Lemma broadcast_processed e s msg : processed (broadcast_vote e s msg) = [].
Proof. unfold broadcast_vote. by destruct (negb _). Qed.

Lemma build_processed e s msg : processed (build_block e s msg).2 = [].
Proof.
  unfold build_block. destruct (sv_pool s); [|done]. destruct (negb _); [done|].
  destruct (PrepareProposal _ _ _ _ _) as [[d blk] ev].
  destruct (ProcessProposal _ _); simpl; apply processed_metrics.
Qed.

Lemma account_processed e s msg : processed (account_block e s msg) = [].
Proof. unfold account_block. destruct (_ ≫= _); [|done]. simpl. by destruct (_ && _). Qed.

Lemma apply_message_processed e s msg s' ef :
  apply_message e s msg = Some (s', ef) →
  processed ef = [msg] ∧ sv_v s' = sv_v s ∧ sv_lastWAL s' = sv_lastWAL s ∧ sv_wal s' = sv_wal s ∧
  ∃ o, p_Process (sv_st s) msg = Some (sv_st s', o).
Proof.
  unfold apply_message. destruct (p_Process (sv_st s) msg) as [[st' [err ev]]|]; simpl; [|done].
  destruct (SaveLastState _ _ _) as [[store' err2] ev2]. intros [= <- <-]. simpl.
  rewrite !processed_app, processed_metrics, account_processed. simpl.
  rewrite processed_metrics. split_and!; eauto.
Qed.

(** What a turn on a verified message does to the core of the service. *)
Lemma handle_verified_spec e s msg s' ef :
  handle_verified e s msg = Some (s', ef) →
  sv_v s' = sv_v s ∧ sv_lastWAL s' = sv_lastWAL s ∧ sv_wal s' = sv_wal s ∧
  if guard_allows (sv_lastWAL s) msg
  then processed ef = [msg] ∧ ∃ o, p_Process (sv_st s) msg = Some (sv_st s', o)
  else processed ef = [] ∧ sv_st s' = sv_st s.
Proof.
  unfold handle_verified.
  pose proof (append_intent_core e s msg) as (A1 & A2 & A3 & A4).
  pose proof (append_intent_processed e s msg) as Ap.
  destruct (append_intent e s msg) as [s1 ef1]. simpl in *.
  pose proof (build_block_core e s1 msg) as (B1 & B2 & B3 & B4).
  pose proof (build_processed e s1 msg) as Bp.
  destruct (build_block e s1 msg) as [s2 ef3]. simpl in *. rewrite B3, A3.
  destruct (guard_allows (sv_lastWAL s) msg); cbn [negb].
  - destruct (apply_message e s2 msg) as [[s3 ef4]|] eqn:E; simpl; [|done]. intros [= <- <-].
    apply apply_message_processed in E as (P1 & P2 & P3 & P4 & o & P5).
    rewrite !processed_app, Ap, Bp, broadcast_processed. simpl.
    split_and!; try congruence. rewrite B2, A2 in P5. eauto.
  - intros [= <- <-]. rewrite !processed_app, Ap, Bp, broadcast_processed. simpl.
    split_and!; congruence.
Qed.

Lemma handle_event_tx e s ev s' ef :
  handle_event e s ev = Some (s', ef) → ev_Kind ev = KindTx →
  same_core s s' ∧ processed ef = [].
Proof.
  unfold handle_event. intros H Hk. rewrite bool_decide_true in H by done.
  destruct (sv_pool s), (ev_Body ev); simplify_eq; try done.
  destruct (container_Add _ _ _ _) as [[pool' err] mev]. simplify_eq.
  split; [done|apply processed_metrics].
Qed.

Lemma handle_event_spec e s ev s' ef :
  handle_event e s ev = Some (s', ef) → ev_Kind ev ≠ KindTx →
  let msg := MapEventToQBFT ev in
  let r := v_Verify (sv_v s) msg in
  sv_v s' = r.1.1 ∧ sv_lastWAL s' = sv_lastWAL s ∧ sv_wal s' = sv_wal s ∧
  if ⌜? r.1.2 = nil_err ⌝ && guard_allows (sv_lastWAL s) msg
  then processed ef = [msg] ∧ ∃ o, p_Process (sv_st s) msg = Some (sv_st s', o)
  else processed ef = [] ∧ sv_st s' = sv_st s.
Proof.
  unfold handle_event. intros H Hk. rewrite bool_decide_false in H by done.
  destruct (v_Verify (sv_v s) (MapEventToQBFT ev)) as [[v' [err|]] vev]; cbn [fst snd].
  - simplify_eq. simpl. rewrite processed_app, processed_metrics. done.
  - destruct (handle_verified e (set_v s v') (MapEventToQBFT ev)) as [[s1 ef1]|] eqn:E; simpl in H; [|done].
    simplify_eq. apply handle_verified_spec in E as (E1 & E2 & E3 & E4). simpl in *.
    rewrite !processed_app, processed_metrics. simpl. rewrite app_nil_r. done.
Qed.

(** The messages broadcast or processed among some effects. *)
Definition acted (ef : list Effect) : list Message :=
  omap (λ x, match x with EProcess m | EBroadcast m => Some m | _ => None end) ef.

Lemma acted_app a b : acted (a ++ b) = acted a ++ acted b.
Proof. apply omap_app. Qed.

Lemma acted_metrics es : acted (metrics es) = [].
Proof. unfold acted, metrics. induction es; simpl; auto. Qed.

Lemma append_intent_acted e s msg : acted (append_intent e s msg).2 = [].
Proof.
  unfold append_intent. destruct (sv_wal s); [|done]. destruct (negb _); [done|].
  destruct (AppendIntent _ _ _ _) as [[fs' err] ev]. simpl. apply acted_metrics.
Qed.

Lemma build_acted e s msg : acted (build_block e s msg).2 = [].
Proof.
  unfold build_block. destruct (sv_pool s); [|done]. destruct (negb _); [done|].
  destruct (PrepareProposal _ _ _ _ _) as [[d blk] ev].
  destruct (ProcessProposal _ _); simpl; apply acted_metrics.
Qed.

Lemma broadcast_acted e s msg : Forall (λ m, m = msg) (acted (broadcast_vote e s msg)).
Proof. unfold broadcast_vote. destruct (negb _); by repeat constructor. Qed.

Lemma apply_message_acted e s msg s' ef :
  apply_message e s msg = Some (s', ef) → acted ef = [msg].
Proof.
  unfold apply_message. destruct (p_Process (sv_st s) msg) as [[st' [err ev]]|]; simpl; [|done].
  destruct (SaveLastState _ _ _) as [[store' err2] ev2]. intros [= <- <-]. simpl.
  rewrite !acted_app, acted_metrics. simpl. rewrite acted_metrics, app_nil_r.
  unfold account_block. destruct (_ ≫= _); [|done]. simpl. by destruct (_ && _).
Qed.

Lemma handle_verified_acted e s msg s' ef :
  handle_verified e s msg = Some (s', ef) →
  Forall (λ m, m = msg) (acted ef) ∧ ∃ rest, ef = (append_intent e s msg).2 ++ rest.
Proof.
  unfold handle_verified. pose proof (append_intent_acted e s msg) as Ap.
  destruct (append_intent e s msg) as [s1 ef1]. simpl in *.
  pose proof (build_acted e s1 msg) as Bp. pose proof (broadcast_acted e s1 msg) as Bc.
  destruct (build_block e s1 msg) as [s2 ef3]. simpl in *.
  destruct (negb _).
  - intros [= <- <-]. rewrite !acted_app, Ap, Bp. simpl. rewrite app_nil_r. eauto.
  - destruct (apply_message e s2 msg) as [[s3 ef4]|] eqn:E; simpl; [|done]. intros [= <- <-].
    apply apply_message_acted in E. rewrite !acted_app, Ap, Bp, E. simpl.
    split; [apply Forall_app; auto|eauto].
Qed.

Lemma acted_elem m ef i :
  (ef !! i = Some (EProcess m) ∨ ef !! i = Some (EBroadcast m)) → m ∈ acted ef.
Proof.
  intros [H|H]; apply list_elem_of_omap; eexists; (split; [by eapply list_elem_of_lookup_2|done]).
Qed.

(** C4. Write-ahead order: with a log configured, whenever a turn of the loop
    broadcasts or processes a vote, the append of that vote to the log comes
    earlier in the turn. *)
Theorem vote_logged_first (e : TurnEnv) (s s' : Service) (ev : Event) (ef : list Effect)
    (m : Message) (path : string) (i : nat) :
  handle_event e s ev = Some (s', ef) → sv_wal s = Some path → is_vote m = true →
  (ef !! i = Some (EProcess m) ∨ ef !! i = Some (EBroadcast m)) →
  ∃ j err, j < i ∧ ef !! j = Some (EAppend m err).
Proof.
  intros H Hw Hv Hi. pose proof (acted_elem m ef i Hi) as Hin.
  unfold handle_event in H. case_bool_decide as Hk.
  { exfalso. destruct (sv_pool s), (ev_Body ev); simplify_eq; try by apply elem_of_nil in Hin.
    destruct (container_Add _ _ _ _) as [[pool' err] mev]. simplify_eq.
    rewrite acted_metrics in Hin. by apply elem_of_nil in Hin. }
  set (msg := MapEventToQBFT ev) in *.
  destruct (v_Verify (sv_v s) msg) as [[v' [err|]] vev].
  { exfalso. simplify_eq. simpl in Hin. rewrite acted_app, acted_metrics in Hin.
    by apply elem_of_nil in Hin. }
  destruct (handle_verified e (set_v s v') msg) as [[s1 ef1]|] eqn:E; simpl in H; [|done].
  simplify_eq. apply handle_verified_acted in E as [Hall [rest ->]].
  simpl in Hin. rewrite acted_app, acted_metrics, acted_app in Hin. simpl in Hin.
  rewrite app_nil_r in Hin. rewrite Forall_forall in Hall. apply Hall in Hin as ->.
  destruct (append_intent_vote e (set_v s v') msg path Hw Hv) as (err & mev & Happ).
  rewrite Happ in *.
  exists (S (length vev)), err.
  set (pre := EMetric (Inc "consensus_events_total" [("kind", ev_Kind ev)]) :: metrics vev) in *.
  set (post := metrics mev ++ rest ++ [EMetric (Observe "consensus_proc_ms"
    [("kind", ev_Kind ev)] (float64_of (te_ms e)))]).
  assert (length pre = S (length vev)) as Hlen by (unfold pre, metrics; simpl; by rewrite length_fmap).
  assert (EMetric (Inc "consensus_events_total" [("kind", ev_Kind ev)]) ::
    metrics vev ++ ((EAppend msg err :: metrics mev) ++ rest) ++ [EMetric (Observe "consensus_proc_ms"
    [("kind", ev_Kind ev)] (float64_of (te_ms e)))] = pre ++ EAppend msg err :: post) as Heq.
  { subst pre post. simpl. by rewrite <-!app_assoc. }
  rewrite Heq in *. rewrite <-Hlen. split.
  - assert (∀ x, x ∈ pre → ∃ y, x = EMetric y) as Hpre.
    { intros x [->|Hx]%elem_of_cons; [eauto|by apply metrics_only in Hx]. }
    destruct Hi as [Hi|Hi]; (apply (lookup_after_prefix _ _ _ _ _ Hi); [|done]);
      intros Hx; by destruct (Hpre _ Hx).
  - by apply list_lookup_middle.
Qed.

(** Runs. *)
Lemma handle_events_cons s e ev evs s' ef :
  handle_events s ((e, ev) :: evs) = Some (s', ef) →
  ∃ s1 ef1 ef2, handle_event e s ev = Some (s1, ef1) ∧ handle_events s1 evs = Some (s', ef2) ∧
    ef = ef1 ++ ef2.
Proof.
  simpl. destruct (handle_event e s ev) as [[s1 ef1]|]; simpl; [|done].
  destruct (handle_events s1 evs) as [[s2 ef2]|] eqn:E; simpl; [|done].
  intros [= <- <-]. by exists s1, ef1, ef2.
Qed.

(** C5. The restart guard: over any run of the loop, no prepare or commit with
    coordinates (height, round) below the last vote recovered from the log is
    ever processed. *)
Theorem restart_guard (s s' : Service) (evs : list (TurnEnv * Event)) (ef : list Effect) (m : Message) :
  handle_events s evs = Some (s', ef) → m ∈ processed ef → is_vote m = true →
  Type_ (sv_lastWAL s) ≠ "" →
  (Height (sv_lastWAL s) < Height m)%N ∨
  (Height (sv_lastWAL s) = Height m ∧ (Round (sv_lastWAL s) <= Round m)%N).
Proof.
  intros H Hm Hv Hne. revert s ef H Hm Hne. induction evs as [|[e ev] evs IH]; intros s ef H Hm Hne.
  { simpl in H. simplify_eq. by apply elem_of_nil in Hm. }
  apply handle_events_cons in H as (s1 & ef1 & ef2 & H1 & H2 & ->).
  rewrite processed_app, elem_of_app in Hm.
  destruct (decide (ev_Kind ev = KindTx)) as [Hk|Hk].
  { apply handle_event_tx in H1 as [(_ & _ & Hl & _) Hp]; [|done]. rewrite Hp in Hm.
    destruct Hm as [?%elem_of_nil|Hm]; [done|]. rewrite <-Hl. eapply IH; [done..|by rewrite Hl]. }
  apply handle_event_spec in H1 as (_ & Hl & _ & Hp); [|done].
  destruct Hm as [Hm|Hm]; [|rewrite <-Hl; eapply IH; [done..|by rewrite Hl]].
  destruct (_ && _) eqn:Hok.
  - destruct Hp as [Hp _]. rewrite Hp in Hm. apply list_elem_of_singleton in Hm as ->.
    apply andb_true_iff in Hok as [_ Hg]. unfold guard_allows in Hg.
    rewrite Hv, (bool_decide_false (Type_ _ = "")) in Hg by done. simpl in Hg.
    apply negb_true_iff, orb_false_iff in Hg as [G1%N.ltb_ge G2].
    apply andb_false_iff in G2 as [G2%N.eqb_neq|G2%N.ltb_ge]; lia.
  - destruct Hp as [Hp _]. rewrite Hp in Hm. by apply elem_of_nil in Hm.
Qed.

(** ** Totals *)
Definition bids_of (items : list Payload.Payload) : N :=
  foldr (λ it acc, match it with Auction tx => ab_Bid tx + acc | _ => acc end)%N 0%N items.
Definition fees_of (items : list Payload.Payload) : N :=
  foldr (λ it acc, match it with Plaintext tx => pt_Fee tx + acc | _ => acc end)%N 0%N items.

Lemma u64_add_l a b : u64_add (u64 a) b = u64 (a + b).
Proof. unfold u64_add, u64. by rewrite N.Div0.add_mod_idemp_l. Qed.

(** The statistics of a block count its items and add up the bids of its
    auction payloads and the fees of its plaintext payloads, modulo 2^64. *)
Theorem summarizeStats_totals (items : list Payload.Payload) :
  summarizeStats items = mkBlockStats (u64 (fees_of items)) (u64 (bids_of items)) (length items).
Proof.
  unfold summarizeStats.
  assert (∀ f b n, foldl (λ st it, match it with
    | Auction tx => mkBlockStats (TotalFees st) (u64_add (TotalBids st) (ab_Bid tx)) (stat_Items st)
    | Plaintext tx => mkBlockStats (u64_add (TotalFees st) (pt_Fee tx)) (TotalBids st) (stat_Items st)
    | Private _ => st end) (mkBlockStats (u64 f) (u64 b) n) items =
    mkBlockStats (u64 (f + fees_of items)) (u64 (b + bids_of items)) n) as H.
  { induction items as [|[tx|tx|tx] items IH]; intros f b n; simpl.
    - by rewrite !N.add_0_r.
    - rewrite u64_add_l, IH. f_equal; f_equal; lia.
    - rewrite u64_add_l, IH. f_equal; f_equal; lia.
    - apply IH. }
  apply (H 0%N 0%N).
Qed.
End service.

(** ** The default wiring: BasicVerifier and State *)
Section default_wiring.
Context {MI : MapIter} {ST SE D : Type} {SI : Store ST SE} {PD : PrivateDecrypter D}.
Context {WJ : Json walEntry} {BJ : Json StandardBlock}.
Abbreviation service := (Service (V := BasicVerifier) (P := State) (ST := ST) (D := D)).

Lemma run_ids (s s' : service) evs ef :
  id_mode (sv_v s) → handle_events (SE := SE) s evs = Some (s', ef) →
  NoDup (ID <$> processed ef) ∧ (∀ m, m ∈ processed ef → ID m ∉ seen_ids (sv_v s)).
Proof.
  revert s ef. induction evs as [|[e ev] evs IH]; intros s ef Hm H.
  { simpl in H. simplify_eq. split; [constructor|]. by intros m ?%elem_of_nil. }
  apply handle_events_cons in H as (s1 & ef1 & ef2 & H1 & H2 & ->). rewrite processed_app.
  destruct (decide (ev_Kind ev = KindTx)) as [Hk|Hk].
  { apply handle_event_tx in H1 as [(Hv & _) Hp]; [|done]. rewrite Hp. simpl. rewrite <-Hv.
    eapply IH; [by rewrite Hv|done]. }
  apply handle_event_spec in H1 as (Hv & _ & _ & Hp); [|done]. cbn [v_Verify basic_verifier] in *.
  destruct (id_mode_Verify (sv_v s) (MapEventToQBFT ev) Hm) as (Hm' & Hsub & Hacc).
  rewrite <-Hv in *. destruct (IH s1 ef2 Hm' H2) as [Hnd Hnew].
  destruct (_ && _) eqn:Hok.
  - destruct Hp as [-> _]. apply andb_true_iff in Hok as [Hok%bool_decide_eq_true _].
    specialize (Hacc Hok) as [Ha1 Ha2]. simpl. split.
    + constructor; [|done]. intros (m & Heq & Hin)%list_elem_of_fmap.
      apply (Hnew m Hin). by rewrite <-Heq.
    + intros m [->|Hin]%elem_of_cons; [done|]. specialize (Hnew m Hin). set_solver.
  - destruct Hp as [-> _]. simpl. split; [done|]. intros m Hin. specialize (Hnew m Hin). set_solver.
Qed.

(** With the default id-level verifier, the state machine never processes two
    messages with the same id in one run of the service. *)
Theorem processed_ids_unique (s s' : service) (evs : list (TurnEnv (SE := SE) * Event))
    (ef : list Effect) :
  id_mode (sv_v s) → handle_events s evs = Some (s', ef) → NoDup (ID <$> processed ef).
Proof. intros Hm H. by eapply run_ids. Qed.

(** The states the default wiring can reach: at most one step past idle, with a
    proposal whose id the verifier has already seen. *)
Definition stuck (s : service) : Prop :=
  (Phase (sv_st s) = "" ∨ Phase (sv_st s) = "preprepared") ∧
  (proposalID (sv_st s) = "" ∨ proposalID (sv_st s) ∈ seen_ids (sv_v s)).

Lemma Process_stuck (st : State) (m : Message) st' o (seen0 : gset string) :
  (Phase st = "" ∨ Phase st = "preprepared") → (proposalID st = "" ∨ proposalID st ∈ seen0) →
  ID m ∉ seen0 → Process st m = Some (st', o) →
  (Phase st' = "" ∨ Phase st' = "preprepared") ∧
  (proposalID st' = "" ∨ proposalID st' ∈ {[ID m]} ∪ seen0).
Proof.
  intros Hph Hpid Hnew. unfold Process. set (r := if _ || _ then _ else _).
  assert (proposalID st = "" ∨ proposalID st ∈ {[ID m]} ∪ seen0) as Hpid' by set_solver.
  repeat case_bool_decide.
  - unfold processPreprepare, finish, fail. intros. split_handler; set_solver.
  - unfold processPrepare, finish, fail. simpl.
    assert (⌜? proposalID st = "" ⌝ || negb ⌜? ID m = proposalID st ⌝ = true) as Hmis.
    { destruct Hpid as [->|Hin]; [done|]. rewrite (bool_decide_false (ID m = _)) by (intros E; rewrite E in Hnew; done).
      by rewrite orb_true_r. }
    destruct ⌜? proposalID st = "" ⌝; simpl in *; [intros ?; simplify_eq; split; simpl; auto|].
    rewrite Hmis. destruct (negb _ && negb _); intros ?; simplify_eq; split; simpl; auto.
  - unfold processCommit, finish, fail. simpl.
    assert (negb ⌜? Phase st = "prepared" ⌝ && negb ⌜? Phase st = "commit" ⌝ = true) as ->
      by (by destruct Hph as [->| ->]).
    intros ?; simplify_eq; split; simpl; auto.
  - unfold processViewChange, finish. simpl. intros. split_handler; auto.
  - unfold processNewView, finish. simpl. intros. split_handler; auto.
  - unfold finish. intros ?; simplify_eq; split; simpl; auto.
Qed.

(** The default wiring cannot make progress: the verifier refuses every id it
    has seen, and the state machine only counts votes that carry the id of the
    accepted proposal, so no run of the service, whatever the events, ever reaches
    the prepared or the commit phase. *)
Theorem default_wiring_never_prepares (s s' : service) (evs : list (TurnEnv (SE := SE) * Event))
    (ef : list Effect) :
  id_mode (sv_v s) → sv_st s = zero_state → handle_events s evs = Some (s', ef) →
  Phase (sv_st s') = "" ∨ Phase (sv_st s') = "preprepared".
Proof.
  intros Hm Hst H. assert (stuck s) as Hs by (unfold stuck; rewrite Hst; auto).
  clear Hst. revert s ef Hm Hs H. induction evs as [|[e ev] evs IH]; intros s ef Hm Hs H.
  { simpl in H. simplify_eq. apply Hs. }
  apply handle_events_cons in H as (s1 & ef1 & ef2 & H1 & H2 & ->).
  destruct (decide (ev_Kind ev = KindTx)) as [Hk|Hk].
  { apply handle_event_tx in H1 as [(Hv & Hst & _) _]; [|done].
    eapply IH; [by rewrite Hv| |exact H2]. unfold stuck. by rewrite Hv, Hst. }
  apply handle_event_spec in H1 as (Hv & _ & _ & Hp); [|done]. cbn [v_Verify basic_verifier] in *.
  destruct (id_mode_Verify (sv_v s) (MapEventToQBFT ev) Hm) as (Hm' & Hsub & Hacc).
  eapply IH; [by rewrite Hv| |exact H2]. unfold stuck. rewrite Hv. destruct Hs as [Hph Hpid].
  destruct (_ && _) eqn:Hok.
  - destruct Hp as (_ & o & Hproc). apply andb_true_iff in Hok as [Hok%bool_decide_eq_true _].
    destruct (Hacc Hok) as [Hn Hy]. cbn [p_Process state_processor] in Hproc.
    destruct (Process_stuck _ _ _ _ (seen_ids (sv_v s)) Hph Hpid Hn Hproc) as [H3 [H4|H4]]; [auto|].
    split; [done|]. right. apply elem_of_union in H4 as [H4%elem_of_singleton|H4]; [by rewrite H4|auto].
  - destruct Hp as [_ ->]. split; [done|]. destruct Hpid as [?|?]; [by left|right; auto].
Qed.
End default_wiring.

(** ** Concrete runs *)
#[export] Program Instance PlaintextTx_countable : Countable PlaintextTx :=
  inj_countable' (λ t, (pt_From t, pt_Nonce t, pt_Gas t, pt_Fee t, pt_Sig t))
    (λ '(f, n, g, e, s), mkPlaintextTx f n g e s) _.
Next Obligation. by intros []. Qed.
#[export] Program Instance AuctionBidTx_countable : Countable AuctionBidTx :=
  inj_countable' (λ t, (ab_From t, ab_Nonce t, ab_Gas t, ab_Bid t, ab_FeeRecipient t, ab_Sig t))
    (λ '(f, n, g, b, r, s), mkAuctionBidTx f n g b r s) _.
Next Obligation. by intros []. Qed.
#[export] Program Instance PrivateTx_countable : Countable PrivateTx :=
  inj_countable' (λ t, (pv_From t, pv_Nonce t, pv_Ciphertext t, pv_EphemeralKey t, pv_TargetHeight t,
      pv_BatchIndex t, pv_PuncturedKey t))
    (λ '(f, n, c, e, h, b, k), mkPrivateTx f n c e h b k) _.
Next Obligation. by intros []. Qed.
#[export] Program Instance Payload_countable : Countable Payload.Payload :=
  inj_countable' (λ p, match p with Plaintext t => inl (inl t) | Auction t => inl (inr t)
      | Private t => inr t end)
    (λ x, match x with inl (inl t) => Plaintext t | inl (inr t) => Auction t | inr t => Private t end) _.
Next Obligation. by intros []. Qed.
#[export] Instance BlockHeader_eq_dec : EqDecision BlockHeader.
Proof. solve_decision. Defined.
#[export] Instance BlockStats_eq_dec : EqDecision BlockStats.
Proof. solve_decision. Defined.
#[export] Instance StandardBlock_eq_dec : EqDecision StandardBlock.
Proof. solve_decision. Defined.
#[export] Program Instance StandardBlock_countable : Countable StandardBlock :=
  inj_countable' (λ b, (bh_Height (sb_Header b), bh_Round (sb_Header b), sb_Items b,
      TotalFees (sb_Stats b), TotalBids (sb_Stats b), stat_Items (sb_Stats b)))
    (λ '(h, r, i, f, b, n), mkStandardBlock (mkBlockHeader h r) i (mkBlockStats f b n)) _.
Next Obligation. by intros [[] ? []]. Qed.

Definition block_json : Json StandardBlock := countable_json StandardBlock.

Definition sample_turn : TurnEnv (SE := unit) :=
  mkTurnEnv Completed false (mkBuildEnv 0 false 0) tt false false 0 3.

Definition sample_svc (last : Message) (fs : FS)
    : Service (V := BasicVerifier) (P := State) (ST := MemoryStore) (D := unit) :=
  mkService (NewBasicVerifierWithPolicy DefaultPolicy) NewMemoryStore zero_state (NewWAL "w.log") last
    false false false None (mkBuilderPolicy [] 0 0 0 0 0 0 false) false ∅ false false true tt fs.

Definition msg (t id : string) (h r : N) : Message := mkMessage "n1" h r t [] id "" [].
Definition consensus_event (m : Message) : Event :=
  mkEvent KindConsensus (Height m) (Round m) (MessageBody m) "".

Definition run_turns s (ms : list Message) :=
  handle_events (MI := iter_forward) (PD := noop_decrypter) (WJ := wal_json) (BJ := block_json) s
    ((λ m, (sample_turn, consensus_event m)) <$> ms).

Definition turn_effects s (m : Message) : list Effect := default [] (snd <$> run_turns s [m]).

Lemma vote_logged_first_witness :
  let s := sample_svc zero_message ∅ in
  let m := msg MsgPrepare "p" 7 1 in
  is_Some (run_turns s [m]) ∧ turn_effects s m !! 4 = Some (EBroadcast m) ∧
  ∃ j err, j < 4 ∧ turn_effects s m !! j = Some (EAppend m err).
Proof.
  split; [by eexists; vm_compute|]. split; [vm_compute; reflexivity|].
  set (r := handle_event (MI := iter_forward) (PD := noop_decrypter) (WJ := wal_json) (BJ := block_json)
    sample_turn (sample_svc zero_message ∅) (consensus_event (msg MsgPrepare "p" 7 1))).
  destruct r as [[s' ef]|] eqn:E; [|vm_compute in E; discriminate].
  assert (turn_effects (sample_svc zero_message ∅) (msg MsgPrepare "p" 7 1) = ef) as ->.
  { unfold turn_effects, run_turns. cbn [fmap list_fmap handle_events]. fold r. rewrite E. simpl.
    apply app_nil_r. }
  apply (vote_logged_first (MI := iter_forward) (PD := noop_decrypter) (WJ := wal_json)
    (BJ := block_json) sample_turn (sample_svc zero_message ∅) s'
    (consensus_event (msg MsgPrepare "p" 7 1)) ef (msg MsgPrepare "p" 7 1) "w.log" 4).
  - exact E.
  - reflexivity.
  - reflexivity.
  - right. vm_compute in E. injection E as _ <-. reflexivity.
Defined.

Definition final {A} (r : option (A * list Effect)) (d : A) : A * list Effect := default (d, []) r.

Lemma final_some {A} (r : option (A * list Effect)) d : is_Some r → r = Some (final r d).
Proof. by intros [x ->]. Qed.

Definition guard_run :=
  final (run_turns (sample_svc (vote 5) ∅)
    [msg MsgPrepare "p" 7 4; msg MsgPrepare "q" 7 5; msg MsgPrepare "r" 8 1]) (sample_svc (vote 5) ∅).

Lemma guard_run_some :
  run_turns (sample_svc (vote 5) ∅)
    [msg MsgPrepare "p" 7 4; msg MsgPrepare "q" 7 5; msg MsgPrepare "r" 8 1] = Some guard_run.
Proof. apply final_some. by eexists; vm_compute. Qed.

Lemma restart_guard_witness :
  processed guard_run.2 = [msg MsgPrepare "q" 7 5; msg MsgPrepare "r" 8 1] ∧
  let m := msg MsgPrepare "q" 7 5 in
  (7 < Height m)%N ∨ (7%N = Height m ∧ (5 <= Round m)%N).
Proof.
  assert (processed guard_run.2 = [msg MsgPrepare "q" 7 5; msg MsgPrepare "r" 8 1]) as Hp
    by (vm_compute; reflexivity).
  split; [exact Hp|]. intros m.
  refine (restart_guard (MI := iter_forward) (PD := noop_decrypter) (WJ := wal_json)
    (BJ := block_json) (sample_svc (vote 5) ∅) guard_run.1 _ guard_run.2 m _ _ _ _).
  - rewrite <-surjective_pairing. exact guard_run_some.
  - rewrite Hp. left.
  - reflexivity.
  - discriminate.
Defined.

Definition default_run :=
  final (run_turns (sample_svc zero_message ∅)
    [msg MsgPreprepare "p" 7 0; msg MsgPrepare "p" 7 1; msg MsgPrepare "p" 7 2])
    (sample_svc zero_message ∅).

Lemma default_run_some :
  run_turns (sample_svc zero_message ∅)
    [msg MsgPreprepare "p" 7 0; msg MsgPrepare "p" 7 1; msg MsgPrepare "p" 7 2] = Some default_run.
Proof. apply final_some. by eexists; vm_compute. Qed.

Lemma default_id_mode : id_mode (NewBasicVerifierWithPolicy DefaultPolicy).
Proof. split; [reflexivity|]. by eexists. Qed.

Lemma processed_ids_unique_witness :
  NoDup (ID <$> processed default_run.2) ∧ processed default_run.2 = [msg MsgPreprepare "p" 7 0].
Proof.
  split; [|vm_compute; reflexivity].
  refine (processed_ids_unique (MI := iter_forward) (PD := noop_decrypter) (WJ := wal_json)
    (BJ := block_json) (sample_svc zero_message ∅) default_run.1 _ default_run.2 _ _).
  - exact default_id_mode.
  - rewrite <-surjective_pairing. exact default_run_some.
Defined.

Lemma default_wiring_never_prepares_witness :
  (Phase (sv_st default_run.1) = "" ∨ Phase (sv_st default_run.1) = "preprepared") ∧
  Phase (sv_st default_run.1) = "preprepared".
Proof.
  split; [|vm_compute; reflexivity].
  refine (default_wiring_never_prepares (MI := iter_forward) (PD := noop_decrypter) (WJ := wal_json)
    (BJ := block_json) (sample_svc zero_message ∅) default_run.1 _ default_run.2 _ _ _).
  - exact default_id_mode.
  - reflexivity.
  - rewrite <-surjective_pairing. exact default_run_some.
Defined.

(** The guard stops only the state machine: a vote below the last logged one is
    still appended to the log, and broadcast, so that after the next restart the
    guard starts from the older vote. *)
Example guarded_vote_lowers_the_guard :
  let fs := append_all (J := wal_json) "w.log" [msg MsgPrepare "a" 9 3] ∅ in
  let stale := msg MsgPrepare "b" 9 1 in
  let s := sample_svc zero_message fs in
  let started := (Start (SI := memory_store) (WJ := wal_json) (mkStartEnv false false false false) s).1 in
  let r := final (run_turns started [stale]) started in
  let restarted := (Start (SI := memory_store) (WJ := wal_json) (mkStartEnv false false false false)
    (sample_svc zero_message (sv_fs r.1))).1 in
  Round (sv_lastWAL started) = 3%N ∧ processed r.2 = [] ∧ EBroadcast stale ∈ r.2 ∧
  Round (sv_lastWAL restarted) = 1%N.
Proof.
  vm_compute. split; [done|]. split; [done|]. split; [|done]. do 4 right. left.
Qed.

(** With BEAST enabled the default policy puts private_v1 first. *)
Example default_policy_with_beast :
  Order (sv_policy (Start (SI := memory_store) (WJ := wal_json) (mkStartEnv false true false true)
    (sample_svc zero_message ∅)).1) = ["private_v1"; "auction_bid_v1"; "plaintext_v1"].
Proof. vm_compute. reflexivity. Qed.
