(* ===== verification/Tss.v ===== *)
(** Threshold-signature sessions (src/internal/tss/session/manager.go) and the
    minimal DKG engine (src/internal/tss/dkg/engine.go, feldman.go). *)
From S2P Require Import Prelude Metrics.

(** ** The session manager *)
Inductive SPhase := PhaseInit | PhaseGather | PhaseCombine | PhaseDone.

#[export] Instance SPhase_eq_dec : EqDecision SPhase.
Proof. solve_decision. Defined.

Definition phase_name (p : SPhase) : string :=
  match p with
  | PhaseInit => "init" | PhaseGather => "gather" | PhaseCombine => "combine" | PhaseDone => "done"
  end.

(** Durations and times in nanoseconds. *)
Record SessionConfig := mkSessionConfig { Threshold : Z; GatherTimeout : Z; CombineTimeout : Z }.

Definition defaultConfig (c : SessionConfig) : SessionConfig :=
  mkSessionConfig
    (if (Threshold c <? 2)%Z then 2%Z else Threshold c)
    (if (GatherTimeout c <=? 0)%Z then 2000000000%Z else GatherTimeout c)
    (if (CombineTimeout c <=? 0)%Z then 2000000000%Z else CombineTimeout c).

(** [sm_ctx]: nil, running, or cancelled. *)
Inductive CtxState := CtxNil | CtxRunning | CtxCancelled.

Record SessionManager := mkSessionManager {
  sm_cfg : SessionConfig;
  sm_phase : SPhase;
  sm_startedAt : Z;
  sm_shares : gset string;
  sm_timedOut : bool;
  sm_ctx : CtxState;
}.

Definition NewManager (cfg : SessionConfig) : SessionManager :=
  mkSessionManager (defaultConfig cfg) PhaseInit 0 ∅ false CtxNil.

Definition session_Start (now : Z) (m : SessionManager) : SessionManager :=
  match sm_ctx m with
  | CtxNil => mkSessionManager (sm_cfg m) (sm_phase m) now (sm_shares m) (sm_timedOut m) CtxRunning
  | _ => m
  end.

Definition session_Stop (m : SessionManager) : SessionManager :=
  match sm_ctx m with
  | CtxNil => m
  | _ => mkSessionManager (sm_cfg m) (sm_phase m) (sm_startedAt m) (sm_shares m) (sm_timedOut m) CtxCancelled
  end.

(** Milliseconds of a duration; a clock that steps back gives a negative
    duration, whose metric is not modelled further. *)
Definition millis (d : Z) : N := Z.to_N (d / 1000000).

Definition round_ms (p : SPhase) (ms : N) : MEvent :=
  Observe "tss_round_ms" [("round", phase_name p)] (float64_of ms).

(** One tick of the watchdog. *)
Definition watchdog (now : Z) (m : SessionManager) : SessionManager * list MEvent :=
  match sm_ctx m with
  | CtxRunning =>
      RETURN (m, []) IF negb ⌜? sm_phase m = PhaseGather ⌝ ;;
      RETURN (m, []) IF (now - sm_startedAt m <? GatherTimeout (sm_cfg m))%Z ;;
      (mkSessionManager (sm_cfg m) PhaseDone (sm_startedAt m) (sm_shares m) true (sm_ctx m),
       [Inc "tss_sessions_total" [("result", "timeout")];
        round_ms PhaseGather (millis (now - sm_startedAt m))])
  | _ => (m, [])
  end.

Definition share_key (from nonce : string) : string := from +:+ "|" +:+ nonce.

Definition OnShare (now : Z) (m : SessionManager) (from nonce : string)
    : SessionManager * bool * list MEvent :=
  let key := share_key from nonce in
  RETURN (m, false, []) IF ⌜? sm_phase m = PhaseDone ⌝ ;;
  let init := ⌜? sm_phase m = PhaseInit ⌝ in
  let phase := if init then PhaseGather else sm_phase m in
  let startedAt := if init then now else sm_startedAt m in
  let ev := if init then [round_ms PhaseInit 0] else [] in
  let upd p shares := mkSessionManager (sm_cfg m) p startedAt shares (sm_timedOut m) (sm_ctx m) in
  RETURN (upd phase (sm_shares m), false, ev) IF ⌜? key ∈ sm_shares m ⌝ ;;
  let shares := {[key]} ∪ sm_shares m in
  RETURN (upd PhaseCombine shares, true, ev ++ [round_ms PhaseGather (millis (now - startedAt))])
    IF (Threshold (sm_cfg m) <=? Z.of_nat (size shares))%Z && ⌜? phase = PhaseGather ⌝ ;;
  (upd phase shares, false, ev).

Definition Finalize (now : Z) (m : SessionManager) : SessionManager * list MEvent :=
  RETURN (m, []) IF negb ⌜? sm_phase m = PhaseCombine ⌝ ;;
  (mkSessionManager (sm_cfg m) PhaseDone (sm_startedAt m) (sm_shares m) (sm_timedOut m) (sm_ctx m),
   [round_ms PhaseCombine (millis (now - sm_startedAt m)); Inc "tss_sessions_total" [("result", "ok")]]).

Definition Status (m : SessionManager) : SPhase * bool := (sm_phase m, sm_timedOut m).

(** *** Runs *)
Inductive SessionEv :=
  | EvStart (now : Z) | EvStop | EvTick (now : Z)
  | EvShare (now : Z) (from nonce : string) | EvFinalize (now : Z).

Definition session_step (m : SessionManager) (e : SessionEv) : SessionManager * (bool * list MEvent) :=
  match e with
  | EvStart now => (session_Start now m, (false, []))
  | EvStop => (session_Stop m, (false, []))
  | EvTick now => let '(m', ev) := watchdog now m in (m', (false, ev))
  | EvShare now f n => let '(m', adv, ev) := OnShare now m f n in (m', (adv, ev))
  | EvFinalize now => let '(m', ev) := Finalize now m in (m', (false, ev))
  end.

Definition phase_rank (p : SPhase) : nat :=
  match p with PhaseInit => 0 | PhaseGather => 1 | PhaseCombine => 2 | PhaseDone => 3 end.

Definition advances (outs : list (bool * list MEvent)) : nat := length (filter (λ o, o.1 = true) outs).

(** Below the threshold until Combine; nothing stored before the first share. *)
Record session_ok (m : SessionManager) : Prop := {
  se_threshold : (2 <= Threshold (sm_cfg m))%Z;
  se_init : sm_phase m = PhaseInit → sm_shares m = ∅;
  se_gather : sm_phase m = PhaseGather → (Z.of_nat (size (sm_shares m)) < Threshold (sm_cfg m))%Z;
  se_combine : sm_phase m = PhaseCombine → (Threshold (sm_cfg m) <= Z.of_nat (size (sm_shares m)))%Z;
  se_timeout : sm_timedOut m = true → sm_phase m = PhaseDone;
}.

Lemma NewManager_ok cfg : session_ok (NewManager cfg).
Proof.
  split; simpl; try done. destruct (Z.ltb_spec (Threshold cfg) 2); lia.
Qed.

(** The effect of one event on the phase, and when a share advances it. *)
Lemma session_step_facts m e :
  session_ok m →
  let r := session_step m e in
  session_ok r.1 ∧ sm_cfg r.1 = sm_cfg m ∧ phase_rank (sm_phase m) ≤ phase_rank (sm_phase r.1) ∧
  (r.2.1 = true → phase_rank (sm_phase m) < 2 ∧ sm_phase r.1 = PhaseCombine ∧
     Z.of_nat (size (sm_shares r.1)) = Threshold (sm_cfg m)).
Proof.
  intros [H1 H2 H3 H4 H5]. destruct e as [now| |now|now f n|now]; simpl.
  - unfold session_Start. destruct (sm_ctx m); by repeat split.
  - unfold session_Stop. destruct (sm_ctx m); by repeat split.
  - unfold watchdog. destruct (sm_ctx m); try by repeat split.
    destruct (bool_decide_reflect (sm_phase m = PhaseGather)) as [Hp|Hp]; [|by repeat split].
    destruct (_ <? _)%Z; [by repeat split|]. simpl. rewrite Hp. simpl. split; [|split; [done|split; [lia|done]]].
    by split.
  - unfold OnShare. destruct (bool_decide_reflect (sm_phase m = PhaseDone)) as [|Hd]; [by repeat split|].
    set (key := share_key f n).
    destruct (bool_decide_reflect (sm_phase m = PhaseInit)) as [Hi|Hi]; cbn [negb].
    + rewrite (H2 Hi). rewrite bool_decide_false by set_solver.
      rewrite union_empty_r_L, size_singleton. rewrite andb_true_r.
      rewrite (proj2 (Z.leb_gt _ _)) by lia. cbn [fst snd sm_phase sm_cfg]. rewrite Hi. cbn [phase_rank].
      split; [|split; [done|split; [lia|done]]]. split; cbn [sm_phase sm_shares sm_cfg sm_timedOut]; try done.
      * intros _. rewrite union_empty_r_L, size_singleton. lia.
      * intros Ht. by rewrite (H5 Ht) in Hi.
    + destruct (bool_decide_reflect (key ∈ sm_shares m)) as [Hin|Hin]; simpl; [by repeat split|].
      assert (size ({[key]} ∪ sm_shares m) = S (size (sm_shares m))) as Hsz.
      { rewrite size_union, size_singleton by set_solver. lia. }
      rewrite Hsz. destruct (bool_decide_reflect (sm_phase m = PhaseGather)) as [Hg|Hg].
      * rewrite andb_true_r. specialize (H3 Hg). rewrite Hg.
        destruct (Z.leb_spec (Threshold (sm_cfg m)) (Z.of_nat (S (size (sm_shares m))))); simpl.
        -- split; [|split; [done|split; [lia|]]].
           ++ split; simpl; try done; [by intros; rewrite Hsz|]. intros Ht. by rewrite (H5 Ht) in Hg.
           ++ intros _. rewrite Hsz. split_and!; [lia|done|lia].
        -- split; [|by split_and!]. split; simpl; try done; [by intros; rewrite Hsz|].
           intros Ht. by rewrite (H5 Ht) in Hg.
      * rewrite andb_false_r. simpl. split; [|by split_and!]. split; simpl; try done.
        intros Hc. specialize (H4 Hc). rewrite Hsz. lia.
  - unfold Finalize. destruct (bool_decide_reflect (sm_phase m = PhaseCombine)) as [Hp|Hp]; [|by repeat split].
    simpl. rewrite Hp. simpl. split; [|split; [done|split; [lia|done]]]. by split.
Qed.

(** A signing session advances to Combine at most once, exactly when the
    number of distinct (sender, nonce) shares reaches the threshold, which is at
    least 2; its phase never goes back; and a session that timed out is done.
    This holds for every interleaving of shares, clock ticks, start, stop and
    finalize. *)
Theorem session_advances_once (cfg : SessionConfig) (evs : list SessionEv) (e : SessionEv) :
  let r := run session_step (NewManager cfg) evs in
  let o := session_step r.1 e in
  advances r.2 ≤ 1 ∧
  phase_rank (sm_phase r.1) ≤ phase_rank (sm_phase o.1) ∧
  (sm_timedOut r.1 = true → sm_phase r.1 = PhaseDone) ∧
  (o.2.1 = true →
     advances r.2 = 0 ∧ (2 <= Z.of_nat (size (sm_shares o.1)))%Z ∧
     Z.of_nat (size (sm_shares o.1)) = Threshold (defaultConfig cfg)).
Proof.
  intros r o.
  assert (session_ok r.1 ∧ sm_cfg r.1 = defaultConfig cfg ∧ advances r.2 ≤ 1 ∧
    (phase_rank (sm_phase r.1) < 2 → advances r.2 = 0)) as (Hok & Hcfg & Hadv & Hrank).
  { subst r o. induction evs as [|x evs IH] using rev_ind.
    - split; [apply NewManager_ok|]. split_and!; simpl; [done|unfold advances; simpl; lia|done].
    - rewrite run_snoc. destruct (run session_step (NewManager cfg) evs) as [m os]. simpl in IH.
      destruct IH as (I1 & I2 & I3 & I4). pose proof (session_step_facts m x I1) as (F1 & F2 & F3 & F4).
      destruct (session_step m x) as [m' [adv ev]]. simpl in *.
      unfold advances in *. rewrite filter_app, length_app. split_and!; [done|congruence| |].
      + destruct adv; simpl; [|lia]. rewrite I4; [lia|]. by apply F4.
      + intros Hr. destruct adv; simpl; [|rewrite I4 by lia; lia].
        destruct (F4 eq_refl) as (_ & Hc & _). rewrite Hc in Hr. simpl in Hr. lia. }
  pose proof (session_step_facts r.1 e Hok) as (F1 & F2 & F3 & F4). fold o in F1, F2, F3, F4.
  split_and!; [done|done|apply (se_timeout _ Hok)|]. intros Ho. destruct (F4 Ho) as (G1 & G2 & G3).
  split_and!; [by apply Hrank| |by rewrite G3, Hcfg]. rewrite G3. apply (se_threshold _ Hok).
Qed.

(** One sender with two nonces is enough for a threshold of two; and sender and
    nonce are joined ambiguously. *)
Example one_sender_reaches_threshold :
  let m := NewManager (mkSessionConfig 2 0 0) in
  let '(m1, _, _) := OnShare 0 m "alice" "1" in
  let '(m2, adv, _) := OnShare 0 m1 "alice" "2" in
  adv = true ∧ sm_phase m2 = PhaseCombine.
Proof. vm_compute. done. Qed.

Example share_key_ambiguous : share_key "a|b" "c" = share_key "a" "b|c".
Proof. reflexivity. Qed.

(** ** The DKG engine *)
Record DkgMessage := mkDkgMessage {
  dm_Type : string;
  dm_SessionID : string;
  dm_Epoch : N;
  dm_From : string;
  dm_Payload : bytes;
  dm_Sig : bytes;
  dm_TraceID : string;
}.

Record KeyShare := mkKeyShare {
  ks_Index : Z;
  ks_PublicKey : bytes;
  ks_PrivateKey : bytes;
  ks_Commitments : list bytes;
}.

(** [map[string]struct{}]. *)
Abbreviation Voters := (gmap string unit).

Record session := mkSession {
  epoch : N;
  propose : Voters;
  commit : Voters;
  reveal : Voters;
  ack : Voters;
  done_ : bool;
}.

Record sessionState := mkSessionState {
  ss_Epoch : N;
  ss_Propose : list string;
  ss_Commit : list string;
  ss_Reveal : list string;
  ss_Ack : list string;
  ss_Done : bool;
}.

(** [T] of the configuration and whether the two stores are wired. *)
Record DkgConfig := mkDkgConfig { dc_N : Z; dc_T : Z; dc_Store : bool; dc_Sess : bool }.

Record EngineImpl := mkEngine { en_cfg : DkgConfig; en_sess : gmap string session }.

(** What a message writes to the stores. *)
Inductive DkgEffect :=
  | SaveKey (ks : KeyShare)
  | SaveSession (id : string) (st : sessionState).

Definition NewEngine (cfg : DkgConfig) : EngineImpl :=
  mkEngine (mkDkgConfig (dc_N cfg) (if (dc_T cfg <=? 0)%Z then 2%Z else dc_T cfg) (dc_Store cfg) (dc_Sess cfg)) ∅.

Definition fresh_session (e : N) : session := mkSession e ∅ ∅ ∅ ∅ false.

Section engine.
Context {MI : MapIter}.

Definition toSlice (m : Voters) : list string := (iter_map m).*1.
Definition toMap (a : list string) : Voters := foldl (λ m k, <[k := tt]> m) ∅ a.

Definition snapshot (s : session) : sessionState :=
  mkSessionState (epoch s) (toSlice (propose s)) (toSlice (commit s)) (toSlice (reveal s))
    (toSlice (ack s)) (done_ s).

Definition restore (st : sessionState) : session :=
  mkSession (ss_Epoch st) (toMap (ss_Propose st)) (toMap (ss_Commit st)) (toMap (ss_Reveal st))
    (toMap (ss_Ack st)) (ss_Done st).

Definition vote (m : Voters) (from : string) : Voters := <[from := tt]> m.

(** The switch on the message type: the session, whether it advanced, and the
    effects. *)
Definition dkg_switch (cfg : DkgConfig) (s : session) (msg : DkgMessage)
    : session * bool * list MEvent * list DkgEffect :=
  let from := dm_From msg in
  if ⌜? dm_Type msg = "propose" ⌝ then
    (mkSession (epoch s) (vote (propose s) from) (commit s) (reveal s) (ack s) (done_ s), false, [], [])
  else if ⌜? dm_Type msg = "commit" ⌝ then
    (mkSession (epoch s) (propose s) (vote (commit s) from) (reveal s) (ack s) (done_ s), false, [], [])
  else if ⌜? dm_Type msg = "reveal" ⌝ then
    (mkSession (epoch s) (propose s) (commit s) (vote (reveal s) from) (ack s) (done_ s), false, [], [])
  else if ⌜? dm_Type msg = "ack" ⌝ then
    let ack' := vote (ack s) from in
    let finish := negb (done_ s) && (dc_T cfg <=? Z.of_nat (size ack'))%Z in
    (mkSession (epoch s) (propose s) (commit s) (reveal s) ack' (done_ s || finish), finish,
     if finish then [Inc "tss_sessions_total" [("result", "ok")]] else [],
     if finish && dc_Store cfg then [SaveKey (mkKeyShare 0 [] [] [])] else [])
  else if ⌜? dm_Type msg = "complaint" ⌝ then
    (mkSession (u64_add (epoch s) 1) ∅ ∅ ∅ ∅ (done_ s), false, [], [])
  else (s, false, [], []).

(** [OnMessage]; the error it returns is always nil. *)
Definition OnMessage (e : EngineImpl) (msg : DkgMessage)
    : EngineImpl * bool * list MEvent * list DkgEffect :=
  let ev := [Inc "tss_msgs_total" [("type", dm_Type msg)]] in
  let id := dm_SessionID msg in
  let s := default (fresh_session (dm_Epoch msg)) (en_sess e !! id) in
  let put s := mkEngine (en_cfg e) (<[id := s]> (en_sess e)) in
  RETURN (put s, false, ev, []) IF (dm_Epoch msg <? epoch s)%N ;;
  let s := if (epoch s <? dm_Epoch msg)%N
           then mkSession (dm_Epoch msg) (propose s) (commit s) (reveal s) (ack s) (done_ s) else s in
  let '(s', advanced, ev2, eff) := dkg_switch (en_cfg e) s msg in
  (put s', advanced, ev ++ ev2, eff ++ (if dc_Sess (en_cfg e) then [SaveSession id (snapshot s')] else [])).

(** [Resume], given what the session store returned. *)
Definition Resume (e : EngineImpl) (id : string) (loaded : option sessionState) : EngineImpl * goerr :=
  RETURN (e, Some "session not found") IF negb (dc_Sess (en_cfg e)) ;;
  match loaded with
  | None => (e, Some "session not found")
  | Some st => (mkEngine (en_cfg e) (<[id := restore st]> (en_sess e)), nil_err)
  end.

(** *** Snapshots *)
Lemma toMap_lookup a k : toMap a !! k = if ⌜? k ∈ a ⌝ then Some tt else None.
Proof.
  unfold toMap. induction a as [|x a IH] using rev_ind; [done|].
  rewrite foldl_snoc. destruct (decide (x = k)) as [->|Hne].
  - rewrite lookup_insert_eq, bool_decide_true; [done|]. apply elem_of_app. right. by apply list_elem_of_singleton.
  - rewrite lookup_insert_ne, IH by done.
    rewrite (bool_decide_ext (k ∈ a ++ [x]) (k ∈ a)); [done|].
    rewrite elem_of_app, list_elem_of_singleton. naive_solver.
Qed.

Lemma toMap_toSlice m : toMap (toSlice m) = m.
Proof.
  apply map_eq. intros k. rewrite toMap_lookup. unfold toSlice.
  assert (k ∈ (iter_map m).*1 ↔ is_Some (m !! k)) as Hk.
  { rewrite iter_map_perm. split.
    - intros ([k' []] & -> & H%elem_of_map_to_list)%list_elem_of_fmap. eauto.
    - intros [[] H]. apply list_elem_of_fmap. exists (k, tt). split; [done|]. by apply elem_of_map_to_list. }
  destruct (m !! k) as [[]|]; [rewrite bool_decide_true|rewrite bool_decide_false]; try done.
  - apply Hk. eauto.
  - intros [? [=]]%Hk.
Qed.

(** A session restored from its snapshot is the session, whatever order the
    maps were listed in. *)
Lemma restore_snapshot (s : session) : restore (snapshot s) = s.
Proof. destruct s. unfold restore, snapshot. simpl. by rewrite !toMap_toSlice. Qed.

(** *** Runs *)
Definition dkg_step (e : EngineImpl) (msg : DkgMessage) : EngineImpl * bool :=
  let '(e', adv, _, _) := OnMessage e msg in (e', adv).

(** The completions reported for one session. *)
Fixpoint completions (id : string) (msgs : list DkgMessage) (outs : list bool) : nat :=
  match msgs, outs with
  | m :: msgs', o :: outs' =>
      (if ⌜? dm_SessionID m = id ⌝ && o then 1 else 0) + completions id msgs' outs'
  | _, _ => 0
  end.

Definition is_done (e : EngineImpl) (id : string) : bool :=
  match en_sess e !! id with Some s => done_ s | None => false end.

Lemma dkg_switch_done cfg s msg :
  let '(s', adv, _, _) := dkg_switch cfg s msg in
  (done_ s = true → done_ s' = true ∧ adv = false) ∧
  (adv = true → done_ s' = true ∧ (dc_T cfg <= Z.of_nat (size (ack s')))%Z).
Proof.
  unfold dkg_switch. repeat case_bool_decide; simpl; try done.
  destruct (done_ s); simpl; [done|].
  destruct (Z.leb_spec (dc_T cfg) (Z.of_nat (size (vote (ack s) (dm_From msg))))); simpl; done.
Qed.

Lemma dkg_step_facts e msg :
  let r := dkg_step e msg in
  en_cfg r.1 = en_cfg e ∧
  (∀ id, id ≠ dm_SessionID msg → en_sess r.1 !! id = en_sess e !! id) ∧
  (is_done e (dm_SessionID msg) = true → is_done r.1 (dm_SessionID msg) = true ∧ r.2 = false) ∧
  (r.2 = true → is_done r.1 (dm_SessionID msg) = true ∧ ∃ s, en_sess r.1 !! dm_SessionID msg = Some s ∧
     (dc_T (en_cfg e) <= Z.of_nat (size (ack s)))%Z).
Proof.
  unfold dkg_step, OnMessage, is_done. set (id := dm_SessionID msg).
  set (s := default _ _). destruct (dm_Epoch msg <? epoch s)%N; cbn [fst snd].
  { simpl. rewrite lookup_insert_eq. split_and!; [done| |subst s; by destruct (en_sess e !! id)|done].
    intros id' H. by rewrite lookup_insert_ne. }
  set (s1 := if (epoch s <? dm_Epoch msg)%N then _ else s).
  assert (done_ s1 = done_ s) as Hd by (subst s1; by destruct (_ <? _)%N).
  pose proof (dkg_switch_done (en_cfg e) s1 msg) as H.
  destruct (dkg_switch (en_cfg e) s1 msg) as [[[s' adv] ev] eff]. cbn [fst snd en_cfg en_sess].
  rewrite lookup_insert_eq. destruct H as [H1 H2]. split_and!; [done| | |].
  - intros id' Hne. by rewrite lookup_insert_ne.
  - intros Hdone. apply H1. rewrite Hd. subst s. by destruct (en_sess e !! id).
  - intros Hadv. destruct (H2 Hadv). split; [done|]. by exists s'.
Qed.

(** The DKG engine reports the completion of a session at most once, whatever
    messages of whatever sessions it receives, and when it does, at least T
    distinct senders acknowledged that session. *)
Theorem dkg_completes_once (cfg : DkgConfig) (msgs : list DkgMessage) (id : string) (msg : DkgMessage) :
  let r := run dkg_step (NewEngine cfg) msgs in
  let o := dkg_step r.1 msg in
  completions id msgs r.2 ≤ 1 ∧
  (o.2 = true → completions (dm_SessionID msg) msgs r.2 = 0 ∧
     ∃ s, en_sess o.1 !! dm_SessionID msg = Some s ∧ done_ s = true ∧
       (dc_T (en_cfg (NewEngine cfg)) <= Z.of_nat (size (ack s)))%Z).
Proof.
  intros r o.
  assert (en_cfg r.1 = en_cfg (NewEngine cfg) ∧
    ∀ id, completions id msgs r.2 ≤ (if is_done r.1 id then 1 else 0)) as [Hcfg Hc].
  { subst r o. induction msgs as [|m msgs IH] using rev_ind; [done|].
    rewrite run_snoc. pose proof (length_run dkg_step (NewEngine cfg) msgs) as Hlen.
    destruct (run dkg_step (NewEngine cfg) msgs) as [e1 os]. simpl in IH, Hlen.
    destruct IH as [I1 I2]. pose proof (dkg_step_facts e1 m) as (F1 & F2 & F3 & F4).
    destruct (dkg_step e1 m) as [e2 adv]. simpl in *. split; [congruence|]. intros i.
    assert (completions i (msgs ++ [m]) (os ++ [adv]) = completions i msgs os +
      (if ⌜? dm_SessionID m = i ⌝ && adv then 1 else 0)) as ->.
    { clear -Hlen. revert os Hlen. induction msgs as [|x msgs IH]; intros [|y os] Hl; simpl in *; try lia.
      rewrite IH by lia. lia. }
    specialize (I2 i). destruct (bool_decide_reflect (dm_SessionID m = i)) as [<-|Hne]; simpl.
    - destruct (is_done e1 (dm_SessionID m)) eqn:Ed.
      + destruct (F3 eq_refl) as [-> ->]. lia.
      + destruct adv; [|lia]. destruct (F4 eq_refl) as [-> _]. lia.
    - unfold is_done in *. rewrite F2 by done. lia. }
  pose proof (dkg_step_facts r.1 msg) as (F1 & F2 & F3 & F4). fold o in F1, F2, F3, F4. split.
  - specialize (Hc id). destruct (is_done r.1 id); lia.
  - intros Ho. split.
    + specialize (Hc (dm_SessionID msg)). destruct (is_done r.1 (dm_SessionID msg)) eqn:Ed; [|lia].
      destruct (F3 eq_refl). congruence.
    + destruct (F4 Ho) as (Hd & s & Hs & Hack). exists s. unfold is_done in Hd. rewrite Hs in Hd.
      rewrite <-Hcfg. done.
Qed.
End engine.

Definition dkg_msg (t from : string) (e : N) : DkgMessage := mkDkgMessage t "s" e from [] [] "".

(** A complaint clears the votes for a retry but not the done flag: the retried
    session never completes. *)
Example complaint_after_done_never_completes :
  let r := run (dkg_step (MI := iter_forward)) (NewEngine (mkDkgConfig 3 2 false false))
    [dkg_msg "ack" "a" 0; dkg_msg "ack" "b" 0; dkg_msg "complaint" "c" 0;
     dkg_msg "ack" "a" 1; dkg_msg "ack" "b" 1; dkg_msg "ack" "c" 1] in
  r.2 = [false; true; false; false; false; false].
Proof. vm_compute. reflexivity. Qed.

(** Any sender can move a session to the last epoch, after which every message
    of an honest participant is ignored; a complaint then wraps to epoch 0. *)
Example epoch_jump_silences_session :
  let r := run (dkg_step (MI := iter_forward)) (NewEngine (mkDkgConfig 3 2 false false))
    [dkg_msg "propose" "mallory" (two64 - 1); dkg_msg "ack" "a" 0; dkg_msg "ack" "b" 0] in
  r.2 = [false; false; false] ∧
  (epoch <$> en_sess (dkg_step (MI := iter_forward) r.1 (dkg_msg "complaint" "x" (two64 - 1))).1 !! "s")
    = Some 0%N.
Proof. vm_compute. done. Qed.
