(* ===== verification/CryptoOps.v ===== *)
(** What the cryptographic code calls: the operations of the blst library (not
    part of the repository) as a class, AES-GCM as a class, and the few byte
    helpers of the packages that use them. This file and the ones that model
    src/internal/beast and feldman_crypto_blst.go rest on the Standard Library
    only, so that the algebra in BeastCorrect.v can be done in MathComp. *)
From Stdlib Require Import String List ZArith NArith Bool Lia Permutation.
Import ListNotations.

Abbreviation bytes := (list Byte.byte).

(** An operation that returns a value or an error. *)
Definition res (A : Type) : Type := (string + A)%type.

Definition bind {A B} (r : res A) (k : A -> res B) : res B :=
  match r with inl e => inl e | inr a => k a end.

Declare Scope res_scope.
Delimit Scope res_scope with res.
Notation "'LET' x <- e 'IN' k" := (bind e (fun x => k))
  (at level 10, x binder, e at level 100, k at level 200) : res_scope.

(** [if cond { return err }]. *)
Notation "'FAIL' e 'WHEN' c 'ELSE' k" := (if c then inl e else k)
  (at level 10, e at level 99, c at level 99, k at level 200) : res_scope.

(** A call that returns nil, or false, on failure. *)
Definition must {A} (e : string) (o : option A) : res A :=
  match o with Some a => inr a | None => inl e end.

Definition checked {A} (e : string) (r : A * bool) : res A :=
  if snd r then inr (fst r) else inl e.

(** Map over a list, stopping at the first error. *)
Fixpoint map_res {A B} (f : A -> res B) (l : list A) : res (list B) :=
  match l with
  | [] => inr []
  | a :: l' => bind (f a) (fun b => bind (map_res f l') (fun bs => inr (b :: bs)))
  end.

(** Fold over a list, stopping at the first error. *)
Fixpoint fold_res {A B} (f : B -> A -> res B) (l : list A) (b : B) : res B :=
  match l with
  | [] => inr b
  | a :: l' => bind (f b a) (fold_res f l')
  end.

Lemma length_map_res {A B} (f : A -> res B) l bs : map_res f l = inr bs -> length bs = length l.
Proof.
  revert bs. induction l as [|a l IH]; intros bs; simpl; [now intros [= <-]|].
  destruct (f a); simpl; [discriminate|]. destruct (map_res f l) as [|bs']; simpl; [discriminate|].
  intros [= <-]. simpl. now rewrite (IH bs').
Qed.

(** ** Bytes *)
Definition byte_of_N (n : N) : Byte.byte :=
  match Byte.of_N (n mod 256) with Some b => b | None => Byte.x00 end.

(** [binary.BigEndian.PutUint64] and longer, and the number they stand for. *)
Fixpoint be_bytes (k : nat) (n : N) : bytes :=
  match k with
  | O => []
  | S k' => be_bytes k' (n / 256) ++ [byte_of_N n]
  end.

Definition be_value (b : bytes) : N := fold_left (fun acc x => (acc * 256 + Byte.to_N x)%N) b 0%N.

(** [uint64(v)] of a Go int. *)
Definition to_u64 (v : Z) : N := Z.to_N (v mod 2 ^ 64).

Definition xor_byte (a b : Byte.byte) : Byte.byte := byte_of_N (N.lxor (Byte.to_N a) (Byte.to_N b)).

(** ** AES-256-GCM (crypto/aes, crypto/cipher) under a 32-byte key *)
Class AESGCM := {
  Seal : bytes -> bytes -> bytes -> bytes;          (* key, nonce, plaintext *)
  Open : bytes -> bytes -> bytes -> option bytes;   (* key, nonce, ciphertext *)
  Open_Seal key nonce p :
    length key = 32 -> length nonce = 12 -> Open key nonce (Seal key nonce p) = Some p;
  length_Seal key nonce p : length (Seal key nonce p) = length p + 16;
}.

(** ** blst: scalars, the two groups and the pairing

    The scalar operations also report a check, which may fail. [pairing] is a product of
    Miller loops with the final exponentiation. *)
Class Blst := {
  Scalar : Type;
  P1 : Type;
  P2 : Type;
  GT : Type;
  sk_zero : Scalar;
  sk_FromBEndian : bytes -> Scalar;
  sk_Deserialize : bytes -> option Scalar;
  sk_Serialize : Scalar -> bytes;
  sk_KeyGen : bytes -> option Scalar;
  sk_add : Scalar -> Scalar -> Scalar * bool;
  sk_sub : Scalar -> Scalar -> Scalar * bool;
  sk_mul : Scalar -> Scalar -> Scalar * bool;
  sk_Inverse : Scalar -> Scalar;
  p1_zero : P1;
  p1_gen : P1;
  p1_add : P1 -> P1 -> P1;
  p1_sub : P1 -> P1 -> P1;
  p1_mult : P1 -> Scalar -> P1;
  p1_compress : P1 -> bytes;
  p1_uncompress : bytes -> option P1;
  p2_zero : P2;
  p2_gen : P2;
  p2_add : P2 -> P2 -> P2;
  p2_mult : P2 -> Scalar -> P2;
  p2_compress : P2 -> bytes;
  p2_uncompress : bytes -> option P2;
  HashToG2 : bytes -> bytes -> P2;                  (* message, domain *)
  pairing : list (P2 * P1) -> GT;
  gt_bytes : GT -> bytes;
}.

(** [scalarFromInt], the same function in the three packages. *)
Definition scalarFromInt {B : Blst} (v : Z) : Scalar :=
  sk_FromBEndian (repeat Byte.x00 24 ++ be_bytes 8 (to_u64 v)).

(** ** Shares sorted by index *)
Section sort.
Context {A : Type} (index : A -> Z).

Fixpoint insert_by_index (x : A) (l : list A) : list A :=
  match l with
  | [] => [x]
  | y :: l' => if (index y <? index x)%Z then y :: insert_by_index x l' else x :: l
  end.

(** [sort.Slice(shares, by Index)]; the callers reject repeated indices. *)
Definition sort_by_index (l : list A) : list A := fold_right insert_by_index [] l.

(** The checks both [CombineShares] and [DecryptKeyG] make on the chosen shares. *)
Fixpoint check_indices (ok : A -> bool) (seen : list Z) (l : list A) : bool :=
  match l with
  | [] => true
  | x :: l' =>
      (0 <? index x)%Z && ok x && negb (existsb (Z.eqb (index x)) seen) &&
      check_indices ok (index x :: seen) l'
  end.
End sort.

(** ** Lagrange coefficients at zero (the same loop in ibe, bte and dkg) *)
Local Open Scope res_scope.

Definition lagrange_step {B : Blst} (err : string) (i : Z) (acc : Scalar * Scalar) (j : Z)
    : res (Scalar * Scalar) :=
  if (j =? i)%Z then inr acc else
  let xi := scalarFromInt i in
  let xj := scalarFromInt j in
  let zero := scalarFromInt 0 in
  LET neg <- checked err (sk_sub zero xj) IN
  LET num <- checked err (sk_mul (fst acc) neg) IN
  LET diff <- checked err (sk_sub xi xj) IN
  LET den <- checked err (sk_mul (snd acc) diff) IN
  inr (num, den).

Definition lagrangeAtZero {B : Blst} (err : string) (i : Z) (indices : list Z) : res Scalar :=
  LET acc <- fold_res (lagrange_step err i) indices (scalarFromInt 1, scalarFromInt 1) IN
  checked err (sk_mul (fst acc) (sk_Inverse (snd acc))).

(** ** Lemmas *)
Lemma byte_of_N_value n : Byte.to_N (byte_of_N n) = (n mod 256)%N.
Proof.
  unfold byte_of_N. pose proof (N.mod_lt n 256 ltac:(discriminate)) as Hlt.
  destruct (Byte.of_N (n mod 256)) as [b|] eqn:E; [now apply Byte.to_of_N|].
  apply Byte.of_N_None_iff in E. lia.
Qed.

Lemma length_be_bytes k n : length (be_bytes k n) = k.
Proof. revert n. induction k; intros n; simpl; [reflexivity|]. rewrite length_app, IHk. simpl. lia. Qed.

Lemma be_value_bytes k n : (n < 256 ^ N.of_nat k)%N -> be_value (be_bytes k n) = n.
Proof.
  unfold be_value. revert n. induction k as [|k IH]; intros n Hn; [simpl in *; lia|].
  rewrite Nat2N.inj_succ, N.pow_succ_r' in Hn. cbn [be_bytes]. rewrite fold_left_app, IH; cbn [fold_left].
  - rewrite byte_of_N_value. pose proof (N.div_mod n 256). lia.
  - apply N.Div0.div_lt_upper_bound. lia.
Qed.

Lemma be_value_zeros k b : be_value (repeat Byte.x00 k ++ b) = be_value b.
Proof. unfold be_value. rewrite fold_left_app. f_equal. induction k; simpl; auto. Qed.

(** Cutting a prefix of known length off. *)
Lemma firstn_prefix k (a b : bytes) : length a = k -> firstn k (a ++ b) = a.
Proof. intros <-. rewrite firstn_app, firstn_all, Nat.sub_diag. apply app_nil_r. Qed.

Lemma skipn_prefix k (a b : bytes) : length a = k -> skipn k (a ++ b) = b.
Proof. intros <-. rewrite skipn_app, skipn_all, Nat.sub_diag. reflexivity. Qed.

(** The number [scalarFromInt] encodes. *)
Lemma scalar_bytes v : be_value (repeat Byte.x00 24 ++ be_bytes 8 (to_u64 v)) = to_u64 v.
Proof.
  rewrite be_value_zeros. apply be_value_bytes. unfold to_u64.
  pose proof (Z.mod_pos_bound v (2 ^ 64) ltac:(lia)). change (256 ^ N.of_nat 8)%N with (Z.to_N (2 ^ 64)). lia.
Qed.

Section sort_lemmas.
Context {A : Type} (index : A -> Z).

Lemma insert_by_index_perm x l : Permutation (insert_by_index index x l) (x :: l).
Proof.
  induction l as [|y l IH]; simpl; [reflexivity|]. destruct (index y <? index x)%Z; [|reflexivity].
  rewrite IH. apply perm_swap.
Qed.

Lemma sort_by_index_perm l : Permutation (sort_by_index index l) l.
Proof. induction l as [|x l IH]; simpl; [reflexivity|]. rewrite insert_by_index_perm. now constructor. Qed.

(** The shares that are used: as many as asked for, each of the given ones,
    and with distinct indices when the given ones have. *)
Lemma chosen_shares k l :
  k <= length l ->
  let c := firstn k (sort_by_index index l) in
  length c = k /\ incl c l /\ (NoDup (map index l) -> NoDup (map index c)).
Proof.
  intros Hk c. pose proof (sort_by_index_perm l) as HP. split; [|split].
  - unfold c. rewrite length_firstn, (Permutation_length HP). lia.
  - intros x Hx. apply (Permutation_in x HP). unfold c in Hx.
    rewrite <-(firstn_skipn k). apply in_or_app. now left.
  - intros Hnd. apply (Permutation_NoDup (Permutation_sym (Permutation_map index HP))) in Hnd.
    unfold c. rewrite <-(firstn_skipn k (sort_by_index index l)), map_app in Hnd.
    now apply NoDup_app_remove_r in Hnd.
Qed.

Lemma check_indices_true ok seen l :
  (forall x, In x l -> (0 < index x)%Z /\ ok x = true /\ ~ In (index x) seen) -> NoDup (map index l) ->
  check_indices index ok seen l = true.
Proof.
  revert seen. induction l as [|x l IH]; intros seen Hl Hnd; simpl; [reflexivity|].
  inversion Hnd as [|? ? Hni Hnd']; subst. destruct (Hl x (or_introl eq_refl)) as (H1 & H2 & H3).
  apply Z.ltb_lt in H1. rewrite H1, H2. simpl.
  assert (existsb (Z.eqb (index x)) seen = false) as ->.
  { apply Bool.not_true_is_false. intros (z & Hz & E)%existsb_exists. apply Z.eqb_eq in E. now subst. }
  simpl. apply IH; [|assumption]. intros y Hy. destruct (Hl y (or_intror Hy)) as (G1 & G2 & G3).
  repeat split; [assumption|assumption|]. intros [E|]; [|tauto]. apply Hni. rewrite E. now apply in_map.
Qed.
End sort_lemmas.

(** ** A small pairing group to instantiate the class

    Scalars are the integers modulo the prime 1009, a group element is its
    discrete logarithm, and the pairing multiplies logarithms. It has the
    algebra of the real groups, and no security. *)
Definition toy_r : N := 1009.

Definition toy_point (len : nat) (b : bytes) : option N :=
  if (length b =? len)%nat && (be_value b <? toy_r)%N then Some (be_value b) else None.

Definition toy_op (f : N -> N -> N) (a b : N) : N * bool :=
  let c := (f a b mod toy_r)%N in (c, negb (c =? 0)%N).

Definition toy_blst : Blst :=
  {| Scalar := N; P1 := N; P2 := N; GT := N;
     sk_zero := 0%N;
     sk_FromBEndian b := (be_value b mod toy_r)%N;
     sk_Deserialize b := match toy_point 32 b with Some 0%N => None | o => o end;
     sk_Serialize := be_bytes 32;
     sk_KeyGen ikm := if (length ikm <? 32)%nat then None else Some (be_value ikm mod (toy_r - 1) + 1)%N;
     sk_add := toy_op N.add;
     sk_sub := toy_op (fun a b => a + (toy_r - b))%N;
     sk_mul := toy_op N.mul;
     sk_Inverse a := Nat.iter (N.to_nat (toy_r - 2)) (fun p => (p * a) mod toy_r)%N 1%N;
     p1_zero := 0%N; p1_gen := 1%N;
     p1_add a b := ((a + b) mod toy_r)%N;
     p1_sub a b := ((a + (toy_r - b)) mod toy_r)%N;
     p1_mult p k := ((p * k) mod toy_r)%N;
     p1_compress := be_bytes 48; p1_uncompress := toy_point 48;
     p2_zero := 0%N; p2_gen := 1%N;
     p2_add a b := ((a + b) mod toy_r)%N;
     p2_mult p k := ((p * k) mod toy_r)%N;
     p2_compress := be_bytes 96; p2_uncompress := toy_point 96;
     HashToG2 msg dst := (be_value (msg ++ dst) mod (toy_r - 1) + 1)%N;
     pairing l := (fold_right (fun '(q, p) acc => q * p + acc) 0 l mod toy_r)%N;
     gt_bytes := be_bytes 576 |}.

(** A cipher that appends the first half of the key as its tag. *)
Definition toy_tag (key : bytes) : bytes := firstn 16 (key ++ repeat Byte.x00 16).

Lemma length_toy_tag key : length (toy_tag key) = 16.
Proof. unfold toy_tag. rewrite length_firstn, length_app, repeat_length. lia. Qed.

Fixpoint beqb (a b : bytes) : bool :=
  match a, b with
  | [], [] => true
  | x :: a', y :: b' => Byte.eqb x y && beqb a' b'
  | _, _ => false
  end.

Lemma beqb_refl a : beqb a a = true.
Proof. induction a as [|x a IH]; simpl; [reflexivity|]. rewrite (Byte.byte_dec_lb (x := x) (y := x) eq_refl), IH. reflexivity. Qed.

Definition toy_open (key nonce c : bytes) : option bytes :=
  if beqb (skipn (length c - 16) c) (toy_tag key) then Some (firstn (length c - 16) c) else None.

Lemma toy_open_seal key nonce p : toy_open key nonce (p ++ toy_tag key) = Some p.
Proof.
  unfold toy_open.
  replace (length (p ++ toy_tag key) - 16) with (length p + 0) by (rewrite length_app, length_toy_tag; lia).
  rewrite firstn_app_2, skipn_app, skipn_all2, Nat.add_0_r, Nat.sub_diag by lia. simpl.
  now rewrite beqb_refl, app_nil_r.
Qed.

Lemma length_toy_seal key (nonce : bytes) p : length (p ++ toy_tag key) = length p + 16.
Proof. now rewrite length_app, length_toy_tag. Qed.

Definition toy_gcm : AESGCM :=
  {| Seal key _ p := p ++ toy_tag key;
     Open := toy_open;
     Open_Seal key nonce p _ _ := toy_open_seal key nonce p;
     length_Seal := length_toy_seal |}.
