(* ===== verification/TssStores.v ===== *)
(** The durable stores of the threshold layer (src/internal/tss/dkg/storage.go,
    session_store.go, beast_session_store.go), the committee configuration
    (beast_dkg_config.go), and the DKG engine running on its session store. *)
From S2P Require Import CryptoOps.
From S2P Require Import Prelude Metrics Codec Files Tss.

(** ** Framed JSON records *)
Definition frame (magic flags : N) (body : bytes) : bytes :=
  encode_header {| h_magic := magic; h_version := 1; h_flags := flags;
    h_length := N.of_nat (length body); h_crc := crc32 body |}.

Definition frameable (magic : N) (body : bytes) : Prop :=
  (magic < 2 ^ 32)%N ∧ (N.of_nat (length body) < 2 ^ 32)%N.

Lemma ReadFull_frame magic flags body :
  ReadFull 16 (frame magic flags body ++ body) = Some (frame magic flags body, body).
Proof. apply ReadFull_app, length_encode_header. Qed.

Lemma ReadFull_all body : ReadFull (length body) body = Some (body, []).
Proof. rewrite <-(app_nil_r body) at 2. by apply ReadFull_app. Qed.

Lemma decode_frame magic flags body :
  frameable magic body → (flags < 2 ^ 16)%N →
  decode_header (frame magic flags body) =
    mkHeader magic 1 flags (N.of_nat (length body)) (crc32 body).
Proof.
  intros [Hm Hl] Hf. apply decode_encode_header. pose proof (crc32_below body).
  repeat split; simpl; done.
Qed.

(** ** The session stores *)
Definition magicSess : N := 0x54535353.
Definition magicBeastSess : N := 0x42445353.

Section session_store.
Context {A : Type} {J : Json A} (magic : N).

(** [readSess], [readBeastSession]. *)
Definition readSess (content : bytes) : string + A :=
  match ReadFull 16 content with
  | None => inl "unexpected EOF"
  | Some (hdr, rest) =>
      let h := decode_header hdr in
      RETURN inl "bad magic" IF ⌜? h_magic h ≠ magic ⌝ ;;
      match ReadFull (N.to_nat (h_length h)) rest with
      | None => inl "unexpected EOF"
      | Some (body, _) =>
          RETURN inl "crc mismatch" IF ⌜? crc32 body ≠ h_crc h ⌝ ;;
          match unmarshal body with
          | None => inl "invalid JSON"
          | Some st => inr st
          end
      end
  end.

Definition sess_storable (st : A) : Prop := json_stable st ∧ frameable magic (marshal st).

Lemma readSess_write st :
  sess_storable st → readSess (frame magic 0 (marshal st) ++ marshal st) = inr st.
Proof.
  intros [Hst Hf]. unfold readSess. rewrite ReadFull_frame, decode_frame by done.
  cbn [h_magic h_length h_crc]. rewrite Nat2N.id, ReadFull_all.
  rewrite !bool_decide_false by (by intros []). by rewrite unmarshal_marshal.
Qed.

Definition sess_codec : RecordCodec A A :=
  {| rc_header st := frame magic 0 (marshal st); rc_body := marshal; rc_read := readSess;
     rc_value st := st; rc_storable := sess_storable; rc_read_write := readSess_write |}.

(** [writeSess], [writeBeastSession]. *)
Definition writeSess (o : Outcome) (path : string) (st : A) (fs : FS) : FS * goerr :=
  attempt o (save_ops (RC := sess_codec) fs path st) fs.

(** [Load]: the main file, else the backup. *)
Definition sess_Load (path : string) (fs : FS) : option A * list MEvent :=
  match read_path (RC := sess_codec) fs path with
  | inr st => (Some st, [Inc "tss_recovery_total" [("result", "ok")]])
  | inl _ =>
      match read_path (RC := sess_codec) fs (path +:+ ".bak") with
      | inr st => (Some st, [Inc "tss_recovery_total" [("result", "fallback")]])
      | inl _ => (None, [Inc "tss_recovery_total" [("result", "fail")]])
      end
  end.

Lemma sess_Load_holds path fs st :
  holds (RC := sess_codec) fs path st → (sess_Load path fs).1 = Some st.
Proof.
  intros H%load_holds. revert H. unfold load, sess_Load, bak_of.
  destruct (read_path _ path); [|by intros [= ->]].
  destruct (read_path _ _); [done|by intros [= ->]].
Qed.

Lemma writeSess_holds o path st st' fs :
  sess_storable st' → holds (RC := sess_codec) fs path st →
  let r := writeSess o path st' fs in
  (holds (RC := sess_codec) r.1 path st ∨ holds (RC := sess_codec) r.1 path st').
Proof. intros Hs H. exact (proj1 (holds_attempt (RC := sess_codec) fs path st st' o Hs H)). Qed.

Lemma writeSess_ok o path st fs :
  sess_storable st → (writeSess o path st fs).2 = nil_err →
  holds (RC := sess_codec) (writeSess o path st fs).1 path st.
Proof.
  intros Hs H. left. eexists. split; [by apply (attempt_success (RC := sess_codec))|].
  by apply readSess_write.
Qed.
End session_store.

(** The session of the BEAST DKG runner; map keys are Go ints. *)
Record beastSessionState := mkBeastSession {
  bs_Epoch : N;
  bs_Coeffs : list bytes;
  bs_SelfCommitments : list bytes;
  bs_Commitments : gmap Z (list bytes);
  bs_Shares : gmap Z bytes;
  bs_Acks : gmap Z (list Z);
  bs_Complaints : gmap Z (list Z);
  bs_Disqualified : list Z;
  bs_Done : bool;
  bs_GroupPubKey : bytes;
  bs_ShareScalar : bytes;
}.

(** The BEAST session store frames its records as the session store does, under
    its own magic number; its [Load] records no metrics. *)
Definition readBeastSession {J : Json beastSessionState} : bytes → string + beastSessionState :=
  readSess magicBeastSess.

Definition writeBeastSession {J : Json beastSessionState} :
    Outcome → string → beastSessionState → FS → FS * goerr :=
  writeSess magicBeastSess.

Definition beast_Load {J : Json beastSessionState} (path : string) (fs : FS) : option beastSessionState :=
  (sess_Load magicBeastSess path fs).1.

(** ** The key store *)

Definition magicTSS : N := 0x5453534b.
Definition flagEncrypt : N := 1.

(** [ks_aead]: the key of the AEAD when encryption is on. *)
Record KeyStore := mkKeyStore { ks_path : string; ks_aead : option bytes; ks_zeroize : bool }.

Definition NewKeyStore (path : string) : KeyStore := mkKeyStore path None false.

Definition zero (b : bytes) : bytes := map (λ _, Byte.x00) b.

(** The store, and what is left in the caller's key slice. *)
Definition NewKeyStoreEncrypted (path : string) (key : bytes) (zeroize : bool) : KeyStore * bytes :=
  RETURN (NewKeyStore path, key) IF ⌜? length key ≠ 32 ⌝ ;;
  (mkKeyStore path (Some key) zeroize, zero key).

(** [hex.DecodeString]. *)
Definition hex_digit (c : Ascii.ascii) : option N :=
  let n := Ascii.N_of_ascii c in
  if ((48 <=? n) && (n <=? 57))%N then Some (n - 48)%N
  else if ((97 <=? n) && (n <=? 102))%N then Some (n - 87)%N
  else if ((65 <=? n) && (n <=? 70))%N then Some (n - 55)%N
  else None.

Fixpoint hex_decode (s : string) : option bytes :=
  match s with
  | String.EmptyString => Some []
  | String.String a (String.String b s') =>
      x ← hex_digit a; y ← hex_digit b; r ← hex_decode s'; Some (byte_of (16 * x + y) :: r)
  | _ => None
  end.

(** [env] is [os.Getenv], [readf] is [os.ReadFile]. *)
Definition NewKeyStoreFromEnv (env : string → string) (readf : string → option bytes)
    (path : string) : KeyStore :=
  if ⌜? env "AEQUA_TSS_KEYSTORE_ENCRYPT" = "1" ⌝ then
    let hexStr := env "AEQUA_TSS_KEYSTORE_KEY" in
    let f := env "AEQUA_TSS_KEYSTORE_KEY_FILE" in
    let key := if ⌜? hexStr ≠ "" ⌝ then default [] (hex_decode hexStr)
               else if ⌜? f ≠ "" ⌝ then default [] (readf f) else [] in
    (NewKeyStoreEncrypted path key ⌜? env "AEQUA_TSS_ZEROIZE" = "1" ⌝).1
  else NewKeyStore path.

Section keystore.
Context {J : Json KeyShare} {GCM : AESGCM} (s : KeyStore).

(** The flags and the body [writeAtomic] writes, for the nonce it draws. *)
Definition ks_flags : N := match ks_aead s with Some _ => flagEncrypt | None => 0 end.

Definition ks_body (w : KeyShare * bytes) : bytes :=
  match ks_aead s with
  | Some key => w.2 ++ Seal key w.2 (marshal w.1)
  | None => marshal w.1
  end.

Definition ks_readFile (content : bytes) : string + KeyShare :=
  match ReadFull 16 content with
  | None => inl "unexpected EOF"
  | Some (hdr, rest) =>
      let h := decode_header hdr in
      RETURN inl "bad magic" IF ⌜? h_magic h ≠ magicTSS ⌝ ;;
      RETURN inl "bad length" IF ⌜? h_length h = 0%N ⌝ ;;
      match ReadFull (N.to_nat (h_length h)) rest with
      | None => inl "unexpected EOF"
      | Some (body, _) =>
          RETURN inl "crc mismatch" IF ⌜? crc32 body ≠ h_crc h ⌝ ;;
          let plain :=
            if ⌜? N.land (h_flags h) flagEncrypt ≠ 0%N ⌝ then
              match ks_aead s with
              | None => inl "encrypted but no key"
              | Some key =>
                  RETURN inl "bad nonce" IF ⌜? length body < 12 ⌝ ;;
                  match Open key (take 12 body) (drop 12 body) with
                  | None => inl "cipher: message authentication failed"
                  | Some p => inr p
                  end
              end
            else inr body in
          match plain with
          | inl e => inl e
          | inr p => match unmarshal p with None => inl "invalid JSON" | Some ks => inr ks end
          end
      end
  end.

Definition ks_storable (w : KeyShare * bytes) : Prop :=
  json_stable w.1 ∧ length w.2 = 12 ∧ match ks_aead s with Some key => length key = 32 | None => True end ∧
  frameable magicTSS (ks_body w).

Lemma marshal_nonempty (ks : KeyShare) : json_stable ks → marshal ks ≠ [].
Proof. intros Hs H. pose proof (unmarshal_marshal ks Hs) as Hu. by rewrite H, unmarshal_nil in Hu. Qed.

Lemma ks_body_nonempty w : ks_storable w → N.of_nat (length (ks_body w)) ≠ 0%N.
Proof.
  intros (Hj & Hn & _ & _). unfold ks_body. destruct (ks_aead s).
  - rewrite length_app. lia.
  - apply marshal_nonempty in Hj. destruct (marshal w.1); [done|]. simpl. lia.
Qed.

Lemma ks_readFile_write w :
  ks_storable w → ks_readFile (frame magicTSS ks_flags (ks_body w) ++ ks_body w) = inr w.1.
Proof.
  intros Hw. pose proof (ks_body_nonempty w Hw) as Hne. destruct Hw as (Hj & Hn & Hk & Hf).
  unfold ks_readFile. rewrite ReadFull_frame, decode_frame; [|done|by unfold ks_flags; destruct (ks_aead s)].
  cbn [h_magic h_length h_crc h_flags]. rewrite Nat2N.id, ReadFull_all.
  rewrite (bool_decide_false (magicTSS ≠ magicTSS)), (bool_decide_false _ Hne),
    (bool_decide_false (crc32 _ ≠ _)) by (by intros []).
  unfold ks_flags, ks_body in *. destruct (ks_aead s) as [key|].
  - rewrite bool_decide_true by done. rewrite bool_decide_false by (rewrite length_app; lia).
    rewrite take_app_length', drop_app_length' by done.
    by rewrite Open_Seal, unmarshal_marshal.
  - rewrite bool_decide_false by (by intros []). by rewrite unmarshal_marshal.
Qed.

Definition ks_codec : RecordCodec (KeyShare * bytes) KeyShare :=
  {| rc_header w := frame magicTSS ks_flags (ks_body w); rc_body := ks_body; rc_read := ks_readFile;
     rc_value := fst; rc_storable := ks_storable; rc_read_write := ks_readFile_write |}.

(** [SaveKeyShare]: [nonce] is what [rand.Read] returned, [ms] the latency. *)
Definition SaveKeyShare (o : Outcome) (ms : N) (ks : KeyShare) (nonce : bytes) (fs : FS)
    : FS * goerr * list MEvent :=
  let '(fs', err) := attempt o (save_ops (RC := ks_codec) fs (ks_path s) (ks, nonce)) fs in
  RETURN (fs', err, [Inc "tss_persist_errors_total" []]) IF ⌜? err ≠ nil_err ⌝ ;;
  (fs', nil_err, [Observe "tss_persist_ms" [] (float64_of ms)]).

Definition LoadKeyShare (fs : FS) : option KeyShare * list MEvent :=
  match read_path (RC := ks_codec) fs (ks_path s) with
  | inr ks => (Some ks, [Inc "tss_recovery_total" [("result", "ok")]])
  | inl _ =>
      match read_path (RC := ks_codec) fs (ks_path s +:+ ".bak") with
      | inr ks => (Some ks, [Inc "tss_recovery_total" [("result", "fallback")]])
      | inl _ => (None, [Inc "tss_recovery_total" [("result", "fail")]])
      end
  end.

Lemma LoadKeyShare_holds fs ks :
  holds (RC := ks_codec) fs (ks_path s) ks → (LoadKeyShare fs).1 = Some ks.
Proof.
  intros H%load_holds. revert H. unfold load, LoadKeyShare, bak_of.
  destruct (read_path _ (ks_path s)); [|by intros [= ->]].
  destruct (read_path _ _); [done|by intros [= ->]].
Qed.

Lemma SaveKeyShare_attempt o ms ks nonce fs :
  (SaveKeyShare o ms ks nonce fs).1 = attempt o (save_ops (RC := ks_codec) fs (ks_path s) (ks, nonce)) fs.
Proof.
  unfold SaveKeyShare. destruct (attempt _ _ _) as [fs' e]. simpl.
  destruct e; [by rewrite bool_decide_true|by rewrite bool_decide_false by (intros []; done)].
Qed.
End keystore.

(** The key store is durable, encrypted or not. Once SaveKeyShare has
    returned nil, then after any later history of saves, each with its own nonce
    and each completing, failing with an I/O error or cut by a power loss,
    LoadKeyShare returns a key share: the saved one or a later one, and never
    one older than the last save that returned nil. *)
Theorem keystore_durable {J : Json KeyShare} {GCM : AESGCM} (s : KeyStore) (o : Outcome) (ms : N)
    (ks : KeyShare) (nonce : bytes) (fs : FS) (hist : list ((KeyShare * bytes) * Outcome)) :
  ks_storable s (ks, nonce) → Forall (λ x, ks_storable s x.1) hist →
  (SaveKeyShare s o ms ks nonce fs).1.2 = nil_err →
  let r := attempts (RC := ks_codec s) (ks_path s) hist (SaveKeyShare s o ms ks nonce fs).1.1 in
  ∃ k v, (LoadKeyShare s r.1).1 = Some v ∧ (ks :: hist.*1.*1) !! k = Some v ∧
    ∀ i, r.2 !! i = Some nil_err → S i ≤ k.
Proof.
  rewrite SaveKeyShare_attempt. intros Hs Hh Hok r.
  assert (holds (RC := ks_codec s) (attempt o (save_ops (RC := ks_codec s) fs (ks_path s) (ks, nonce)) fs).1
    (ks_path s) ks) as H.
  { left. eexists. split; [by apply (attempt_success (RC := ks_codec s))|].
    by apply (ks_readFile_write s (ks, nonce)). }
  destruct (holds_attempts (RC := ks_codec s) hist _ _ _ H Hh) as (k & v & Hv & Hk & Hi).
  exists k, v. rewrite (LoadKeyShare_holds s _ v) by done. done.
Qed.

#[export] Instance KeyShare_eq_dec : EqDecision KeyShare.
Proof. solve_decision. Defined.
#[export] Program Instance KeyShare_countable : Countable KeyShare :=
  inj_countable' (λ k, (ks_Index k, ks_PublicKey k, ks_PrivateKey k, ks_Commitments k))
    (λ '(i, p, q, c), mkKeyShare i p q c) _.
Next Obligation. by intros []. Qed.

Definition sample_share (i : Z) : KeyShare := mkKeyShare i [Byte.x01] [Byte.x02] [].
Definition sample_key : bytes := replicate 32 Byte.x07.
Definition sample_nonce (b : Byte.byte) : bytes := replicate 12 b.
Definition sample_store : KeyStore := (NewKeyStoreEncrypted "k" sample_key true).1.

Definition sample_key_history : list ((KeyShare * bytes) * Outcome) :=
  [((sample_share 2, sample_nonce Byte.x02), IOError (mkFault 2 3));
   ((sample_share 3, sample_nonce Byte.x03), Crashed (mkFault 5 0) (λ _, 0))].

Lemma keystore_durable_witness :
  let J := countable_json KeyShare in
  let s := sample_store in
  let r := attempts (RC := ks_codec (J := J) (GCM := toy_gcm) s) "k" sample_key_history
    (SaveKeyShare (J := J) (GCM := toy_gcm) s Completed 1 (sample_share 1) (sample_nonce Byte.x01) ∅).1.1 in
  (∃ k v, (LoadKeyShare (J := J) (GCM := toy_gcm) s r.1).1 = Some v ∧
    (sample_share 1 :: sample_key_history.*1.*1) !! k = Some v ∧
    ∀ i, r.2 !! i = Some nil_err → S i ≤ k) ∧
  (LoadKeyShare (J := J) (GCM := toy_gcm) s r.1).1 = Some (sample_share 1).
Proof.
  split.
  - apply (keystore_durable (J := countable_json KeyShare) (GCM := toy_gcm) sample_store Completed 1
      (sample_share 1) (sample_nonce Byte.x01) ∅ sample_key_history).
    + repeat split; vm_compute; reflexivity.
    + repeat constructor; vm_compute; reflexivity.
    + vm_compute. reflexivity.
  - vm_compute. reflexivity.
Defined.

(** What an encrypting store writes is the nonce and the sealed share, never
    the plain share, and only a store with the key reads it back: a store
    without the key reports the share as missing, whatever it is. *)
Theorem keystore_encryption {J : Json KeyShare} {GCM : AESGCM} (s t : KeyStore) (key nonce : bytes)
    (ks : KeyShare) :
  ks_aead s = Some key → ks_aead t = None → ks_path t = ks_path s → ks_storable s (ks, nonce) →
  let fs := (SaveKeyShare s Completed 0 ks nonce ∅).1.1 in
  (∃ hdr f, fs !! ks_path s = Some f ∧ length hdr = 16 ∧ data f = hdr ++ nonce ++ Seal key nonce (marshal ks)) ∧
  (LoadKeyShare s fs).1 = Some ks ∧
  LoadKeyShare t fs = (None, [Inc "tss_recovery_total" [("result", "fail")]]).
Proof.
  intros Hs Ht Hp Hst fs.
  destruct (replace_ops_run ∅ (ks_path s) (frame magicTSS (ks_flags s) (ks_body s (ks, nonce)))
    (ks_body s (ks, nonce))) as [(f & Hf & Hd & Hsync) Hbak].
  assert (fs = run_ops (replace_ops ∅ (ks_path s) (frame magicTSS (ks_flags s) (ks_body s (ks, nonce)))
    (ks_body s (ks, nonce))) ∅) as Hfs by (unfold fs; by rewrite SaveKeyShare_attempt).
  rewrite <-Hfs in Hf, Hbak. rewrite !lookup_empty in Hbak. split_and!.
  - exists (frame magicTSS (ks_flags s) (ks_body s (ks, nonce))), f. split; [done|]. split; [apply length_encode_header|].
    rewrite Hd. unfold ks_body. by rewrite Hs.
  - apply (LoadKeyShare_holds s). left. eexists. split; [by exists f|]. by apply (ks_readFile_write s (ks, nonce)).
  - unfold LoadKeyShare. fold (bak_of (ks_path t)). rewrite Hp. unfold read_path. rewrite Hf, Hbak, Hd.
    cbn [rc_read ks_codec]. unfold ks_readFile. rewrite ReadFull_frame.
    pose proof (ks_body_nonempty s _ Hst) as Hne. destruct Hst as (_ & _ & _ & Hfr).
    unfold ks_flags. rewrite Hs, decode_frame, Ht by done. cbn [h_magic h_length h_crc h_flags].
    rewrite Nat2N.id, ReadFull_all. rewrite (bool_decide_false (magicTSS ≠ magicTSS)), (bool_decide_false _ Hne),
      (bool_decide_false (crc32 _ ≠ _)) by (by intros []). done.
Qed.

Lemma keystore_encryption_witness :
  let J := countable_json KeyShare in
  let fs := (SaveKeyShare (J := J) (GCM := toy_gcm) sample_store Completed 0 (sample_share 5)
    (sample_nonce Byte.x09) ∅).1.1 in
  (LoadKeyShare (J := J) (GCM := toy_gcm) sample_store fs).1 = Some (sample_share 5) ∧
  LoadKeyShare (J := J) (GCM := toy_gcm) (NewKeyStore "k") fs =
    (None, [Inc "tss_recovery_total" [("result", "fail")]]).
Proof.
  apply (keystore_encryption (J := countable_json KeyShare) (GCM := toy_gcm) sample_store (NewKeyStore "k")
    sample_key (sample_nonce Byte.x09) (sample_share 5)).
  - reflexivity.
  - reflexivity.
  - reflexivity.
  - repeat split; vm_compute; reflexivity.
Defined.

(** The constructor clears the caller's key: a second store built from the same
    slice encrypts under the zero key. *)
Example second_store_gets_zero_key :
  let '(_, key) := NewKeyStoreEncrypted "a" sample_key true in
  ks_aead (NewKeyStoreEncrypted "b" key true).1 = Some (replicate 32 Byte.x00).
Proof. vm_compute. reflexivity. Qed.

(** Encryption that is switched on with a key of the wrong length, or a key file
    with a trailing newline, is silently off. *)
Example bad_key_disables_encryption :
  let env x := if ⌜? x = "AEQUA_TSS_KEYSTORE_ENCRYPT" ⌝ then "1"
               else if ⌜? x = "AEQUA_TSS_KEYSTORE_KEY_FILE" ⌝ then "/key" else "" in
  ks_aead (NewKeyStoreFromEnv env (λ _, Some (sample_key ++ [Byte.x0a])) "k") = None.
Proof. vm_compute. reflexivity. Qed.

(** ** The committee configuration *)
Record BeastDKGMember := mkMember { mb_Index : Z; mb_SigPub : bytes; mb_EncPub : bytes }.

Record BeastDKGConfig := mkBeastDKGConfig {
  bc_SessionID : string;
  bc_Epoch : N;
  bc_N : Z;
  bc_Threshold : Z;
  bc_Index : Z;
  bc_KeySharePath : string;
  bc_SessionDir : string;
  bc_SigPriv : bytes;
  bc_EncPriv : bytes;
  bc_Committee : list BeastDKGMember;
}.

Fixpoint validate_members (n : Z) (seen : gset Z) (ms : list BeastDKGMember) : goerr :=
  match ms with
  | [] => nil_err
  | m :: ms' =>
      RETURN Some "invalid committee index" IF ((mb_Index m <=? 0) || (n <? mb_Index m))%Z ;;
      RETURN Some "duplicate committee index" IF ⌜? mb_Index m ∈ seen ⌝ ;;
      RETURN Some "invalid committee sig_pub" IF ⌜? length (mb_SigPub m) ≠ 32 ⌝ ;;
      RETURN Some "invalid committee enc_pub" IF ⌜? length (mb_EncPub m) ≠ 32 ⌝ ;;
      validate_members n ({[mb_Index m]} ∪ seen) ms'
  end.

Definition BeastValidate (c : BeastDKGConfig) : goerr :=
  RETURN Some "missing session_id" IF ⌜? bc_SessionID c = "" ⌝ ;;
  RETURN Some "invalid n" IF (bc_N c <=? 0)%Z ;;
  RETURN Some "invalid threshold" IF ((bc_Threshold c <=? 0) || (bc_N c <? bc_Threshold c))%Z ;;
  RETURN Some "invalid index" IF ((bc_Index c <=? 0) || (bc_N c <? bc_Index c))%Z ;;
  RETURN Some "invalid sig_priv" IF ⌜? length (bc_SigPriv c) ≠ 64 ⌝ ;;
  RETURN Some "invalid enc_priv" IF ⌜? length (bc_EncPriv c) ≠ 32 ⌝ ;;
  RETURN Some "committee size mismatch" IF ⌜? Z.of_nat (length (bc_Committee c)) ≠ bc_N c ⌝ ;;
  validate_members (bc_N c) ∅ (bc_Committee c).

(** [LoadBeastDKGConfig]; [readf] is [os.ReadFile]. *)
Definition LoadBeastDKGConfig {J : Json BeastDKGConfig} (readf : string → option bytes) (path : string)
    : string + BeastDKGConfig :=
  RETURN inl "empty config path" IF ⌜? path = "" ⌝ ;;
  match readf path with
  | None => inl "read error"
  | Some b =>
      match unmarshal b with
      | None => inl "invalid JSON"
      | Some cfg => match BeastValidate cfg with Some e => inl e | None => inr cfg end
      end
  end.

Definition member_ok (m : BeastDKGMember) : Prop := length (mb_SigPub m) = 32 ∧ length (mb_EncPub m) = 32.

Lemma validate_members_iff n seen ms :
  validate_members n seen ms = nil_err ↔
    Forall (λ i, 1 <= i <= n)%Z (mb_Index <$> ms) ∧ NoDup (mb_Index <$> ms) ∧
    (∀ i, i ∈ mb_Index <$> ms → i ∉ seen) ∧ Forall member_ok ms.
Proof.
  revert seen. induction ms as [|m ms IH]; intros seen; simpl.
  { split; [|done]. intros _. split_and!; [constructor|constructor| |constructor].
    intros i H. by apply elem_of_nil in H. }
  unfold member_ok in *. rewrite !Forall_cons, NoDup_cons.
  destruct (Z.leb_spec (mb_Index m) 0) as [Hlo|Hlo]; simpl; [split; [done|lia]|].
  destruct (Z.ltb_spec n (mb_Index m)) as [Hhi|Hhi]; simpl; [split; [done|lia]|].
  case_bool_decide as Hseen.
  { split; [done|]. intros (_ & _ & H & _). destruct (H (mb_Index m)); [by left|done]. }
  case_bool_decide as H1; [split; [done|tauto]|].
  case_bool_decide as H2; [split; [done|tauto]|].
  rewrite IH. split.
  - intros (HF & Hnd & Hs & Hok). split_and!; try tauto; [lia| |].
    + intros Hin. apply (Hs _ Hin), elem_of_union_l, elem_of_singleton. done.
    + intros i [->|Hin]%elem_of_cons; [done|]. intros Hi. apply (Hs _ Hin), elem_of_union_r. done.
  - intros ((_ & HF) & (Hni & Hnd) & Hs & _ & Hok). split_and!; try done.
    intros i Hin [->%elem_of_singleton|Hi]%elem_of_union; [done|].
    apply (Hs i); [by right|done].
Qed.

Lemma seqZ_perm n l :
  Z.of_nat (length l) = n → (Forall (λ i, 1 <= i <= n)%Z l ∧ NoDup l ↔ l ≡ₚ seqZ 1 n).
Proof.
  intros Hn. split.
  - intros [HF Hnd]. apply submseteq_length_Permutation.
    + apply NoDup_submseteq; [done|]. intros i Hi. rewrite Forall_forall in HF.
      apply elem_of_seqZ. specialize (HF i Hi). lia.
    + rewrite length_seqZ. lia.
  - intros Hp. rewrite Hp. split; [|apply NoDup_seqZ].
    apply Forall_forall. intros i Hi%elem_of_seqZ. lia.
Qed.

(** A committee configuration is accepted exactly when it names a session, a
    threshold and an own index within a committee of N members, has keys of the
    right sizes, and its member indices are 1..N, each exactly once. *)
Theorem BeastValidate_iff (c : BeastDKGConfig) :
  BeastValidate c = nil_err ↔
    bc_SessionID c ≠ "" ∧ (1 <= bc_Threshold c <= bc_N c)%Z ∧ (1 <= bc_Index c <= bc_N c)%Z ∧
    length (bc_SigPriv c) = 64 ∧ length (bc_EncPriv c) = 32 ∧
    mb_Index <$> bc_Committee c ≡ₚ seqZ 1 (bc_N c) ∧ Forall member_ok (bc_Committee c).
Proof.
  unfold BeastValidate. case_bool_decide as H0; [split; [done|tauto]|].
  destruct (Z.leb_spec (bc_N c) 0); [split; [done|lia]|].
  destruct (Z.leb_spec (bc_Threshold c) 0); simpl; [split; [done|lia]|].
  destruct (Z.ltb_spec (bc_N c) (bc_Threshold c)); simpl; [split; [done|lia]|].
  destruct (Z.leb_spec (bc_Index c) 0); simpl; [split; [done|lia]|].
  destruct (Z.ltb_spec (bc_N c) (bc_Index c)); simpl; [split; [done|lia]|].
  case_bool_decide as H6; [split; [done|tauto]|].
  case_bool_decide as H7; [split; [done|tauto]|].
  case_bool_decide as H8.
  { split; [done|]. intros (_ & _ & _ & _ & _ & Hp & _). destruct H8.
    apply Permutation_length in Hp. rewrite length_fmap, length_seqZ in Hp. lia. }
  rewrite validate_members_iff.
  rewrite <-(seqZ_perm (bc_N c)) by (by rewrite length_fmap).
  split; [intros (? & ? & _ & ?)|intros (_ & _ & _ & _ & _ & (? & ?) & ?)]; split_and!; try done; lia.
Qed.

(** ** The DKG engine on its session store *)
Section durable_engine.
Context {MI : MapIter} {J : Json sessionState} (path id : string).

(** One message: the engine's [OnMessage], then its [Sess.Save], which ends as
    [o] says; the error of the save is ignored. The output is the saved state
    and what the save returned. *)
Definition durable_step (st : EngineImpl * FS) (x : DkgMessage * Outcome)
    : (EngineImpl * FS) * option (sessionState * goerr) :=
  let '(msg, o) := x in
  let '(e', _, _, eff) := OnMessage st.1 msg in
  match last eff with
  | Some (SaveSession _ s) =>
      let '(fs', err) := writeSess magicSess o path s st.2 in ((e', fs'), Some (s, err))
  | _ => ((e', st.2), None)
  end.

(** A process that starts on the files left behind. *)
Definition reborn (cfg : DkgConfig) (fs : FS) : EngineImpl * goerr :=
  Resume (NewEngine cfg) id (sess_Load magicSess path fs).1.

(** The session of [id] after the first [k] messages. *)
Definition session_after (cfg : DkgConfig) (xs : list (DkgMessage * Outcome)) (k : nat) : option session :=
  en_sess (run durable_step (NewEngine cfg, ∅) (take k xs)).1.1 !! id.

Definition out_storable (o : option (sessionState * goerr)) : Prop :=
  match o with Some (s, _) => sess_storable magicSess s | None => True end.

Lemma durable_step_cases st x :
  dm_SessionID x.1 = id → dc_Sess (en_cfg st.1) = true →
  let r := durable_step st x in
  en_cfg r.1.1 = en_cfg st.1 ∧
  ((r.2 = None ∧ r.1.2 = st.2) ∨
   ∃ s, en_sess r.1.1 !! id = Some s ∧
     r.2 = Some (snapshot s, (writeSess magicSess x.2 path (snapshot s) st.2).2) ∧
     r.1.2 = (writeSess magicSess x.2 path (snapshot s) st.2).1).
Proof.
  destruct st as [e fs], x as [msg o]. cbn [fst snd]. intros <- Hcfg. unfold durable_step, OnMessage.
  cbn [fst snd]. set (s0 := default _ _). destruct (dm_Epoch msg <? epoch s0)%N; cbn [fst snd]; [by auto|].
  destruct (dkg_switch _ _ _) as [[[s' adv] ev] eff]. rewrite Hcfg. rewrite last_snoc.
  destruct (writeSess _ _ _ _ _) as [fs' err] eqn:E. cbn [fst snd en_cfg en_sess]. split; [done|].
  right. exists s'. rewrite lookup_insert_eq, E. done.
Qed.

End durable_engine.

#[export] Instance sessionState_eq_dec : EqDecision sessionState.
Proof. solve_decision. Defined.
#[export] Program Instance sessionState_countable : Countable sessionState :=
  inj_countable' (λ s, (ss_Epoch s, ss_Propose s, ss_Commit s, ss_Reveal s, ss_Ack s, ss_Done s))
    (λ '(e, p, c, r, a, d), mkSessionState e p c r a d) _.
Next Obligation. by intros []. Qed.

Definition sample_run : list (DkgMessage * Outcome) :=
  [(dkg_msg "propose" "a" 0, Completed); (dkg_msg "commit" "a" 0, IOError (mkFault 2 1));
   (dkg_msg "ack" "b" 0, Completed); (dkg_msg "ack" "c" 0, Crashed (mkFault 4 0) (λ _, 0))].

