(* ===== verification/Lifecycle.v ===== *)
(** The glue the services run on: the event bus (src/pkg/bus/event.go), trace
    contexts (src/pkg/trace/trace.go), the lifecycle manager
    (src/pkg/lifecycle/manager.go) and the TSS service it manages
    (src/internal/tss/service.go). *)
From S2P Require Import Prelude Metrics P2p.

(** ** The bus: one buffered channel *)
Section bus.
Context {Ev : Type}.

Record Bus := mkBus { bus_cap : nat; bus_pub : list Ev }.

Definition bus_New (size : Z) : Bus := mkBus (if (size <=? 0)%Z then 128 else Z.to_nat size) [].

(** [Publish]: a full channel drops the event. *)
Definition Publish (b : Bus) (ev : Ev) : Bus :=
  if (length (bus_pub b) <? bus_cap b)%nat then mkBus (bus_cap b) (bus_pub b ++ [ev]) else b.

(** A receive by a subscriber, all of which share the channel. *)
Definition Receive (b : Bus) : Bus * option Ev :=
  match bus_pub b with
  | [] => (b, None)
  | ev :: q => (mkBus (bus_cap b) q, Some ev)
  end.

Inductive BusOp := DoPublish (ev : Ev) | DoReceive.

Definition bus_step (b : Bus) (op : BusOp) : Bus * option Ev :=
  match op with
  | DoPublish ev => (Publish b ev, None)
  | DoReceive => Receive b
  end.

Definition published (ops : list BusOp) : list Ev :=
  omap (λ op, match op with DoPublish ev => Some ev | DoReceive => None end) ops.

Lemma bus_step_queue b op :
  let r := bus_step b op in
  bus_cap r.1 = bus_cap b ∧ (length (bus_pub b) ≤ bus_cap b → length (bus_pub r.1) ≤ bus_cap b) ∧
  ∃ kept, kept `sublist_of` published [op] ∧
    option_list r.2 ++ bus_pub r.1 = bus_pub b ++ kept ∧
    (length (bus_pub b) < bus_cap b → kept = published [op]).
Proof.
  destruct op as [ev|]; cbn [bus_step published omap list_omap].
  - unfold Publish. destruct (Nat.ltb_spec (length (bus_pub b)) (bus_cap b)); simpl.
    + rewrite length_app. simpl. split_and!; [done|lia|]. by exists [ev].
    + split_and!; [done|done|]. exists []. rewrite app_nil_r. split_and!; [apply sublist_nil_l|done|lia].
  - unfold Receive. destruct (bus_pub b) as [|ev q] eqn:E; simpl; rewrite ?E; simpl;
      (split_and!; [done|lia|]); exists []; rewrite ?app_nil_r; split_and!; done.
Qed.

Definition received (outs : list (option Ev)) : list Ev := omap id outs.

(** The bus is a bounded queue that never reorders, duplicates or invents
    an event: at any time what was received, then what is queued, is a subsequence of
    what was published, in order; the queue never exceeds its capacity; and if
    the queue never filled up, nothing was lost. *)
Theorem bus_fifo_bounded (size : Z) (ops : list BusOp) :
  let r := run bus_step (bus_New size) ops in
  (received r.2 ++ bus_pub r.1) `sublist_of` published ops ∧
  length (bus_pub r.1) ≤ bus_cap (bus_New size) ∧
  (length (published ops) ≤ bus_cap (bus_New size) → received r.2 ++ bus_pub r.1 = published ops).
Proof.
  intros r. assert (bus_cap r.1 = bus_cap (bus_New size)) as Hcap.
  { apply (run_invariant bus_step (λ b, bus_cap b = bus_cap (bus_New size))); [done|].
    intros b op Hb. rewrite <-Hb. apply bus_step_queue. }
  subst r. induction ops as [|op ops IH] using rev_ind; [split_and!; simpl; auto; lia|].
  rewrite run_snoc in *. destruct (run bus_step (bus_New size) ops) as [b outs].
  pose proof (bus_step_queue b op) as (Hc & Hl & kept & Hsub & Hq & Hkept).
  destruct (bus_step b op) as [b' o]. cbn [fst snd] in *. rewrite Hcap in Hc.
  destruct (IH (eq_sym Hc)) as (IH1 & IH2 & IH3).
  assert (received (outs ++ [o]) ++ bus_pub b' = (received outs ++ bus_pub b) ++ kept) as ->.
  { unfold received. rewrite omap_app, <-!app_assoc. f_equal. rewrite <-Hq. by destruct o. }
  unfold published in *. rewrite omap_app. split_and!.
  - by apply sublist_app.
  - rewrite Hc. apply Hl. by rewrite <-Hc.
  - intros Hlen. destruct op as [ev|]; simpl in *.
    + rewrite length_app in Hlen. simpl in Hlen. rewrite IH3 by lia. f_equal. apply Hkept.
      assert (length (received outs ++ bus_pub b) ≤ length (omap (M := list)
        (λ op, match op with DoPublish ev => Some ev | DoReceive => None end) ops)) as H
        by (by apply sublist_length).
      rewrite length_app in H. rewrite <-Hc. lia.
    + apply sublist_nil_r in Hsub as ->. rewrite IH3; [done|]. by rewrite app_nil_r in Hlen.
Qed.
End bus.
Arguments Bus : clear implicits.
Arguments BusOp : clear implicits.

(** ** Trace contexts: the value of the trace key *)
Definition WithTraceID (ctx : option string) (id : string) : option string :=
  if ⌜? id = "" ⌝ then ctx else Some id.

Definition FromContext (ctx : option string) : string * bool :=
  match ctx with
  | Some s => if ⌜? s ≠ "" ⌝ then (s, true) else ("", false)
  | None => ("", false)
  end.

(** ** The lifecycle manager *)
Record ServiceI (W : Type) := mkServiceI {
  si_Name : string;
  si_Start : W → W * goerr;
  si_Stop : W → W * goerr;
}.
Arguments mkServiceI {_}.
Arguments si_Start {_}.
Arguments si_Stop {_}.

Section manager.
Context {W : Type}.

(** The stop loop over the given services, in the order given; the errors that
    [errors.Join] collects. *)
Fixpoint stop_each (svcs : list (ServiceI W)) (w : W) : W * list string :=
  match svcs with
  | [] => (w, [])
  | s :: svcs' =>
      let '(w1, e) := si_Stop s w in
      let '(w2, es) := stop_each svcs' w1 in (w2, option_list e ++ es)
  end.

Fixpoint start_loop (started svcs : list (ServiceI W)) (w : W) : W * list string :=
  match svcs with
  | [] => (w, [])
  | s :: svcs' =>
      let '(w1, e) := si_Start s w in
      match e with
      | Some err => let '(w2, es) := stop_each (reverse started) w1 in (w2, err :: es)
      | None => start_loop (started ++ [s]) svcs' w1
      end
  end.

Definition StartAll (svcs : list (ServiceI W)) (w : W) : W * list string := start_loop [] svcs w.
Definition StopAll (svcs : list (ServiceI W)) (w : W) : W * list string := stop_each (reverse svcs) w.
End manager.

(** Services that record their calls: number [i] starts and stops with the
    results given. *)
Inductive CallEv := Started (i : nat) | Stopped (i : nat).

Section recorded.
Context (start_res stop_res : nat → goerr).

Definition recorded (i : nat) : ServiceI (list CallEv) :=
  mkServiceI "" (λ w, (w ++ [Started i], start_res i)) (λ w, (w ++ [Stopped i], stop_res i)).

Lemma stop_each_recorded ids w :
  stop_each (recorded <$> ids) w = (w ++ (Stopped <$> ids), omap stop_res ids).
Proof.
  revert w. induction ids as [|i ids IH]; intros w; simpl; [by rewrite app_nil_r|].
  rewrite IH, <-app_assoc. by destruct (stop_res i).
Qed.

Lemma start_loop_recorded pre ids w :
  start_loop (recorded <$> pre) (recorded <$> ids) w =
    match list_find (λ i, start_res i ≠ nil_err) ids with
    | None => (w ++ (Started <$> ids), [])
    | Some (k, i) =>
        let up := pre ++ take k ids in
        (w ++ (Started <$> take (S k) ids) ++ (Stopped <$> reverse up),
         option_list (start_res i) ++ omap stop_res (reverse up))
    end.
Proof.
  revert pre w. induction ids as [|i ids IH]; intros pre w; [simpl; by rewrite app_nil_r|].
  cbn [list_find fmap list_fmap start_loop recorded si_Start].
  destruct (start_res i) as [e|] eqn:E.
  - rewrite decide_True by done. rewrite <-fmap_reverse, stop_each_recorded. cbn [take].
    rewrite app_nil_r, E, <-app_assoc. done.
  - rewrite decide_False by (by intros []).
    change ((recorded <$> pre) ++ [recorded i]) with ((recorded <$> pre) ++ (recorded <$> [i])).
    rewrite <-fmap_app, IH. destruct (list_find _ ids) as [[k j]|]; cbn [fmap option_fmap option_map prod_map fst snd].
    + cbn [take fmap list_fmap]. rewrite <-!app_assoc. done.
    + by rewrite <-app_assoc.
Qed.
End recorded.

(** StartAll starts the services in order. If all start, that is all it does
    and it returns no error. At the first service that fails, nothing later is
    started, exactly the services already started are stopped, in reverse
    order, and the start error comes first, then every stop error. *)
Theorem StartAll_rolls_back (start_res stop_res : nat → goerr) (n : nat) :
  StartAll (recorded start_res stop_res <$> seq 0 n) [] =
    match list_find (λ i, start_res i ≠ nil_err) (seq 0 n) with
    | None => (Started <$> seq 0 n, [])
    | Some (k, i) =>
        ((Started <$> seq 0 (S k)) ++ (Stopped <$> reverse (seq 0 k)),
         option_list (start_res i) ++ omap stop_res (reverse (seq 0 k)))
    end.
Proof.
  unfold StartAll.
  etransitivity; [exact (start_loop_recorded start_res stop_res [] (seq 0 n) [])|].
  destruct (list_find _ (seq 0 n)) as [[k i]|] eqn:E; [|done].
  apply list_find_Some in E as (Hk & _). apply lookup_seq in Hk as [_ Hk].
  cbn [app]. by rewrite !take_seq, !Nat.min_l by lia.
Qed.

(** ** The TSS service *)
Record TssService := mkTssService { ts_p2p : option P2p.Service; ts_opened : bool }.

Definition tss_New (p : option P2p.Service) : TssService := mkTssService p false.

Definition tss_op (op : string) (ms : N) : MEvent :=
  Observe "service_op_ms" [("service", "tss"); ("op", op)] (float64_of ms).

Definition tss_Start (ms : N) (s : TssService) : TssService * goerr * list MEvent :=
  match ts_p2p s with
  | Some p =>
      let '(p', ok, ev) := TryOpenTSS p in
      (mkTssService (Some p') (ok || ts_opened s), nil_err, ev ++ [tss_op "start" ms])
  | None => (s, nil_err, [tss_op "start" ms])
  end.

Definition tss_Stop (ms : N) (s : TssService) : TssService * goerr * list MEvent :=
  match ts_p2p s with
  | Some p =>
      if ts_opened s then
        let '(p', ev) := CloseTSS p in (mkTssService (Some p') true, nil_err, ev ++ [tss_op "stop" ms])
      else (s, nil_err, [tss_op "stop" ms])
  | None => (s, nil_err, [tss_op "stop" ms])
  end.

(** [Stop] does not clear the opened flag: a second stop releases a slot that
    belongs to another session. *)
Example second_stop_frees_foreign_slot :
  let p := mkService ∅ AllowAllGate (NewResourceManager 128) NopHook None DefaultConfig
    (Some (mkTSSLimiter 4 2)) in                        (* two sessions of others *)
  let '(s1, _, _) := tss_Start 0 (tss_New (Some p)) in
  let '(s2, _, _) := tss_Stop 0 s1 in
  let '(s3, _, _) := tss_Stop 0 s2 in
  let opened s := option_bind _ _ (λ p, tl_open <$> P2p.tss p) (ts_p2p s) in
  (opened s1, opened s2, opened s3) = (Some 3%Z, Some 2%Z, Some 1%Z).
Proof. vm_compute. reflexivity. Qed.
