(* ===== verification/Beast.v ===== *)
(** The BEAST primitives (src/internal/beast): identity-based encryption
    (ibe/ibe_blst.go), the puncturable PRF (pprf/pprf_blst.go) and batched
    threshold encryption (bte/bte_blst.go, bte/batch_blst.go), over the blst
    operations. Randomness is an argument. *)
From Stdlib Require Import String List ZArith NArith Bool.
From S2P Require Import CryptoOps.
Import ListNotations.
Local Open Scope res_scope.
Local Open Scope string_scope.
Local Open Scope list_scope.

Section beast.
Context {B : Blst} {G : AESGCM} (sha256 : bytes -> bytes).

(** ** ibe *)
Definition hashDST : bytes := list_byte_of_string "EQS/BEAST/v1/IBE".

Definition IdentityForHeight (height : N) : bytes := hashDST ++ [Byte.x00] ++ be_bytes 8 height.

Definition ErrInvalidPoint : string := "invalid point".
Definition ErrInvalidShare : string := "invalid share".

Record Share := mkShare { sh_Index : Z; sh_Value : bytes }.

Definition DeriveShare (shareScalar id : bytes) : res bytes :=
  FAIL ErrInvalidShare WHEN (length shareScalar =? 0)%nat ELSE
  LET sk <- must ErrInvalidShare (sk_Deserialize shareScalar) IN
  inr (p2_compress (p2_mult (HashToG2 id hashDST) sk)).

Definition combine_step (indices : list Z) (acc : P2) (s : Share) : res P2 :=
  LET coeff <- lagrangeAtZero ErrInvalidShare (sh_Index s) indices IN
  LET p <- must ErrInvalidPoint (p2_uncompress (sh_Value s)) IN
  inr (p2_add acc (p2_mult p coeff)).

Definition CombineShares (shares : list Share) (k : Z) : res bytes :=
  FAIL ErrInvalidShare WHEN (k <=? 0)%Z ELSE
  FAIL ErrInvalidShare WHEN (Z.of_nat (length shares) <? k)%Z ELSE
  let shares := firstn (Z.to_nat k) (sort_by_index sh_Index shares) in
  FAIL ErrInvalidShare
    WHEN negb (check_indices sh_Index (fun s => negb (length (sh_Value s) =? 0)%nat) [] shares) ELSE
  LET acc <- fold_res (combine_step (map sh_Index shares)) shares p2_zero IN
  inr (p2_compress acc).

(** [Encrypt]; [ikm] and [nonce] are what [rand.Reader] gave. *)
Definition ibe_Encrypt (groupPubKey id msg ikm nonce : bytes) : res (bytes * bytes) :=
  LET pk <- must ErrInvalidPoint (p1_uncompress groupPubKey) IN
  LET r <- must "bad randomness" (sk_KeyGen ikm) IN
  let uBytes := p1_compress (p1_mult p1_gen r) in
  let h := HashToG2 id hashDST in
  let gt := pairing [(h, p1_mult pk r)] in
  let key := sha256 (gt_bytes gt) in
  inr (uBytes, nonce ++ Seal key nonce msg).

Definition ibe_Decrypt (privKey ephemeralKey ciphertext : bytes) : res bytes :=
  LET sk <- must ErrInvalidPoint (p2_uncompress privKey) IN
  LET u <- must ErrInvalidPoint (p1_uncompress ephemeralKey) IN
  let key := sha256 (gt_bytes (pairing [(sk, u)])) in
  FAIL "ciphertext too short" WHEN (length ciphertext <? 12)%nat ELSE
  must "cipher: message authentication failed" (Open key (firstn 12 ciphertext) (skipn 12 ciphertext)).

(** ** pprf *)
Definition ErrInvalidParams : string := "pprf: invalid params".
Definition ErrInvalidKey : string := "pprf: invalid key".
Definition ErrPunctured : string := "pprf: punctured index".

(** Index 0 and N+1 of the power tables are nil. *)
Record LinearParams := mkLinearParams { lp_N : Z; G1Pows : list bytes; G2Pows : list bytes }.

Definition pow_at (pows : list bytes) (i : Z) : bytes := nth (Z.to_nat i) pows [].

Definition lp_valid (p : LinearParams) : bool :=
  let want := (2 * lp_N p + 2)%Z in
  (0 <? lp_N p)%Z && (Z.of_nat (length (G1Pows p)) =? want)%Z && (Z.of_nat (length (G2Pows p)) =? want)%Z &&
  forallb (fun i => let i := Z.of_nat i in
      (i =? lp_N p + 1)%Z || ((length (pow_at (G1Pows p) i) =? 48)%nat && (length (pow_at (G2Pows p) i) =? 96)%nat))
    (seq 1 (Z.to_nat (want - 1))).

(** The loop of [buildLinearParams] for i = [i], ..., with the power reached. *)
Fixpoint build_pows (n : Z) (x pow : Scalar) (i : Z) (steps : nat) : res (list (bytes * bytes)) :=
  match steps with
  | O => inr []
  | S steps' =>
      LET pow <- (if (1 <? i)%Z then checked ErrInvalidParams (sk_mul pow x) else inr pow) IN
      let row := if (i =? n + 1)%Z then ([], [])
                 else (p1_compress (p1_mult p1_gen pow), p2_compress (p2_mult p2_gen pow)) in
      LET rows <- build_pows n x pow (i + 1) steps' IN
      inr (row :: rows)
  end.

Definition buildLinearParams (n : Z) (x : Scalar) : res LinearParams :=
  FAIL ErrInvalidParams WHEN (n <=? 0)%Z ELSE
  LET rows <- build_pows n x x 1 (Z.to_nat (2 * n + 1)) IN
  let pp := mkLinearParams n ([] :: map fst rows) ([] :: map snd rows) in
  FAIL ErrInvalidParams WHEN negb (lp_valid pp) ELSE
  inr pp.

(** [randScalar], given what [rand.Reader] gave. *)
Definition pprf_randScalar (ikm : bytes) : res Scalar := must ErrInvalidKey (sk_KeyGen ikm).

Definition SetupLinear (n : Z) (ikm : bytes) : res LinearParams :=
  FAIL ErrInvalidParams WHEN (n <=? 0)%Z ELSE
  LET x <- pprf_randScalar ikm IN
  buildLinearParams n x.

Definition SetupLinearDeterministic (n : Z) (seed : bytes) : res LinearParams :=
  FAIL ErrInvalidParams WHEN (n <=? 0)%Z ELSE
  FAIL ErrInvalidParams WHEN (length seed =? 0)%nat ELSE
  LET s <- must ErrInvalidKey (sk_KeyGen (sha256 seed)) IN
  buildLinearParams n s.

Definition pprf_KeyGen (ikm : bytes) : res bytes :=
  LET k <- pprf_randScalar ikm IN inr (sk_Serialize k).

Definition key_scalar (b : bytes) : res Scalar :=
  FAIL ErrInvalidKey WHEN negb (length b =? 32)%nat ELSE
  must ErrInvalidKey (sk_Deserialize b).

Definition AddKeys (keys : list bytes) : res bytes :=
  match keys with
  | [] => inl ErrInvalidKey
  | k0 :: keys' =>
      LET s0 <- key_scalar k0 IN
      LET acc <- fold_res (fun acc b => LET s <- key_scalar b IN checked ErrInvalidKey (sk_add acc s)) keys' s0 IN
      inr (sk_Serialize acc)
  end.

Definition Eval (pp : LinearParams) (key : bytes) (i : Z) : res bytes :=
  FAIL ErrInvalidParams WHEN negb (lp_valid pp) ELSE
  FAIL ErrInvalidParams WHEN ((i <=? 0) || (lp_N pp <? i))%Z ELSE
  LET k <- key_scalar key IN
  LET base <- must ErrInvalidParams (p1_uncompress (pow_at (G1Pows pp) (lp_N pp + 1 + i))) IN
  inr (gt_bytes (pairing [(p2_gen, p1_mult base k)])).

Definition EvalFromGK (pp : LinearParams) (gk : bytes) (i : Z) : res bytes :=
  FAIL ErrInvalidParams WHEN negb (lp_valid pp) ELSE
  FAIL ErrInvalidParams WHEN ((i <=? 0) || (lp_N pp <? i))%Z ELSE
  FAIL ErrInvalidKey WHEN negb (length gk =? 48)%nat ELSE
  LET p <- must ErrInvalidKey (p1_uncompress gk) IN
  LET q <- must ErrInvalidParams (p2_uncompress (pow_at (G2Pows pp) (lp_N pp + 1 + i))) IN
  inr (gt_bytes (pairing [(q, p)])).

Definition Puncture (pp : LinearParams) (key : bytes) (iStar : Z) : res bytes :=
  FAIL ErrInvalidParams WHEN negb (lp_valid pp) ELSE
  FAIL ErrInvalidParams WHEN ((iStar <=? 0) || (lp_N pp <? iStar))%Z ELSE
  LET k <- key_scalar key IN
  LET base <- must ErrInvalidParams (p1_uncompress (pow_at (G1Pows pp) iStar)) IN
  inr (p1_compress (p1_mult base k)).

Definition PuncturedEval (pp : LinearParams) (puncturedKey : bytes) (iStar i : Z) : res bytes :=
  FAIL ErrInvalidParams WHEN negb (lp_valid pp) ELSE
  FAIL ErrInvalidParams WHEN ((iStar <=? 0) || (lp_N pp <? iStar) || (i <=? 0) || (lp_N pp <? i))%Z ELSE
  FAIL ErrPunctured WHEN (i =? iStar)%Z ELSE
  FAIL ErrInvalidKey WHEN negb (length puncturedKey =? 48)%nat ELSE
  LET k <- must ErrInvalidKey (p1_uncompress puncturedKey) IN
  let exp := (lp_N pp + 1 + i - iStar)%Z in
  FAIL ErrInvalidParams WHEN ((exp <=? 0) || (Z.of_nat (length (G2Pows pp)) <=? exp))%Z ELSE
  LET q <- must ErrInvalidParams (p2_uncompress (pow_at (G2Pows pp) exp)) IN
  inr (gt_bytes (pairing [(q, k)])).

(** ** bte *)
Definition ErrInvalid : string := "bte: invalid input".
Definition ErrMissing : string := "bte: missing batch inputs".

Record KeyCiphertext := mkKeyCiphertext { C1 : bytes; C2 : bytes }.
Record PartialDecryptShare := mkPartial { pd_Index : Z; pd_Share : bytes }.

Definition bte_randScalar (ikm : bytes) : res Scalar := must ErrInvalid (sk_KeyGen ikm).

Definition bte_lagrangeAtZeroScalar (i : Z) (indices : list Z) : res Scalar :=
  lagrangeAtZero ErrInvalid i indices.

Definition EncryptKey (pk keyScalar ikm : bytes) : res KeyCiphertext :=
  FAIL ErrInvalid WHEN negb ((length pk =? 48)%nat && (length keyScalar =? 32)%nat) ELSE
  LET pkP1 <- must ErrInvalid (p1_uncompress pk) IN
  LET k <- must ErrInvalid (sk_Deserialize keyScalar) IN
  LET r <- bte_randScalar ikm IN
  let m := p1_mult p1_gen k in
  let c1 := p1_mult p1_gen r in
  let pkR := p1_mult pkP1 r in
  inr (mkKeyCiphertext (p1_compress c1) (p1_compress (p1_add pkR m))).

Definition add_step (acc : P1 * P1) (ct : KeyCiphertext) : res (P1 * P1) :=
  FAIL ErrInvalid WHEN negb ((length (C1 ct) =? 48)%nat && (length (C2 ct) =? 48)%nat) ELSE
  LET c1 <- must ErrInvalid (p1_uncompress (C1 ct)) IN
  LET c2 <- must ErrInvalid (p1_uncompress (C2 ct)) IN
  inr (p1_add (fst acc) c1, p1_add (snd acc) c2).

Definition AddCiphertexts (cts : list KeyCiphertext) : res KeyCiphertext :=
  FAIL ErrInvalid WHEN (length cts =? 0)%nat ELSE
  LET acc <- fold_res add_step cts (p1_zero, p1_zero) IN
  inr (mkKeyCiphertext (p1_compress (fst acc)) (p1_compress (snd acc))).

Definition PartialDecrypt (ct : KeyCiphertext) (shareScalar : bytes) (index : Z) : res PartialDecryptShare :=
  FAIL ErrInvalid WHEN (index <=? 0)%Z ELSE
  FAIL ErrInvalid WHEN negb (length (C1 ct) =? 48)%nat ELSE
  FAIL ErrInvalid WHEN negb (length shareScalar =? 32)%nat ELSE
  LET s <- must ErrInvalid (sk_Deserialize shareScalar) IN
  LET c1 <- must ErrInvalid (p1_uncompress (C1 ct)) IN
  inr (mkPartial index (p1_compress (p1_mult c1 s))).

Definition decrypt_step (indices : list Z) (acc : P1) (s : PartialDecryptShare) : res P1 :=
  LET coeff <- bte_lagrangeAtZeroScalar (pd_Index s) indices IN
  LET p <- must ErrInvalid (p1_uncompress (pd_Share s)) IN
  inr (p1_add acc (p1_mult p coeff)).

Definition DecryptKeyG (ct : KeyCiphertext) (shares : list PartialDecryptShare) (threshold : Z) : res bytes :=
  FAIL ErrInvalid WHEN ((threshold <=? 0) || (Z.of_nat (length shares) <? threshold))%Z ELSE
  FAIL ErrInvalid WHEN negb (length (C2 ct) =? 48)%nat ELSE
  let shares := firstn (Z.to_nat threshold) (sort_by_index pd_Index shares) in
  FAIL ErrInvalid WHEN negb (check_indices pd_Index (fun s => (length (pd_Share s) =? 48)%nat) [] shares) ELSE
  LET acc <- fold_res (decrypt_step (map pd_Index shares)) shares p1_zero IN
  LET c2 <- must ErrInvalid (p1_uncompress (C2 ct)) IN
  inr (p1_compress (p1_sub c2 acc)).

(** *** Batches *)

(** An index expression that may panic. *)
Inductive panicking (A : Type) := Panics | Returns (r : res A).
Arguments Panics {A}.
Arguments Returns {A}.

Definition negP1Affine (a : P1) : P1 := p1_sub p1_zero a.

(** One punctured key of the batch; [pp.G2Pows[exp]] panics out of range. *)
Definition punctured_factor (pp : LinearParams) (i : Z) (jk : Z * bytes) : panicking (P2 * P1) :=
  let '(j, kStar) := jk in
  if negb (length kStar =? 48)%nat then Returns (inl ErrInvalid) else
  let exp := (lp_N pp + 1 + i - j)%Z in
  if ((exp <? 0) || (Z.of_nat (length (G2Pows pp)) <=? exp))%Z then Panics else
  Returns (
    LET q <- must ErrInvalid (p2_uncompress (pow_at (G2Pows pp) exp)) IN
    LET p <- must ErrInvalid (p1_uncompress kStar) IN
    inr (q, negP1Affine p)).

Fixpoint punctured_factors (pp : LinearParams) (i : Z) (ks : list (Z * bytes)) : panicking (list (P2 * P1)) :=
  match ks with
  | [] => Returns (inr [])
  | jk :: ks' =>
      match punctured_factor pp i jk with
      | Panics => Panics
      | Returns (inl e) => Returns (inl e)
      | Returns (inr f) =>
          match punctured_factors pp i ks' with
          | Returns (inr fs) => Returns (inr (f :: fs))
          | r => r
          end
      end
  end.

(** [RecoverPRFAt]; the map of punctured keys is the list of its entries. *)
Definition RecoverPRFAt (pp : LinearParams) (gk : bytes) (i : Z) (puncturedKeys : list (Z * bytes))
    : panicking bytes :=
  if negb (lp_valid pp) then Returns (inl ErrInvalidParams) else
  if ((i <=? 0) || (lp_N pp <? i))%Z then Returns (inl ErrInvalid) else
  if negb (length gk =? 48)%nat then Returns (inl ErrInvalid) else
  if (length puncturedKeys =? 0)%nat then Returns (inl ErrMissing) else
  match p1_uncompress gk, p2_uncompress (pow_at (G2Pows pp) (lp_N pp + 1 + i)) with
  | Some gkP, Some q0 =>
      let other := sort_by_index fst (filter (fun jk => negb (fst jk =? i)%Z) puncturedKeys) in
      match punctured_factors pp i other with
      | Panics => Panics
      | Returns (inl e) => Returns (inl e)
      | Returns (inr fs) => Returns (inr (gt_bytes (pairing ((q0, gkP) :: fs))))
      end
  | _, _ => Returns (inl ErrInvalid)
  end.

Definition RecoverXOR (beta prfGT : bytes) : bytes :=
  match beta with
  | [] => []
  | _ =>
      let sum := sha256 prfGT in
      map (fun '(i, b) => xor_byte b (nth (Nat.modulo i (length sum)) sum Byte.x00))
        (combine (seq 0 (length beta)) beta)
  end.
(** What threshold identity-based encryption promises to its users: the shares
    that the holders of [share i] derive, for valid [i], combine to one key of
    the identity, which opens what is encrypted to the group key. *)
Class ThresholdIBE (gpk : bytes) (k : Z) (valid : Z -> Prop) (share : Z -> bytes) (hkey : bytes -> bytes) : Prop := {
  ti_threshold : (0 < k)%Z;
  ti_derive i id : valid i -> exists v, DeriveShare (share i) id = inr v /\ v <> [];
  ti_combine id shares :
    (k <= Z.of_nat (length shares))%Z -> NoDup (map sh_Index shares) ->
    (forall s, In s shares -> valid (sh_Index s) /\ DeriveShare (share (sh_Index s)) id = inr (sh_Value s)) ->
    CombineShares shares k = inr (hkey id);
  ti_key id : hkey id <> [];
  ti_open id msg ikm nonce u ct :
    ibe_Encrypt gpk id msg ikm nonce = inr (u, ct) -> length nonce = 12 ->
    u <> [] /\ ct <> [] /\ ibe_Decrypt (hkey id) u ct = inr msg;
}.

(** Fewer holders, with the same shares. *)
Lemma ThresholdIBE_sub gpk k (valid valid' : Z -> Prop) (share share' : Z -> bytes) hkey :
  (forall i, valid' i -> valid i /\ share' i = share i) ->
  ThresholdIBE gpk k valid share hkey -> ThresholdIBE gpk k valid' share' hkey.
Proof.
  intros H [H1 H2 H3 H4 H5]. split; [exact H1| | |exact H4|exact H5].
  - intros i id Hi. destruct (H i Hi) as [Hv ->]. now apply H2.
  - intros id shares Hk Hnd Hs. apply H3; [exact Hk|exact Hnd|].
    intros s Hin. destruct (Hs s Hin) as [Hv' Hd]. destruct (H _ Hv') as [Hv E]. rewrite <-E. now split.
Qed.
End beast.

Arguments ti_threshold {B G sha256 gpk k valid share hkey _}.
Arguments ti_derive {B G sha256 gpk k valid share hkey _} i id _.
Arguments ti_combine {B G sha256 gpk k valid share hkey _} id shares _ _ _.
Arguments ti_key {B G sha256 gpk k valid share hkey _} id.
Arguments ti_open {B G sha256 gpk k valid share hkey _} id msg ikm nonce u ct _ _.
Arguments Panics {A}.
Arguments Returns {A}.

(** The primitives together, on the toy groups: three shares of s(x) = 17 + 5x,
    two of which decrypt. *)
Section sanity.
Let B := toy_blst.
Let G := toy_gcm.
Let sha (b : bytes) : bytes := be_bytes 32 (be_value b).
Let share (i : N) : bytes := be_bytes 32 ((17 + 5 * i) mod toy_r).
Let gpk : bytes := be_bytes 48 17.
Let msg : bytes := list_byte_of_string "hello".

Example ibe_threshold_round_trip :
  (let id := IdentityForHeight 7 in
   LET ct <- ibe_Encrypt (B := B) (G := G) sha gpk id msg (repeat Byte.x11 32) (repeat Byte.x00 12) IN
   LET s3 <- DeriveShare (B := B) (share 3) id IN
   LET s1 <- DeriveShare (B := B) (share 1) id IN
   LET sk <- CombineShares (B := B) [mkShare 3 s3; mkShare 1 s1] 2 IN
   ibe_Decrypt (B := B) (G := G) sha sk (fst ct) (snd ct)) = inr msg.
Proof. vm_compute. reflexivity. Qed.

Example bte_threshold_round_trip :
  (LET ct <- EncryptKey (B := B) gpk (be_bytes 32 99) (repeat Byte.x22 32) IN
   LET d1 <- PartialDecrypt (B := B) ct (share 1) 1 IN
   LET d2 <- PartialDecrypt (B := B) ct (share 2) 2 IN
   DecryptKeyG (B := B) ct [d2; d1] 2) = inr (be_bytes 48 99).
Proof. vm_compute. reflexivity. Qed.

(** An index of a punctured key beyond the domain reaches past the table. *)
Example RecoverPRFAt_panics :
  match SetupLinearDeterministic (B := B) sha 2 [Byte.x01] with
  | inr pp => RecoverPRFAt (B := B) pp (be_bytes 48 5) 1 [(1%Z, be_bytes 48 3); (9%Z, be_bytes 48 3)] = Panics
  | inl _ => False
  end.
Proof. vm_compute. reflexivity. Qed.
End sanity.
