(* ===== verification/Private.v ===== *)
(** Private transactions at run time (src/internal/payload/private_v1 and
    src/internal/beast): the symmetric engine, the envelope inside a ciphertext,
    the configuration, the table of decryption shares, and the decrypters that
    the builder calls, as instances of PrivateDecrypter. *)
From S2P Require Import CryptoOps Beast.
From S2P Require Import Prelude Metrics Codec Sha256 NoncePool Payload Dfba Builder.

(** ** The engine of internal/beast *)
Section engine.
Context {G : AESGCM}.

(** [noopEngine] and [symmetricEngine], which holds its key. *)
Inductive Engine := noopEngine | symmetricEngine (key : bytes).

Definition ErrNotEnabled : string := "beast not enabled".

Definition NewSymmetricEngine (key : bytes) : Engine :=
  RETURN noopEngine IF ⌜? key = [] ⌝ ;; symmetricEngine (sha256 key).

(** [nonce] is what [rand.Reader] gave. *)
Definition engine_Encrypt (e : Engine) (nonce msg : bytes) : string + bytes :=
  match e with
  | noopEngine => inl ErrNotEnabled
  | symmetricEngine key => inr (nonce ++ Seal key nonce msg)
  end.

Definition engine_Decrypt (e : Engine) (ciphertext : bytes) : string + bytes :=
  match e with
  | noopEngine => inl ErrNotEnabled
  | symmetricEngine key =>
      RETURN inl "ciphertext too short" IF (length ciphertext <? 12)%nat ;;
      match Open key (take 12 ciphertext) (drop 12 ciphertext) with
      | Some pt => inr pt
      | None => inl "cipher: message authentication failed"
      end
  end.

(** [beast.PartialDecrypt], under the current engine. *)
Definition engine_PartialDecrypt (e : Engine) (cipher : bytes) : string + bytes := engine_Decrypt e cipher.

(** The loop of [AggregateDecrypt]; [base] is nil until a share is not empty. *)
Fixpoint aggregate_loop (base : option bytes) (parts : list bytes) : string + option bytes :=
  match parts with
  | [] => inr base
  | p :: parts' =>
      RETURN aggregate_loop base parts' IF ⌜? p = [] ⌝ ;;
      match base with
      | None => aggregate_loop (Some p) parts'
      | Some b =>
          RETURN inl "inconsistent partial decrypt shares" IF ⌜? b ≠ p ⌝ ;;
          aggregate_loop base parts'
      end
  end.

Definition AggregateDecrypt (parts : list bytes) : string + bytes :=
  RETURN inl ErrNotEnabled IF ⌜? parts = [] ⌝ ;;
  match aggregate_loop None parts with
  | inl e => inl e
  | inr None => inl ErrNotEnabled
  | inr (Some b) => inr b
  end.
End engine.

(** ** The envelope inside a ciphertext (decode.go, json_decrypter.go) *)
Record jsonEnvelope := mkEnvelope {
  env_Type : string;
  env_From : string;
  env_Nonce : N;
  env_Gas : N;
  env_Fee : N;
  env_Bid : N;
  env_FeeRecipient : string;
}.

Definition decodeEnvelopeBytes {J : Json jsonEnvelope} (b : bytes) : option Payload :=
  match unmarshal b with
  | None => None
  | Some env =>
      if ⌜? env_Type env = "" ⌝ || ⌜? env_Type env = "plaintext_v1" ⌝ then
        Some (Plaintext (mkPlaintextTx (env_From env) (env_Nonce env) (env_Gas env) (env_Fee env) []))
      else if ⌜? env_Type env = "auction_bid_v1" ⌝ then
        Some (Auction (mkAuctionBidTx (env_From env) (env_Nonce env) (env_Gas env) (env_Bid env)
          (env_FeeRecipient env) []))
      else None
  end.

(** ** Configuration (config.go) *)
Record Config := mkConfig {
  cf_Mode : string;
  cf_GroupPubKey : bytes;
  cf_Committee : list bytes;
  cf_Threshold : Z;
  cf_Index : Z;
  cf_Share : bytes;
  cf_BatchN : Z;
}.

Definition set_mode (c : Config) (m : string) : Config :=
  mkConfig m (cf_GroupPubKey c) (cf_Committee c) (cf_Threshold c) (cf_Index c) (cf_Share c) (cf_BatchN c).

(** [readf] is [os.ReadFile]. *)
Definition LoadConfig {J : Json Config} (readf : string → option bytes) (path : string) : string + Config :=
  RETURN inl "empty config path" IF ⌜? path = "" ⌝ ;;
  match readf path with
  | None => inl "read error"
  | Some b =>
      match unmarshal b with
      | None => inl "invalid JSON"
      | Some cfg =>
          RETURN inl "missing group pubkey" IF ⌜? cf_GroupPubKey cfg = [] ⌝ ;;
          RETURN inl "invalid group pubkey length" IF ⌜? length (cf_GroupPubKey cfg) ≠ 48 ⌝ ;;
          let hasThreshFields :=
            (0 <? cf_Threshold cfg)%Z || (0 <? cf_Index cfg)%Z || (0 <? length (cf_Share cfg))%nat in
          let cfg := if ⌜? cf_Mode cfg = "" ⌝ && hasThreshFields then set_mode cfg "threshold" else cfg in
          if ⌜? cf_Mode cfg = "threshold" ⌝ then
            RETURN inl "missing threshold config"
              IF (cf_Threshold cfg <=? 0)%Z || (cf_Index cfg <=? 0)%Z || ⌜? cf_Share cfg = [] ⌝ ;;
            RETURN inl "invalid share length" IF ⌜? length (cf_Share cfg) ≠ 32 ⌝ ;;
            inr cfg
          else if ⌜? cf_Mode cfg = "batched" ⌝ then
            RETURN inl "invalid batch_n for batched mode" IF (cf_BatchN cfg <=? 0)%Z ;;
            RETURN inl "missing batched decrypt share"
              IF (cf_Index cfg <=? 0)%Z || ⌜? length (cf_Share cfg) ≠ 32 ⌝ ;;
            inr cfg
          else inr cfg
      end
  end.

(** ** The share tables (threshold_state.go)

    The package variables, the engine of internal/beast, and the shares the
    publisher was given, latest first. [threshPub] tells whether one is set. *)
Record Thresh := mkThresh {
  threshEnabled : bool;
  threshIndex : Z;
  threshK : Z;
  threshShare : bytes;
  threshPub : bool;
  sharesByHeight : gmap N (gmap Z bytes);
  sentHeights : gset N;
  privKeyByHeight : gmap N bytes;
  batchSharesByHeight : gmap N (gmap N (gmap Z bytes));
  engine : Engine;
  published : list (N * Z * bytes);
}.

Definition Thresh_init : Thresh := mkThresh false 0 0 [] false ∅ ∅ ∅ ∅ noopEngine [].

Definition enableThreshold (t : Thresh) (index k : Z) (share : bytes) : Thresh :=
  mkThresh true index k share (threshPub t) (sharesByHeight t) (sentHeights t) (privKeyByHeight t)
    (batchSharesByHeight t) (engine t) (published t).

Definition SetThresholdSharePublisher (t : Thresh) (pub : bool) : Thresh :=
  mkThresh (threshEnabled t) (threshIndex t) (threshK t) (threshShare t) pub (sharesByHeight t) (sentHeights t)
    (privKeyByHeight t) (batchSharesByHeight t) (engine t) (published t).

Definition SetEngine (t : Thresh) (e : Engine) : Thresh :=
  mkThresh (threshEnabled t) (threshIndex t) (threshK t) (threshShare t) (threshPub t) (sharesByHeight t)
    (sentHeights t) (privKeyByHeight t) (batchSharesByHeight t) e (published t).

Definition set_shares (t : Thresh) (m : gmap N (gmap Z bytes)) : Thresh :=
  mkThresh (threshEnabled t) (threshIndex t) (threshK t) (threshShare t) (threshPub t) m (sentHeights t)
    (privKeyByHeight t) (batchSharesByHeight t) (engine t) (published t).

Definition set_batch_shares (t : Thresh) (m : gmap N (gmap N (gmap Z bytes))) : Thresh :=
  mkThresh (threshEnabled t) (threshIndex t) (threshK t) (threshShare t) (threshPub t) (sharesByHeight t)
    (sentHeights t) (privKeyByHeight t) m (engine t) (published t).

Definition setPrivKey (t : Thresh) (height : N) (key : bytes) : Thresh :=
  mkThresh (threshEnabled t) (threshIndex t) (threshK t) (threshShare t) (threshPub t) (sharesByHeight t)
    (sentHeights t) (<[height := key]> (privKeyByHeight t)) (batchSharesByHeight t) (engine t) (published t).

Definition HandleThresholdShare (t : Thresh) (height : N) (index : Z) (share : bytes) : Thresh :=
  RETURN t IF (height =? 0)%N || (index <=? 0)%Z || ⌜? length share ≠ 96 ⌝ ;;
  let m := default ∅ (sharesByHeight t !! height) in
  match m !! index with
  | Some _ => t
  | None => set_shares t (<[height := <[index := share]> m]> (sharesByHeight t))
  end.

Definition markShareSent (t : Thresh) (height : N) : Thresh * bool :=
  RETURN (t, false) IF ⌜? height ∈ sentHeights t ⌝ ;;
  (mkThresh (threshEnabled t) (threshIndex t) (threshK t) (threshShare t) (threshPub t) (sharesByHeight t)
     ({[height]} ∪ sentHeights t) (privKeyByHeight t) (batchSharesByHeight t) (engine t) (published t), true).

(** A call of the publisher. *)
Definition publish (t : Thresh) (height : N) (index : Z) (share : bytes) : Thresh :=
  mkThresh (threshEnabled t) (threshIndex t) (threshK t) (threshShare t) (threshPub t) (sharesByHeight t)
    (sentHeights t) (privKeyByHeight t) (batchSharesByHeight t) (engine t) ((height, index, share) :: published t).

(** [if pub != nil && markShareSent(height) { pub(...) }]. *)
Definition publish_once (t : Thresh) (height : N) (index : Z) (share : bytes) : Thresh :=
  RETURN t IF negb (threshPub t) ;;
  let '(t', fresh) := markShareSent t height in
  if fresh then publish t' height index share else t'.

Definition recordLocalShare (t : Thresh) (height : N) (index : Z) (share : bytes) : Thresh :=
  set_shares t (<[height := <[index := share]> (default ∅ (sharesByHeight t !! height))]> (sharesByHeight t)).

Definition recordBatchedShare (t : Thresh) (height batch : N) (index : Z) (share : bytes) : Thresh :=
  RETURN t IF (height =? 0)%N || (batch =? 0)%N || (index <=? 0)%Z || ⌜? length share ≠ 48 ⌝ ;;
  let hm := default ∅ (batchSharesByHeight t !! height) in
  let bm := default ∅ (hm !! batch) in
  match bm !! index with
  | Some _ => t
  | None => set_batch_shares t (<[height := <[batch := <[index := share]> bm]> hm]> (batchSharesByHeight t))
  end.

Definition getShare (t : Thresh) (height : N) (index : Z) : bytes :=
  default [] (default ∅ (sharesByHeight t !! height) !! index).

Definition snapshotShares (t : Thresh) (height : N) : gmap Z bytes := default ∅ (sharesByHeight t !! height).

Definition snapshotBatchedShares (t : Thresh) (height batch : N) : gmap Z bytes :=
  default ∅ (default ∅ (batchSharesByHeight t !! height) !! batch).

Definition getPrivKey (t : Thresh) (height : N) : bytes := default [] (privKeyByHeight t !! height).

(** ** Decryption *)
Section decrypt.
Context {B : Blst} {G : AESGCM} {J : Json jsonEnvelope}.

(** [maybeEnsureShare] (threshold_share_blst.go). *)
Definition maybeEnsureShare (t : Thresh) (height : N) : Thresh :=
  RETURN t IF (height =? 0)%N ;;
  RETURN t IF negb (threshEnabled t) || (threshIndex t <=? 0)%Z || ⌜? threshShare t = [] ⌝ ;;
  let existing := getShare t height (threshIndex t) in
  RETURN publish_once t height (threshIndex t) existing IF ⌜? existing ≠ [] ⌝ ;;
  match DeriveShare (threshShare t) (IdentityForHeight height) with
  | inl _ => t
  | inr share =>
      RETURN t IF ⌜? share = [] ⌝ ;;
      publish_once (recordLocalShare t height (threshIndex t) share) height (threshIndex t) share
  end.

(** The shares of a snapshot; [CombineShares] sorts them by index. *)
Definition ibe_shares (m : gmap Z bytes) : list Share :=
  (λ '(idx, val), mkShare idx val) <$> map_to_list m.

(** [thresholdPrivateKey] (threshold_key_blst.go). *)
Definition thresholdPrivateKey (t : Thresh) (height : N) : Thresh * option bytes :=
  RETURN (t, None) IF (height =? 0)%N ;;
  RETURN (t, Some (getPrivKey t height)) IF ⌜? getPrivKey t height ≠ [] ⌝ ;;
  RETURN (t, None) IF negb (threshEnabled t) || (threshK t <=? 0)%Z ;;
  let m := snapshotShares t height in
  RETURN (t, None) IF (Z.of_nat (size m) <? threshK t)%Z ;;
  match CombineShares (ibe_shares m) (threshK t) with
  | inl _ => (t, None)
  | inr pk =>
      RETURN (t, None) IF ⌜? pk = [] ⌝ ;;
      (setPrivKey t height pk, Some pk)
  end.

(** The tail the decrypters share: an empty plaintext, and its envelope. *)
Definition open_envelope (pt : bytes) : option Payload * option PrivErr :=
  RETURN (None, Some ErrPrivateEmpty) IF ⌜? pt = [] ⌝ ;;
  match decodeEnvelopeBytes pt with
  | None => (None, Some ErrPrivateDecode)
  | Some pl => (Some pl, None)
  end.

Definition decryptThresholdIBE (t : Thresh) (tx : PrivateTx) : Thresh * (option Payload * option PrivErr) :=
  RETURN (t, (None, Some ErrPrivateInvalid)) IF ⌜? pv_EphemeralKey tx = [] ⌝ || ⌜? pv_Ciphertext tx = [] ⌝ ;;
  let t1 := maybeEnsureShare t (pv_TargetHeight tx) in
  match thresholdPrivateKey t1 (pv_TargetHeight tx) with
  | (t2, None) => (t2, (None, Some ErrPrivateNotReady))
  | (t2, Some pk) =>
      match ibe_Decrypt sha256 pk (pv_EphemeralKey tx) (pv_Ciphertext tx) with
      | inl e => (t2, (None, Some (if ⌜? e = ErrInvalidPoint ⌝ then ErrPrivateInvalid else ErrPrivateCipher)))
      | inr pt => (t2, open_envelope pt)
      end
  end.

(** [int(v)] of a uint64. *)
Definition int_of_u64 (n : N) : Z := i64 (Z.of_N n).

Definition bte_shares (m : gmap Z bytes) : list PartialDecryptShare :=
  (λ '(idx, val), mkPartial idx val) <$> map_to_list m.

(** What [decryptBatched] does with the shares it has; a panic of
    [RecoverPRFAt] would unwind the builder. *)
Definition batch_open (conf : Config) (tx : PrivateTx) (pp : LinearParams) (ct : KeyCiphertext)
    (shared : gmap Z bytes) : option Payload * option PrivErr :=
  RETURN (None, Some ErrPrivateNotReady) IF (Z.of_nat (size shared) <? cf_Threshold conf)%Z ;;
  match DecryptKeyG ct (bte_shares shared) (cf_Threshold conf) with
  | inl _ => (None, Some ErrPrivateCipher)
  | inr gk =>
      let idx := int_of_u64 (pv_BatchIndex tx) in
      match RecoverPRFAt pp gk idx [(idx, pv_PuncturedKey tx)] with
      | Panics => (None, Some (ErrPrivateOther "panic"))
      | Returns (inl _) => (None, Some ErrPrivateCipher)
      | Returns (inr prf) => open_envelope (RecoverXOR sha256 (pv_Ciphertext tx) prf)
      end
  end.

Definition decryptBatched (conf : Config) (t : Thresh) (tx : PrivateTx)
    : Thresh * (option Payload * option PrivErr) :=
  RETURN (t, (None, Some ErrPrivateInvalid)) IF (cf_BatchN conf <=? 0)%Z ;;
  RETURN (t, (None, Some ErrPrivateInvalid)) IF ⌜? length (cf_Share conf) ≠ 32 ⌝ || (cf_Index conf <=? 0)%Z ;;
  RETURN (t, (None, Some ErrPrivateInvalid))
    IF ⌜? pv_Ciphertext tx = [] ⌝ || ⌜? length (pv_EphemeralKey tx) ≠ 96 ⌝ ||
       (pv_BatchIndex tx =? 0)%N || ⌜? length (pv_PuncturedKey tx) ≠ 48 ⌝ ;;
  RETURN (t, (None, Some ErrPrivateInvalid)) IF (cf_BatchN conf <? int_of_u64 (pv_BatchIndex tx))%Z ;;
  match SetupLinearDeterministic sha256 (cf_BatchN conf) (cf_GroupPubKey conf) with
  | inl _ => (t, (None, Some ErrPrivateCipher))
  | inr pp =>
      let ct := mkKeyCiphertext (take 48 (pv_EphemeralKey tx)) (drop 48 (pv_EphemeralKey tx)) in
      match PartialDecrypt ct (cf_Share conf) (cf_Index conf) with
      | inl _ => (t, (None, Some ErrPrivateCipher))
      | inr sh =>
          let t1 := recordBatchedShare t (pv_TargetHeight tx) (pv_BatchIndex tx) (pd_Index sh) (pd_Share sh) in
          let t2 := if threshEnabled t1 then publish_once t1 (pv_TargetHeight tx) (pd_Index sh) (pd_Share sh)
                    else t1 in
          (t2, batch_open conf tx pp ct (snapshotBatchedShares t2 (pv_TargetHeight tx) (pv_BatchIndex tx)))
      end
  end.

(** The checks every decrypter starts with. *)
Definition with_due (h : BlockHeader) (p : Payload) {S} (s : S)
    (k : PrivateTx → S * (option Payload * option PrivErr)) : S * (option Payload * option PrivErr) :=
  match p with
  | Private tx =>
      RETURN (s, (None, Some ErrPrivateInvalid)) IF (pv_TargetHeight tx =? 0)%N ;;
      RETURN (s, (None, Some ErrPrivateEarly)) IF (bh_Height h <? pv_TargetHeight tx)%N ;;
      k tx
  | _ => (s, (Some p, None))
  end.

(** [blstDecrypter.Decrypt]. *)
Definition blst_Decrypt (conf : Config) (t : Thresh) (h : BlockHeader) (p : Payload)
    : Thresh * (option Payload * option PrivErr) :=
  with_due h p t (λ tx,
    if ⌜? cf_Mode conf = "threshold" ⌝ then decryptThresholdIBE t tx
    else if ⌜? cf_Mode conf = "batched" ⌝ then decryptBatched conf t tx
    else match engine_Decrypt (engine t) (pv_Ciphertext tx) with
         | inl _ => (t, (None, Some ErrPrivateCipher))
         | inr pt => (t, open_envelope pt)
         end).

Definition blstDecrypter (conf : Config) : PrivateDecrypter Thresh := {| Decrypt := blst_Decrypt conf |}.

(** [EnableBLSTDecrypt]: the state and whether the decrypter was installed. *)
Definition EnableBLSTDecrypt (conf : Config) (t : Thresh) : Thresh * goerr :=
  RETURN (t, Some "private tx invalid") IF ⌜? cf_GroupPubKey conf = [] ⌝ ;;
  if ⌜? cf_Mode conf = "threshold" ⌝ then
    RETURN (t, Some "invalid threshold config")
      IF (cf_Threshold conf <=? 0)%Z || (cf_Index conf <=? 0)%Z || ⌜? length (cf_Share conf) ≠ 32 ⌝ ;;
    (enableThreshold t (cf_Index conf) (cf_Threshold conf) (cf_Share conf), nil_err)
  else if ⌜? cf_Mode conf = "batched" ⌝ then (t, nil_err)
  else (SetEngine t (NewSymmetricEngine (cf_GroupPubKey conf)), nil_err).

(** [jsonDecrypter.Decrypt] and [pendingDecrypter.Decrypt]. *)
Definition json_Decrypt (t : Thresh) (h : BlockHeader) (p : Payload)
    : Thresh * (option Payload * option PrivErr) :=
  with_due h p t (λ tx, (t, match decodeEnvelopeBytes (pv_Ciphertext tx) with
                            | Some pl => (Some pl, None)
                            | None => (None, Some ErrPrivateDecode)
                            end)).

Definition jsonDecrypter : PrivateDecrypter Thresh := {| Decrypt := json_Decrypt |}.

Definition pending_Decrypt (t : Thresh) (h : BlockHeader) (p : Payload)
    : Thresh * (option Payload * option PrivErr) :=
  with_due h p t (λ _, (t, (None, Some ErrPrivateNotReady))).

Definition pendingDecrypter : PrivateDecrypter Thresh := {| Decrypt := pending_Decrypt |}.
End decrypt.

(** ** Runs

    What happens to the tables: remote shares, decryptions, and the early
    shares that the private pool asks for. *)
Inductive TEvent :=
  | EvRemote (height : N) (index : Z) (share : bytes)
  | EvDecrypt (hdr : BlockHeader) (p : Payload)
  | EvEarly (height : N)
  | EvPublisher (set : bool).

Section runs.
Context {B : Blst} {G : AESGCM} {J : Json jsonEnvelope} (conf : Config).

Definition thresh_step (t : Thresh) (e : TEvent) : Thresh * option (option Payload * option PrivErr) :=
  match e with
  | EvRemote height index share => (HandleThresholdShare t height index share, None)
  | EvDecrypt hdr p => let '(t', r) := blst_Decrypt conf t hdr p in (t', Some r)
  | EvEarly height => (maybeEnsureShare t height, None)
  | EvPublisher b => (SetThresholdSharePublisher t b, None)
  end.

(** The primitive changes of the tables that the operations are made of. *)
Inductive change : Thresh → Thresh → Prop :=
  | ch_refl t : change t t
  | ch_trans t1 t2 t3 : change t1 t2 → change t2 t3 → change t1 t3
  | ch_share t height index share :
      (default ∅ (sharesByHeight t !! height) : gmap Z bytes) !! index = None →
      change t (recordLocalShare t height index share)
  | ch_replace t height index share :
      getShare t height index = [] → change t (recordLocalShare t height index share)
  | ch_batch t height batch index share :
      index = cf_Index conf → change t (recordBatchedShare t height batch index share)
  | ch_publish t height index share :
      height ∉ sentHeights t → change t (publish (markShareSent t height).1 height index share)
  | ch_key t height k pk :
      getPrivKey t height = [] → (0 < k <= Z.of_nat (size (snapshotShares t height)))%Z →
      CombineShares (ibe_shares (snapshotShares t height)) k = inr pk → pk ≠ [] →
      change t (setPrivKey t height pk)
  | ch_pub t b : change t (SetThresholdSharePublisher t b).

Lemma change_publish_once t height index share : change t (publish_once t height index share).
Proof.
  unfold publish_once. destruct (threshPub t); [|constructor]. simpl.
  unfold markShareSent at 1. case_bool_decide; [constructor|].
  assert (markShareSent t height = ((markShareSent t height).1, true)) as E
    by (unfold markShareSent; by rewrite bool_decide_false).
  pose proof (ch_publish t height index share) as Hc. unfold markShareSent in Hc.
  rewrite bool_decide_false in Hc by done. by apply Hc.
Qed.

Lemma change_ensure t height : change t (maybeEnsureShare t height).
Proof.
  unfold maybeEnsureShare. destruct (height =? 0)%N; [constructor|].
  destruct (_ || _ || _); [constructor|]. case_bool_decide as Hg; [apply change_publish_once|].
  destruct (DeriveShare _ _) as [|share]; [constructor|].
  case_bool_decide; [constructor|]. eapply ch_trans; [by apply ch_replace|apply change_publish_once].
Qed.

Lemma change_key t height : change t (thresholdPrivateKey t height).1.
Proof.
  unfold thresholdPrivateKey. destruct (height =? 0)%N; [constructor|].
  case_bool_decide as Hk; [constructor|].
  destruct (negb _ || _) eqn:E; [constructor|].
  destruct (Z.ltb_spec (Z.of_nat (size (snapshotShares t height))) (threshK t)); [constructor|].
  destruct (CombineShares _ _) as [|pk] eqn:Ec; [constructor|].
  case_bool_decide; [constructor|]. guards. eapply ch_key; [done| |exact Ec|done]. lia.
Qed.

Lemma PartialDecrypt_index ct sc i d : PartialDecrypt ct sc i = inr d → pd_Index d = i.
Proof.
  unfold PartialDecrypt. intros H. destruct (i <=? 0)%Z; [done|].
  destruct (negb _); [done|]. destruct (negb _); [done|].
  destruct (sk_Deserialize sc); simpl in H; [|done].
  destruct (p1_uncompress _); simpl in H; [|done]. by injection H as <-.
Qed.

Lemma change_step t e : change t (thresh_step t e).1.
Proof.
  destruct e as [height index share|hdr p|height|b]; cbn [thresh_step fst].
  - unfold HandleThresholdShare. destruct (_ || _ || _); [constructor|].
    case_match eqn:E; [constructor|]. by apply (ch_share t height index share).
  - assert (change t (blst_Decrypt conf t hdr p).1) as H; [|by destruct (blst_Decrypt conf t hdr p)].
    unfold blst_Decrypt, with_due. destruct p as [tx|tx|tx]; [constructor..|].
    destruct (pv_TargetHeight tx =? 0)%N; [constructor|].
    destruct (bh_Height hdr <? pv_TargetHeight tx)%N; [constructor|].
    case_bool_decide; [|case_bool_decide].
    + unfold decryptThresholdIBE. destruct (_ || _); [constructor|].
      pose proof (change_key (maybeEnsureShare t (pv_TargetHeight tx)) (pv_TargetHeight tx)) as H1.
      eapply ch_trans; [apply (change_ensure t (pv_TargetHeight tx))|].
      destruct (thresholdPrivateKey _ _) as [t2 [pk|]]; [|done]. by destruct (ibe_Decrypt _ _ _ _).
    + unfold decryptBatched. do 4 (match goal with |- context [if ?b then _ else _] => destruct b end; [constructor|]).
      destruct (SetupLinearDeterministic _ _ _); [constructor|].
      destruct (PartialDecrypt _ _ _) as [|sh] eqn:Ep; [constructor|]. apply PartialDecrypt_index in Ep.
      cbn [fst]. eapply ch_trans; [by apply (ch_batch t (pv_TargetHeight tx) (pv_BatchIndex tx) _ (pd_Share sh) Ep)|].
      destruct (threshEnabled _); [apply change_publish_once|constructor].
    + by destruct (engine_Decrypt _ _); constructor.
  - apply change_ensure.
  - constructor.
Qed.

Lemma change_run t es : change t (run thresh_step t es).1.
Proof.
  revert t. induction es as [|e es IH]; intros t; simpl; [constructor|].
  pose proof (change_step t e) as H. destruct (thresh_step t e) as [t1 r]. specialize (IH t1).
  destruct (run thresh_step t1 es). by eapply ch_trans.
Qed.

(** A property that every change preserves holds after every run. *)
Lemma change_preserves (P : Thresh → Prop) t t' :
  change t t' →
  (∀ t h i s, (default ∅ (sharesByHeight t !! h) : gmap Z bytes) !! i = None ∨ getShare t h i = [] →
     P t → P (recordLocalShare t h i s)) →
  (∀ t h b s, P t → P (recordBatchedShare t h b (cf_Index conf) s)) →
  (∀ t h i s, h ∉ sentHeights t → P t → P (publish (markShareSent t h).1 h i s)) →
  (∀ t h k pk, getPrivKey t h = [] → (0 < k <= Z.of_nat (size (snapshotShares t h)))%Z →
     CombineShares (ibe_shares (snapshotShares t h)) k = inr pk → pk ≠ [] → P t → P (setPrivKey t h pk)) →
  (∀ t b, P t → P (SetThresholdSharePublisher t b)) →
  P t → P t'.
Proof. intros H H1 H2 H3 H4 H5. induction H; subst; eauto. Qed.

Lemma getShare_record t h i s h' i' :
  getShare (recordLocalShare t h i s) h' i' =
    if decide (h' = h ∧ i' = i) then s else getShare t h' i'.
Proof.
  unfold getShare, recordLocalShare. cbn [sharesByHeight set_shares]. destruct (decide (h' = h ∧ i' = i)) as [[-> ->]|Hne].
  - by rewrite lookup_insert_eq; simpl; rewrite lookup_insert_eq.
  - destruct (decide (h' = h)) as [->|]; [|by rewrite lookup_insert_ne].
    rewrite lookup_insert_eq. simpl. rewrite lookup_insert_ne; [done|]. intros ->. by apply Hne.
Qed.

Lemma getPrivKey_set t h pk h' :
  getPrivKey (setPrivKey t h pk) h' = if decide (h' = h) then pk else getPrivKey t h'.
Proof.
  unfold getPrivKey, setPrivKey. cbn [privKeyByHeight]. destruct (decide (h' = h)) as [->|].
  - by rewrite lookup_insert_eq.
  - by rewrite lookup_insert_ne.
Qed.

Lemma getShare_None t h i :
  (default ∅ (sharesByHeight t !! h) : gmap Z bytes) !! i = None ∨ getShare t h i = [] → getShare t h i = [].
Proof. unfold getShare. intros [->|]; done. Qed.

Lemma getPrivKey_mark t h h' : getPrivKey (markShareSent t h).1 h' = getPrivKey t h'.
Proof. unfold markShareSent. by case_bool_decide. Qed.
Lemma getShare_mark t h h' i : getShare (markShareSent t h).1 h' i = getShare t h' i.
Proof. unfold markShareSent. by case_bool_decide. Qed.

(** What a node holds for a height is fixed by what arrives first. After any
    sequence of remote shares, decryptions and early shares, a recorded share is
    never replaced and a cached height key never changes, so a bogus share that
    arrives first, even under the node's own index, stays, and so does the key
    that was combined from it. *)
Theorem first_share_stays (t : Thresh) (es : list TEvent) :
  let t' := (run thresh_step t es).1 in
  (∀ h i, getShare t h i ≠ [] → getShare t' h i = getShare t h i) ∧
  (∀ h, getPrivKey t h ≠ [] → getPrivKey t' h = getPrivKey t h).
Proof.
  intros t'. apply (change_preserves (λ t', (∀ h i, getShare t h i ≠ [] → getShare t' h i = getShare t h i) ∧
    (∀ h, getPrivKey t h ≠ [] → getPrivKey t' h = getPrivKey t h)) t t').
  - apply change_run.
  - intros u h i s Hn [Hs Hk]. split; [|done]. intros h' i' Hne. rewrite getShare_record.
    destruct (decide _) as [[-> ->]|]; [|auto]. rewrite <-Hs in Hne by done. by apply getShare_None in Hn.
  - intros u h b s [Hs Hk]. unfold recordBatchedShare. destruct (_ || _); [done|]. by case_match.
  - intros u h i s _ [Hs Hk]. split; intros h'; intros; unfold publish.
    + etrans; [apply (getShare_mark u h)|auto].
    + etrans; [apply (getPrivKey_mark u h)|auto].
  - intros u h k pk Hnone _ _ _ [Hs Hk]. split; [done|]. intros h' Hne. rewrite getPrivKey_set.
    destruct (decide _) as [->|]; [|auto]. rewrite <-Hk in Hne by done. done.
  - done.
  - done.
Qed.

Definition published_heights (t : Thresh) : list N := (λ x, x.1.1) <$> published t.

Lemma published_sound t es :
  NoDup (published_heights t) ∧ (∀ h, h ∈ published_heights t → h ∈ sentHeights t) →
  NoDup (published_heights (run thresh_step t es).1) ∧
  (∀ h, h ∈ published_heights (run thresh_step t es).1 → h ∈ sentHeights (run thresh_step t es).1).
Proof.
  apply (change_preserves (λ t, NoDup (published_heights t) ∧ (∀ h, h ∈ published_heights t → h ∈ sentHeights t))).
  - apply change_run.
  - done.
  - intros u h b s H. unfold recordBatchedShare. destruct (_ || _); [done|]. by case_match.
  - intros u h i s Hn [Hd Hs]. unfold markShareSent. rewrite bool_decide_false by done.
    unfold published_heights, publish in *. simpl. split.
    + constructor; [|done]. intros Hin. by apply Hn, Hs.
    + intros h' [->|Hin]%elem_of_cons; set_solver.
  - done.
  - done.
Qed.

(** A node publishes at most one share for a height, whatever arrives and
    however often it decrypts or is asked for an early share. *)
Theorem share_published_once (es : list TEvent) (t : Thresh) :
  published t = [] → NoDup (published_heights (run thresh_step t es).1).
Proof.
  intros H. apply published_sound. unfold published_heights. rewrite H. simpl.
  split; [constructor|]. intros h Hh. by apply elem_of_nil in Hh.
Qed.

(** Only the node's own index ever appears among the batched shares. *)
Definition own_batches (t : Thresh) : Prop :=
  ∀ h b i, is_Some (snapshotBatchedShares t h b !! i) → i = cf_Index conf.

Lemma own_batches_record t h b s :
  own_batches t → own_batches (recordBatchedShare t h b (cf_Index conf) s).
Proof.
  intros H h' b' i. unfold recordBatchedShare. destruct (_ || _); [apply H|].
  case_match eqn:E; [apply H|]. unfold snapshotBatchedShares at 1. cbn [batchSharesByHeight set_batch_shares].
  destruct (decide (h' = h)) as [->|Hh].
  - rewrite lookup_insert_eq. simpl. destruct (decide (b' = b)) as [->|Hb].
    + rewrite lookup_insert_eq. simpl. destruct (decide (i = cf_Index conf)); [done|].
      rewrite lookup_insert_ne by done. apply (H h b).
    + rewrite lookup_insert_ne by done. apply (H h b').
  - rewrite lookup_insert_ne by done. apply (H h' b').
Qed.

Lemma own_batches_publish t h i s : own_batches t → own_batches (publish_once t h i s).
Proof.
  intros H. unfold publish_once. destruct (negb _); [done|].
  unfold markShareSent. case_bool_decide; intros h' b' i'; apply (H h' b' i').
Qed.

Lemma own_batches_run t es : own_batches t → own_batches (run thresh_step t es).1.
Proof.
  apply change_preserves.
  - apply change_run.
  - intros u h i s _ H. exact H.
  - intros u h b s. apply own_batches_record.
  - intros u h i s _ H. unfold markShareSent. by case_bool_decide.
  - intros u h k pk _ _ _ _ H. exact H.
  - intros u b H. exact H.
Qed.

Lemma own_batches_size t h b : own_batches t → size (snapshotBatchedShares t h b) ≤ 1.
Proof.
  intros H. rewrite <-size_dom. transitivity (size ({[cf_Index conf]} : gset Z)).
  - apply subseteq_size. intros i Hi%elem_of_dom. apply elem_of_singleton. by eapply H.
  - by rewrite size_singleton.
Qed.
End runs.

(** Batched mode needs its threshold to be one. The only batched shares a
    node ever holds are its own: with a threshold of two or more no private
    transaction is ever decrypted, whatever shares the other nodes send. *)
Theorem batched_threshold_two_never_ready {B : Blst} {G : AESGCM} {J : Json jsonEnvelope}
    (conf : Config) (t : Thresh) (es : list TEvent) (hdr : BlockHeader) (tx : PrivateTx) :
  cf_Mode conf = "batched" → (1 < cf_Threshold conf)%Z → batchSharesByHeight t = ∅ →
  (blst_Decrypt conf (run (thresh_step conf) t es).1 hdr (Private tx)).2.1 = None.
Proof.
  intros Hm Hk Hb. assert (own_batches conf (run (thresh_step conf) t es).1) as H.
  { apply own_batches_run. intros h b i. unfold snapshotBatchedShares. rewrite Hb, !lookup_empty. simpl.
    rewrite !lookup_empty. by intros []. }
  generalize dependent (run (thresh_step conf) t es).1. intros u H.
  unfold blst_Decrypt, with_due. destruct (pv_TargetHeight tx =? 0)%N; [done|].
  destruct (bh_Height hdr <? pv_TargetHeight tx)%N; [done|]. rewrite Hm, bool_decide_false, bool_decide_true by done.
  unfold decryptBatched.
  repeat (match goal with |- context [if ?b then _ else _] => destruct b eqn:? end; [done|]).
  destruct (SetupLinearDeterministic _ _ _); [done|].
  destruct (PartialDecrypt _ _ _) as [|sh] eqn:Ep; [done|]. apply PartialDecrypt_index in Ep. cbn [fst snd].
  set (t1 := recordBatchedShare _ _ _ _ _). set (t2 := if threshEnabled t1 then _ else _).
  assert (own_batches conf t2) as H2.
  { assert (own_batches conf t1) as H1 by (unfold t1; rewrite Ep; by apply own_batches_record).
    unfold t2. destruct (threshEnabled t1); [|done]. by apply own_batches_publish. }
  unfold batch_open. pose proof (own_batches_size conf t2 (pv_TargetHeight tx) (pv_BatchIndex tx) H2).
  destruct (Z.ltb_spec (Z.of_nat (size (snapshotBatchedShares t2 (pv_TargetHeight tx) (pv_BatchIndex tx))))
    (cf_Threshold conf)); [done|lia].
Qed.

(** ** A transaction is opened when it is due *)
Section due.
Context {B : Blst} {G : AESGCM} {J : Json jsonEnvelope}.

(** The decrypters of the package. *)
Inductive private_v1 : PrivateDecrypter Thresh → Prop :=
  | pv_blst conf : private_v1 (blstDecrypter conf)
  | pv_json : private_v1 jsonDecrypter
  | pv_pending : private_v1 pendingDecrypter.

Definition sortable (p : Payload) : Prop := Type_of p ≠ "private_v1".

Lemma decodeEnvelope_sortable b pl : decodeEnvelopeBytes b = Some pl → sortable pl.
Proof.
  unfold decodeEnvelopeBytes. intros H. destruct (unmarshal b); [|done].
  destruct (_ || _); [by simplify_eq|]. case_bool_decide; by simplify_eq.
Qed.

Definition well_formed (r : option Payload * option PrivErr) : Prop :=
  (∃ pl, r = (Some pl, None) ∧ sortable pl) ∨ (∃ e, r = (None, Some e)).

Lemma open_envelope_wf pt : well_formed (open_envelope pt).
Proof.
  unfold open_envelope. case_bool_decide; [by right; eexists|].
  destruct (decodeEnvelopeBytes pt) eqn:E; [|by right; eexists].
  left. eexists. split; [done|]. by eapply decodeEnvelope_sortable.
Qed.
#[local] Hint Resolve open_envelope_wf : core.

Lemma error_wf e : well_formed (None, Some e).
Proof. by right; eexists. Qed.
#[local] Hint Resolve error_wf : core.

Lemma due_result {S} h p (s : S) k r :
  (∀ tx, well_formed (k tx).2) → (with_due h p s k).2 = r →
  match p with
  | Private tx => (∃ e, r = (None, Some e)) ∨
      (pv_TargetHeight tx ≠ 0%N ∧ (pv_TargetHeight tx <= bh_Height h)%N ∧ ∃ pl, r = (Some pl, None) ∧ sortable pl)
  | _ => r = (Some p, None)
  end.
Proof.
  intros Hk <-. destruct p as [tx|tx|tx]; [done|done|]. simpl.
  destruct (N.eqb_spec (pv_TargetHeight tx) 0) as [|H0]; [by left; eexists|].
  destruct (N.ltb_spec (bh_Height h) (pv_TargetHeight tx)) as [|Hh]; [by left; eexists|].
  destruct (Hk tx) as [Hok|He]; [right|by left]. done.
Qed.

Lemma blst_wf conf (t : Thresh) tx :
  well_formed ((if ⌜? cf_Mode conf = "threshold" ⌝ then decryptThresholdIBE t tx
    else if ⌜? cf_Mode conf = "batched" ⌝ then decryptBatched conf t tx
    else match engine_Decrypt (engine t) (pv_Ciphertext tx) with
         | inl _ => (t, (None, Some ErrPrivateCipher))
         | inr pt => (t, open_envelope pt)
         end).2).
Proof.
  case_bool_decide; [|case_bool_decide].
  - unfold decryptThresholdIBE. destruct (_ || _); [simpl; auto|].
    destruct (thresholdPrivateKey _ _) as [t2 [pk|]]; [|simpl; auto]. destruct (ibe_Decrypt _ _ _ _); simpl; auto.
  - unfold decryptBatched. do 4 (match goal with |- context [if ?b then _ else _] => destruct b end; [simpl; auto|]).
    destruct (SetupLinearDeterministic _ _ _); [simpl; auto|]. destruct (PartialDecrypt _ _ _); [simpl; auto|].
    cbn [snd]. unfold batch_open. match goal with |- context [if ?b then (None, _) else _] => destruct b end; [auto|].
    destruct (DecryptKeyG _ _ _); [auto|]. destruct (RecoverPRFAt _ _ _ _) as [|[|]]; auto.
  - destruct (engine_Decrypt _ _); simpl; auto.
Qed.

Lemma private_v1_result PD (d : Thresh) h p :
  private_v1 PD →
  let r := (Decrypt (PrivateDecrypter := PD) d h p).2 in
  match p with
  | Private tx => (∃ e, r = (None, Some e)) ∨
      (pv_TargetHeight tx ≠ 0%N ∧ (pv_TargetHeight tx <= bh_Height h)%N ∧ ∃ pl, r = (Some pl, None) ∧ sortable pl)
  | _ => r = (Some p, None)
  end.
Proof.
  intros [conf| |] r.
  - by apply (due_result h p d _ r (blst_wf conf d)).
  - refine (due_result h p d _ r _ eq_refl). intros tx. simpl. destruct (decodeEnvelopeBytes _) eqn:E; [|apply error_wf].
    left. eexists. split; [done|]. by eapply decodeEnvelope_sortable.
  - refine (due_result h p d _ r _ eq_refl). intros tx. apply error_wf.
Qed.
End due.


(** ** Threshold mode over a threshold scheme *)
Section threshold.
Context {B : Blst} {G : AESGCM} {J : Json jsonEnvelope}.
Context (gpk : bytes) (k : Z) (valid : Z → Prop) (share : Z → bytes) (hkey : bytes → bytes).
Context `{TI : !ThresholdIBE sha256 gpk k valid share hkey}.

(** What the node holds for a height came from the committee. *)
Definition honest_shares (m : gmap Z bytes) (height : N) : Prop :=
  ∀ i s, m !! i = Some s → valid i ∧ DeriveShare (share i) (IdentityForHeight height) = inr s.

Record ready (t : Thresh) (height : N) : Prop := {
  rd_enabled : threshEnabled t = true;
  rd_k : threshK t = k;
  rd_index : (0 < threshIndex t)%Z ∧ valid (threshIndex t);
  rd_share : threshShare t = share (threshIndex t) ∧ share (threshIndex t) ≠ [];
  rd_honest : honest_shares (snapshotShares t height) height;
  rd_key : getPrivKey t height = [] ∨ getPrivKey t height = hkey (IdentityForHeight height);
}.

Lemma snapshot_publish t height i s h' :
  snapshotShares (publish_once t height i s) h' = snapshotShares t h' ∧
  getPrivKey (publish_once t height i s) h' = getPrivKey t h' ∧
  threshEnabled (publish_once t height i s) = threshEnabled t ∧
  threshK (publish_once t height i s) = threshK t.
Proof.
  unfold publish_once. destruct (negb _); [done|]. unfold markShareSent. by case_bool_decide.
Qed.

(** After [maybeEnsureShare] the own share is among those of the height. *)
Lemma ensure_ready t height :
  height ≠ 0%N → ready t height →
  let t' := maybeEnsureShare t height in
  honest_shares (snapshotShares t' height) height ∧
  dom (snapshotShares t' height) = {[threshIndex t]} ∪ dom (snapshotShares t height) ∧
  getPrivKey t' height = getPrivKey t height ∧ threshEnabled t' = true ∧ threshK t' = k.
Proof.
  intros Hh [He Hk [Hi Hv] [Hs Hne] Hhon _]. unfold maybeEnsureShare.
  destruct (N.eqb_spec height 0) as [|_]; [done|]. rewrite He, Hs. simpl.
  destruct (Z.leb_spec (threshIndex t) 0) as [|_]; [lia|]. rewrite bool_decide_false by done. simpl.
  destruct (ti_derive (threshIndex t) (IdentityForHeight height) Hv) as (v & Hd & Hvne). rewrite Hd.
  case_bool_decide as Hg.
  - destruct (snapshot_publish t height (threshIndex t) (getShare t height (threshIndex t)) height)
      as (-> & -> & -> & ->). refine (conj Hhon (conj _ (conj eq_refl (conj He Hk)))).
    assert (threshIndex t ∈ dom (snapshotShares t height)); [|set_solver].
    apply elem_of_dom. unfold getShare in Hg. unfold snapshotShares.
    destruct (default ∅ (sharesByHeight t !! height) !! threshIndex t) eqn:E; [by eexists|done].
  - rewrite (bool_decide_false (v = [])) by done.
    destruct (snapshot_publish (recordLocalShare t height (threshIndex t) v) height (threshIndex t) v height)
      as (-> & -> & -> & ->).
    assert (snapshotShares (recordLocalShare t height (threshIndex t) v) height =
      <[threshIndex t := v]> (snapshotShares t height)) as ->.
    { unfold snapshotShares. cbn [sharesByHeight recordLocalShare set_shares]. by rewrite lookup_insert_eq. }
    refine (conj _ (conj (dom_insert_L _ _ _) (conj eq_refl (conj He Hk)))).
    intros i s. destruct (decide (i = threshIndex t)) as [->|]; [|rewrite lookup_insert_ne by done; apply Hhon].
    rewrite lookup_insert_eq. by intros [= <-].
Qed.

Lemma ibe_shares_index m : map sh_Index (ibe_shares m) = (map_to_list m).*1.
Proof. unfold ibe_shares. rewrite <-list_fmap_compose. by apply list_fmap_ext; intros ? [? ?]. Qed.

Lemma honest_combine m height :
  honest_shares m height → (k <= Z.of_nat (size m))%Z →
  CombineShares (ibe_shares m) k = inr (hkey (IdentityForHeight height)).
Proof.
  intros Hh Hs. apply (ti_combine (IdentityForHeight height)).
  - unfold ibe_shares. by rewrite length_fmap, length_map_to_list.
  - rewrite ibe_shares_index. apply NoDup_ListNoDup, NoDup_fst_map_to_list.
  - intros s Hin. apply list_elem_of_In in Hin. apply list_elem_of_fmap in Hin as ([i v] & -> & Hin).
    apply elem_of_map_to_list in Hin. by apply Hh.
Qed.

(** Once the honest shares a node holds for a height, its own included, reach
    the threshold, a due transaction whose envelope was encrypted to the group
    key for its height is decrypted to exactly that envelope. *)
Lemma threshold_opens (conf : Config) (t : Thresh) (hdr : BlockHeader) (tx : PrivateTx)
    (env : bytes) (pl : Payload) (ikm nonce : bytes) :
  cf_Mode conf = "threshold" → ready t (pv_TargetHeight tx) →
  pv_TargetHeight tx ≠ 0%N → (pv_TargetHeight tx <= bh_Height hdr)%N →
  (k <= Z.of_nat (size ({[threshIndex t]} ∪ dom (snapshotShares t (pv_TargetHeight tx)))))%Z →
  length nonce = 12 →
  ibe_Encrypt sha256 gpk (IdentityForHeight (pv_TargetHeight tx)) env ikm nonce =
    inr (pv_EphemeralKey tx, pv_Ciphertext tx) →
  decodeEnvelopeBytes env = Some pl →
  (blst_Decrypt conf t hdr (Private tx)).2 = (Some pl, None).
Proof.
  intros Hm Hr H0 Hh Hsize Hn Henc Hpl. set (height := pv_TargetHeight tx) in *.
  destruct (ti_open _ _ _ _ _ _ Henc Hn) as (Hu & Hct & Hdec).
  unfold blst_Decrypt, with_due. fold height. rewrite (proj2 (N.eqb_neq _ _) H0), (proj2 (N.ltb_ge _ _) Hh).
  rewrite Hm, bool_decide_true by done. unfold decryptThresholdIBE. fold height.
  rewrite !bool_decide_false by done. cbn [orb].
  destruct (ensure_ready t height H0 Hr) as (Hhon & Hdom & Hkey & He & Hk).
  set (t1 := maybeEnsureShare t height) in *.
  assert ((thresholdPrivateKey t1 height).2 = Some (hkey (IdentityForHeight height))) as Hpk.
  { unfold thresholdPrivateKey. rewrite (proj2 (N.eqb_neq _ _) H0), Hkey, He, Hk.
    pose proof (ti_key (hkey := hkey) (IdentityForHeight height)) as Hne.
    pose proof (ti_threshold (k := k)) as Hpos. destruct (rd_key _ _ Hr) as [->| ->].
    - rewrite bool_decide_false by (by intros []). cbn [negb orb]. rewrite (proj2 (Z.leb_gt _ _) Hpos).
      rewrite <-Hdom, size_dom in Hsize. rewrite (proj2 (Z.ltb_ge _ _) Hsize), (honest_combine _ height) by done.
      by rewrite bool_decide_false.
    - by rewrite bool_decide_true. }
  destruct (thresholdPrivateKey t1 height) as [t2 r]. simpl in Hpk. subst r. rewrite Hdec. cbn [snd].
  unfold open_envelope. rewrite Hpl. rewrite bool_decide_false; [done|].
  intros Hnil. rewrite Hnil in Hpl. unfold decodeEnvelopeBytes in Hpl. by rewrite unmarshal_nil in Hpl.
Qed.
End threshold.

(** ** A threshold scheme to instantiate the interface

    Over the group of one element every share is the same and every combination
    succeeds; the interface is met by the real groups in BeastCorrect.v. *)
Definition unit_blst : Blst :=
  {| Scalar := unit; P1 := unit; P2 := unit; GT := unit;
     sk_zero := (); sk_FromBEndian _ := (); sk_Deserialize _ := Some (); sk_Serialize _ := replicate 32 Byte.x00;
     sk_KeyGen _ := Some (); sk_add _ _ := ((), true); sk_sub _ _ := ((), true); sk_mul _ _ := ((), true);
     sk_Inverse _ := (); p1_zero := (); p1_gen := (); p1_add _ _ := (); p1_sub _ _ := (); p1_mult _ _ := ();
     p1_compress _ := replicate 48 Byte.x00; p1_uncompress _ := Some ();
     p2_zero := (); p2_gen := (); p2_add _ _ := (); p2_mult _ _ := ();
     p2_compress _ := replicate 96 Byte.x00; p2_uncompress _ := Some ();
     HashToG2 _ _ := (); pairing _ := (); gt_bytes _ := [] |}.

Definition unit_share : Z → bytes := λ _, replicate 32 Byte.x07.
Definition unit_key : bytes → bytes := λ _, replicate 96 Byte.x00.

Lemma unit_combine_fold (idxs : list Z) (shares : list Share) acc :
  fold_res (combine_step (B := unit_blst) idxs) shares acc = inr ().
Proof.
  revert acc. induction shares as [|s shares IH]; intros acc; [by destruct acc|]. cbn [fold_res].
  assert (combine_step (B := unit_blst) idxs acc s = inr ()) as ->; [|apply IH].
  unfold combine_step, lagrangeAtZero.
  assert (∀ js u, fold_res (lagrange_step (B := unit_blst) Beast.ErrInvalidShare (sh_Index s)) js u = inr ((), ())) as ->; [|done].
  intros js. induction js as [|j js IHj]; intros [[] []]; [done|]. cbn [fold_res].
  unfold lagrange_step at 1. destruct (j =? sh_Index s)%Z; apply IHj.
Qed.

Lemma unit_scheme (G : AESGCM) gpk k (valid : Z → Prop) (share : Z → bytes) :
  (0 < k)%Z → (∀ i, valid i → (0 < i)%Z ∧ share i ≠ []) →
  ThresholdIBE (B := unit_blst) (G := G) sha256 gpk k valid share unit_key.
Proof.
  intros Hk Hvalid.
  assert (∀ i id, valid i → DeriveShare (B := unit_blst) (share i) id = inr (unit_key id)) as Hd.
  { intros i id [_ Hne]%Hvalid. unfold DeriveShare. by destruct (share i). }
  split; [done|..].
  - intros i id Hi. exists (unit_key id). by rewrite Hd.
  - intros id shares Hl Hnd Hs. unfold CombineShares.
    rewrite (proj2 (Z.leb_gt _ _) Hk), (proj2 (Z.ltb_ge _ _) Hl).
    destruct (chosen_shares sh_Index (Z.to_nat k) shares ltac:(lia)) as (_ & Hincl & Hnd').
    rewrite check_indices_true; [by cbn [negb bind]; rewrite unit_combine_fold| |by apply Hnd'].
    intros x Hx. destruct (Hs x (Hincl x Hx)) as [Hi Hv]. rewrite Hd in Hv by done. injection Hv as Hv.
    split; [by apply Hvalid|]. split; [|tauto]. by rewrite <-Hv.
  - done.
  - intros id msg ikm nonce u ct [= <- <-] Hn. split; [done|].
    split; [by destruct nonce|]. unfold ibe_Decrypt. cbn [must p2_uncompress p1_uncompress unit_blst bind].
    rewrite (proj2 (Nat.ltb_ge _ _)) by (rewrite length_app; lia).
    rewrite firstn_prefix, skipn_prefix by done. by rewrite Open_Seal by (done || apply length_sha256).
Qed.

#[export] Instance unit_threshold (G : AESGCM) gpk k :
  (0 < k)%Z → ThresholdIBE (B := unit_blst) (G := G) sha256 gpk k (λ i, (0 < i)%Z) unit_share unit_key.
Proof. intros Hk. by apply unit_scheme. Qed.

#[export] Instance jsonEnvelope_eq_dec : EqDecision jsonEnvelope.
Proof. solve_decision. Defined.
#[export] Program Instance jsonEnvelope_countable : Countable jsonEnvelope :=
  inj_countable' (λ e, (env_Type e, env_From e, env_Nonce e, env_Gas e, env_Fee e, env_Bid e, env_FeeRecipient e))
    (λ '(a, b, c, d, e, f, g), mkEnvelope a b c d e f g) _.
Next Obligation. by intros []. Qed.

(** Two of three nodes at height 5: the own share and a remote one. *)
Definition sample_conf : Config := mkConfig "threshold" (replicate 48 Byte.x01) [] 2 1 (unit_share 1) 0.
Definition sample_env : jsonEnvelope := mkEnvelope "plaintext_v1" "alice" 7 1 9 0 "".
Definition sample_thresh : Thresh :=
  HandleThresholdShare (enableThreshold Thresh_init 1 2 (unit_share 1)) 5 3 (unit_key []).
Definition sample_tx : PrivateTx :=
  match ibe_Encrypt (B := unit_blst) (G := toy_gcm) sha256 (replicate 48 Byte.x01) (IdentityForHeight 5)
          (marshal (Json := countable_json jsonEnvelope) sample_env) [] (replicate 12 Byte.x00) with
  | inr (u, ct) => mkPrivateTx "bob" 1 ct u 5 0 []
  | inl _ => mkPrivateTx "" 0 [] [] 0 0 []
  end.

Lemma sample_opens :
  (blst_Decrypt (B := unit_blst) (G := toy_gcm) (J := countable_json jsonEnvelope) sample_conf sample_thresh
     (mkBlockHeader 5 0) (Private sample_tx)).2 =
    (Some (Plaintext (mkPlaintextTx "alice" 7 1 9 [])), None).
Proof.
  apply (threshold_opens (B := unit_blst) (G := toy_gcm) (J := countable_json jsonEnvelope)
    (replicate 48 Byte.x01) 2 (λ i, (0 < i)%Z) unit_share unit_key
    (TI := unit_threshold toy_gcm (replicate 48 Byte.x01) 2 ltac:(lia))
    sample_conf sample_thresh (mkBlockHeader 5 0) sample_tx (marshal (Json := countable_json jsonEnvelope) sample_env) _ [] (replicate 12 Byte.x00)).
  - reflexivity.
  - split; [reflexivity..| | | |].
    + split; vm_compute; reflexivity.
    + split; vm_compute; done.
    + intros i s. assert (snapshotShares sample_thresh (pv_TargetHeight sample_tx) = {[3%Z := unit_key []]}) as ->
        by (vm_compute; reflexivity).
      intros [<- <-]%lookup_singleton_Some. split; [lia|]. vm_compute. reflexivity.
    + left. vm_compute. reflexivity.
  - by vm_compute.
  - by vm_compute.
  - by vm_compute.
  - reflexivity.
  - vm_compute. reflexivity.
  - vm_compute. reflexivity.
Defined.

(** *** The other modes *)
Lemma engine_round_trip {G : AESGCM} (key nonce msg : bytes) :
  key ≠ [] → length nonce = 12 →
  ∃ ct, engine_Encrypt (NewSymmetricEngine key) nonce msg = inr ct ∧
    engine_Decrypt (NewSymmetricEngine key) ct = inr msg.
Proof.
  intros Hk Hn. unfold NewSymmetricEngine. rewrite bool_decide_false by done. eexists. split; [done|].
  unfold engine_Decrypt. rewrite (proj2 (Nat.ltb_ge _ _)) by (rewrite length_app; lia).
  rewrite take_app_length', drop_app_length' by done. by rewrite Open_Seal by (done || apply length_sha256).
Qed.

Lemma aggregate_same (p : bytes) n : p ≠ [] → AggregateDecrypt (replicate (S n) p) = inr p.
Proof.
  intros Hp. unfold AggregateDecrypt. rewrite bool_decide_false by done. simpl. rewrite bool_decide_false by done.
  induction n as [|n IH]; simpl; [done|]. rewrite (bool_decide_false (p = [])) by done.
  rewrite (bool_decide_false (p ≠ p)) by (intros []; done). exact IH.
Qed.

(** In the symmetric mode, the decrypter that EnableBLSTDecrypt installs opens
    exactly what its engine sealed: a due transaction that carries a sealed
    envelope is decrypted to that envelope, and the partial decryptions of any
    number of parties agree and aggregate to it. *)
Theorem symmetric_mode_opens {B : Blst} {G : AESGCM} {J : Json jsonEnvelope}
    (conf : Config) (t : Thresh) (hdr : BlockHeader) (tx : PrivateTx) (env : jsonEnvelope) (pl : Payload)
    (nonce : bytes) (n : nat) :
  cf_Mode conf ∉ ["threshold"; "batched"] → cf_GroupPubKey conf ≠ [] → length nonce = 12 →
  pv_TargetHeight tx ≠ 0%N → (pv_TargetHeight tx <= bh_Height hdr)%N →
  decodeEnvelopeBytes (marshal env) = Some pl →
  let '(t', err) := EnableBLSTDecrypt conf t in
  engine_Encrypt (engine t') nonce (marshal env) = inr (pv_Ciphertext tx) →
  err = nil_err ∧ blst_Decrypt conf t' hdr (Private tx) = (t', (Some pl, None)) ∧
  ∃ p, engine_PartialDecrypt (engine t') (pv_Ciphertext tx) = inr p ∧
    AggregateDecrypt (replicate (S n) p) = inr (marshal env).
Proof.
  intros Hm Hk Hn H0 Hh Hpl. unfold EnableBLSTDecrypt.
  rewrite !not_elem_of_cons in Hm. destruct Hm as (Hm1 & Hm2 & _).
  rewrite !(bool_decide_false (cf_Mode conf = _)), (bool_decide_false (cf_GroupPubKey conf = [])) by done.
  cbn [engine SetEngine]. intros Henc.
  destruct (engine_round_trip (cf_GroupPubKey conf) nonce (marshal env) Hk Hn) as (ct & Ht & Hd).
  rewrite Ht in Henc. injection Henc as ->.
  assert (marshal env ≠ []) as Hne.
  { intros Hnil. rewrite Hnil in Hpl. unfold decodeEnvelopeBytes in Hpl. by rewrite unmarshal_nil in Hpl. }
  split; [done|]. split.
  - unfold blst_Decrypt, with_due. rewrite (proj2 (N.eqb_neq _ _) H0), (proj2 (N.ltb_ge _ _) Hh).
    rewrite !(bool_decide_false (cf_Mode conf = _)) by done. cbn [engine SetEngine]. rewrite Hd.
    unfold open_envelope. by rewrite bool_decide_false, Hpl.
  - exists (marshal env). split; [done|by apply aggregate_same].
Qed.

(** A configuration that loads can be enabled, and has what its mode needs. *)
Lemma LoadConfig_enables {J : Json Config} readf path c t :
  LoadConfig readf path = inr c →
  (EnableBLSTDecrypt c t).2 = nil_err ∧ length (cf_GroupPubKey c) = 48 ∧
  (cf_Mode c = "threshold" ∨ cf_Mode c = "batched" → length (cf_Share c) = 32 ∧ (0 < cf_Index c)%Z).
Proof.
  unfold LoadConfig. intros H. case_bool_decide; [done|]. destruct (readf path) as [b|]; [|done].
  destruct (unmarshal b) as [cfg|]; [|done]. case_bool_decide as Hk; [done|]. case_bool_decide as Hl; [done|].
  set (cfg' := if _ && _ then _ else _) in H.
  assert (cf_GroupPubKey cfg' = cf_GroupPubKey cfg) as Hg by (unfold cfg'; by destruct (_ && _)).
  case_bool_decide as Ht; [|case_bool_decide as Hb]; unfold EnableBLSTDecrypt.
  - destruct (_ || _) eqn:Eo in H; [done|]. case_bool_decide as Hs; [done|].
    injection H as <-. rewrite Hg, bool_decide_false, bool_decide_true by done. guards.
    rewrite (proj2 (Z.leb_gt _ _)), (proj2 (Z.leb_gt _ _)), bool_decide_false by (lia || by intros []).
    repeat split; done || lia.
  - destruct (_ <=? 0)%Z in H; [done|]. destruct (_ || _) eqn:Eo in H; [done|]. injection H as <-. guards.
    rewrite Hg, bool_decide_false, bool_decide_false, bool_decide_true by (done || by rewrite Hb).
    repeat split; done || lia.
  - injection H as <-. rewrite Hg, !bool_decide_false by done. split_and!; [done|done|by intros [|]].
Qed.

Definition sym_conf : Config := mkConfig "" (replicate 48 Byte.x01) [] 0 0 [] 0.
Definition sym_tx : PrivateTx :=
  match engine_Encrypt (G := toy_gcm) (engine (EnableBLSTDecrypt sym_conf Thresh_init).1) (replicate 12 Byte.x00)
          (marshal (Json := countable_json jsonEnvelope) sample_env) with
  | inr ct => mkPrivateTx "bob" 1 ct [Byte.x01] 5 0 []
  | inl _ => mkPrivateTx "" 0 [] [] 0 0 []
  end.

Lemma symmetric_mode_opens_witness :
  let t' := (EnableBLSTDecrypt sym_conf Thresh_init).1 in
  (EnableBLSTDecrypt sym_conf Thresh_init).2 = nil_err ∧
  blst_Decrypt (B := unit_blst) (G := toy_gcm) (J := countable_json jsonEnvelope) sym_conf t'
    (mkBlockHeader 6 0) (Private sym_tx) = (t', (Some (Plaintext (mkPlaintextTx "alice" 7 1 9 [])), None)) ∧
  ∃ p, engine_PartialDecrypt (G := toy_gcm) (engine t') (pv_Ciphertext sym_tx) = inr p ∧
    AggregateDecrypt (replicate 3 p) = inr (marshal (Json := countable_json jsonEnvelope) sample_env).
Proof.
  apply (symmetric_mode_opens (B := unit_blst) (G := toy_gcm) (J := countable_json jsonEnvelope)
    sym_conf Thresh_init (mkBlockHeader 6 0) sym_tx sample_env _ (replicate 12 Byte.x00) 2).
  - vm_compute. intros H. repeat (apply elem_of_cons in H as [H|H]; [done|]). by apply elem_of_nil in H.
  - done.
  - reflexivity.
  - by vm_compute.
  - by vm_compute.
  - vm_compute. reflexivity.
  - vm_compute. reflexivity.
Defined.

(** ** Concrete runs *)
Definition batch_conf : Config := mkConfig "batched" (replicate 48 Byte.x01) [] 2 1 (unit_share 1) 4.
Definition batch_tx : PrivateTx :=
  mkPrivateTx "bob" 1 [Byte.x01] (replicate 96 Byte.x00) 5 1 (replicate 48 Byte.x00).

Lemma batched_threshold_two_never_ready_witness :
  (blst_Decrypt (B := unit_blst) (G := toy_gcm) (J := countable_json jsonEnvelope) batch_conf
     (run (thresh_step (B := unit_blst) (G := toy_gcm) (J := countable_json jsonEnvelope) batch_conf) Thresh_init
        [EvRemote 5 2 (replicate 96 Byte.x00); EvRemote 5 3 (replicate 96 Byte.x00)]).1
     (mkBlockHeader 5 0) (Private batch_tx)).2.1 = None.
Proof.
  apply (batched_threshold_two_never_ready (B := unit_blst) (G := toy_gcm) (J := countable_json jsonEnvelope)).
  - reflexivity.
  - by vm_compute.
  - reflexivity.
Defined.

(** The same transaction is opened as soon as the threshold is one. *)
Example batched_threshold_one_is_ready :
  (blst_Decrypt (B := unit_blst) (G := toy_gcm) (J := countable_json jsonEnvelope)
     (mkConfig "batched" (replicate 48 Byte.x01) [] 1 1 (unit_share 1) 4)
     Thresh_init (mkBlockHeader 5 0) (Private batch_tx)).2.2 = Some ErrPrivateDecode.
Proof. vm_compute. reflexivity. Qed.

(** Configured without a threshold, which LoadConfig accepts, it never is. *)
Example batched_without_threshold_fails :
  (blst_Decrypt (B := unit_blst) (G := toy_gcm) (J := countable_json jsonEnvelope)
     (mkConfig "batched" (replicate 48 Byte.x01) [] 0 1 (unit_share 1) 4)
     Thresh_init (mkBlockHeader 5 0) (Private batch_tx)).2.2 = Some ErrPrivateCipher.
Proof. vm_compute. reflexivity. Qed.

Lemma share_published_once_witness :
  NoDup (published_heights (run (thresh_step (B := unit_blst) (G := toy_gcm) (J := countable_json jsonEnvelope) sample_conf)
    (SetThresholdSharePublisher sample_thresh true)
    [EvEarly 5; EvEarly 6; EvDecrypt (mkBlockHeader 5 0) (Private sample_tx); EvEarly 6]).1) ∧
  published_heights (run (thresh_step (B := unit_blst) (G := toy_gcm) (J := countable_json jsonEnvelope) sample_conf)
    (SetThresholdSharePublisher sample_thresh true)
    [EvEarly 5; EvEarly 6; EvDecrypt (mkBlockHeader 5 0) (Private sample_tx); EvEarly 6]).1 = [6; 5]%N.
Proof.
  split; [|vm_compute; reflexivity].
  apply (share_published_once (B := unit_blst) (G := toy_gcm) (J := countable_json jsonEnvelope) sample_conf). reflexivity.
Defined.


(** A remote peer can plant a share under the node's own index before the node
    derives its own: the node then publishes it as its own. *)
Lemma planted_share_is_published {B : Blst} (t : Thresh) height junk :
  threshEnabled t = true → (0 < threshIndex t)%Z → threshShare t ≠ [] → threshPub t = true →
  height ≠ 0%N → height ∉ sentHeights t →
  (default ∅ (sharesByHeight t !! height) : gmap Z bytes) !! threshIndex t = None → length junk = 96 →
  published (maybeEnsureShare (HandleThresholdShare t height (threshIndex t) junk) height) =
    (height, threshIndex t, junk) :: published t.
Proof.
  intros He Hi Hs Hp Hh Hsent Hnone Hl. assert (junk ≠ []) as Hne by (by intros ->).
  unfold HandleThresholdShare. rewrite (proj2 (N.eqb_neq _ _) Hh), (proj2 (Z.leb_gt _ _) Hi), bool_decide_false
    by (intros []; done). cbn [orb]. rewrite Hnone.
  set (t' := set_shares t _). assert (getShare t' height (threshIndex t) = junk) as Hg.
  { unfold getShare, t'. cbn [sharesByHeight set_shares]. rewrite lookup_insert_eq. simpl. by rewrite lookup_insert_eq. }
  unfold maybeEnsureShare. rewrite (proj2 (N.eqb_neq _ _) Hh).
  change (threshEnabled t') with (threshEnabled t). change (threshIndex t') with (threshIndex t).
  change (threshShare t') with (threshShare t). rewrite He, (proj2 (Z.leb_gt _ _) Hi).
  rewrite (bool_decide_false (threshShare t = [])) by done. cbn [negb orb]. rewrite Hg, bool_decide_true by done.
  unfold publish_once. change (threshPub t') with (threshPub t). rewrite Hp. cbn [negb].
  unfold markShareSent. change (sentHeights t') with (sentHeights t). by rewrite bool_decide_false.
Qed.

(** The second transaction of a batch position is decrypted with the first one's
    partial share, since a position keeps one share per node. *)
Lemma batched_share_kept t height batch index s s' :
  snapshotBatchedShares t height batch !! index = Some s →
  recordBatchedShare t height batch index s' = t.
Proof.
  unfold recordBatchedShare, snapshotBatchedShares. intros ->. by destruct (_ || _).
Qed.
