(* ===== verification/Feldman.v ===== *)
(** Feldman secret sharing (src/internal/tss/dkg/feldman_crypto_blst.go):
    polynomials, commitments, share verification, interpolation at zero, and
    the in-memory DKG, over the blst operations; and the interface VerifiedDKG,
    what verified sharing promises to the protocol that runs it. *)
From Stdlib Require Import String List ZArith NArith Bool.
From S2P Require Import CryptoOps Beast.
Import ListNotations.
Local Open Scope res_scope.
Local Open Scope string_scope.
Local Open Scope list_scope.

Section feldman.
Context {B : Blst}.

Definition fe_params : string := "invalid params".
Definition fe_point : string := "invalid point".
Definition fe_share : string := "invalid share".

Record scalarShare := mkScalarShare { ss_Index : Z; ss_Value : Scalar }.

Definition randScalar (ikm : bytes) : res Scalar := must "bad randomness" (sk_KeyGen ikm).

(** One round of the loop of [evalPolyAt]: the accumulator and the power. *)
Definition eval_step (xs : Scalar) (st : Scalar * Scalar) (c : Scalar) : res (Scalar * Scalar) :=
  LET term <- checked fe_share (sk_mul c (snd st)) IN
  LET acc <- checked fe_share (sk_add (fst st) term) IN
  LET nxt <- checked fe_share (sk_mul (snd st) xs) IN
  inr (acc, nxt).

Definition evalPolyAt (coeffs : list Scalar) (x : Z) : res Scalar :=
  FAIL fe_params WHEN (length coeffs =? 0)%nat || (x <=? 0)%Z ELSE
  LET st <- fold_res (eval_step (scalarFromInt x)) coeffs (scalarFromInt 0, scalarFromInt 1) IN
  inr (fst st).

Definition commitmentsFromPoly (coeffs : list Scalar) : res (list bytes) :=
  FAIL fe_params WHEN (length coeffs =? 0)%nat ELSE
  inr (map (fun c => p1_compress (p1_mult p1_gen c)) coeffs).

Definition verify_step (xs : Scalar) (st : P1 * Scalar) (cBytes : bytes) : res (P1 * Scalar) :=
  LET p <- must fe_point (p1_uncompress cBytes) IN
  let acc := p1_add (fst st) (p1_mult p (snd st)) in
  LET nxt <- checked fe_share (sk_mul (snd st) xs) IN
  inr (acc, nxt).

Fixpoint bytes_eqb (a b : bytes) : bool :=
  match a, b with
  | [], [] => true
  | x :: a', y :: b' => Byte.eqb x y && bytes_eqb a' b'
  | _, _ => false
  end.

Definition verifyFeldmanShare (share : Scalar) (x : Z) (commitments : list bytes) : res bool :=
  FAIL fe_params WHEN (x <=? 0)%Z || (length commitments =? 0)%nat ELSE
  let lhs := p1_compress (p1_mult p1_gen share) in
  LET st <- fold_res (verify_step (scalarFromInt x)) commitments (p1_zero, scalarFromInt 1) IN
  inr (bytes_eqb lhs (p1_compress (fst st))).

(** The Lagrange loop of this package also rejects indices below one. *)
Definition lagrangeAtZeroScalar (i : Z) (indices : list Z) : res Scalar :=
  FAIL fe_params WHEN (i <=? 0)%Z || (length indices =? 0)%nat ELSE
  LET acc <- fold_res (fun acc j =>
      if (j =? i)%Z then inr acc else
      FAIL fe_params WHEN (j <=? 0)%Z ELSE
      lagrange_step fe_share i acc j) indices (scalarFromInt 1, scalarFromInt 1) IN
  checked fe_share (sk_mul (fst acc) (sk_Inverse (snd acc))).

Definition scalar_step (indices : list Z) (acc : Scalar) (s : scalarShare) : res Scalar :=
  LET coeff <- lagrangeAtZeroScalar (ss_Index s) indices IN
  LET term <- checked fe_share (sk_mul (ss_Value s) coeff) IN
  checked fe_share (sk_add acc term).

Definition combineScalarSharesAtZero (shares : list scalarShare) (k : Z) : res Scalar :=
  FAIL fe_params WHEN ((k <=? 0) || (Z.of_nat (length shares) <? k))%Z ELSE
  let shares := firstn (Z.to_nat k) (sort_by_index ss_Index shares) in
  FAIL fe_params WHEN negb (check_indices ss_Index (fun _ => true) [] shares) ELSE
  fold_res (scalar_step (map ss_Index shares)) shares (scalarFromInt 0).

(** ** What a participant of the distributed DKG computes at the end: the group
    key from the first commitments of the qualified dealers, and its share from
    the shares they dealt it (beast_runner_blst.go, [maybeFinalize]). *)
Definition qual_step (acc : P1) (com : list bytes) : res P1 :=
  LET p <- must fe_point (p1_uncompress (nth 0 com [])) IN
  inr (p1_add acc p).

Definition qual_public_key (coms : list (list bytes)) : res bytes :=
  LET acc <- fold_res qual_step coms p1_zero IN
  inr (p1_compress acc).

Definition qual_share (shares : list Scalar) : res bytes :=
  LET sum <- fold_res (fun acc s => checked fe_share (sk_add acc s)) shares (scalarFromInt 0) IN
  inr (sk_Serialize sum).

(** ** The in-memory DKG *)
Record dealer := mkDealer { dl_coeffs : list Scalar; dl_commitments : list bytes }.

(** Dealer [idx]; [ikm] gives the randomness of its coefficients. *)
Definition deal (t : Z) (ikm : nat -> bytes) : res dealer :=
  LET coeffs <- map_res (fun j => randScalar (ikm j)) (seq 0 (Z.to_nat t)) IN
  LET com <- commitmentsFromPoly coeffs IN
  inr (mkDealer coeffs com).

Definition pk_step (acc : P1) (d : dealer) : res P1 :=
  LET p <- must fe_point (p1_uncompress (nth 0 (dl_commitments d) [])) IN
  inr (p1_add acc p).

(** What participant [i] adds for one dealer. *)
Definition share_step (i : Z) (sum : Scalar) (d : dealer) : res Scalar :=
  LET si <- evalPolyAt (dl_coeffs d) i IN
  LET ok <- verifyFeldmanShare si i (dl_commitments d) IN
  FAIL fe_share WHEN negb ok ELSE
  checked fe_share (sk_add sum si).

Definition participant (dealers : list dealer) (i : Z) : res (Z * bytes) :=
  LET sum <- fold_res (share_step i) dealers (scalarFromInt 0) IN
  inr (i, sk_Serialize sum).

Definition SimulateFeldmanDKG (n t : Z) (ikm : nat -> nat -> bytes) : res (bytes * list (Z * bytes)) :=
  FAIL fe_params WHEN ((n <=? 0) || (t <=? 0) || (n <? t))%Z ELSE
  LET dealers <- map_res (fun idx => deal t (ikm idx)) (seq 1 (Z.to_nat n)) IN
  LET acc <- fold_res pk_step dealers p1_zero IN
  LET shares <- map_res (fun i => participant dealers (Z.of_nat i)) (seq 1 (Z.to_nat n)) IN
  inr (p1_compress acc, shares).
End feldman.

(** ** What verified sharing promises

    For the indices [ok]: a dealer's commitments are points of the right size,
    its own shares pass the check and survive serialization; and enough
    participants whose shares passed the check against the same commitments hold
    shares of a threshold scheme for the group key of these commitments. *)
Class VerifiedDKG {B : Blst} {G : AESGCM} (sha256 : bytes -> bytes) (ok : Z -> Prop) : Prop := {
  vd_commit coeffs com c :
    commitmentsFromPoly coeffs = inr com -> In c com -> length c = 48 /\ p1_uncompress c <> None;
  vd_dealt coeffs com i s :
    ok i -> commitmentsFromPoly coeffs = inr com -> evalPolyAt coeffs i = inr s ->
    verifyFeldmanShare s i com = inr true /\
    sk_Deserialize (sk_Serialize s) = Some s /\ length (sk_Serialize s) = 32;
  vd_threshold js t coms gpk (dealt : Z -> list Scalar) (sk : Z -> bytes) :
    (forall i, In i js -> ok i) -> NoDup js -> 0 < t <= length js ->
    coms <> [] -> (forall com, In com coms -> length com = t) -> qual_public_key coms = inr gpk ->
    (forall i, In i js ->
      Forall2 (fun s com => verifyFeldmanShare s i com = inr true) (dealt i) coms /\
      qual_share (dealt i) = inr (sk i)) ->
    exists hkey, ThresholdIBE sha256 gpk (Z.of_nat t) (fun i => In i js) sk hkey;
}.
