(* ===== verification/Runner.v ===== *)
(** The distributed BEAST DKG (src/internal/tss/dkg/beast_runner_blst.go): the
    state of a participant, its handlers for the messages of the committee, the
    retry loop, complaints and their resolution, finalization, and persistence.
    Each handler returns the new state and what it sends and stores. *)
From S2P Require Import CryptoOps Feldman.
From S2P Require Import Prelude Metrics Codec Files Sha256 Tss TssStores.

(** [wire.TSSDKG]. *)
Record TSSDKG := mkTSSDKG {
  dk_SessionID : string;
  dk_Epoch : N;
  dk_Type : string;
  dk_FromIndex : Z;
  dk_ToIndex : Z;
  dk_Commitments : list bytes;
  dk_Nonce : bytes;
  dk_Ciphertext : bytes;
  dk_Share : bytes;
  dk_Sig : bytes;
}.

Definition set_sig (m : TSSDKG) (sig : bytes) : TSSDKG :=
  mkTSSDKG (dk_SessionID m) (dk_Epoch m) (dk_Type m) (dk_FromIndex m) (dk_ToIndex m) (dk_Commitments m)
    (dk_Nonce m) (dk_Ciphertext m) (dk_Share m) sig.

(** crypto/ed25519 and crypto/ecdh. *)
Class DKGAuth := {
  ed_Sign : bytes → bytes → bytes;             (* private key, message *)
  ed_Verify : bytes → bytes → bytes → bool;    (* public key, message, signature *)
  X25519 : bytes → bytes → option bytes;       (* private key, peer's public key *)
}.

Record BeastDKGResult := mkResult {
  rs_Index : Z;
  rs_Threshold : Z;
  rs_GroupPubKey : bytes;
  rs_ShareScalar : bytes;
}.

Definition no_result : BeastDKGResult := mkResult 0 0 [] [].

(** The effects of a handler. A [Persist] and a [SaveKey] are writes of the
    session and key stores (TssStores.v), whose errors the runner ignores. *)
Inductive REffect :=
  | Send (m : TSSDKG)
  | Persist (st : beastSessionState)
  | SaveKey (ks : KeyShare)
  | RMetric (e : MEvent).

(** The messages among the effects. *)
Definition sends (es : list REffect) : list TSSDKG :=
  omap (λ x, match x with Send m => Some m | _ => None end) es.

Lemma sends_app es es' : sends (es ++ es') = sends es ++ sends es'.
Proof. apply omap_app. Qed.

(** What a handler reads of the world: the randomness of the coefficients, the
    nonce for each receiver, the clock. *)
Record REnv := mkREnv { re_ikm : nat → bytes; re_nonce : Z → bytes; re_now : Z }.

Section runner.
Context {B : Blst} {G : AESGCM} {A : DKGAuth} {J : Json TSSDKG}.
Context (cfg : BeastDKGConfig) (epochTimeout : Z).

Record BeastDKGRunner := mkRunner {
  rn_epoch : N;
  rn_coeffs : list Scalar;
  rn_selfCommitments : list bytes;
  rn_commitments : gmap Z (list bytes);
  rn_shares : gmap Z Scalar;                 (* dealer -> share for self *)
  rn_pendingShare : gmap Z TSSDKG;
  rn_pendingOpen : gmap Z TSSDKG;
  rn_acks : gmap Z (gset Z);
  rn_complaints : gmap Z (gset Z);
  rn_badDealers : gset Z;
  rn_done : bool;
  rn_finalizing : bool;
  rn_result : BeastDKGResult;
  rn_epochStart : Z;
}.

(** Record updates. *)
Definition set_poly (r : BeastDKGRunner) cs com start : BeastDKGRunner :=
  mkRunner (rn_epoch r) cs com (rn_commitments r) (rn_shares r) (rn_pendingShare r) (rn_pendingOpen r) (rn_acks r)
    (rn_complaints r) (rn_badDealers r) (rn_done r) (rn_finalizing r) (rn_result r) start.
Definition set_commitments (r : BeastDKGRunner) x : BeastDKGRunner :=
  mkRunner (rn_epoch r) (rn_coeffs r) (rn_selfCommitments r) x (rn_shares r) (rn_pendingShare r) (rn_pendingOpen r)
    (rn_acks r) (rn_complaints r) (rn_badDealers r) (rn_done r) (rn_finalizing r) (rn_result r) (rn_epochStart r).
Definition set_rshares (r : BeastDKGRunner) x : BeastDKGRunner :=
  mkRunner (rn_epoch r) (rn_coeffs r) (rn_selfCommitments r) (rn_commitments r) x (rn_pendingShare r) (rn_pendingOpen r)
    (rn_acks r) (rn_complaints r) (rn_badDealers r) (rn_done r) (rn_finalizing r) (rn_result r) (rn_epochStart r).
Definition set_pending (r : BeastDKGRunner) ps po : BeastDKGRunner :=
  mkRunner (rn_epoch r) (rn_coeffs r) (rn_selfCommitments r) (rn_commitments r) (rn_shares r) ps po
    (rn_acks r) (rn_complaints r) (rn_badDealers r) (rn_done r) (rn_finalizing r) (rn_result r) (rn_epochStart r).
Definition set_votes (r : BeastDKGRunner) acks complaints bad : BeastDKGRunner :=
  mkRunner (rn_epoch r) (rn_coeffs r) (rn_selfCommitments r) (rn_commitments r) (rn_shares r) (rn_pendingShare r)
    (rn_pendingOpen r) acks complaints bad (rn_done r) (rn_finalizing r) (rn_result r) (rn_epochStart r).
Definition set_final (r : BeastDKGRunner) done finalizing res : BeastDKGRunner :=
  mkRunner (rn_epoch r) (rn_coeffs r) (rn_selfCommitments r) (rn_commitments r) (rn_shares r) (rn_pendingShare r)
    (rn_pendingOpen r) (rn_acks r) (rn_complaints r) (rn_badDealers r) done finalizing res (rn_epochStart r).

(** A state with what was sent and stored so far, and running one more step. *)
Definition turn : Type := BeastDKGRunner * list REffect.
Definition andthen (t : turn) (k : BeastDKGRunner → turn) : turn :=
  let '(r, e) := t in let '(r', e') := k r in (r', e ++ e').
Notation "t ⋙ k" := (andthen t k) (at level 100, k at level 200, right associativity).
Definition ret (r : BeastDKGRunner) : turn := (r, []).

Definition dkg_metric (result : string) : REffect := RMetric (Inc "beast_dkg_total" [("result", result)]).

(** ** Construction and persistence *)
Definition NewBeastDKGRunner (now : Z) : BeastDKGRunner + string :=
  match BeastValidate cfg with
  | Some e => inr e
  | None => inl (mkRunner (if (bc_Epoch cfg =? 0)%N then 1 else bc_Epoch cfg) [] [] ∅ ∅ ∅ ∅ ∅ ∅ ∅
                   false false no_result now)
  end.

(** The forms of the parts in a session: scalars by their bytes, sets by the list
    of their elements, empty sets left out. *)
Definition scalarsToBytes (cs : list Scalar) : list bytes := sk_Serialize <$> cs.
Definition cloneScalarMap (m : gmap Z Scalar) : gmap Z bytes := sk_Serialize <$> m.
Definition cloneIndexSet (s : gset Z) : list Z := elements s.
Definition cloneIndexSetMap (m : gmap Z (gset Z)) : gmap Z (list Z) :=
  omap (λ s : gset Z, if ⌜? s = ∅ ⌝ then None else Some (elements s)) m.

Definition session_of (r : BeastDKGRunner) : beastSessionState :=
  mkBeastSession (rn_epoch r) (scalarsToBytes (rn_coeffs r)) (rn_selfCommitments r) (rn_commitments r)
    (cloneScalarMap (rn_shares r)) (cloneIndexSetMap (rn_acks r)) (cloneIndexSetMap (rn_complaints r))
    (cloneIndexSet (rn_badDealers r)) (rn_done r) (rs_GroupPubKey (rn_result r)) (rs_ShareScalar (rn_result r)).

Definition persistLocked (r : BeastDKGRunner) : turn :=
  (r, if ⌜? bc_SessionDir cfg = "" ⌝ then [] else [Persist (session_of r)]).

(** The votes of a stored session, added to those of the runner. *)
Definition add_votes (m : gmap Z (gset Z)) (st : gmap Z (list Z)) : gmap Z (gset Z) :=
  map_fold (λ dealer froms acc, <[dealer := list_to_set froms ∪ default ∅ (acc !! dealer)]> acc) m st.

(** [mapM] over [Deserialize], stopping at the first failure. *)
Fixpoint deserialize_all (bs : list bytes) : option (list Scalar) :=
  match bs with
  | [] => Some []
  | b :: bs' => sc ← sk_Deserialize b; scs ← deserialize_all bs'; Some (sc :: scs)
  end.

(** The stored progress, over that of the runner; [cs] are the stored coefficients. *)
Definition restored (r : BeastDKGRunner) (st : beastSessionState) (cs : list Scalar) : BeastDKGRunner :=
  mkRunner (bs_Epoch st)
    (if ⌜? bs_Coeffs st = [] ⌝ then rn_coeffs r else cs)
    (if ⌜? bs_SelfCommitments st = [] ⌝ then rn_selfCommitments r else bs_SelfCommitments st)
    (bs_Commitments st ∪
      if ⌜? bs_SelfCommitments st = [] ⌝ then rn_commitments r
      else <[bc_Index cfg := bs_SelfCommitments st]> (rn_commitments r))
    (omap sk_Deserialize (bs_Shares st) ∪ rn_shares r)
    (rn_pendingShare r) (rn_pendingOpen r)
    (add_votes (rn_acks r) (bs_Acks st)) (add_votes (rn_complaints r) (bs_Complaints st))
    (list_to_set (filter (λ d, (0 < d)%Z) (bs_Disqualified st)) ∪ rn_badDealers r)
    (rn_done r) (rn_finalizing r) (rn_result r) (rn_epochStart r).

(** With coefficients but no own share, the share is evaluated anew. *)
Definition ensure_self_share (r : BeastDKGRunner) : BeastDKGRunner :=
  match rn_coeffs r, rn_shares r !! bc_Index cfg, evalPolyAt (rn_coeffs r) (bc_Index cfg) with
  | _ :: _, None, inr sc => set_rshares r (<[bc_Index cfg := sc]> (rn_shares r))
  | _, _, _ => r
  end.

Definition set_epoch (r : BeastDKGRunner) (epoch : N) : BeastDKGRunner :=
  mkRunner epoch (rn_coeffs r) (rn_selfCommitments r) (rn_commitments r) (rn_shares r)
    (rn_pendingShare r) (rn_pendingOpen r) (rn_acks r) (rn_complaints r) (rn_badDealers r) (rn_done r)
    (rn_finalizing r) (rn_result r) (rn_epochStart r).

Definition restore (r : BeastDKGRunner) (st : beastSessionState) : BeastDKGRunner * goerr :=
  RETURN (r, Some fe_params) IF (bs_Epoch st =? 0)%N ;;
  RETURN (set_final (set_epoch r (bs_Epoch st)) true (rn_finalizing r)
            (mkResult (bc_Index cfg) (bc_Threshold cfg) (bs_GroupPubKey st) (bs_ShareScalar st)), nil_err)
    IF bs_Done st && ⌜? length (bs_ShareScalar st) = 32 ⌝ ;;
  match deserialize_all (bs_Coeffs st) with
  | None => (set_epoch r (bs_Epoch st), Some fe_share)
  | Some cs => (ensure_self_share (restored r st cs), nil_err)
  end.

(** ** Messages *)
Definition member (index : Z) : option BeastDKGMember :=
  List.find (λ m, (mb_Index m =? index)%Z) (bc_Committee cfg).

Definition signMessage (m : TSSDKG) : option TSSDKG :=
  if ⌜? length (bc_SigPriv cfg) ≠ 64 ⌝ then None
  else Some (set_sig m (ed_Sign (bc_SigPriv cfg) (marshal (set_sig m [])))).

Definition verifySig (m : TSSDKG) : bool :=
  match member (dk_FromIndex m) with
  | None => false
  | Some mem => ⌜? length (mb_SigPub mem) = 32 ⌝ && ed_Verify (mb_SigPub mem) (marshal (set_sig m [])) (dk_Sig m)
  end.

(** Sign and broadcast; a message that cannot be signed is dropped. *)
Definition send (m : TSSDKG) : list REffect :=
  match signMessage m with Some s => [Send s] | None => [] end.

Definition message (r : BeastDKGRunner) (typ : string) (to : Z) : TSSDKG :=
  mkTSSDKG (bc_SessionID cfg) (rn_epoch r) typ (bc_Index cfg) to [] [] [] [] [].

(** [uint32(v)], big-endian. *)
Definition be32 (v : Z) : bytes := be_encode 4 (Z.to_N (v mod 2 ^ 32)).

Definition deriveShareKey (r : BeastDKGRunner) (fromIndex toIndex : Z) : option bytes :=
  let self := bc_Index cfg in
  peer ← (if (fromIndex =? self)%Z && negb (toIndex =? self)%Z then Some toIndex
          else if (toIndex =? self)%Z && negb (fromIndex =? self)%Z then Some fromIndex
          else None);
  mem ← member peer;
  if ⌜? length (mb_EncPub mem) ≠ 32 ⌝ then None else
  shared ← X25519 (bc_EncPriv cfg) (mb_EncPub mem);
  Some (sha256 (str_bytes "EQS/BEAST/DKG/v1" ++ shared ++ str_bytes (bc_SessionID cfg) ++
          be_encode 8 (rn_epoch r) ++ be32 fromIndex ++ be32 toIndex)).

Definition encryptShare (key nonce pt : bytes) : option (bytes * bytes) :=
  if ⌜? length key ≠ 32 ⌝ then None else Some (nonce, Seal key nonce pt).

Definition decryptShare (key nonce ct : bytes) : option bytes :=
  if ⌜? length key ≠ 32 ⌝ then None else
  if ⌜? length nonce ≠ 12 ⌝ then None else Open key nonce ct.

(** ** Sending *)
Definition broadcastCommitments (r : BeastDKGRunner) : turn :=
  let m := message r "commitments" 0 in
  (r, send (mkTSSDKG (dk_SessionID m) (dk_Epoch m) (dk_Type m) (dk_FromIndex m) 0 (rn_selfCommitments r) [] [] [] [])).

(** The share message for participant [i], if it can be made. *)
Definition share_message (env : REnv) (r : BeastDKGRunner) (i : Z) : option TSSDKG :=
  match evalPolyAt (rn_coeffs r) i with
  | inl _ => None
  | inr sh =>
      key ← deriveShareKey r (bc_Index cfg) i;
      '(nonce, ct) ← encryptShare key (re_nonce env i) (sk_Serialize sh);
      let m := message r "share" i in
      Some (mkTSSDKG (dk_SessionID m) (dk_Epoch m) (dk_Type m) (dk_FromIndex m) i [] nonce ct [] [])
  end.

Definition broadcastMissingShares (env : REnv) (r : BeastDKGRunner) : turn :=
  let acks := default ∅ (rn_acks r !! bc_Index cfg) in
  (r, concat ((λ i,
    if (i =? bc_Index cfg)%Z || ⌜? i ∈ acks ⌝ || ⌜? length (rn_coeffs r) = 0 ⌝ then [] else
    match share_message env r i with Some m => send m | None => [] end) <$> seqZ 1 (bc_N cfg))).

Definition ensureLocalPoly (env : REnv) (r : BeastDKGRunner) : turn * goerr :=
  RETURN (ret r, nil_err) IF negb ⌜? length (rn_coeffs r) = 0 ⌝ && negb ⌜? rn_selfCommitments r = [] ⌝ ;;
  RETURN (ret r, Some "invalid sig_priv") IF ⌜? length (bc_SigPriv cfg) ≠ 64 ⌝ ;;
  RETURN (ret r, Some "invalid enc_priv") IF ⌜? length (bc_EncPriv cfg) ≠ 32 ⌝ ;;
  match map_res (λ j, randScalar (re_ikm env j)) (List.seq 0 (Z.to_nat (bc_Threshold cfg))) with
  | inl e => (ret r, Some e)
  | inr coeffs =>
      match commitmentsFromPoly coeffs with
      | inl e => (ret r, Some e)
      | inr com =>
          match evalPolyAt coeffs (bc_Index cfg) with
          | inl e => (ret r, Some e)
          | inr selfShare =>
              let r := set_poly r coeffs com (re_now env) in
              let r := set_commitments r (<[bc_Index cfg := com]> (rn_commitments r)) in
              let r := set_rshares r (<[bc_Index cfg := selfShare]> (rn_shares r)) in
              (persistLocked r, nil_err)
          end
      end
  end.

(** ** Epochs *)
Definition resetForEpochLocked (env : REnv) (epoch : N) : BeastDKGRunner :=
  mkRunner epoch [] [] ∅ ∅ ∅ ∅ ∅ ∅ ∅ false false no_result (re_now env).

Definition bumpEpoch (env : REnv) (epoch : N) (r : BeastDKGRunner) : turn :=
  RETURN ret r IF (epoch =? 0)%N ;;
  RETURN ret r IF rn_done r || (epoch <=? rn_epoch r)%N ;;
  persistLocked (resetForEpochLocked env epoch) ⋙ λ r,
  (r, [dkg_metric "epoch_bump"]) ⋙ λ r,
  (ensureLocalPoly env r).1 ⋙
  broadcastCommitments.

(** ** Finalization *)

(** The dealers a participant counts on, when it has all it needs of them. *)
Fixpoint qual_loop (r : BeastDKGRunner) (dealers : list Z) : option (list Z) :=
  match dealers with
  | [] => Some []
  | d :: ds =>
      RETURN qual_loop r ds IF ⌜? d ∈ rn_badDealers r ⌝ ;;
      RETURN None IF ⌜? default [] (rn_commitments r !! d) = [] ⌝ ;;
      RETURN None IF negb ⌜? default ∅ (rn_complaints r !! d) = ∅ ⌝ ;;
      RETURN None IF (Z.of_nat (size (default ∅ (rn_acks r !! d))) <? bc_N cfg - 1)%Z ;;
      match rn_shares r !! d with
      | None => None
      | Some _ => qual ← qual_loop r ds; Some (d :: qual)
      end
  end.

Definition qualified (r : BeastDKGRunner) : option (list Z) := qual_loop r (seqZ 1 (bc_N cfg)).

(** The group key and the own share that the qualified dealers give. *)
Definition final_values (r : BeastDKGRunner) (qual : list Z) : option (bytes * bytes) :=
  match qual_public_key ((λ d, default [] (rn_commitments r !! d)) <$> qual),
        qual_share (omap (λ d, rn_shares r !! d) qual) with
  | inr gpk, inr share => Some (gpk, share)
  | _, _ => None
  end.

(** The part of [maybeFinalize] under the first lock: nothing to do, a new
    epoch to start, or a key share to save. *)
Inductive FinalizeStep := Wait | Reshare (epoch : N) | Save (epoch : N) (gpk share : bytes).

Definition finalize_begin (r : BeastDKGRunner) : BeastDKGRunner * FinalizeStep :=
  RETURN (r, Wait) IF rn_done r || rn_finalizing r ;;
  RETURN (r, Reshare (u64_add (rn_epoch r) 1))
    IF (bc_N cfg - Z.of_nat (size (rn_badDealers r)) <? bc_Threshold cfg)%Z ;;
  match qualified r with
  | None => (r, Wait)
  | Some qual =>
      RETURN (r, Wait) IF (Z.of_nat (length qual) <? bc_Threshold cfg)%Z ;;
      match final_values r qual with
      | None => (r, Wait)
      | Some (gpk, share) => (set_final r (rn_done r) true (rn_result r), Save (rn_epoch r) gpk share)
      end
  end.

(** The part under the second lock, after the key share was saved. *)
Definition finalize_end (epoch : N) (gpk share : bytes) (r : BeastDKGRunner) : turn :=
  RETURN ret (set_final r (rn_done r) false (rn_result r)) IF rn_done r || ⌜? rn_epoch r ≠ epoch ⌝ ;;
  persistLocked (set_final r true (rn_finalizing r) (mkResult (bc_Index cfg) (bc_Threshold cfg) gpk share)) ⋙ λ r,
  (r, [dkg_metric "ok"]).

Definition key_share (gpk share : bytes) : KeyShare := mkKeyShare (bc_Index cfg) gpk share [].

Definition maybeFinalize (env : REnv) (r : BeastDKGRunner) : turn :=
  match finalize_begin r with
  | (r, Wait) => ret r
  | (r, Reshare epoch) => bumpEpoch env epoch r
  | (r, Save epoch gpk share) =>
      (r, [SaveKey (key_share gpk share)]) ⋙ finalize_end epoch gpk share
  end.

(** ** Handlers *)
Definition disqualifyDealerLocked (dealer : Z) (r : BeastDKGRunner) : turn :=
  RETURN ret r IF (dealer <=? 0)%Z || ⌜? dealer ∈ rn_badDealers r ⌝ ;;
  (set_votes r (rn_acks r) (delete dealer (rn_complaints r)) ({[dealer]} ∪ rn_badDealers r),
   [dkg_metric "dealer_disqualified"]).

Definition disqualify (dealer : Z) (r : BeastDKGRunner) : turn := disqualifyDealerLocked dealer r ⋙ persistLocked.

(** A commitment vector: the right length, and compressed points. *)
Definition commitment_ok (c : bytes) : bool :=
  ⌜? length c = 48 ⌝ && match p1_uncompress c with Some _ => true | None => false end.

Definition onCommitments (m : TSSDKG) (r : BeastDKGRunner) : turn :=
  RETURN ret r IF ⌜? dk_Commitments m = [] ⌝ ;;
  RETURN disqualify (dk_FromIndex m) r IF ⌜? Z.of_nat (length (dk_Commitments m)) ≠ bc_Threshold cfg ⌝ ;;
  RETURN disqualify (dk_FromIndex m) r IF negb (forallb commitment_ok (dk_Commitments m)) ;;
  RETURN ret r IF ⌜? dk_FromIndex m ∈ rn_badDealers r ⌝ ;;
  match rn_commitments r !! dk_FromIndex m with
  | Some _ => ret r
  | None => persistLocked (set_commitments r (<[dk_FromIndex m := dk_Commitments m]> (rn_commitments r)))
  end.

(** [bucket[from] = struct{}{}] and the removal of a complaint, which drops an
    empty set. *)
Definition add_vote (m : gmap Z (gset Z)) (dealer from : Z) : gmap Z (gset Z) :=
  <[dealer := {[from]} ∪ default ∅ (m !! dealer)]> m.

Definition drop_complaint (m : gmap Z (gset Z)) (dealer from : Z) : gmap Z (gset Z) :=
  match m !! dealer with
  | None => m
  | Some c => if ⌜? c ∖ {[from]} = ∅ ⌝ then delete dealer m else <[dealer := c ∖ {[from]}]> m
  end.

Definition broadcastAck (dealer : Z) (r : BeastDKGRunner) : turn :=
  persistLocked (set_votes r (add_vote (rn_acks r) dealer (bc_Index cfg))
    (drop_complaint (rn_complaints r) dealer (bc_Index cfg)) (rn_badDealers r)) ⋙ λ r,
  (r, send (message r "ack" dealer)).

Definition broadcastComplaint (dealer : Z) (r : BeastDKGRunner) : turn :=
  persistLocked (set_votes r (rn_acks r) (add_vote (rn_complaints r) dealer (bc_Index cfg)) (rn_badDealers r)) ⋙ λ r,
  (r, match signMessage (message r "complaint" dealer) with
      | None => []
      | Some s => [Send s; dkg_metric "complaint"]
      end).

(** A share that opens under the key and fits the commitments. *)
Definition open_share (r : BeastDKGRunner) (key : bytes) (m : TSSDKG) (com : list bytes) : option Scalar :=
  pt ← decryptShare key (dk_Nonce m) (dk_Ciphertext m);
  if ⌜? length pt ≠ 32 ⌝ then None else
  sc ← sk_Deserialize pt;
  match verifyFeldmanShare sc (bc_Index cfg) com with inr true => Some sc | _ => None end.

Definition onShare (m : TSSDKG) (r : BeastDKGRunner) : turn :=
  let from := dk_FromIndex m in
  RETURN ret r IF ⌜? from ∈ rn_badDealers r ⌝ ;;
  match default [] (rn_commitments r !! from) with
  | [] => ret (set_pending r (<[from := m]> (rn_pendingShare r)) (rn_pendingOpen r))
  | com =>
      match rn_shares r !! from with
      | Some _ => ret r
      | None =>
          match deriveShareKey r from (bc_Index cfg) with
          | None => ret r
          | Some key =>
              match open_share r key m com with
              | None => broadcastComplaint from r
              | Some sc =>
                  persistLocked (set_rshares (set_pending r (delete from (rn_pendingShare r)) (rn_pendingOpen r))
                    (<[from := sc]> (rn_shares r))) ⋙
                  broadcastAck from
              end
          end
      end
  end.

Definition onAck (m : TSSDKG) (r : BeastDKGRunner) : turn :=
  let dealer := dk_ToIndex m in
  RETURN ret r IF (dealer <=? 0)%Z || (bc_N cfg <? dealer)%Z ;;
  RETURN ret r IF ⌜? dealer ∈ rn_badDealers r ⌝ ;;
  persistLocked (set_votes r (add_vote (rn_acks r) dealer (dk_FromIndex m))
    (drop_complaint (rn_complaints r) dealer (dk_FromIndex m)) (rn_badDealers r)).

Definition broadcastShareOpen (toIndex : Z) (r : BeastDKGRunner) : turn :=
  RETURN ret r IF (toIndex <=? 0)%Z || (bc_N cfg <? toIndex)%Z || (toIndex =? bc_Index cfg)%Z ;;
  RETURN ret r IF ⌜? length (rn_coeffs r) = 0 ⌝ ;;
  match evalPolyAt (rn_coeffs r) toIndex with
  | inl _ => ret r
  | inr sh =>
      let m := message r "share_open" toIndex in
      (r, send (mkTSSDKG (dk_SessionID m) (dk_Epoch m) (dk_Type m) (dk_FromIndex m) toIndex [] [] []
                  (sk_Serialize sh) []))
  end.

Definition onComplaint (m : TSSDKG) (r : BeastDKGRunner) : turn :=
  let dealer := dk_ToIndex m in
  RETURN ret r IF (dealer <=? 0)%Z || (bc_N cfg <? dealer)%Z ;;
  RETURN broadcastShareOpen (dk_FromIndex m) r IF (dealer =? bc_Index cfg)%Z ;;
  RETURN ret r IF ⌜? dealer ∈ rn_badDealers r ⌝ ;;
  persistLocked (set_votes r (rn_acks r) (add_vote (rn_complaints r) dealer (dk_FromIndex m)) (rn_badDealers r)).

(** The end of [onShareOpen], for an opened share that fits the commitments. *)
Definition accept_open (from to : Z) (sc : Scalar) (r : BeastDKGRunner) : turn :=
  let shares := if (to =? bc_Index cfg)%Z then
                  match rn_shares r !! from with Some _ => rn_shares r | None => <[from := sc]> (rn_shares r) end
                else rn_shares r in
  persistLocked (set_rshares (set_votes (set_pending r (rn_pendingShare r) (delete from (rn_pendingOpen r)))
    (rn_acks r) (drop_complaint (rn_complaints r) from to) (rn_badDealers r)) shares) ⋙ λ r,
  if (to =? bc_Index cfg)%Z then broadcastAck from r else ret r.

Definition onShareOpen (m : TSSDKG) (r : BeastDKGRunner) : turn :=
  let from := dk_FromIndex m in
  let to := dk_ToIndex m in
  RETURN ret r IF (to <=? 0)%Z || (bc_N cfg <? to)%Z ;;
  RETURN disqualify from r IF ⌜? length (dk_Share m) ≠ 32 ⌝ ;;
  RETURN ret r IF ⌜? from ∈ rn_badDealers r ⌝ ;;
  match default [] (rn_commitments r !! from) with
  | [] => ret (set_pending r (rn_pendingShare r) (<[from := m]> (rn_pendingOpen r)))
  | com =>
      match sk_Deserialize (dk_Share m) with
      | None => disqualify from r
      | Some sc =>
          match verifyFeldmanShare sc to com with
          | inr true => accept_open from to sc r
          | _ => disqualify from r
          end
      end
  end.

Definition tryProcessPending (dealer : Z) (r : BeastDKGRunner) : turn :=
  match rn_pendingShare r !! dealer with Some m => onShare m r | None => ret r end ⋙ λ r,
  match rn_pendingOpen r !! dealer with Some m => onShareOpen m r | None => ret r end.

(** The dispatch of [OnMessage], for an authenticated message of the epoch. *)
Definition dispatch (env : REnv) (m : TSSDKG) (r : BeastDKGRunner) : turn :=
  if ⌜? dk_Type m = "commitments" ⌝ then
    onCommitments m r ⋙ λ r, tryProcessPending (dk_FromIndex m) r ⋙ λ r,
    broadcastMissingShares env r ⋙ maybeFinalize env
  else if ⌜? dk_Type m = "share" ⌝ then
    RETURN ret r IF negb (dk_ToIndex m =? bc_Index cfg)%Z ;;
    onShare m r ⋙ maybeFinalize env
  else if ⌜? dk_Type m = "share_open" ⌝ then onShareOpen m r ⋙ maybeFinalize env
  else if ⌜? dk_Type m = "ack" ⌝ then onAck m r ⋙ maybeFinalize env
  else if ⌜? dk_Type m = "complaint" ⌝ then onComplaint m r ⋙ maybeFinalize env
  else ret r.

Definition OnMessage (env : REnv) (m : TSSDKG) (r : BeastDKGRunner) : turn :=
  RETURN ret r IF negb ⌜? dk_SessionID m = bc_SessionID cfg ⌝ || (dk_Epoch m =? 0)%N ;;
  RETURN ret r IF (dk_FromIndex m <=? 0)%Z || (bc_N cfg <? dk_FromIndex m)%Z ||
                  (dk_FromIndex m =? bc_Index cfg)%Z || ⌜? dk_Type m = "" ⌝ ;;
  RETURN (r, [dkg_metric "bad_sig"]) IF negb (verifySig m) ;;
  RETURN ret r IF rn_done r || (dk_Epoch m <? rn_epoch r)%N ;;
  (if (rn_epoch r <? dk_Epoch m)%N then bumpEpoch env (dk_Epoch m) r else ret r) ⋙ λ r,
  if (dk_Epoch m =? rn_epoch r)%N then dispatch env m r else ret r.

(** One tick of [retryLoop]; times in nanoseconds. *)
Definition tick (env : REnv) (r : BeastDKGRunner) : turn :=
  RETURN ret r IF rn_done r ;;
  RETURN bumpEpoch env (u64_add (rn_epoch r) 1) r
    IF (0 <? epochTimeout)%Z && (epochTimeout <? re_now env - rn_epochStart r)%Z ;;
  broadcastCommitments r ⋙ broadcastMissingShares env.

(** The options of the constructor: an interval that is not positive is ignored. *)
Definition with_interval (d cur : Z) : Z := if (0 <? d)%Z then d else cur.

(** What [Result] gives its caller. *)
Definition Result (r : BeastDKGRunner) : option BeastDKGResult := if rn_done r then Some (rn_result r) else None.

(** [Start] without a key share on disk: resume, deal, announce. *)
Definition start_fresh (env : REnv) (st : option beastSessionState) (r : BeastDKGRunner) : turn * goerr :=
  let r := match st with
           | Some st => if ⌜? bc_SessionDir cfg = "" ⌝ then r else (restore r st).1
           | None => r
           end in
  match ensureLocalPoly env r with
  | (t, Some e) => (t, Some e)
  | (t, None) => (t ⋙ broadcastCommitments, nil_err)
  end.

(** [Start], for what the key store and the session store hold; the second
    component is the error. *)
Definition Start (env : REnv) (ks : option KeyShare) (st : option beastSessionState) (r : BeastDKGRunner)
    : turn * goerr :=
  match ks with
  | Some k =>
      if ⌜? length (ks_PrivateKey k) = 32 ⌝ then
        ((set_final r true (rn_finalizing r)
            (mkResult (bc_Index cfg) (bc_Threshold cfg) (ks_PublicKey k) (ks_PrivateKey k)),
          [dkg_metric "skip"]), nil_err)
      else start_fresh env st r
  | None => start_fresh env st r
  end.

(** ** Runs: messages from anyone, in any order, and ticks *)
Inductive REvent := RMessage (env : REnv) (m : TSSDKG) | RTick (env : REnv).

Definition runner_step (r : BeastDKGRunner) (e : REvent) : turn :=
  match e with
  | RMessage env m => OnMessage env m r
  | RTick env => tick env r
  end.
End runner.

(** ** The invariant of a participant *)
Section invariant.
Context {B : Blst} {G : AESGCM} {A : DKGAuth} {J : Json TSSDKG}.
Context (cfg : BeastDKGConfig) (epochTimeout : Z).
Notation self := (bc_Index cfg).

(** Accepted commitments are well formed; every share it holds fits the
    commitments of its dealer; what it deals itself is one polynomial; and
    parked messages are from the dealer they are parked under. *)
Record runner_ok (r : BeastDKGRunner) : Prop := {
  ro_commitments d com : rn_commitments r !! d = Some com →
    com ≠ [] ∧ (d ≠ self → Z.of_nat (length com) = bc_Threshold cfg ∧ forallb commitment_ok com = true);
  ro_shares d sc : rn_shares r !! d = Some sc → d ≠ self →
    ∃ com, rn_commitments r !! d = Some com ∧ verifyFeldmanShare sc self com = inr true;
  ro_self : (rn_coeffs r = [] ∧ rn_selfCommitments r = [] ∧ rn_commitments r !! self = None ∧ rn_shares r !! self = None) ∨
    (Z.of_nat (length (rn_coeffs r)) = bc_Threshold cfg ∧
     commitmentsFromPoly (rn_coeffs r) = inr (rn_selfCommitments r) ∧
     rn_commitments r !! self = Some (rn_selfCommitments r) ∧
     ∃ sc, evalPolyAt (rn_coeffs r) self = inr sc ∧ rn_shares r !! self = Some sc);
  ro_pending d m : rn_pendingShare r !! d = Some m ∨ rn_pendingOpen r !! d = Some m →
    dk_FromIndex m = d ∧ d ≠ self;
  ro_bad d : d ∈ rn_badDealers r → (0 < d)%Z;
}.

Definition active (r : BeastDKGRunner) : Prop := runner_ok r ∧ rn_done r = false.

(** A step that keeps the invariant, does not finish the run and stays in the epoch. *)
Definition keeps (k : BeastDKGRunner → turn) : Prop :=
  ∀ r, active r → active (k r).1 ∧ rn_epoch (k r).1 = rn_epoch r.

Lemma fst_andthen t k : (andthen t k).1 = (k t.1).1.
Proof. destruct t as [r e]. simpl. by destruct (k r). Qed.

Lemma snd_andthen t k : (andthen t k).2 = t.2 ++ (k t.1).2.
Proof. destruct t as [r e]. simpl. by destruct (k r). Qed.

Lemma fst_persist r : (persistLocked cfg r).1 = r.
Proof. done. Qed.

Lemma keeps_ret : keeps ret.
Proof. by intros r H. Qed.

Lemma keeps_andthen k1 k2 : keeps k1 → keeps k2 → keeps (λ r, andthen (k1 r) k2).
Proof.
  intros H1 H2 r H. rewrite fst_andthen. destruct (H1 r H) as [Ha He]. destruct (H2 _ Ha) as [Ha2 He2].
  split; [done|congruence].
Qed.

Lemma keeps_votes r acks complaints bad :
  active r → (∀ d, d ∈ bad → (0 < d)%Z) → active (set_votes r acks complaints bad).
Proof. intros [[H1 H2 H3 H4 H5] Hd] Hb. by split. Qed.

Lemma keeps_votes_only r acks complaints :
  active r → active (set_votes r acks complaints (rn_badDealers r)).
Proof. intros H. apply keeps_votes; [done|]. apply (ro_bad r (proj1 H)). Qed.

Lemma keeps_pending r ps po :
  active r → (∀ d m, ps !! d = Some m ∨ po !! d = Some m → dk_FromIndex m = d ∧ d ≠ self) →
  active (set_pending r ps po).
Proof. intros [[H1 H2 H3 H4 H5] Hd] Hp. by split. Qed.

Lemma keeps_commitments r d com :
  active r → d ≠ self → rn_commitments r !! d = None →
  Z.of_nat (length com) = bc_Threshold cfg → com ≠ [] → forallb commitment_ok com = true →
  active (set_commitments r (<[d := com]> (rn_commitments r))).
Proof.
  intros [[H1 H2 H3 H4 H5] Hd] Hne Hnone Hl Hcne Hok. split; [|done]. split; cbn.
  - intros d' com'. destruct (decide (d' = d)) as [->|]; [|rewrite lookup_insert_ne by done; apply H1].
    rewrite lookup_insert_eq. by intros [= <-].
  - intros d' sc Hs Hself. destruct (H2 d' sc Hs Hself) as (com' & Hc & Hv).
    exists com'. split; [|done]. rewrite lookup_insert_ne; [done|]. intros ->. congruence.
  - by rewrite lookup_insert_ne by done.
  - done.
  - done.
Qed.

Lemma keeps_share r d sc com :
  active r → d ≠ self → rn_commitments r !! d = Some com → verifyFeldmanShare sc self com = inr true →
  active (set_rshares r (<[d := sc]> (rn_shares r))).
Proof.
  intros [[H1 H2 H3 H4 H5] Hd] Hne Hc Hv. split; [|done]. split; cbn; [done| | |done|done].
  - intros d' sc'. destruct (decide (d' = d)) as [->|]; [|rewrite lookup_insert_ne by done; apply H2].
    rewrite lookup_insert_eq. intros [= <-] _. by exists com.
  - by rewrite lookup_insert_ne by done.
Qed.

Lemma keeps_disqualify d : keeps (disqualify cfg d).
Proof.
  intros r H. unfold disqualify, disqualifyDealerLocked. destruct (_ || _) eqn:E; [done|].
  guards. split; [|done]. apply keeps_votes; [done|]. intros d' [->%elem_of_singleton|Hd]%elem_of_union; [lia|].
  by apply (ro_bad r (proj1 H)).
Qed.

Lemma keeps_onCommitments m : dk_FromIndex m ≠ self → keeps (onCommitments cfg m).
Proof.
  intros Hne r H. unfold onCommitments. case_bool_decide as Hnil; [done|].
  case_bool_decide as Hl; [by apply keeps_disqualify|].
  destruct (forallb _ _) eqn:Hok; [|by apply keeps_disqualify]. cbn [negb].
  case_bool_decide; [done|]. destruct (rn_commitments r !! dk_FromIndex m) eqn:E; [done|].
  split; [|done]. rewrite fst_persist. by apply keeps_commitments.
Qed.

Lemma keeps_ack d : keeps (broadcastAck cfg d).
Proof. intros r H. unfold broadcastAck. rewrite fst_andthen. split; [by apply keeps_votes_only|done]. Qed.

Lemma keeps_complaint d : keeps (broadcastComplaint cfg d).
Proof. intros r H. unfold broadcastComplaint. rewrite fst_andthen. split; [by apply keeps_votes_only|done]. Qed.

Lemma open_share_verified r key m com sc :
  open_share cfg r key m com = Some sc → verifyFeldmanShare sc self com = inr true.
Proof.
  unfold open_share. intros H. apply bind_Some in H as (pt & _ & H). case_bool_decide; [done|].
  apply bind_Some in H as (sc' & _ & H). by repeat case_match; simplify_eq.
Qed.

Lemma default_cons {X} (o : option (list X)) x l : default [] o = x :: l → o = Some (x :: l).
Proof. destruct o; by intros [= ->] || done. Qed.

Lemma keeps_onShare m : dk_FromIndex m ≠ self → keeps (onShare cfg m).
Proof.
  intros Hne r H. unfold onShare. case_bool_decide; [done|].
  destruct (default [] (rn_commitments r !! dk_FromIndex m)) as [|c com] eqn:Ec.
  { split; [|done]. apply keeps_pending; [done|]. intros d m' [Hin|Hin].
    - destruct (decide (d = dk_FromIndex m)) as [->|].
      + rewrite lookup_insert_eq in Hin. by injection Hin as <-.
      + rewrite lookup_insert_ne in Hin by done. apply (ro_pending r (proj1 H)). by left.
    - apply (ro_pending r (proj1 H)). by right. }
  apply default_cons in Ec. destruct (rn_shares r !! dk_FromIndex m) eqn:Es; [done|].
  destruct (deriveShareKey cfg r _ _) as [key|]; [|done].
  destruct (open_share cfg r key m (c :: com)) as [sc|] eqn:Eo; [|by apply keeps_complaint].
  apply open_share_verified in Eo. rewrite fst_andthen, fst_persist.
  set (r' := set_pending r (delete (dk_FromIndex m) (rn_pendingShare r)) (rn_pendingOpen r)).
  assert (active r') as Hr'.
  { apply keeps_pending; [done|]. intros d m' [[_ Hin]%lookup_delete_Some|Hin];
      apply (ro_pending r (proj1 H)); auto. }
  destruct (keeps_ack (dk_FromIndex m) _ (keeps_share r' (dk_FromIndex m) sc _ Hr' Hne Ec Eo)) as [Ha He].
  split; [exact Ha|exact He].
Qed.

Lemma keeps_onAck m : keeps (onAck cfg m).
Proof.
  intros r H. unfold onAck. destruct (_ || _); [done|]. case_bool_decide; [done|].
  split; [by apply keeps_votes_only|done].
Qed.

Lemma broadcastShareOpen_state to r : (broadcastShareOpen cfg to r).1 = r.
Proof. unfold broadcastShareOpen. destruct (_ || _); [done|]. case_bool_decide; [done|]. by destruct (evalPolyAt _ _). Qed.

Lemma keeps_onComplaint m : keeps (onComplaint cfg m).
Proof.
  intros r H. unfold onComplaint. destruct (_ || _); [done|].
  destruct (_ =? _)%Z; [by rewrite broadcastShareOpen_state|]. case_bool_decide; [done|].
  split; [by apply keeps_votes_only|done].
Qed.

Lemma keeps_accept_open from to sc com r :
  active r → from ≠ self → rn_commitments r !! from = Some com → verifyFeldmanShare sc to com = inr true →
  active (accept_open cfg from to sc r).1 ∧ rn_epoch (accept_open cfg from to sc r).1 = rn_epoch r.
Proof.
  intros H Hne Hc Hv. unfold accept_open. rewrite fst_andthen, fst_persist.
  set (r1 := set_votes _ _ _ _).
  assert (active r1) as H1.
  { apply (keeps_votes_only (set_pending r (rn_pendingShare r) (delete from (rn_pendingOpen r)))), keeps_pending; [done|]. intros d m' [Hin|[_ Hin]%lookup_delete_Some];
      apply (ro_pending r (proj1 H)); auto. }
  match goal with |- context [set_rshares r1 ?s] => set (shares := s) end.
  assert (active (set_rshares r1 shares)) as H2.
  { unfold shares. destruct (Z.eqb_spec to self) as [->|_].
    - destruct (rn_shares r !! from) eqn:Es.
      + destruct H1 as [[] ?]. by split.
      + by apply (keeps_share r1 from sc com).
    - destruct H1 as [[] ?]. by split. }
  destruct (to =? self)%Z; [|done]. destruct (keeps_ack from _ H2) as [Ha He]. split; [done|]. by rewrite He.
Qed.

Lemma keeps_onShareOpen m : dk_FromIndex m ≠ self → keeps (onShareOpen cfg m).
Proof.
  intros Hne r H. unfold onShareOpen. destruct (_ || _); [done|].
  case_bool_decide; [by apply keeps_disqualify|]. case_bool_decide; [done|].
  destruct (default [] (rn_commitments r !! dk_FromIndex m)) as [|c com] eqn:Ec.
  { split; [|done]. apply keeps_pending; [done|]. intros d m' [Hin|Hin].
    - apply (ro_pending r (proj1 H)). by left.
    - destruct (decide (d = dk_FromIndex m)) as [->|].
      + rewrite lookup_insert_eq in Hin. by injection Hin as <-.
      + rewrite lookup_insert_ne in Hin by done. apply (ro_pending r (proj1 H)). by right. }
  apply default_cons in Ec. destruct (sk_Deserialize _) as [sc|]; [|by apply keeps_disqualify].
  destruct (verifyFeldmanShare sc (dk_ToIndex m) (c :: com)) as [|[|]] eqn:Ev;
    [by apply keeps_disqualify|by eapply keeps_accept_open|by apply keeps_disqualify].
Qed.

Lemma keeps_tryProcessPending d : keeps (tryProcessPending cfg d).
Proof.
  apply keeps_andthen.
  - intros r H. destruct (rn_pendingShare r !! d) as [m|] eqn:E; [|done].
    destruct (ro_pending r (proj1 H) d m (or_introl E)) as [<- ?]. by apply keeps_onShare.
  - intros r H. destruct (rn_pendingOpen r !! d) as [m|] eqn:E; [|done].
    destruct (ro_pending r (proj1 H) d m (or_intror E)) as [<- ?]. by apply keeps_onShareOpen.
Qed.

Lemma keeps_missing env : keeps (broadcastMissingShares cfg env).
Proof. by intros r H. Qed.

(** ** Epochs and the local polynomial *)
Context (valid : BeastValidate cfg = nil_err).

Lemma threshold_pos : (0 < bc_Threshold cfg <= bc_N cfg)%Z.
Proof.
  revert valid. unfold BeastValidate. intros H. case_bool_decide; [done|].
  destruct (bc_N cfg <=? 0)%Z; [done|]. destruct (_ || _) eqn:E; [done|]. guards. lia.
Qed.

Lemma ensure_active env r : active r → active (ensureLocalPoly cfg env r).1.1 ∧
  rn_epoch (ensureLocalPoly cfg env r).1.1 = rn_epoch r.
Proof.
  intros [Hok Hd]. unfold ensureLocalPoly.
  destruct (ro_self r Hok) as [(Hc & _ & Hcom & Hsh)|(Hl & Hcom & _)].
  - rewrite Hc. cbn [length]. rewrite (bool_decide_true (0 = 0)) by done. cbn [negb andb].
    case_bool_decide; [done|]. case_bool_decide; [done|].
    destruct (map_res _ _) as [|coeffs] eqn:Em; [done|]. apply length_map_res in Em. rewrite length_seq in Em.
    destruct (commitmentsFromPoly coeffs) as [|com] eqn:Ecom; [done|].
    destruct (evalPolyAt coeffs self) as [|sc] eqn:Ee; [done|]. cbn [fst persistLocked].
    pose proof threshold_pos as Ht. assert (com ≠ []) as Hne.
    { revert Ecom. unfold commitmentsFromPoly. destruct coeffs; [done|]. by intros [= <-]. }
    split; [|done]. split; [|done]. destruct Hok as [H1 H2 H3 H4 H5]. split; cbn.
    + intros d com'. destruct (decide (d = self)) as [->|]; [|rewrite lookup_insert_ne by done; apply H1].
      rewrite lookup_insert_eq. by intros [= <-].
    + intros d sc' Hs Hself. rewrite lookup_insert_ne in Hs by done.
      destruct (H2 d sc' Hs Hself) as (com' & ? & ?). exists com'. by rewrite lookup_insert_ne.
    + right. rewrite !lookup_insert_eq. repeat split; [lia|done|]. by exists sc.
    + done.
    + done.
  - pose proof threshold_pos. rewrite (bool_decide_false (length (rn_coeffs r) = 0)) by lia.
    rewrite bool_decide_false; [done|]. intros Hnil. revert Hcom. unfold commitmentsFromPoly. rewrite Hnil.
    destruct (rn_coeffs r); [done|]. by intros [=].
Qed.

Lemma reset_active env epoch : active (resetForEpochLocked env epoch).
Proof.
  split; [|done]. split; cbn.
  - intros d com H. by rewrite lookup_empty in H.
  - intros d sc H. by rewrite lookup_empty in H.
  - left. by rewrite !lookup_empty.
  - intros d m [H|H]; by rewrite lookup_empty in H.
  - intros d H. by apply elem_of_empty in H.
Qed.

(** A new epoch starts from scratch, with a polynomial of its own if it can. *)
Lemma bump_active env epoch r :
  active r → active (bumpEpoch cfg env epoch r).1 ∧
  rn_epoch (bumpEpoch cfg env epoch r).1 = if (epoch <=? rn_epoch r)%N then rn_epoch r else epoch.
Proof.
  intros H. unfold bumpEpoch. destruct (N.eqb_spec epoch 0) as [->|_].
  { split; [done|]. by destruct (N.leb_spec 0 (rn_epoch r)); [|lia]. }
  rewrite (proj2 H). cbn [orb]. destruct (epoch <=? rn_epoch r)%N; [done|].
  rewrite !fst_andthen, fst_persist. cbn [fst broadcastCommitments].
  destruct (ensure_active env _ (reset_active env epoch)) as [Ha He]. split; [done|]. by rewrite He.
Qed.

(** How an epoch may change: forward, and, unless a message names a larger one,
    within 64 bits. *)
Definition epoch_ok (lim : Prop) (e e' : N) : Prop := (e <= e')%N ∧ (lim → is_u64 e → is_u64 e').

Lemma epoch_ok_refl lim e : epoch_ok lim e e.
Proof. by split. Qed.

Lemma epoch_ok_trans (lim : Prop) e1 e2 e3 : epoch_ok lim e1 e2 → epoch_ok lim e2 e3 → epoch_ok lim e1 e3.
Proof. intros [H1 H2] [H3 H4]. split; [lia|auto]. Qed.

Lemma epoch_ok_weaken (lim lim' : Prop) e e' : (lim' → lim) → epoch_ok lim e e' → epoch_ok lim' e e'.
Proof. intros H [H1 H2]. split; auto. Qed.

Lemma epoch_ok_bump (e epoch : N) : epoch_ok (is_u64 epoch) e (if (epoch <=? e)%N then e else epoch).
Proof. destruct (N.leb_spec epoch e); split; auto; lia. Qed.
#[local] Hint Resolve epoch_ok_refl : core.

(** ** Finalization *)

(** A finished run: every dealer that is not disqualified has its commitments
    accepted, no complaint open, the acknowledgements of N-1 participants and a
    share held; and the result is what these dealers give. *)
Definition finished (r : BeastDKGRunner) : Prop :=
  ∃ qual gpk share,
    qualified cfg r = Some qual ∧ (bc_Threshold cfg <= Z.of_nat (length qual))%Z ∧
    final_values r qual = Some (gpk, share) ∧
    rn_result r = mkResult self (bc_Threshold cfg) gpk share.

Definition runner_inv (r : BeastDKGRunner) : Prop := runner_ok r ∧ (rn_done r = true → finished r).

Lemma qual_loop_final r done finalizing res ds :
  qual_loop cfg (set_final r done finalizing res) ds = qual_loop cfg r ds.
Proof. induction ds as [|d ds IH]; simpl; [done|]. by rewrite IH. Qed.

Lemma final_ok r done finalizing res : runner_ok r → runner_ok (set_final r done finalizing res).
Proof. intros [H1 H2 H3 H4 H5]. by split. Qed.

Lemma active_inv r : active r → runner_inv r.
Proof. intros [H Hd]. split; [done|]. by rewrite Hd. Qed.

Lemma finalize_inv env r :
  active r → let r' := (maybeFinalize cfg env r).1 in
  runner_inv r' ∧ epoch_ok True (rn_epoch r) (rn_epoch r').
Proof.
  intros H. cbv zeta. unfold maybeFinalize, finalize_begin. rewrite (proj2 H). cbn [orb].
  destruct (rn_finalizing r); [split; [by apply active_inv|done]|].
  destruct (_ <? bc_Threshold cfg)%Z.
  { destruct (bump_active env (u64_add (rn_epoch r) 1) r H) as [Ha He]. split; [by apply active_inv|].
    rewrite He. eapply epoch_ok_weaken, epoch_ok_bump. intros _. apply u64_range. }
  destruct (qualified cfg r) as [qual|] eqn:Eq; [|split; [by apply active_inv|done]].
  destruct (Z.ltb_spec (Z.of_nat (length qual)) (bc_Threshold cfg)); [split; [by apply active_inv|done]|].
  destruct (final_values r qual) as [[gpk share]|] eqn:Ef; [|split; [by apply active_inv|done]].
  rewrite fst_andthen. unfold finalize_end. cbn [fst rn_done set_final rn_epoch].
  cbn [orb]. rewrite bool_decide_false by (by intros []). cbn [orb]. rewrite fst_andthen, fst_persist. cbn [fst].
  split; [|done]. split; [by apply final_ok, final_ok, H|]. intros _.
  exists qual, gpk, share. split_and!; [|done|exact Ef|done].
  unfold qualified. by rewrite !qual_loop_final.
Qed.

Lemma keeps_then_finalize env k r :
  keeps k → active r →
  let r' := (andthen (k r) (maybeFinalize cfg env)).1 in runner_inv r' ∧ epoch_ok True (rn_epoch r) (rn_epoch r').
Proof.
  intros Hk H. rewrite fst_andthen. destruct (Hk r H) as [Ha He]. rewrite <-He. by apply finalize_inv.
Qed.

Lemma dispatch_inv env m r :
  active r → dk_FromIndex m ≠ self →
  let r' := (dispatch cfg env m r).1 in runner_inv r' ∧ epoch_ok True (rn_epoch r) (rn_epoch r').
Proof.
  intros H Hne. unfold dispatch.
  repeat (case_bool_decide; [|]); try (by apply keeps_then_finalize; auto using
    keeps_onShareOpen, keeps_onAck, keeps_onComplaint).
  - apply (keeps_then_finalize env (λ r, andthen (onCommitments cfg m r) (λ r,
      andthen (tryProcessPending cfg (dk_FromIndex m) r) (broadcastMissingShares cfg env))) r) in H as H'.
    + revert H'. rewrite !fst_andthen. done.
    + apply keeps_andthen; [by apply keeps_onCommitments|].
      apply keeps_andthen; [apply keeps_tryProcessPending|apply keeps_missing].
  - destruct (dk_ToIndex m =? self)%Z; simpl.
    + apply keeps_then_finalize; [by apply keeps_onShare|done].
    + split; [by apply active_inv|done].
  - simpl. split; [by apply active_inv|done].
Qed.

Lemma OnMessage_inv env m r :
  runner_inv r → let r' := (OnMessage cfg env m r).1 in
  runner_inv r' ∧ epoch_ok (is_u64 (dk_Epoch m)) (rn_epoch r) (rn_epoch r') ∧ (rn_done r = true → r' = r).
Proof.
  intros H. unfold OnMessage. destruct (_ || _); [done|]. destruct (_ || _) eqn:Ef; [done|].
  destruct (negb (verifySig cfg m)); [done|]. destruct (rn_done r) eqn:Ed; [done|].
  destruct (dk_Epoch m <? rn_epoch r)%N; [done|]. cbn [orb]. guards.
  assert (active r) as Ha by (split; [apply H|done]).
  rewrite fst_andthen. match goal with |- context [if (rn_epoch r <? dk_Epoch m)%N then ?x else ?y] => set (r1 := (if (rn_epoch r <? dk_Epoch m)%N then x else y).1) end.
  assert (active r1 ∧ epoch_ok (is_u64 (dk_Epoch m)) (rn_epoch r) (rn_epoch r1)) as [Hr1 He].
  { unfold r1. destruct (_ <? _)%N; [|done]. destruct (bump_active env (dk_Epoch m) r Ha) as [Hb ->].
    split; [done|]. apply epoch_ok_bump. }
  destruct (_ =? _)%N.
  - destruct (dispatch_inv env m r1 Hr1) as [Hi He2]; [done|]. split; [done|]. split; [|done]. eapply epoch_ok_trans, epoch_ok_weaken, He2; done.
  - cbn [fst ret]. split; [by apply active_inv|done].
Qed.

Lemma tick_inv env r :
  runner_inv r → let r' := (tick cfg epochTimeout env r).1 in
  runner_inv r' ∧ epoch_ok True (rn_epoch r) (rn_epoch r') ∧ (rn_done r = true → r' = r).
Proof.
  intros H. unfold tick. destruct (rn_done r) eqn:Ed; [done|].
  assert (active r) as Ha by (split; [apply H|done]). destruct (_ && _).
  - destruct (bump_active env (u64_add (rn_epoch r) 1) r Ha) as [Hb He].
    split; [by apply active_inv|]. rewrite He. split; [|done].
    eapply epoch_ok_weaken, epoch_ok_bump. intros _. apply u64_range.
  - rewrite fst_andthen. cbn [fst broadcastCommitments broadcastMissingShares].
    split; [by apply active_inv|done].
Qed.

Definition event_u64 (e : REvent) : Prop :=
  match e with RMessage _ m => is_u64 (dk_Epoch m) | RTick _ => True end.

Lemma runner_step_inv e r :
  runner_inv r → let r' := (runner_step cfg epochTimeout r e).1 in
  runner_inv r' ∧ epoch_ok (event_u64 e) (rn_epoch r) (rn_epoch r') ∧ (rn_done r = true → r' = r).
Proof. destruct e; [apply OnMessage_inv|apply tick_inv]. Qed.

Lemma run_inv es r :
  runner_inv r → let r' := (run (runner_step cfg epochTimeout) r es).1 in
  runner_inv r' ∧ epoch_ok (Forall event_u64 es) (rn_epoch r) (rn_epoch r') ∧ (rn_done r = true → r' = r).
Proof.
  revert r. induction es as [|e es IH]; intros r H; [done|]. cbn [run].
  destruct (runner_step_inv e r H) as (H1 & He & Hd). destruct (runner_step cfg epochTimeout r e) as [r1 o]. cbn [fst] in *.
  destruct (IH r1 H1) as (H2 & He2 & Hd2). destruct (run _ r1 es) as [r2 os]. cbn [fst] in *.
  split; [done|]. split; [|].
  { eapply epoch_ok_trans; eapply epoch_ok_weaken; [|exact He| |exact He2]; intros [??]%Forall_cons; done. }
  intros Hr. rewrite Hd2; [by apply Hd|]. by rewrite Hd.
Qed.

Lemma new_active now r : NewBeastDKGRunner cfg now = inl r → active r.
Proof.
  unfold NewBeastDKGRunner. rewrite valid. intros [= <-]. split; [|done]. split; cbn.
  - intros d com H. by rewrite lookup_empty in H.
  - intros d sc H. by rewrite lookup_empty in H.
  - left. by rewrite !lookup_empty.
  - intros d m [H|H]; by rewrite lookup_empty in H.
  - intros d H. by apply elem_of_empty in H.
Qed.

Lemma start_active env now r :
  NewBeastDKGRunner cfg now = inl r → active (Start cfg env None None r).1.1.
Proof.
  intros H%new_active. unfold Start, start_fresh. destruct (ensure_active env r H) as [Ha _].
  destruct (ensureLocalPoly cfg env r) as [t [e|]]; [done|]. cbn [fst]. by rewrite fst_andthen.
Qed.
End invariant.


(** Epochs only go forward, and a result is final. Over any run the epoch of a
    participant never decreases, and once it has finished, no message and no
    tick changes anything in its state. *)
Theorem dkg_result_final {B : Blst} {G : AESGCM} {A : DKGAuth} {J : Json TSSDKG}
    (cfg : BeastDKGConfig) (epochTimeout : Z) (r : BeastDKGRunner) (es : list REvent) :
  BeastValidate cfg = nil_err → runner_inv cfg r →
  let r' := (run (runner_step cfg epochTimeout) r es).1 in
  (rn_epoch r <= rn_epoch r')%N ∧ (rn_done r = true → r' = r).
Proof.
  intros Hv H. destruct (run_inv cfg epochTimeout Hv es r H) as (_ & [He _] & Hd). by split.
Qed.

(** ** The last epoch

    A signed message may name any later epoch, and 2^64-1 is one: the participant
    resets to it, and from there the number of the next epoch wraps to zero, which
    bumpEpoch ignores. *)
Definition last_epoch : N := 2 ^ 64 - 1.

(** A message that [OnMessage] takes up: of this session, from another member,
    correctly signed, and not of an earlier epoch. *)
Definition authentic {A : DKGAuth} {J : Json TSSDKG} (cfg : BeastDKGConfig) (m : TSSDKG) : Prop :=
  dk_SessionID m = bc_SessionID cfg ∧ (0 < dk_FromIndex m <= bc_N cfg)%Z ∧ dk_FromIndex m ≠ bc_Index cfg ∧
  dk_Type m ≠ "" ∧ verifySig cfg m = true.

(** C20. One member of the committee can end the epochs. A single signed message
    that names the epoch 2^64-1 takes any unfinished participant there, whatever
    progress it has made; from then on, in every run, the epoch never changes
    again, and once the epoch has timed out the retry loop does nothing at all:
    it neither starts a new epoch nor sends anything again. *)
Theorem one_message_ends_epochs {B : Blst} {G : AESGCM} {A : DKGAuth} {J : Json TSSDKG}
    (cfg : BeastDKGConfig) (epochTimeout : Z) (env : REnv) (m : TSSDKG) (r : BeastDKGRunner) (es : list REvent) :
  BeastValidate cfg = nil_err → runner_inv cfg r → rn_done r = false →
  authentic cfg m → dk_Epoch m = last_epoch → (rn_epoch r < last_epoch)%N → Forall event_u64 es →
  let r' := (run (runner_step cfg epochTimeout) (OnMessage cfg env m r).1 es).1 in
  rn_epoch r' = last_epoch ∧
  ∀ env', (0 < epochTimeout < re_now env' - rn_epochStart r')%Z → tick cfg epochTimeout env' r' = ret r'.
Proof.
  intros Hv Hr Hd (Hs & Hf & Hself & Ht & Hsig) Hm Hlt Hes r'.
  destruct (OnMessage_inv cfg Hv env m r Hr) as (Hr1 & [He1 Hu1] & _).
  destruct (run_inv cfg epochTimeout Hv es _ Hr1) as (Hr2 & [He2 Hu2] & _). fold r' in Hr2, He2, Hu2.
  assert (rn_epoch (OnMessage cfg env m r).1 = last_epoch) as E1.
  { assert (is_u64 (rn_epoch (OnMessage cfg env m r).1)) as Hu.
    { apply Hu1; unfold is_u64, two64, last_epoch in *; lia. }
    assert (last_epoch <= rn_epoch (OnMessage cfg env m r).1)%N as Hge;
      [|unfold is_u64, two64, last_epoch in *; lia].
    clear Hr1 Hr2 He1 Hu1 He2 Hu2 Hu. unfold OnMessage. rewrite Hs, bool_decide_true by done.
    rewrite (proj2 (N.eqb_neq _ _)) by (rewrite Hm; done). cbn [negb orb].
    rewrite (proj2 (Z.leb_gt _ _)), (proj2 (Z.ltb_ge _ _)), (proj2 (Z.eqb_neq _ _)), bool_decide_false by (done || lia).
    cbn [orb]. rewrite Hsig, Hd, Hm. rewrite (proj2 (N.ltb_ge _ _)), (proj2 (N.ltb_lt _ _)) by lia. cbn [negb orb].
    assert (active cfg r) as Ha by (split; [apply Hr|done]).
    rewrite fst_andthen. destruct (bump_active cfg Hv env last_epoch r Ha) as [Hb Hbe].
    rewrite (proj2 (N.leb_gt _ _) Hlt) in Hbe. rewrite Hbe, N.eqb_refl.
    destruct (dispatch_inv cfg Hv env m _ Hb Hself) as (_ & [He _]). by rewrite Hbe in He. }
  rewrite E1 in *. assert (is_u64 (rn_epoch r')) as Hu by (by apply Hu2).
  assert (rn_epoch r' = last_epoch) as E by (unfold is_u64, two64, last_epoch in *; lia).
  split; [done|]. intros env' Hto. unfold tick. destruct (rn_done r'); [done|].
  rewrite (proj2 (Z.ltb_lt 0 _)), (proj2 (Z.ltb_lt _ _)) by lia. cbn [andb]. rewrite E. done.
Qed.

(** ** Saving and finishing are two steps *)

(** A key share of an abandoned epoch survives. When a later epoch arrives
    between saving the key share and marking the run finished, the participant
    is not finished and works in the later epoch; but the share it saved is
    taken for the result of the DKG at its next start. *)
Theorem stale_key_share_survives {B : Blst} {G : AESGCM} {A : DKGAuth} {J : Json TSSDKG}
    (cfg : BeastDKGConfig) (env env' : REnv) (r r1 r0 : BeastDKGRunner) (epoch later : N) (gpk share : bytes)
    (st : option beastSessionState) :
  BeastValidate cfg = nil_err → runner_inv cfg r →
  finalize_begin cfg r = (r1, Save epoch gpk share) → length share = 32 → (epoch < later)%N →
  let r2 := (bumpEpoch cfg env later r1).1 in
  let r3 := (finalize_end cfg epoch gpk share r2).1 in
  let s := (Start cfg env' (Some (key_share cfg gpk share)) st r0).1.1 in
  rn_done r3 = false ∧ rn_epoch r3 = later ∧
  rn_done s = true ∧ rn_result s = mkResult (bc_Index cfg) (bc_Threshold cfg) gpk share.
Proof.
  intros Hv Hr Hb Hl Hlt r2 r3 s.
  assert (active cfg r1 ∧ rn_epoch r1 = epoch) as [H1 E1].
  { revert Hb. unfold finalize_begin. destruct (rn_done r) eqn:Ed; [done|]. destruct (rn_finalizing r); [done|].
    cbn [orb]. destruct (_ <? _)%Z; [done|]. destruct (qualified cfg r) as [qual|]; [|done].
    destruct (_ <? _)%Z; [done|]. destruct (final_values r qual) as [[gpk' share']|]; [|done].
    intros [= <- <- <- <-]. split; [|done]. split; [|done]. apply final_ok, Hr. }
  destruct (bump_active cfg Hv env later r1 H1) as [H2 E2]. fold r2 in H2, E2.
  rewrite E1, (proj2 (N.leb_gt _ _) Hlt) in E2.
  assert (r3 = set_final r2 (rn_done r2) false (rn_result r2)) as E3.
  { unfold r3, finalize_end. rewrite (proj2 H2), bool_decide_true by (rewrite E2; lia). done. }
  rewrite E3. split; [apply H2|]. split; [done|]. unfold s, Start. cbn [ks_PrivateKey key_share].
  by rewrite bool_decide_true.
Qed.

(** ** Restart *)
Section restart.
Context {B : Blst} {G : AESGCM} {A : DKGAuth} {J : Json TSSDKG}.
Context (cfg : BeastDKGConfig) (valid : BeastValidate cfg = nil_err).
Notation self := (bc_Index cfg).

(** The same progress: all but the parked messages and the clock. *)
Record same_progress (r r' : BeastDKGRunner) : Prop := {
  sp_epoch : rn_epoch r' = rn_epoch r;
  sp_coeffs : rn_coeffs r' = rn_coeffs r;
  sp_self : rn_selfCommitments r' = rn_selfCommitments r;
  sp_commitments : rn_commitments r' = rn_commitments r;
  sp_shares : rn_shares r' = rn_shares r;
  sp_acks d : default ∅ (rn_acks r' !! d) = default ∅ (rn_acks r !! d);
  sp_complaints d : default ∅ (rn_complaints r' !! d) = default ∅ (rn_complaints r !! d);
  sp_bad : rn_badDealers r' = rn_badDealers r;
}.

(** A restarted runner is where the stored one was: finished with its result, or
    unfinished with its progress. *)
Definition resumed (r r' : BeastDKGRunner) : Prop :=
  rn_done r' = rn_done r ∧ if rn_done r then rn_result r' = rn_result r else same_progress r r'.

Lemma add_votes_lookup m st d :
  default ∅ (add_votes m st !! d) = list_to_set (default [] (st !! d)) ∪ default ∅ (m !! d) :> gset Z.
Proof.
  unfold add_votes. revert d.
  apply (map_fold_weak_ind (λ acc st, ∀ d, default ∅ (acc !! d) = list_to_set (default [] (st !! d)) ∪ default ∅ (m !! d) :> gset Z)).
  - intros d. rewrite lookup_empty. simpl. set_solver.
  - intros i froms st' acc Hi IH d. destruct (decide (d = i)) as [->|].
    + rewrite !lookup_insert_eq. simpl. rewrite IH, Hi. simpl. set_solver.
    + by rewrite !lookup_insert_ne by done.
Qed.

Lemma restore_votes (m : gmap Z (gset Z)) d :
  default ∅ (add_votes ∅ (cloneIndexSetMap m) !! d) = default ∅ (m !! d).
Proof.
  rewrite add_votes_lookup. unfold cloneIndexSetMap. rewrite lookup_omap, lookup_empty. simpl.
  destruct (m !! d) as [s|]; simpl; [|set_solver].
  case_bool_decide as E; simpl; [set_solver|]. rewrite list_to_set_elements_L. set_solver.
Qed.

Definition serializable (r : BeastDKGRunner) : Prop :=
  (∀ sc, sc ∈ rn_coeffs r → sk_Deserialize (sk_Serialize sc) = Some sc) ∧
  (∀ d sc, rn_shares r !! d = Some sc → sk_Deserialize (sk_Serialize sc) = Some sc).

Lemma deserialize_serialize scs :
  (∀ sc : Scalar, sc ∈ scs → sk_Deserialize (sk_Serialize sc) = Some sc) →
  deserialize_all (scalarsToBytes scs) = Some scs.
Proof.
  unfold scalarsToBytes.
  induction scs as [|sc scs IH]; intros H; [done|]. rewrite fmap_cons. cbn [deserialize_all].
  rewrite H by (by left). rewrite IH; [done|]. intros sc' Hin. apply H. by right.
Qed.

Lemma restore_active r r0 now :
  active cfg r → rn_epoch r ≠ 0%N → serializable r → NewBeastDKGRunner cfg now = inl r0 →
  resumed r (restore cfg r0 (session_of r)).1.
Proof.
  intros [Hok Hd] He [Hc Hs] H0. unfold NewBeastDKGRunner in H0. rewrite valid in H0. injection H0 as <-.
  unfold restore, resumed. cbn [bs_Epoch bs_Done bs_Coeffs session_of].
  rewrite (proj2 (N.eqb_neq _ _) He), Hd, deserialize_serialize by done. cbn [andb fst].
  assert (omap sk_Deserialize (sk_Serialize <$> rn_shares r) = rn_shares r) as Hsh.
  { apply map_eq. intros d. rewrite lookup_omap, lookup_fmap.
    destruct (rn_shares r !! d) as [sc|] eqn:E; simpl; [by eapply Hs|done]. }
  assert (∀ d, d ∈ rn_badDealers r → (0 < d)%Z) as Hb by apply (ro_bad cfg r Hok).
  assert (list_to_set (filter (λ d, (0 < d)%Z) (elements (rn_badDealers r))) ∪ ∅ = rn_badDealers r) as Hbad.
  { apply set_eq. intros d. rewrite elem_of_union, elem_of_list_to_set, list_elem_of_filter, elem_of_elements.
    split; [intros [[_ ?]|?]; [done|set_solver]|]. intros Hin. left. split; [by apply Hb|done]. }
  set (r1 := restored _ _ _ _).
  assert (same_progress r r1 ∧ rn_done r1 = false) as [Hsp Hd1].
  { split; [|done]. unfold r1, restored.
    cbn [bs_Epoch bs_Coeffs bs_SelfCommitments bs_Commitments bs_Shares bs_Acks bs_Complaints bs_Disqualified session_of
      rn_coeffs rn_selfCommitments rn_commitments rn_shares rn_acks rn_complaints rn_badDealers].
    unfold scalarsToBytes, cloneScalarMap, cloneIndexSet. rewrite Hsh, Hbad, (map_union_empty (rn_shares r)).
    destruct (ro_self cfg r Hok) as [(E1 & E2 & E3 & E4)|(El & Ecom & Ec & _)].
    - split; cbn; try done; try (intros d; apply restore_votes).
      + rewrite E1. by case_bool_decide.
      + rewrite E2. by case_bool_decide.
      + rewrite E2, bool_decide_true by done. apply map_union_empty.
    - assert (rn_coeffs r ≠ []) as Hne.
      { pose proof (threshold_pos cfg valid). intros E. rewrite E in El. simpl in El. lia. }
      assert (rn_selfCommitments r ≠ []) as Hne2.
      { intros E. revert Ecom. unfold commitmentsFromPoly. rewrite E. destruct (rn_coeffs r); [done|]. by intros [=]. }
      split; cbn; try done; try (intros d; apply restore_votes).
      + by rewrite bool_decide_false by (by destruct (rn_coeffs r)).
      + by rewrite bool_decide_false.
      + rewrite bool_decide_false by done. apply map_eq. intros d. rewrite lookup_union.
        destruct (decide (d = self)) as [->|]; [by rewrite Ec, lookup_insert_eq|].
        rewrite lookup_insert_ne, lookup_empty by done. by destruct (rn_commitments r !! d). }
  assert (ensure_self_share cfg r1 = r1) as ->; [|by rewrite Hd1].
  unfold ensure_self_share. rewrite (sp_coeffs _ _ Hsp), (sp_shares _ _ Hsp).
  destruct (ro_self cfg r Hok) as [(-> & _)|(_ & _ & _ & sc & _ & ->)]; [done|]. by destruct (rn_coeffs r).
Qed.

Lemma restore_finished r r0 now :
  (∀ s : Scalar, length (sk_Serialize s) = 32) →
  runner_inv cfg r → rn_done r = true → rn_epoch r ≠ 0%N → NewBeastDKGRunner cfg now = inl r0 →
  resumed r (restore cfg r0 (session_of r)).1.
Proof.
  intros Hlen [_ Hf] Hd He _. destruct (Hf Hd) as (qual & gpk & share & _ & _ & Hv & Hres).
  unfold restore, resumed. cbn [bs_Epoch bs_Done bs_ShareScalar bs_GroupPubKey session_of].
  rewrite (proj2 (N.eqb_neq _ _) He), Hd, Hres. cbn [andb rs_ShareScalar rs_GroupPubKey].
  assert (length share = 32) as Hl.
  { revert Hv. unfold final_values, qual_share. destruct (qual_public_key _); [done|].
    destruct (fold_res _ _ _); simpl; [done|]. intros [= _ <-]. apply Hlen. }
  by rewrite bool_decide_true.
Qed.
End restart.


(** ** A committee of three

    The whole protocol on the toy groups: a network delivers every message to
    every participant, in the order of sending. *)
Definition toy_auth : DKGAuth :=
  {| ed_Sign _ m := m; ed_Verify _ m sig := ⌜? m = sig ⌝; X25519 a b := Some (replicate 32 Byte.x11) |}.

(** An encoding that is the same for every message, since nothing is
    read back from what is signed here. *)
Program Definition brief_json : Json TSSDKG :=
  {| marshal _ := [Byte.x7d]; unmarshal _ := None; json_stable _ := False |}.
Next Obligation. done. Qed.
Next Obligation. done. Qed.
Next Obligation. done. Qed.
Next Obligation. intros a. by intros [H|H]%elem_of_cons; [|apply elem_of_nil in H]. Qed.
Next Obligation. done. Qed.

#[local] Existing Instance toy_blst.
#[local] Existing Instance toy_gcm.
#[local] Existing Instance toy_auth.
#[local] Existing Instance brief_json.
Section committee.

Definition committee_cfg (n t i : Z) : BeastDKGConfig :=
  mkBeastDKGConfig "s" 1 n t i "k" "dir" (replicate 64 Byte.x01) (replicate 32 Byte.x02)
    ((λ j, mkMember j (replicate 32 Byte.x03) (replicate 32 Byte.x04)) <$> seqZ 1 n).

Definition committee_env (seed : Z) : REnv :=
  mkREnv (λ j, replicate 31 Byte.x00 ++ [byte_of (Z.to_N (7 * seed + Z.of_nat j + 1))]) (λ _, replicate 12 Byte.x05) 0.

Definition sent (slot : nat) (es : list REffect) : list (nat * TSSDKG) :=
  omap (λ e, match e with Send m => Some (slot, m) | _ => None end) es.

(** The slots are participants, by index and seed; [sees a b] tells whether
    slot [b] receives what slot [a] sends. *)
Context (n t : Z) (slots : list (Z * Z)) (sees : nat → nat → bool).

Definition deliver (rs : list BeastDKGRunner) (from : nat) (m : TSSDKG) : list BeastDKGRunner * list (nat * TSSDKG) :=
  foldr (λ '(slot, (i, seed), r) '(rs', out),
      if sees from slot then
        let '(r', es) := OnMessage (committee_cfg n t i) (committee_env seed) m r in (r' :: rs', sent slot es ++ out)
      else (r :: rs', out))
    ([], []) (zip (zip (List.seq 0 (length slots)) slots) rs).

Fixpoint network (fuel : nat) (rs : list BeastDKGRunner) (queue : list (nat * TSSDKG)) : list BeastDKGRunner :=
  match fuel, queue with
  | S fuel', (from, m) :: queue' =>
      let '(rs', out) := deliver rs from m in network fuel' rs' (queue' ++ out)
  | _, _ => rs
  end.

Definition committee_start : list turn :=
  (λ '(i, seed), match NewBeastDKGRunner (committee_cfg n t i) 0 with
        | inl r => (Start (committee_cfg n t i) (committee_env seed) None None r).1
        | inr _ => ret (resetForEpochLocked (committee_env seed) 0)
        end) <$> slots.

Definition committee_run (fuel : nat) : list BeastDKGRunner :=
  network fuel committee_start.*1
    (concat ((λ '(slot, x), sent slot x.2) <$> zip (List.seq 0 (length slots)) committee_start)).
End committee.

(** Who is finished, and whose group key is that of the last slot. *)
Definition verdicts (rs : list BeastDKGRunner) : list (bool * bool) :=
  let key := match last rs with Some r => rs_GroupPubKey (rn_result r) | None => [] end in
  (λ r, (rn_done r, ⌜? rs_GroupPubKey (rn_result r) = key ⌝)) <$> rs.

(** When everyone hears everyone, all finish with one group key. *)
Example committee_finishes :
  verdicts (committee_run 3 2 [(1, 1); (2, 2); (3, 3)]%Z (λ _ _, true) 60) = [(true, true); (true, true); (true, true)].
Proof. vm_compute. reflexivity. Qed.

(** A dealer that sends one polynomial to one participant and another to the
    other splits them: slots 0 and 1 are the same member. Both honest
    participants finish, with different group keys. *)
Example equivocation_splits_the_key :
  let sees (a b : nat) : bool :=
    match a, b with O, 3 => false | 1, 2 => false | _, _ => true end in
  drop 2 (verdicts (committee_run 3 2 [(1, 1); (1, 9); (2, 2); (3, 3)]%Z sees 80)) = [(true, false); (true, true)].
Proof. vm_compute. reflexivity. Qed.

(** A committee of one is accepted, and never finishes: it has no one to hear from. *)
Lemma single_member_never_finishes {B : Blst} {G : AESGCM} {A : DKGAuth} {J : Json TSSDKG}
    (cfg : BeastDKGConfig) (epochTimeout : Z) (r : BeastDKGRunner) (es : list REvent) :
  BeastValidate cfg = nil_err → bc_N cfg = 1%Z → active cfg r →
  rn_done (run (runner_step cfg epochTimeout) r es).1 = false.
Proof.
  intros Hv HN H. assert (active cfg (run (runner_step cfg epochTimeout) r es).1) as [_ ?]; [|done].
  apply (run_invariant _ (active cfg)); [done|]. clear r H. intros r e H. assert (bc_Index cfg = 1%Z) as Hi.
  { revert Hv. unfold BeastValidate. intros E. repeat case_match; guards; try done. lia. }
  destruct e as [env m|env]; cbn [runner_step].
  - unfold OnMessage. destruct (_ || _); [done|]. destruct (_ || _) eqn:E; [done|]. guards. lia.
  - unfold tick. destruct (rn_done r); [done|]. destruct (_ && _); [apply (bump_active cfg Hv env _ r H)|].
    by rewrite fst_andthen.
Qed.

(** ** Witnesses *)
Definition wit_cfg : BeastDKGConfig := committee_cfg 3 2 1.
Definition wit_new (cfg : BeastDKGConfig) : BeastDKGRunner :=
  match NewBeastDKGRunner cfg 0 with inl r => r | inr _ => resetForEpochLocked (committee_env 1) 0 end.
Lemma wit_new_ok cfg : BeastValidate cfg = nil_err → NewBeastDKGRunner cfg 0 = inl (wit_new cfg).
Proof. intros H. unfold wit_new, NewBeastDKGRunner. by rewrite H. Qed.

Definition wit_started (cfg : BeastDKGConfig) : BeastDKGRunner :=
  (Start cfg (committee_env 1) None None (wit_new cfg)).1.1.

(** A message of member 2, signed as the toy signatures are. *)
Definition wit_msg (typ : string) (epoch : N) (com : list bytes) : TSSDKG :=
  mkTSSDKG "s" epoch typ 2 0 com [] [] [] [Byte.x7d].


Lemma wit_active cfg : BeastValidate cfg = nil_err → active cfg (wit_started cfg).
Proof. intros H. by apply (start_active cfg H (committee_env 1) 0), wit_new_ok. Qed.

Lemma dkg_result_final_witness :
  let r := wit_started wit_cfg in
  let r' := (run (runner_step wit_cfg 5) r [RMessage (committee_env 1) (wit_msg "ack" 7 [])]).1 in
  (rn_epoch r <= rn_epoch r')%N ∧ (rn_done r = true → r' = r).
Proof.
  apply (dkg_result_final wit_cfg 5); [reflexivity|]. by apply active_inv, wit_active.
Defined.

Lemma one_message_ends_epochs_witness :
  let r' := (run (runner_step wit_cfg 5) (OnMessage wit_cfg (committee_env 1) (wit_msg "ack" last_epoch [])
    (wit_started wit_cfg)).1 [RTick (committee_env 1); RMessage (committee_env 1) (wit_msg "ack" 9 [])]).1 in
  rn_epoch r' = last_epoch ∧
  ∀ env', (0 < 5 < re_now env' - rn_epochStart r')%Z → tick wit_cfg 5 env' r' = ret r'.
Proof.
  apply (one_message_ends_epochs wit_cfg 5 (committee_env 1) (wit_msg "ack" last_epoch []) (wit_started wit_cfg)).
  - reflexivity.
  - by apply active_inv, wit_active.
  - vm_compute. reflexivity.
  - vm_compute. repeat split; done || congruence.
  - reflexivity.
  - vm_compute. reflexivity.
  - repeat constructor; vm_compute; reflexivity.
Defined.

(** A committee of one has all it needs at once. *)
Definition solo_cfg : BeastDKGConfig := committee_cfg 1 1 1.
Definition solo_save : BeastDKGRunner * (N * bytes * bytes) :=
  let f := finalize_begin solo_cfg (wit_started solo_cfg) in
  (f.1, match f.2 with Save e gpk share => (e, gpk, share) | _ => (0%N, [], []) end).

Lemma stale_key_share_survives_witness :
  let '(e, gpk, share) := solo_save.2 in
  let r3 := (finalize_end solo_cfg e gpk share (bumpEpoch solo_cfg (committee_env 2) 4 solo_save.1).1).1 in
  let s := (Start solo_cfg (committee_env 3) (Some (key_share solo_cfg gpk share)) None (wit_new solo_cfg)).1.1 in
  rn_done r3 = false ∧ rn_epoch r3 = 4%N ∧ rn_done s = true ∧ rn_result s = mkResult 1 1 gpk share.
Proof.
  apply (stale_key_share_survives solo_cfg (committee_env 2) (committee_env 3) (wit_started solo_cfg) solo_save.1
    (wit_new solo_cfg) solo_save.2.1.1 4 solo_save.2.1.2 solo_save.2.2 None).
  - reflexivity.
  - by apply active_inv, wit_active.
  - assert (match (finalize_begin solo_cfg (wit_started solo_cfg)).2 with Save _ _ _ => true | _ => false end = true) as E
      by (vm_compute; reflexivity).
    unfold solo_save. cbn [fst snd]. destruct (finalize_begin solo_cfg (wit_started solo_cfg)) as [r f].
    cbn [fst snd] in *. by destruct f.
  - vm_compute. reflexivity.
  - vm_compute. reflexivity.
Defined.

#[export] Instance beastSessionState_eq_dec : EqDecision beastSessionState.
Proof. solve_decision. Defined.
#[export] Program Instance beastSessionState_countable : Countable beastSessionState :=
  inj_countable' (λ s, (bs_Epoch s, bs_Coeffs s, bs_SelfCommitments s, bs_Commitments s, bs_Shares s,
      (bs_Acks s, bs_Complaints s, bs_Disqualified s, bs_Done s, bs_GroupPubKey s, bs_ShareScalar s)))
    (λ '(a, b, c, d, e, (f, g, h, i, j, k)), mkBeastSession a b c d e f g h i j k) _.
Next Obligation. by intros []. Qed.

Definition wit_bad : BeastDKGRunner :=
  (OnMessage wit_cfg (committee_env 1) (wit_msg "commitments" 1 [[]]) (wit_new wit_cfg)).1.

