(* ===== verification/RunnerCrash.v ===== *)
(** A crash between a share and its acknowledgement
    (src/internal/tss/dkg/beast_runner_blst.go). [onShare] stores the share,
    then records and sends the acknowledgement; what a restarted participant
    does about a share it finds in its session. *)
From S2P Require Import CryptoOps Feldman.
From S2P Require Import Prelude Metrics Codec Files Sha256 Tss TssStores Runner.

Section crash.
Context {B : Blst} {G : AESGCM} {A : DKGAuth} {J : Json TSSDKG}.
Context (cfg : BeastDKGConfig) (epochTimeout : Z) (dealer : Z).
Notation self := (bc_Index cfg).

(** A share that its dealer opens for this participant. *)
Definition opens_to_self (m : TSSDKG) : Prop := dk_FromIndex m = dealer ∧ dk_ToIndex m = self.

(** The participant holds the share of the dealer, and no opening of it is parked. *)
Record holds_share (r : BeastDKGRunner) : Prop := {
  hs_share : is_Some (rn_shares r !! dealer);
  hs_open d m : rn_pendingOpen r !! d = Some m → ¬ opens_to_self m;
}.

(** Not an acknowledgement for the dealer. *)
Definition no_ack (e : REffect) : Prop :=
  match e with Send m => ¬ (dk_Type m = "ack" ∧ dk_ToIndex m = dealer) | _ => True end.

(** A turn within the epoch that keeps the share and sends no acknowledgement. *)
Definition still (r : BeastDKGRunner) (t : turn) : Prop :=
  rn_epoch t.1 = rn_epoch r ∧ holds_share t.1 ∧ Forall no_ack t.2.

(** The same, unless the turn enters another epoch. *)
Definition still_or_leaves (r : BeastDKGRunner) (t : turn) : Prop :=
  rn_epoch t.1 = rn_epoch r → still r t.

Definition mute (k : BeastDKGRunner → turn) : Prop := ∀ r, holds_share r → still r (k r).

Lemma still_andthen r t k : still r t → (holds_share t.1 → still t.1 (k t.1)) → still r (andthen t k).
Proof.
  intros (He & Hh & Ha) Hk. destruct (Hk Hh) as (He2 & Hh2 & Ha2). unfold still.
  rewrite fst_andthen, snd_andthen. split; [congruence|]. split; [done|]. by apply Forall_app.
Qed.

Lemma leaves_andthen r t k : still r t → (holds_share t.1 → still_or_leaves t.1 (k t.1)) → still_or_leaves r (andthen t k).
Proof.
  intros Ht Hk He. rewrite fst_andthen in He. apply still_andthen; [done|]. intros Hh.
  apply Hk; [done|]. by rewrite (proj1 Ht).
Qed.

Lemma still_leaves r t : still r t → still_or_leaves r t.
Proof. by intros H _. Qed.

Lemma still_ret r r' :
  rn_epoch r' = rn_epoch r → rn_shares r' = rn_shares r → rn_pendingOpen r' ⊆ rn_pendingOpen r → holds_share r →
  still r (ret r').
Proof.
  intros He Hs Hp [H1 H2]. split; [done|]. split; [|by constructor]. split; cbn; [by rewrite Hs|].
  intros d m Hm. apply (H2 d m). by eapply lookup_weaken.
Qed.

Lemma still_same r : holds_share r → still r (ret r).
Proof. by apply still_ret. Qed.
#[local] Hint Resolve still_same : core.

Lemma still_persist r r' : still r (ret r') → still r (persistLocked cfg r').
Proof.
  intros (He & Hh & _). split; [done|]. split; [done|]. unfold persistLocked. cbn [snd].
  case_bool_decide; by repeat constructor.
Qed.

(** What is signed and sent keeps its type and receiver. *)
Lemma no_ack_send m : ¬ (dk_Type m = "ack" ∧ dk_ToIndex m = dealer) → Forall no_ack (send cfg m).
Proof.
  intros H. unfold send, signMessage. destruct (⌜? _ ⌝); [constructor|]. by repeat constructor.
Qed.

Lemma still_effects r es : holds_share r → Forall no_ack es → still r (r, es).
Proof. by intros. Qed.

Lemma mute_disqualify d : mute (disqualify cfg d).
Proof.
  intros r H. unfold disqualify. apply still_andthen.
  - unfold disqualifyDealerLocked. destruct (_ || _); [by apply still_same|].
    split; [done|]. split; [|by repeat constructor]. by apply (still_ret r).
  - intros Hh. by apply still_persist, still_same.
Qed.

Lemma mute_onCommitments m : mute (onCommitments cfg m).
Proof.
  intros r H. unfold onCommitments. case_bool_decide; [by apply still_same|].
  case_bool_decide; [by apply mute_disqualify|]. destruct (negb _); [by apply mute_disqualify|].
  case_bool_decide; [by apply still_same|]. destruct (rn_commitments r !! _); [by apply still_same|].
  by apply still_persist, still_ret.
Qed.

Lemma mute_ack d : d ≠ dealer → mute (broadcastAck cfg d).
Proof.
  intros Hd r H. apply still_andthen; [by apply still_persist, still_ret|]. intros Hh.
  apply still_effects; [done|]. apply no_ack_send. by intros [_ ?].
Qed.

Lemma mute_complaint d : mute (broadcastComplaint cfg d).
Proof.
  intros r H. apply still_andthen; [by apply still_persist, still_ret|]. intros Hh.
  apply still_effects; [done|]. unfold signMessage. case_bool_decide; [constructor|].
  repeat constructor. by intros [? _].
Qed.

Lemma holds_insert r d sc : holds_share r → holds_share (set_rshares r (<[d := sc]> (rn_shares r))).
Proof.
  intros [H1 H2]. split; [|done]. cbn. destruct (decide (d = dealer)) as [->|].
  - rewrite lookup_insert_eq. by eexists.
  - by rewrite lookup_insert_ne.
Qed.

(** A share that is already held is not looked at again. *)
Lemma mute_onShare m : mute (onShare cfg m).
Proof.
  intros r H. unfold onShare. case_bool_decide; [by apply still_same|].
  destruct (default [] _) as [|c com]; [by apply still_ret|].
  destruct (rn_shares r !! dk_FromIndex m) eqn:Es; [by apply still_same|].
  assert (dk_FromIndex m ≠ dealer) as Hne.
  { intros E. destruct (hs_share r H) as [sc Hsc]. congruence. }
  destruct (deriveShareKey _ _ _ _); [|by apply still_same].
  destruct (open_share _ _ _ _ _) as [sc|]; [|by apply mute_complaint].
  apply still_andthen; [|intros; by apply mute_ack]. apply still_persist.
  split; [done|]. split; [|constructor].
  apply (holds_insert (set_pending r (delete (dk_FromIndex m) (rn_pendingShare r)) (rn_pendingOpen r))). destruct H. by split.
Qed.

Lemma mute_onAck m : mute (onAck cfg m).
Proof.
  intros r H. unfold onAck. destruct (_ || _); [by apply still_same|]. case_bool_decide; [by apply still_same|].
  by apply still_persist, still_ret.
Qed.

Lemma mute_onComplaint m : mute (onComplaint cfg m).
Proof.
  intros r H. unfold onComplaint. destruct (_ || _); [by apply still_same|]. destruct (_ =? _)%Z.
  - unfold broadcastShareOpen. destruct (_ || _); [by apply still_same|]. case_bool_decide; [by apply still_same|].
    destruct (evalPolyAt _ _); [by apply still_same|]. apply still_effects; [done|]. apply no_ack_send. by intros [? _].
  - case_bool_decide; [by apply still_same|]. by apply still_persist, still_ret.
Qed.

Lemma mute_accept_open from to sc : ¬ (from = dealer ∧ to = self) → mute (accept_open cfg from to sc).
Proof.
  intros Hno r H. unfold accept_open. apply still_andthen.
  - apply still_persist. split; [done|]. split; [|constructor]. split; cbn.
    + destruct (to =? self)%Z; [|apply H]. destruct (rn_shares r !! from); [apply H|].
      apply (holds_insert r from sc H).
    + intros d m [_ Hm]%lookup_delete_Some. by apply (hs_open r H d m).
  - intros Hh. destruct (Z.eqb_spec to self); [|by apply still_same]. apply mute_ack; [|done]. by intros ->; apply Hno.
Qed.

Lemma mute_onShareOpen m : ¬ opens_to_self m → mute (onShareOpen cfg m).
Proof.
  intros Hno r H. unfold onShareOpen. destruct (_ || _); [by apply still_same|].
  case_bool_decide; [by apply mute_disqualify|]. case_bool_decide; [by apply still_same|].
  destruct (default [] _) as [|c com].
  { split; [done|]. split; [|constructor]. split; [apply H|]. cbn. intros d m' Hm.
    apply lookup_insert_Some in Hm as [[_ <-]|[_ Hm]]; [done|]. by apply (hs_open r H d m'). }
  destruct (sk_Deserialize _) as [sc|]; [|by apply mute_disqualify].
  destruct (verifyFeldmanShare _ _ _) as [|[|]];
    [by apply mute_disqualify|by apply mute_accept_open|by apply mute_disqualify].
Qed.

Lemma mute_tryProcessPending d : mute (tryProcessPending cfg d).
Proof.
  intros r H. unfold tryProcessPending. apply still_andthen.
  - destruct (rn_pendingShare r !! d); [by apply mute_onShare|by apply still_same].
  - intros Hh. destruct (rn_pendingOpen _ !! d) as [m|] eqn:E; [|by apply still_same].
    apply mute_onShareOpen; [|done]. by apply (hs_open _ Hh d m).
Qed.

Lemma mute_commitments : mute (broadcastCommitments cfg).
Proof. intros r H. apply still_effects; [done|]. apply no_ack_send. by intros [? _]. Qed.

Lemma mute_missing env : mute (broadcastMissingShares cfg env).
Proof.
  intros r H. apply still_effects; [done|]. apply Forall_concat, Forall_fmap, Forall_true. intros i.
  unfold compose. destruct (_ || _); [constructor|]. destruct (share_message cfg env r i) as [m|] eqn:E; [|constructor].
  apply no_ack_send. revert E. unfold share_message. destruct (evalPolyAt _ _); [done|].
  intros (k & _ & ([nc ct] & _ & [= <-])%bind_Some)%bind_Some. by intros [? _].
Qed.

(** ** Steps and runs *)
Lemma ensure_epoch env r : rn_epoch (ensureLocalPoly cfg env r).1.1 = rn_epoch r.
Proof.
  unfold ensureLocalPoly. destruct (_ && _); [done|]. do 2 (case_bool_decide; [done|]).
  destruct (map_res _ _); [done|]. destruct (commitmentsFromPoly _); [done|]. by destruct (evalPolyAt _ _).
Qed.

Lemma mute_ensure env r : holds_share r → still r (ensureLocalPoly cfg env r).1.
Proof.
  intros H. unfold ensureLocalPoly. destruct (_ && _); [by apply still_same|].
  do 2 (case_bool_decide; [by apply still_same|]).
  destruct (map_res _ _); [by apply still_same|]. destruct (commitmentsFromPoly _); [by apply still_same|].
  destruct (evalPolyAt _ _) as [|sc]; [by apply still_same|]. apply still_persist.
  split; [done|]. split; [|constructor]. destruct (holds_insert r self sc H). by split.
Qed.

Lemma leaves_bump env epoch r : holds_share r → still_or_leaves r (bumpEpoch cfg env epoch r).
Proof.
  intros H. unfold bumpEpoch. destruct (_ =? 0)%N; [by apply still_leaves, still_same|].
  destruct (rn_done r); [by apply still_leaves, still_same|]. cbn [orb].
  destruct (N.leb_spec epoch (rn_epoch r)); [by apply still_leaves, still_same|].
  intros He. exfalso. revert He. rewrite !fst_andthen. cbn [fst broadcastCommitments persistLocked]. rewrite ensure_epoch. cbn. lia.
Qed.

Lemma leaves_finalize env r : holds_share r → still_or_leaves r (maybeFinalize cfg env r).
Proof.
  intros H. unfold maybeFinalize, finalize_begin. destruct (_ || _); [by apply still_leaves, still_same|].
  destruct (_ <? _)%Z; [by apply leaves_bump|]. destruct (qualified cfg r) as [qual|]; [|by apply still_leaves, still_same].
  destruct (_ <? _)%Z; [by apply still_leaves, still_same|].
  destruct (final_values r qual) as [[gpk share]|]; [|by apply still_leaves, still_same].
  apply still_leaves, still_andthen.
  { split; [done|]. split; [destruct H; by split|by repeat constructor]. }
  intros Hh. unfold finalize_end. destruct (_ || _); [by apply still_ret|].
  apply still_andthen; [by apply still_persist, still_ret|]. intros Hh'. apply still_effects; [done|by repeat constructor].
Qed.

Lemma leaves_dispatch env m r :
  ¬ (dk_Type m = "share_open" ∧ opens_to_self m) → holds_share r → still_or_leaves r (dispatch cfg env m r).
Proof.
  intros Hno H. unfold dispatch. case_bool_decide.
  { apply leaves_andthen; [by apply mute_onCommitments|]. intros H1.
    apply leaves_andthen; [by apply mute_tryProcessPending|]. intros H2.
    apply leaves_andthen; [by apply mute_missing|]. apply leaves_finalize. }
  case_bool_decide.
  { destruct (negb _); [by apply still_leaves, still_same|].
    apply leaves_andthen; [by apply mute_onShare|]. apply leaves_finalize. }
  case_bool_decide; [apply leaves_andthen; [|apply leaves_finalize]; apply mute_onShareOpen; tauto|].
  case_bool_decide; [apply leaves_andthen; [by apply mute_onAck|apply leaves_finalize]|].
  case_bool_decide; [apply leaves_andthen; [by apply mute_onComplaint|apply leaves_finalize]|].
  by apply still_leaves, still_same.
Qed.

(** The dealer does not open its share to this participant. *)
Definition no_opening (e : REvent) : Prop :=
  match e with RMessage _ m => ¬ (dk_Type m = "share_open" ∧ opens_to_self m) | RTick _ => True end.

Context (valid : BeastValidate cfg = nil_err).

Lemma leaves_step e r :
  runner_inv cfg r → no_opening e → holds_share r → still_or_leaves r (runner_step cfg epochTimeout r e).
Proof.
  intros Hi Hno H. destruct e as [env m|env]; cbn [runner_step].
  - unfold OnMessage. destruct (_ || _); [by apply still_leaves, still_same|]. destruct (_ || _) eqn:Ef; [by apply still_leaves, still_same|].
    destruct (negb _); [by apply still_leaves, still_effects; [|repeat constructor]|]. destruct (rn_done r) eqn:Ed; [by apply still_leaves, still_same|].
    cbn [orb]. destruct (dk_Epoch m <? rn_epoch r)%N; [by apply still_leaves, still_same|]. guards.
    destruct (N.ltb_spec (rn_epoch r) (dk_Epoch m)) as [Hlt|Hge].
    + intros He. exfalso. revert He. rewrite fst_andthen.
      destruct (bump_active cfg valid env (dk_Epoch m) r (conj (proj1 Hi) Ed)) as [Ha He].
      rewrite (proj2 (N.leb_gt _ _) Hlt) in He. destruct (N.eqb_spec (dk_Epoch m) (rn_epoch (bumpEpoch cfg env (dk_Epoch m) r).1)) as [Heq|]; cbn [fst ret]; [|lia].
      destruct (dispatch_inv cfg valid env m _ Ha) as [_ [Hle _]]; [done|]. lia.
    + apply leaves_andthen; [by apply still_same|]. intros _. cbn [fst ret].
      destruct (_ =? _)%N; [by apply leaves_dispatch|by apply still_leaves, still_same].
  - unfold tick. destruct (rn_done r); [by apply still_leaves, still_same|]. destruct (_ && _); [by apply leaves_bump|].
    apply still_leaves, still_andthen; [by apply mute_commitments|]. apply mute_missing.
Qed.

(** The state after a run, with all that was sent and stored in it. *)
Definition run_turn (r : BeastDKGRunner) (es : list REvent) : turn :=
  let '(r', os) := run (runner_step cfg epochTimeout) r es in (r', concat os).

Lemma leaves_run es r :
  runner_inv cfg r → Forall no_opening es → holds_share r → still_or_leaves r (run_turn r es).
Proof.
  unfold run_turn. revert r. induction es as [|e es IH]; intros r Hi Hes H; [by apply still_leaves, still_same|].
  apply Forall_cons in Hes as [He Hes]. cbn [run].
  pose proof (leaves_step e r Hi He H) as Hs. destruct (runner_step_inv cfg epochTimeout valid e r Hi) as (Hi1 & [Hle _] & _).
  destruct (runner_step cfg epochTimeout r e) as [r1 o]. cbn [fst] in *.
  pose proof (IH r1 Hi1 Hes) as Hr. destruct (run_inv cfg epochTimeout valid es r1 Hi1) as (_ & [Hle2 _] & _).
  destruct (run _ r1 es) as [r2 os]. cbn [fst] in *. intros Heq. cbn [fst] in Heq.
  destruct Hs as (E1 & H1 & A1); [cbn; lia|]. cbn [fst snd] in *. destruct (Hr H1) as (E2 & H2 & A2); [cbn; lia|].
  split; [done|]. split; [done|]. cbn [snd]. by apply Forall_app.
Qed.
End crash.

(** ** Restart between the two writes of [onShare] *)
Section window.
Context {B : Blst} {G : AESGCM} {A : DKGAuth} {J : Json TSSDKG}.
Context (cfg : BeastDKGConfig) (valid : BeastValidate cfg = nil_err).
Notation self := (bc_Index cfg).

(** What [onShare] does with the first good share of a dealer: one write with
    the share, one with the own vote, and the acknowledgement. *)
Lemma onShare_accepts m r :
  bc_SessionDir cfg ≠ "" → rn_shares r !! dk_FromIndex m = None → is_Some (rn_shares (onShare cfg m r).1 !! dk_FromIndex m) →
  ∃ sc, let x := set_rshares (set_pending r (delete (dk_FromIndex m) (rn_pendingShare r)) (rn_pendingOpen r))
                   (<[dk_FromIndex m := sc]> (rn_shares r)) in
    rn_shares (onShare cfg m r).1 = rn_shares x ∧ rn_coeffs (onShare cfg m r).1 = rn_coeffs x ∧
    (∃ com, rn_commitments r !! dk_FromIndex m = Some com ∧ verifyFeldmanShare sc self com = inr true) ∧
    (onShare cfg m r).2 = [Persist (session_of x); Persist (session_of (onShare cfg m r).1)] ++
                          send cfg (message cfg r "ack" (dk_FromIndex m)).
Proof.
  intros Hdir Hn. unfold onShare. case_bool_decide; [by cbn; rewrite Hn; intros []|].
  destruct (default [] _) as [|c com] eqn:Ec; [by cbn; rewrite Hn; intros []|]. apply default_cons in Ec. rewrite Hn.
  destruct (deriveShareKey _ _ _ _) as [key|]; [|by cbn; rewrite Hn; intros []].
  destruct (open_share _ _ _ _ _) as [sc|] eqn:Eo.
  - intros _. apply open_share_verified in Eo. exists sc. split; [done|]. split; [done|].
    split; [by exists (c :: com)|]. unfold broadcastAck, persistLocked. by rewrite bool_decide_false.
  - unfold broadcastComplaint. rewrite fst_andthen. cbn. rewrite Hn. by intros [].
Qed.

Lemma progress_ok r r' :
  runner_ok cfg r → same_progress r r' → rn_pendingShare r' = ∅ → rn_pendingOpen r' = ∅ → runner_ok cfg r'.
Proof.
  intros [H1 H2 H3 H4 H5] [P1 P2 P3 P4 P5 P6 P7 P8] Hs Ho.
  split; rewrite ?P2, ?P3, ?P4, ?P5, ?P8, ?Hs, ?Ho; try done. intros d m. rewrite lookup_empty. by intros [?|?].
Qed.

Lemma restore_pending r0 st now :
  NewBeastDKGRunner cfg now = inl r0 →
  rn_pendingShare (restore cfg r0 st).1 = ∅ ∧ rn_pendingOpen (restore cfg r0 st).1 = ∅.
Proof.
  unfold NewBeastDKGRunner. rewrite valid. intros [= <-]. unfold restore.
  destruct (_ =? 0)%N; [done|]. destruct (_ && _); [done|]. destruct (deserialize_all _); [|done].
  cbn [fst]. unfold ensure_self_share. by repeat case_match.
Qed.

(** A participant restarted from a session that holds a share of [dealer]. *)
Lemma restart_holds x r0 now env dealer :
  bc_SessionDir cfg ≠ "" → active cfg x → rn_epoch x ≠ 0%N → serializable x → NewBeastDKGRunner cfg now = inl r0 →
  is_Some (rn_shares x !! dealer) →
  let t := (Start cfg env None (Some (session_of x)) r0).1 in
  active cfg t.1 ∧ still cfg dealer x t.
Proof.
  intros Hdir Hx He Hs H0 Hd. destruct (restore_pending r0 (session_of x) now H0) as [Ps Po].
  pose proof (restore_active cfg valid x r0 now Hx He Hs H0) as [Hdone Hp]. rewrite (proj2 Hx) in Hdone, Hp.
  unfold Start, start_fresh. rewrite bool_decide_false by done.
  set (r1 := (restore cfg r0 (session_of x)).1) in *.
  assert (active cfg r1) as Ha by (split; [by apply (progress_ok x r1 (proj1 Hx))|done]).
  assert (holds_share cfg dealer r1) as Hh.
  { split; [by rewrite (sp_shares _ _ Hp)|]. intros d m. by rewrite Po, lookup_empty. }
  pose proof (ensure_active cfg valid env r1 Ha) as [Ha1 _].
  pose proof (mute_ensure cfg dealer env r1 Hh) as Hstill.
  assert (∀ t, still cfg dealer r1 t → still cfg dealer x t) as Hx1.
  { intros t (E & ? & ?). split; [|done]. by rewrite E, (sp_epoch _ _ Hp). }
  destruct (ensureLocalPoly cfg env r1) as [t [e|]]; cbn [fst] in *; [by split; [|apply Hx1]|].
  rewrite fst_andthen. split; [done|]. apply Hx1, still_andthen; [done|]. apply mute_commitments.
Qed.
End window.

(** C16. A crash between a share and its acknowledgement loses the acknowledgement.
    When the first good share of a dealer arrives, the participant stores the
    share, then its own vote, then sends the acknowledgement. If it stops after
    the first write and is restarted from it, then whatever it receives (the
    share again, any number of times) and however often it retries, it sends no
    acknowledgement for that dealer within the epoch, unless the dealer opens
    the share in public, which it does only for those who complained. *)
Theorem crash_loses_ack {B : Blst} {G : AESGCM} {A : DKGAuth} {J : Json TSSDKG}
    (cfg : BeastDKGConfig) (epochTimeout : Z) (r r0 : BeastDKGRunner) (m : TSSDKG) (now : Z) (env : REnv) :
  let d := dk_FromIndex m in
  BeastValidate cfg = nil_err → bc_SessionDir cfg ≠ "" → active cfg r → rn_epoch r ≠ 0%N → d ≠ bc_Index cfg →
  serializable (onShare cfg m r).1 → NewBeastDKGRunner cfg now = inl r0 →
  rn_shares r !! d = None → is_Some (rn_shares (onShare cfg m r).1 !! d) →
  ∃ stored voted,
    (onShare cfg m r).2 = [Persist stored; Persist voted] ++ send cfg (message cfg r "ack" d) ∧
    let t0 := (Start cfg env None (Some stored) r0).1 in
    ∀ es, Forall (no_opening cfg d) es →
      let t := run_turn cfg epochTimeout t0.1 es in
      rn_epoch t.1 = rn_epoch r → Forall (no_ack d) (t0.2 ++ t.2).
Proof.
  intros d Hv Hdir Ha He Hne [Hc Hsh] H0 Hn Hsome.
  destruct (onShare_accepts cfg m r Hdir Hn Hsome) as (sc & Es & Ec & (com & Hcom & Hok) & Eff).
  rewrite Es in Hsh. rewrite Ec in Hc. rewrite Eff. eexists _, _. split; [done|]. cbv zeta. intros es Hes.
  set (x := set_rshares _ _) in *.
  assert (active cfg x) as Hx.
  { eapply (keeps_share cfg (set_pending r _ _)); [|done|done|done]. apply keeps_pending; [done|].
    intros d' m' [[_ ?]%lookup_delete_Some|?]; apply (ro_pending _ _ (proj1 Ha)); auto. }
  destruct (restart_holds cfg Hv x r0 now env d) as [Ha0 (E0 & Hh0 & A0)]; try done.
  { unfold x. cbn. by rewrite lookup_insert_eq. }
  intros Het. apply Forall_app. split; [done|].
  apply (leaves_run cfg epochTimeout d Hv es _ (active_inv cfg _ Ha0) Hes Hh0). rewrite Het, E0. done.
Qed.

#[local] Existing Instance toy_blst.
#[local] Existing Instance toy_gcm.
#[local] Existing Instance toy_auth.
#[local] Existing Instance brief_json.

(** Two members; the second has dealt, and the first has its commitments. *)
Definition pair_cfg : Z → BeastDKGConfig := committee_cfg 2 2.
Definition pair_new (i : Z) : BeastDKGRunner :=
  match NewBeastDKGRunner (pair_cfg i) 0 with inl r => r | inr _ => resetForEpochLocked (committee_env i) 1 end.
Definition pair_start (i : Z) : turn := (Start (pair_cfg i) (committee_env i) None None (pair_new i)).1.
Definition pair_message (t : turn) : TSSDKG :=
  match sent 0 t.2 with (_, m) :: _ => m | [] => mkTSSDKG "" 0 "" 0 0 [] [] [] [] [] end.
Definition pair_hears (i j : Z) : turn :=
  OnMessage (pair_cfg i) (committee_env i) (pair_message (pair_start j)) (pair_start i).1.
Definition pair_share : TSSDKG := pair_message (pair_hears 2 1).

(** The first member gets the share, stops after the first write, is restarted,
    gets the share again, and retries. *)
Definition pair_again : list REvent := [RMessage (committee_env 1) pair_share; RTick (committee_env 1)].

(** Scalars that survive being stored. *)
Definition storable (sc : N) : bool :=
  match sk_Deserialize (sk_Serialize (sc : Scalar)) with Some sc' => (sc' =? sc)%N | None => false end.

Lemma storable_serializable (r : BeastDKGRunner) :
  forallb storable (rn_coeffs r) && forallb (λ x, storable x.2) (map_to_list (rn_shares r)) = true → serializable r.
Proof.
  assert (∀ sc, storable sc = true → sk_Deserialize (sk_Serialize (sc : Scalar)) = Some sc) as Hsc.
  { intros sc. unfold storable. destruct (sk_Deserialize _); [|done]. by intros ->%N.eqb_eq. }
  intros [Hc Hs]%andb_true_iff. rewrite forallb_forall in Hc, Hs. split.
  - intros sc Hin%list_elem_of_In. by apply Hsc, Hc.
  - intros d sc Hin%elem_of_map_to_list%list_elem_of_In. by apply Hsc, (Hs (d, sc)).
Qed.

Lemma crash_loses_ack_witness :
  ∃ stored voted,
    (onShare (pair_cfg 1) pair_share (pair_hears 1 2).1).2 =
      [Persist stored; Persist voted] ++ send (pair_cfg 1) (message (pair_cfg 1) (pair_hears 1 2).1 "ack" 2) ∧
    let t0 := (Start (pair_cfg 1) (committee_env 1) None (Some stored) (pair_new 1)).1 in
    let t := run_turn (pair_cfg 1) 5 t0.1 pair_again in
    rn_epoch t.1 = 1%N → Forall (no_ack 2) (t0.2 ++ t.2).
Proof.
  destruct (crash_loses_ack (pair_cfg 1) 5 (pair_hears 1 2).1 (pair_new 1) pair_share 0 (committee_env 1))
    as (stored & voted & E & H).
  - reflexivity.
  - discriminate.
  - assert (active (pair_cfg 1) (pair_start 1).1) as Ha by (apply start_active with (now := 0%Z); reflexivity).
    unfold pair_hears. destruct (OnMessage_inv (pair_cfg 1) eq_refl (committee_env 1) (pair_message (pair_start 2)) (pair_start 1).1) as [[Hok _] _];
      [by apply active_inv|]. split; [exact Hok|]. vm_compute. reflexivity.
  - vm_compute. discriminate.
  - vm_compute. discriminate.
  - apply storable_serializable. vm_compute. reflexivity.
  - reflexivity.
  - vm_compute. reflexivity.
  - match goal with |- is_Some ?o => assert (match o with Some _ => true | None => false end = true) as H by (vm_compute; reflexivity) end.
    match goal with |- is_Some ?o => destruct o; [by eexists|discriminate] end.
  - exists stored, voted. split; [exact E|]. cbv zeta. intros He. apply H; [|exact He].
    repeat constructor. intros [Ht _]. revert Ht. vm_compute. discriminate.
Defined.
