(* ===== verification/RunnerLife.v ===== *)
(** The lives of a DKG participant (src/internal/tss/dkg/beast_runner_blst.go):
    it runs, stops at any point of a handler, and is started again from what its
    stores hold. What it deals, and what it gives as its result, over all of
    its lives. *)
From stdpp Require Import relations.
From S2P Require Import CryptoOps Feldman.
From S2P Require Import Prelude Metrics Codec Files Sha256 Tss TssStores Runner RunnerCrash.

(** What the runner relies on of the encoding of scalars: 32 bytes, and generated
    scalars are read back. ([blst] does not read back zero.) *)
Class ScalarCodec {B : Blst} := {
  sk_length (s : Scalar) : length (sk_Serialize s) = 32;
  sk_generated ikm (s : Scalar) : sk_KeyGen ikm = Some s → sk_Deserialize (sk_Serialize s) = Some s;
}.

(** ** Lives

    The stores replace their file in one step, and a write that returned is
    kept (TssStores, Files): a crash leaves the writes of a prefix. *)
Section life.
Context {B : Blst} {G : AESGCM} {A : DKGAuth} {J : Json TSSDKG}.
Context (cfg : BeastDKGConfig) (epochTimeout : Z).
Notation self := (bc_Index cfg).

(** What the session store and the key store hold. *)
Record Disk := mkDisk { dsk_session : option beastSessionState; dsk_key : option KeyShare }.

Definition write (d : Disk) (e : REffect) : Disk :=
  match e with
  | Persist st => mkDisk (Some st) (dsk_key d)
  | SaveKey ks => mkDisk (dsk_session d) (Some ks)
  | _ => d
  end.

Definition writes (d : Disk) (es : list REffect) : Disk := foldl write d es.

(** The stores, the process if it runs, and all that was sent so far. *)
Record Life := mkLife {
  lf_disk : Disk;
  lf_runner : option BeastDKGRunner;
  lf_sent : list TSSDKG;
}.

(** A turn is taken, to its end or up to its first [k] effects. *)
Definition happens (w : Life) (t : turn) (cut : option nat) : Life :=
  match cut with
  | None => mkLife (writes (lf_disk w) t.2) (Some t.1) (lf_sent w ++ sends t.2)
  | Some k => mkLife (writes (lf_disk w) (take k t.2)) None (lf_sent w ++ sends (take k t.2))
  end.

Inductive life_step : Life → Life → Prop :=
  | life_boot w r0 now env cut :
      lf_runner w = None → NewBeastDKGRunner cfg now = inl r0 →
      life_step w (happens w (Start cfg env (dsk_key (lf_disk w)) (dsk_session (lf_disk w)) r0).1 cut)
  | life_event w r e cut :
      lf_runner w = Some r → life_step w (happens w (runner_step cfg epochTimeout r e) cut).

Definition life0 : Life := mkLife (mkDisk None None) None [].

(** ** Dealings

    A dealing is an epoch and the coefficients dealt in it, none at first. *)
Notation dealing := (N * list Scalar)%type.

(** What a message says fits the coefficients. *)
Record of_dealing (cs : list Scalar) (m : TSSDKG) : Prop := {
  od_commitments : dk_Type m = "commitments" →
    dk_Commitments m = [] ∨ commitmentsFromPoly cs = inr (dk_Commitments m);
  od_share : dk_Type m = "share" → ∃ r sh key, rn_epoch r = dk_Epoch m ∧ evalPolyAt cs (dk_ToIndex m) = inr sh ∧
    deriveShareKey cfg r self (dk_ToIndex m) = Some key ∧
    encryptShare key (dk_Nonce m) (sk_Serialize sh) = Some (dk_Nonce m, dk_Ciphertext m);
  od_open : dk_Type m = "share_open" → ∃ sh, evalPolyAt cs (dk_ToIndex m) = inr sh ∧ dk_Share m = sk_Serialize sh;
}.

(** Dealt in this epoch at most, the coefficients can be stored, the commitments are theirs. *)
Record dealt_ok (D : dealing) (com : list bytes) : Prop := {
  do_epoch : D.1 ≠ 0%N;
  do_stored : Forall (λ sc, sk_Deserialize (sk_Serialize sc) = Some sc) D.2;
  do_com : (D.2 = [] ∧ com = []) ∨ commitmentsFromPoly D.2 = inr com;
}.

Definition session_at (D : dealing) (st : beastSessionState) : Prop :=
  bs_Epoch st = D.1 ∧ bs_Coeffs st = scalarsToBytes D.2 ∧ dealt_ok D (bs_SelfCommitments st).

Definition at_dealing (D : dealing) (r : BeastDKGRunner) : Prop :=
  rn_epoch r = D.1 ∧ rn_coeffs r = D.2 ∧ dealt_ok D (rn_selfCommitments r) ∧ rn_done r = false.

(** A later dealing: of a later epoch, or the first of this one. *)
Definition later (D D' : dealing) : Prop := D = D' ∨ (D.1 < D'.1)%N ∨ (D.1 = D'.1 ∧ D.2 = []).

(** All messages sent so far, when the dealing is [D]: each fits what was dealt
    in its epoch. *)
Definition covered (D : dealing) (log : list TSSDKG) : Prop :=
  ∃ dealt : N → list Scalar,
    (∀ m, m ∈ log → of_dealing (dealt (dk_Epoch m)) m) ∧ dealt D.1 = D.2 ∧ ∀ e, (D.1 < e)%N → dealt e = [].

Lemma of_no_dealing cs m : of_dealing [] m → of_dealing cs m.
Proof.
  intros [H1 H2 H3]. split.
  - intros [H|[=]]%H1. by left.
  - intros (r & sh & key & _ & [=] & _)%H2.
  - intros (sh & [=] & _)%H3.
Qed.

Lemma covered_later D D' log : later D D' → covered D log → covered D' log.
Proof.
  intros [<-|Hl]; [done|]. intros (dealt & Hm & Hd & He).
  exists (λ e, if ⌜? e = D'.1 ⌝ then D'.2 else if ⌜? (D'.1 < e)%N ⌝ then [] else dealt e).
  assert (dealt D'.1 = []) as H0 by (destruct Hl as [?|[E E2]]; [by apply He|by rewrite <-E, Hd]).
  split; [|split].
  - intros m Hin. specialize (Hm m Hin). case_bool_decide as E.
    { apply of_no_dealing. by rewrite E, H0 in Hm. }
    case_bool_decide as E2; [|done]. rewrite He in Hm; [done|]. destruct Hl as [?|[??]]; lia.
  - by rewrite bool_decide_true.
  - intros e Hlt. rewrite bool_decide_false by lia. by rewrite bool_decide_true.
Qed.

Lemma covered_send D m log : dk_Epoch m = D.1 → of_dealing D.2 m → covered D log → covered D (log ++ [m]).
Proof.
  intros E Hm (dealt & Hall & Hd & He). exists dealt. split; [|done].
  intros m' [Hin| ->%list_elem_of_singleton]%elem_of_app; [by apply Hall|]. by rewrite E, Hd.
Qed.

(** ** What effects do

    The state is a dealing and the key share, if one was saved. *)
Inductive deals : dealing * option KeyShare → list REffect → dealing * option KeyShare → Prop :=
  | deals_nil S : deals S [] S
  | deals_metric S e es S' : deals S es S' → deals S (RMetric e :: es) S'
  | deals_send D K m es S : dk_Epoch m = D.1 → of_dealing D.2 m → deals (D, K) es S → deals (D, K) (Send m :: es) S
  | deals_persist D D' K st es S :
      later D D' → session_at D' st → (bs_Done st = true → is_Some K) → deals (D', K) es S →
      deals (D, K) (Persist st :: es) S
  | deals_key D ks es S :
      length (ks_PrivateKey ks) = 32 → deals (D, Some ks) es S → deals (D, None) (SaveKey ks :: es) S.
#[local] Hint Constructors deals : core.

Lemma deals_app S1 es S2 es' S3 : deals S1 es S2 → deals S2 es' S3 → deals S1 (es ++ es') S3.
Proof. induction 1; intros; simpl; eauto. Qed.

Lemma deals_take S es S' k : deals S es S' → ∃ S1, deals S (take k es) S1.
Proof.
  intros H. revert k. induction H; intros [|k]; try (by eexists).
  all: destruct (IHdeals k) as [S2 Hk]; eexists; simpl; eauto.
Qed.

(** Once a key share is saved it stays. *)
Lemma deals_keyed D ks es S : deals (D, Some ks) es S → S.2 = Some ks.
Proof.
  remember (D, Some ks) as S0 eqn:E. intros H. revert D E. induction H; intros D0 E; subst; try done; eauto.
  all: injection E as <- ->; eauto.
Qed.

(** The epoch a runner is constructed with. *)
Definition first_epoch : N := if (bc_Epoch cfg =? 0)%N then 1 else bc_Epoch cfg.

Record on_disk (S : dealing * option KeyShare) (d : Disk) : Prop := {
  od_session : match dsk_session d with None => S.1 = (first_epoch, []) | Some st => session_at S.1 st end;
  od_key : dsk_key d = S.2;
  od_len ks : S.2 = Some ks → length (ks_PrivateKey ks) = 32;
  od_done st : dsk_session d = Some st → bs_Done st = true → is_Some S.2;
}.

Lemma deals_disk S es S' d log :
  deals S es S' → on_disk S d → covered S.1 log → on_disk S' (writes d es) ∧ covered S'.1 (log ++ sends es).
Proof.
  intros H. revert d log. induction H as [S|S e es S' H IH|D K m es S E Hm H IH|D D' K st es S Hl Hs Hd H IH|D ks es S Hk H IH];
    intros d log Hdisk Hc; cbn [sends omap list_omap writes foldl].
  - by rewrite app_nil_r.
  - by apply IH.
  - destruct (IH d (log ++ [m])) as [H1 H2]; [done|by apply covered_send|]. split; [done|]. by rewrite <-app_assoc in H2.
  - apply IH; [|by eapply covered_later]. destruct Hdisk as [H1 H2 H3 H4]. split; cbn; try done. by intros ? [= <-].
  - apply IH; [|done]. destruct Hdisk as [H1 H2 H3 H4]. split; cbn; try done; by intros ? [= <-].
Qed.

(** ** Turns *)
Definition result_of (ks : KeyShare) : BeastDKGResult :=
  mkResult self (bc_Threshold cfg) (ks_PublicKey ks) (ks_PrivateKey ks).

(** A running process agrees with its stores: unfinished, in the middle of the
    dealing, or finished with the key share. *)
Definition agrees (S : dealing * option KeyShare) (r : BeastDKGRunner) : Prop :=
  match S.2 with
  | None => at_dealing S.1 r
  | Some ks => rn_done r = true ∧ rn_result r = result_of ks
  end.

(** A turn from [D] that does not finish the run, and one that may. *)
Definition turn_at (D : dealing) (t : turn) : Prop :=
  ∃ D', deals (D, None) t.2 (D', None) ∧ at_dealing D' t.1.

Definition turn_ends (D : dealing) (t : turn) : Prop :=
  ∃ S, deals (D, None) t.2 S ∧ agrees S t.1.

Lemma turn_at_ends D t : turn_at D t → turn_ends D t.
Proof. intros (D' & H1 & H2). by exists (D', None). Qed.

Lemma turn_at_then D t k :
  turn_at D t → (∀ D', at_dealing D' t.1 → turn_at D' (k t.1)) → turn_at D (andthen t k).
Proof.
  intros (D1 & H1 & H2) Hk. destruct (Hk D1 H2) as (D2 & H3 & H4). exists D2.
  rewrite fst_andthen, snd_andthen. split; [by eapply deals_app|done].
Qed.

Lemma turn_ends_then D t k :
  turn_at D t → (∀ D', at_dealing D' t.1 → turn_ends D' (k t.1)) → turn_ends D (andthen t k).
Proof.
  intros (D1 & H1 & H2) Hk. destruct (Hk D1 H2) as (S2 & H3 & H4). exists S2.
  rewrite fst_andthen, snd_andthen. split; [by eapply deals_app|done].
Qed.

(** What a handler may change freely. *)
Definition dealing_fields (r : BeastDKGRunner) := (rn_epoch r, rn_coeffs r, rn_selfCommitments r, rn_done r).

Lemma at_same D r r' : dealing_fields r' = dealing_fields r → at_dealing D r → at_dealing D r'.
Proof. intros [= E1 E2 E3 E4]. unfold at_dealing. by rewrite E1, E2, E3, E4. Qed.

Lemma turn_ret D r r' : at_dealing D r → dealing_fields r' = dealing_fields r → turn_at D (ret r').
Proof. intros H E. exists D. split; [constructor|by eapply at_same]. Qed.

Lemma session_of_at D r : at_dealing D r → session_at D (session_of r).
Proof. intros (E1 & E2 & H & _). repeat split; cbn; [done|by rewrite E2|apply H..]. Qed.

Lemma turn_persist D r r' :
  at_dealing D r → dealing_fields r' = dealing_fields r → turn_at D (persistLocked cfg r').
Proof.
  intros H E. apply (at_same D _ _ E) in H. clear E. exists D. split; [|done]. unfold persistLocked. cbn [snd].
  case_bool_decide; [constructor|]. apply (deals_persist D D); [by left|by apply session_of_at| |constructor].
  cbn. by rewrite (proj2 (proj2 (proj2 H))).
Qed.

(** Whoever signs, what is sent fits when the message did. *)
Lemma of_dealing_sig cs m sig : of_dealing cs m → of_dealing cs (set_sig m sig).
Proof. intros [H1 H2 H3]. by split. Qed.

Lemma deals_signed D m s K : signMessage cfg m = Some s → dk_Epoch m = D.1 → of_dealing D.2 m → deals (D, K) [Send s] (D, K).
Proof.
  unfold signMessage. case_bool_decide; [done|]. intros [= <-] E Hm.
  apply deals_send; [done|by apply of_dealing_sig|constructor].
Qed.

Lemma deals_sent D m K : dk_Epoch m = D.1 → of_dealing D.2 m → deals (D, K) (send cfg m) (D, K).
Proof.
  intros E Hm. unfold send. destruct (signMessage cfg m) eqn:Es; [by eapply deals_signed|constructor].
Qed.

Lemma turn_effects D r es : at_dealing D r → deals (D, None) es (D, None) → turn_at D (r, es).
Proof. intros. by exists D. Qed.

(** An acknowledgement or a complaint deals nothing. *)
Lemma of_dealing_vote cs m : dk_Type m = "ack" ∨ dk_Type m = "complaint" → of_dealing cs m.
Proof. intros H. split; intros E; rewrite E in H; by destruct H. Qed.

Lemma turn_disqualify D r d : at_dealing D r → turn_at D (disqualify cfg d r).
Proof.
  intros H. apply turn_at_then; [|intros D' H'; by eapply turn_persist].
  unfold disqualifyDealerLocked. destruct (_ || _); [by eapply turn_ret|].
  exists D. split; [apply deals_metric, deals_nil|by eapply at_same].
Qed.

Lemma turn_onCommitments D r m : at_dealing D r → turn_at D (onCommitments cfg m r).
Proof.
  intros H. unfold onCommitments. case_bool_decide; [by eapply turn_ret|].
  case_bool_decide; [by apply turn_disqualify|]. destruct (negb _); [by apply turn_disqualify|].
  case_bool_decide; [by eapply turn_ret|]. destruct (rn_commitments r !! _); [by eapply turn_ret|].
  by eapply turn_persist.
Qed.

Lemma turn_ack D r d : at_dealing D r → turn_at D (broadcastAck cfg d r).
Proof.
  intros H. apply turn_at_then; [by eapply turn_persist|]. intros D' H'. apply turn_effects; [done|].
  apply deals_sent; [apply H'|]. apply of_dealing_vote. by left.
Qed.

Lemma turn_complaint D r d : at_dealing D r → turn_at D (broadcastComplaint cfg d r).
Proof.
  intros H. apply turn_at_then; [by eapply turn_persist|]. intros D' H'. apply turn_effects; [done|].
  destruct (signMessage _ _) eqn:Es; [|constructor].
  eapply (deals_app _ [_]); [|apply deals_metric, deals_nil]. eapply deals_signed; [exact Es|apply H'|].
  apply of_dealing_vote. by right.
Qed.

Lemma turn_onShare D r m : at_dealing D r → turn_at D (onShare cfg m r).
Proof.
  intros H. unfold onShare. case_bool_decide; [by eapply turn_ret|].
  destruct (default [] _); [by eapply turn_ret|]. destruct (rn_shares r !! _); [by eapply turn_ret|].
  destruct (deriveShareKey _ _ _ _); [|by eapply turn_ret].
  destruct (open_share _ _ _ _ _); [|by apply turn_complaint].
  apply turn_at_then; [by eapply turn_persist|]. intros D' H'. by apply turn_ack.
Qed.

Lemma turn_onAck D r m : at_dealing D r → turn_at D (onAck cfg m r).
Proof.
  intros H. unfold onAck. destruct (_ || _); [by eapply turn_ret|]. case_bool_decide; [by eapply turn_ret|].
  by eapply turn_persist.
Qed.

Lemma turn_onComplaint D r m : at_dealing D r → turn_at D (onComplaint cfg m r).
Proof.
  intros H. unfold onComplaint. destruct (_ || _); [by eapply turn_ret|]. destruct (_ =? _)%Z.
  - unfold broadcastShareOpen. destruct (_ || _); [by eapply turn_ret|]. case_bool_decide; [by eapply turn_ret|].
    destruct (evalPolyAt _ _) as [|sh] eqn:E; [by eapply turn_ret|]. apply turn_effects; [done|].
    apply deals_sent; [apply H|]. split; [done..|]. intros _. exists sh. split; [|done]. cbn.
    by rewrite <-(proj1 (proj2 H)).
  - case_bool_decide; [by eapply turn_ret|]. by eapply turn_persist.
Qed.

Lemma turn_onShareOpen D r m : at_dealing D r → turn_at D (onShareOpen cfg m r).
Proof.
  intros H. unfold onShareOpen. destruct (_ || _); [by eapply turn_ret|].
  case_bool_decide; [by apply turn_disqualify|]. case_bool_decide; [by eapply turn_ret|].
  destruct (default [] _); [by eapply turn_ret|]. destruct (sk_Deserialize _); [|by apply turn_disqualify].
  destruct (verifyFeldmanShare _ _ _) as [|[|]]; [by apply turn_disqualify| |by apply turn_disqualify].
  apply turn_at_then; [by eapply turn_persist|]. intros D' H'. destruct (_ =? _)%Z; [by apply turn_ack|by eapply turn_ret].
Qed.

Lemma turn_tryProcessPending D r d : at_dealing D r → turn_at D (tryProcessPending cfg d r).
Proof.
  intros H. apply turn_at_then.
  - destruct (rn_pendingShare r !! d); [by apply turn_onShare|by eapply turn_ret].
  - intros D' H'. destruct (rn_pendingOpen _ !! d); [by apply turn_onShareOpen|by eapply turn_ret].
Qed.

Lemma turn_commitments D r : at_dealing D r → turn_at D (broadcastCommitments cfg r).
Proof.
  intros H. apply turn_effects; [done|]. apply deals_sent; [apply H|]. split; [|done..]. intros _. cbn.
  destruct (do_com _ _ (proj1 (proj2 (proj2 H)))) as [[_ ->]|Hc]; [by left|by right].
Qed.

Lemma turn_missing D env r : at_dealing D r → turn_at D (broadcastMissingShares cfg env r).
Proof.
  intros H. apply turn_effects; [done|]. induction (seqZ 1 (bc_N cfg)) as [|i js IH]; [constructor|].
  rewrite fmap_cons. cbn [concat]. eapply deals_app; [|exact IH]. destruct (_ || _); [constructor|].
  unfold share_message. destruct (evalPolyAt (rn_coeffs r) i) as [|sh] eqn:Ev; [constructor|].
  destruct (deriveShareKey cfg r self i) as [key|] eqn:Ek; [|constructor]. cbn [mbind option_bind].
  destruct (encryptShare key (re_nonce env i) (sk_Serialize sh)) as [[nonce ct]|] eqn:Ee; [|constructor].
  cbn [mbind option_bind]. apply deals_sent; [apply H|]. split; [done| |done]. intros _. exists r, sh, key. cbn.
  rewrite <-(proj1 (proj2 H)). split_and!; [done..|].
  revert Ee. unfold encryptShare. destruct (⌜? length key ≠ 32 ⌝); intros Ee; by simplify_eq/=.
Qed.

(** ** New dealings, and the end *)
Context {SC : ScalarCodec} (stored : bc_SessionDir cfg ≠ "").

Lemma map_res_generated (f : nat → bytes) js (coeffs : list Scalar) :
  map_res (λ j, randScalar (f j)) js = inr coeffs → Forall (λ sc, sk_Deserialize (sk_Serialize sc) = Some sc) coeffs.
Proof.
  revert coeffs. induction js as [|j js IH]; intros coeffs; cbn [map_res]; [intros [= <-]; constructor|].
  unfold randScalar at 1, must. destruct (sk_KeyGen (f j)) as [sc|] eqn:E; [|done]. cbn [bind].
  destruct (map_res _ js) as [|scs]; [done|]. intros [= <-]. constructor; [by eapply sk_generated|by apply IH].
Qed.

(** A dealing that is later, written to the session store. *)
Lemma turn_persist_later D D' r :
  later D D' → at_dealing D' r → turn_at D (persistLocked cfg r).
Proof.
  intros Hl H. exists D'. split; [|done]. unfold persistLocked. rewrite bool_decide_false by done. cbn [snd].
  apply (deals_persist D D'); [done|by apply session_of_at| |constructor]. cbn. by rewrite (proj2 (proj2 (proj2 H))).
Qed.

Lemma turn_ensure D env r : at_dealing D r → turn_at D (ensureLocalPoly cfg env r).1.
Proof.
  intros H. unfold ensureLocalPoly. destruct (_ && _) eqn:Ehas; [by eapply turn_ret|].
  destruct (⌜? length (bc_SigPriv cfg) ≠ 64 ⌝), (⌜? length (bc_EncPriv cfg) ≠ 32 ⌝); try by eapply turn_ret.
  destruct (map_res _ _) as [|coeffs] eqn:Ec; [by eapply turn_ret|]. apply map_res_generated in Ec.
  destruct (commitmentsFromPoly coeffs) as [|com] eqn:Ecom; [by eapply turn_ret|].
  destruct (evalPolyAt _ _); [by eapply turn_ret|]. destruct H as (E1 & E2 & [He Hs Hc] & Hd).
  assert (D.2 = []) as Hno.
  { destruct Hc as [[? _]|Hc]; [done|]. exfalso. revert Ehas. rewrite E2. revert Hc. unfold commitmentsFromPoly.
    destruct (D.2); [done|]. intros [= <-]. done. }
  apply (turn_persist_later D (D.1, coeffs)); [by right; right|]. repeat split; cbn; auto.
Qed.

Lemma turn_bump D env epoch r : at_dealing D r → turn_at D (bumpEpoch cfg env epoch r).
Proof.
  intros H. unfold bumpEpoch. destruct (N.eqb_spec epoch 0); [by eapply turn_ret|].
  destruct (rn_done r || (epoch <=? rn_epoch r)%N) eqn:E; [by eapply turn_ret|].
  apply orb_false_iff in E as [_ E%N.leb_gt]. rewrite (proj1 H) in E.
  apply turn_at_then; [apply (turn_persist_later D (epoch, [])); [by right; left|]; repeat split; cbn; auto|].
  intros D1 H1. apply turn_at_then; [exists D1; split; [apply deals_metric, deals_nil|done]|].
  intros D2 H2. apply turn_at_then; [by apply turn_ensure|]. intros D3. apply turn_commitments.
Qed.

(** Finishing: the key share, then the finished session. *)
Lemma turn_finalize D env r : at_dealing D r → turn_ends D (maybeFinalize cfg env r).
Proof.
  intros H. pose proof H as (E1 & E2 & Hok & Hd). unfold maybeFinalize, finalize_begin. rewrite Hd. cbn [orb].
  destruct (rn_finalizing r); [by apply turn_at_ends; eapply turn_ret|].
  destruct (_ <? _)%Z; [by apply turn_at_ends, turn_bump|].
  destruct (qualified cfg r) as [qual|]; [|by apply turn_at_ends; eapply turn_ret].
  destruct (_ <? _)%Z; [by apply turn_at_ends; eapply turn_ret|].
  destruct (final_values r qual) as [[gpk share]|] eqn:Ef; [|by apply turn_at_ends; eapply turn_ret].
  assert (length share = 32) as Hlen.
  { revert Ef. unfold final_values, qual_share. destruct (qual_public_key _); [done|].
    destruct (fold_res _ _ _); simpl; [done|]. intros [= _ <-]. apply sk_length. }
  exists (D, Some (key_share cfg gpk share)). rewrite snd_andthen, fst_andthen. unfold finalize_end.
  cbn [fst snd rn_done set_final rn_epoch]. rewrite bool_decide_false by (by intros []). cbn [orb].
  rewrite snd_andthen, fst_andthen. cbn [fst snd persistLocked].
  rewrite bool_decide_false by done. split; [|done]. apply deals_key; [done|].
  apply (deals_persist D D); [by left| |by eexists|apply deals_metric, deals_nil]. repeat split; cbn; [done|by rewrite E2|apply Hok..].
Qed.

Lemma turn_then_finalize D t env : turn_at D t → turn_ends D (andthen t (maybeFinalize cfg env)).
Proof. intros H. apply turn_ends_then; [done|]. intros D'. apply turn_finalize. Qed.

Lemma turn_dispatch D env m r : at_dealing D r → turn_ends D (dispatch cfg env m r).
Proof.
  intros H. unfold dispatch. case_bool_decide.
  { apply turn_ends_then; [by apply turn_onCommitments|]. intros D1 H1.
    apply turn_ends_then; [by apply turn_tryProcessPending|]. intros D2 H2.
    by apply turn_then_finalize, turn_missing. }
  case_bool_decide; [destruct (negb _); [by apply turn_at_ends; eapply turn_ret|by apply turn_then_finalize, turn_onShare]|].
  case_bool_decide; [by apply turn_then_finalize, turn_onShareOpen|].
  case_bool_decide; [by apply turn_then_finalize, turn_onAck|].
  case_bool_decide; [by apply turn_then_finalize, turn_onComplaint|]. by apply turn_at_ends; eapply turn_ret.
Qed.

Lemma turn_step D e r : at_dealing D r → turn_ends D (runner_step cfg epochTimeout r e).
Proof.
  intros H. destruct e as [env m|env]; cbn [runner_step].
  - unfold OnMessage. do 2 (destruct (_ || _); [by apply turn_at_ends; eapply turn_ret|]).
    destruct (negb _); [apply turn_at_ends, turn_effects; [done|apply deals_metric, deals_nil]|].
    destruct (_ || _); [by apply turn_at_ends; eapply turn_ret|]. apply turn_ends_then.
    { destruct (_ <? _)%N; [by apply turn_bump|by eapply turn_ret]. }
    intros D' H'. destruct (_ =? _)%N; [by apply turn_dispatch|by apply turn_at_ends; eapply turn_ret].
  - apply turn_at_ends. unfold tick. destruct (rn_done r); [by eapply turn_ret|]. destruct (_ && _); [by apply turn_bump|].
    apply turn_at_then; [by apply turn_commitments|]. intros D'. apply turn_missing.
Qed.

(** A finished participant neither changes nor writes nor sends. *)
Lemma finished_step D ks e r :
  agrees (D, Some ks) r → let t := runner_step cfg epochTimeout r e in
  deals (D, Some ks) t.2 (D, Some ks) ∧ agrees (D, Some ks) t.1.
Proof.
  intros [Hd Hr]. destruct e as [env m|env]; cbn [runner_step].
  - unfold OnMessage. do 2 (destruct (_ || _); [by split; [constructor|]|]).
    destruct (negb _); [by split; [apply deals_metric, deals_nil|]|]. rewrite Hd. by split; [constructor|].
  - unfold tick. rewrite Hd. by split; [constructor|].
Qed.

(** ** The start *)
Lemma restore_at D st r0 now :
  NewBeastDKGRunner cfg now = inl r0 → session_at D st → bs_Done st = false →
  at_dealing D (restore cfg r0 st).1.
Proof.
  unfold NewBeastDKGRunner. destruct (BeastValidate cfg); [done|]. intros [= <-] (E1 & E2 & [He Hs Hc]) Hd.
  unfold restore. rewrite E1, Hd, (proj2 (N.eqb_neq _ _) He), E2. cbn [andb].
  rewrite deserialize_serialize by (by apply Forall_forall). cbn [fst].
  set (r1 := restored _ _ _ _). assert (at_dealing D r1) as H1.
  { unfold r1, restored. repeat split; cbn; [done| |done|done|].
    - rewrite E2. case_bool_decide as E; [|done]. by apply fmap_nil_inv in E.
    - destruct Hc as [[? Hc]|Hc]; [left|right]; case_bool_decide as E; try done; by rewrite ?E in Hc. }
  unfold ensure_self_share. repeat case_match; done.
Qed.

Lemma new_at r0 now : NewBeastDKGRunner cfg now = inl r0 → at_dealing (first_epoch, []) r0.
Proof.
  unfold NewBeastDKGRunner. destruct (BeastValidate cfg); [done|]. intros [= <-]. repeat split; cbn; auto.
  unfold first_epoch. by destruct (N.eqb_spec (bc_Epoch cfg) 0).
Qed.

Lemma start_deals S d env r0 now :
  on_disk S d → NewBeastDKGRunner cfg now = inl r0 →
  let t := (Start cfg env (dsk_key d) (dsk_session d) r0).1 in
  ∃ S', deals S t.2 S' ∧ agrees S' t.1.
Proof.
  intros [H1 H2 H3 H4] H0. destruct S as [D [ks|]]; cbn [fst snd] in *; rewrite H2; unfold Start.
  - rewrite bool_decide_true by (by apply H3). exists (D, Some ks). split; [apply deals_metric, deals_nil|done].
  - assert (∀ r, at_dealing D r → turn_ends D (match ensureLocalPoly cfg env r with
      | (t, Some e) => (t, Some e) | (t, None) => (andthen t (broadcastCommitments cfg), nil_err) end).1) as Hgo.
    { intros r Hr. pose proof (turn_ensure D env r Hr) as He. apply turn_at_ends.
      destruct (ensureLocalPoly cfg env r) as [t [e|]]; [done|]. apply turn_at_then; [done|]. intros D'. apply turn_commitments. }
    apply Hgo. destruct (dsk_session d) as [st|]; [|rewrite H1; by eapply new_at].
    rewrite bool_decide_false by done. eapply restore_at; [done|done|].
    destruct (bs_Done st) eqn:Ed; [|done]. by destruct (H4 st eq_refl Ed).
Qed.

(** ** Whole lives *)
Record life_at (S : dealing * option KeyShare) (w : Life) : Prop := {
  la_disk : on_disk S (lf_disk w);
  la_sent : covered S.1 (lf_sent w);
  la_runner r : lf_runner w = Some r → agrees S r;
}.

Lemma happens_at S w t cut :
  life_at S w → (∃ S', deals S t.2 S' ∧ agrees S' t.1) →
  ∃ S', life_at S' (happens w t cut) ∧ ∀ ks, S.2 = Some ks → S'.2 = Some ks.
Proof.
  intros [Hd Hs _] (S' & H & Ha).
  assert (∀ es S1, deals S es S1 → ∀ ks, S.2 = Some ks → S1.2 = Some ks) as Hkey.
  { intros es S1 H1 ks E. destruct S as [D K]. cbn in E. subst K. by eapply deals_keyed. }
  destruct cut as [k|]; [destruct (deals_take _ _ _ k H) as [S1 H1]|rename S' into S1, H into H1];
    destruct (deals_disk _ _ _ _ _ H1 Hd Hs) as [H2 H3]; exists S1; (split; [split; cbn; try done|by eapply Hkey]).
  by intros r [= <-].
Qed.

Lemma life_step_at S w w' :
  life_at S w → life_step w w' → ∃ S', life_at S' w' ∧ ∀ ks, S.2 = Some ks → S'.2 = Some ks.
Proof.
  intros Hw Hstep. pose proof Hw as [Hd Hs Hr]. destruct Hstep as [w r0 now env cut Hdown H0|w r e cut Hup]; apply happens_at; try done.
  - by eapply start_deals.
  - specialize (Hr r Hup). destruct S as [D [ks|]]; [|by apply turn_step].
    exists (D, Some ks). by apply finished_step.
Qed.

Lemma lives_at S w w' :
  life_at S w → rtc life_step w w' → ∃ S', life_at S' w' ∧ ∀ ks, S.2 = Some ks → S'.2 = Some ks.
Proof.
  intros Hw H. revert S Hw. induction H as [w|w w1 w2 Hstep _ IH]; intros S Hw; [by exists S|].
  destruct (life_step_at S w w1 Hw Hstep) as (S1 & H1 & Hk1). destruct (IH S1 H1) as (S2 & H2 & Hk2).
  exists S2. split; [done|]. auto.
Qed.

Lemma life0_at : life_at ((first_epoch, []), None) life0.
Proof.
  split; [by split|exists (λ _, []); split; [by intros m ?%elem_of_nil|done]|done].
Qed.


End life.

(** ** The hypotheses at work

    The toy scalars have the encoding, and the pair of members of RunnerCrash
    lives through crashes. *)
#[local] Existing Instance toy_blst.
#[local] Existing Instance toy_gcm.
#[local] Existing Instance toy_auth.
#[local] Existing Instance brief_json.

#[export] Instance toy_scalars : ScalarCodec (B := toy_blst).
Proof.
  split; [intros s; apply length_be_bytes|]. intros ikm s. cbn [sk_KeyGen sk_Serialize sk_Deserialize toy_blst].
  destruct (_ <? _)%nat; [done|]. intros [= <-]. set (v := (be_value ikm mod (toy_r - 1) + 1)%N).
  assert (0 < v < toy_r)%N as Hv.
  { unfold v. pose proof (N.mod_lt (be_value ikm) (toy_r - 1) ltac:(done)) as H.
    revert H. generalize (be_value ikm mod (toy_r - 1))%N. unfold toy_r. lia. }
  assert (be_value (be_bytes 32 v) = v) as E.
  { apply be_value_bytes. etransitivity; [apply Hv|]. by vm_compute. }
  unfold toy_point. rewrite length_be_bytes, E, (proj2 (N.ltb_lt _ _) (proj2 Hv)). cbn. destruct v; [lia|done].
Qed.

Notation pair_life := (life_step (pair_cfg 1) 5).

Definition pair_boot (w : Life) (seed : Z) (cut : option nat) : Life :=
  happens w (Start (pair_cfg 1) (committee_env seed) (dsk_key (lf_disk w)) (dsk_session (lf_disk w)) (pair_new 1)).1 cut.

Definition pair_event (w : Life) (e : REvent) (cut : option nat) : Life :=
  match lf_runner w with Some r => happens w (runner_step (pair_cfg 1) 5 r e) cut | None => w end.

Lemma pair_boot_step w seed cut : lf_runner w = None → pair_life w (pair_boot w seed cut).
Proof. intros H. by apply (life_boot _ _ w (pair_new 1) 0). Qed.

Lemma pair_event_step w e cut : rtc pair_life w (pair_event w e cut).
Proof.
  unfold pair_event. destruct (lf_runner w) as [r|] eqn:E; [|apply rtc_refl].
  apply rtc_once. by apply life_event.
Qed.

Lemma pair_event_stops w e k : lf_runner (pair_event w e (Some k)) = None.
Proof. unfold pair_event. by destruct (lf_runner w) eqn:E. Qed.

(** The first member starts, stops in the middle of a retry, and starts again
    with other randomness: the commitments are sent three times. *)
Definition pair_restarted : Life :=
  pair_boot (pair_event (pair_boot life0 1 None) (RTick (committee_env 1)) (Some 1)) 9 None.


(** The first member hears all it needs, finishes, stops, and starts again. *)
Definition pair_acked : TSSDKG :=
  pair_message (OnMessage (pair_cfg 2) (committee_env 2) (pair_message (pair_hears 1 2)) (pair_hears 2 1).1).

Definition pair_finished : Life :=
  pair_event (pair_event (pair_event (pair_boot life0 1 None)
    (RMessage (committee_env 1) (pair_message (pair_start 2))) None)
    (RMessage (committee_env 1) pair_share) None)
    (RMessage (committee_env 1) pair_acked) None.

Definition runner_of (w : Life) : BeastDKGRunner :=
  match lf_runner w with Some r => r | None => pair_new 1 end.


(** The errors of the stores are ignored. When the first session write fails, the
    stores are still empty, and a member that stops and starts again deals anew
    in the epoch. *)
Example lost_write_deals_twice :
  let t seed := (Start (pair_cfg 1) (committee_env seed) None None (pair_new 1)).1 in
  match sends (t 1%Z).2, sends (t 9%Z).2 with
  | [m], [m'] => ⌜? dk_Type m = "commitments" ∧ dk_Type m' = "commitments" ∧ dk_Epoch m = dk_Epoch m' ∧
                    dk_Commitments m ≠ dk_Commitments m' ⌝
  | _, _ => false
  end = true.
Proof. vm_compute. reflexivity. Qed.
