(* ===== verification/RunnerRaces.v ===== *)
(** Two goroutines in one DKG participant
    (src/internal/tss/dkg/beast_runner_blst.go): the receive loop runs
    [OnMessage], and [retryLoop] ticks. The handlers hold the lock for parts of
    their work only. Here the parts are apart, and an epoch begins between them. *)
From S2P Require Import CryptoOps Feldman.
From S2P Require Import Prelude Metrics Codec Files Sha256 Tss TssStores Runner RunnerCrash.

Section races.
Context {B : Blst} {G : AESGCM} {A : DKGAuth} {J : Json TSSDKG}.
Context (cfg : BeastDKGConfig).
Notation self := (bc_Index cfg).

(** ** [broadcastShareOpen]

    The coefficients are read under the lock, the epoch after it. *)
Definition opening_read (r : BeastDKGRunner) (toIndex : Z) : option Scalar :=
  RETURN None IF (toIndex <=? 0)%Z || (bc_N cfg <? toIndex)%Z || (toIndex =? self)%Z ;;
  RETURN None IF ⌜? length (rn_coeffs r) = 0 ⌝ ;;
  match evalPolyAt (rn_coeffs r) toIndex with inl _ => None | inr sh => Some sh end.

Definition opening_message (r : BeastDKGRunner) (toIndex : Z) (sh : Scalar) : TSSDKG :=
  mkTSSDKG (bc_SessionID cfg) (rn_epoch r) "share_open" self toIndex [] [] [] (sk_Serialize sh) [].

Lemma broadcastShareOpen_parts to r :
  broadcastShareOpen cfg to r =
  match opening_read r to with None => ret r | Some sh => (r, send cfg (opening_message r to sh)) end.
Proof.
  unfold broadcastShareOpen, opening_read. destruct (_ || _); [done|]. destruct (⌜? _ ⌝); [done|].
  by destruct (evalPolyAt _ _).
Qed.

(** ** [OnMessage]

    The epoch of a message is compared before its handler takes the lock. *)
Lemma OnMessage_parts env m r :
  authentic cfg m → dk_Epoch m ≠ 0%N → rn_done r = false → dk_Epoch m = rn_epoch r →
  OnMessage cfg env m r = dispatch cfg env m r.
Proof.
  intros (Hs & [Hf1 Hf2] & Hself & Ht & Hsig) He Hd Ee. unfold OnMessage.
  rewrite (bool_decide_true (dk_SessionID m = bc_SessionID cfg)) by done.
  rewrite (proj2 (N.eqb_neq _ _)) by done. cbn [negb orb].
  rewrite (proj2 (Z.leb_gt _ _)), (proj2 (Z.ltb_ge (bc_N cfg) _)), (proj2 (Z.eqb_neq (dk_FromIndex m) _)) by done.
  rewrite bool_decide_false by done. rewrite Hsig, Hd, Ee. cbn [negb orb]. rewrite N.ltb_irrefl. cbn [andthen ret].
  rewrite N.eqb_refl. by destruct (dispatch cfg env m r).
Qed.

(** A share that is opened in public and does not fit costs the dealer its place. *)
Lemma unfit_opening env m r :
  authentic cfg m → dk_Epoch m ≠ 0%N → rn_done r = false → dk_Epoch m = rn_epoch r →
  dk_Type m = "share_open" → (0 < dk_ToIndex m <= bc_N cfg)%Z → default [] (rn_commitments r !! dk_FromIndex m) ≠ [] →
  (∀ sc, sk_Deserialize (dk_Share m) = Some sc →
     verifyFeldmanShare sc (dk_ToIndex m) (default [] (rn_commitments r !! dk_FromIndex m)) ≠ inr true) →
  OnMessage cfg env m r = andthen (onShareOpen cfg m r) (maybeFinalize cfg env) ∧
  dk_FromIndex m ∈ rn_badDealers (onShareOpen cfg m r).1.
Proof.
  intros Ha He Hd Ee Ht [Hto1 Hto2] Hcom Hunfit. split.
  { rewrite OnMessage_parts by done. unfold dispatch. by rewrite Ht. }
  destruct Ha as (_ & [Hf _] & _). assert (∀ x, dk_FromIndex m ∈ rn_badDealers (disqualify cfg (dk_FromIndex m) x).1) as Hbad.
  { intros x. unfold disqualify, disqualifyDealerLocked. rewrite fst_andthen, fst_persist.
    rewrite (proj2 (Z.leb_gt _ _)) by done. cbn [orb]. case_bool_decide; [done|]. cbn. set_solver. }
  unfold onShareOpen. rewrite (proj2 (Z.leb_gt _ _)), (proj2 (Z.ltb_ge _ _)) by done. cbn [orb].
  case_bool_decide; [done|]. case_bool_decide; [done|].
  destruct (default [] _) as [|c com]; [done|]. destruct (sk_Deserialize _) as [sc|]; [|done].
  specialize (Hunfit sc eq_refl). destruct (verifyFeldmanShare _ _ _) as [|[|]]; done.
Qed.

Context (valid : BeastValidate cfg = nil_err).

(** A new epoch starts with nothing heard. *)
Lemma tick_new_epoch epochTimeout env r :
  active cfg r → (0 < epochTimeout < re_now env - rn_epochStart r)%Z → (rn_epoch r < last_epoch)%N →
  let r1 := (tick cfg epochTimeout env r).1 in
  active cfg r1 ∧ rn_epoch r1 = (rn_epoch r + 1)%N ∧ rn_acks r1 = ∅ ∧ rn_badDealers r1 = ∅ ∧ rn_pendingShare r1 = ∅ ∧
  rn_pendingOpen r1 = ∅ ∧ rn_finalizing r1 = false ∧ ∀ d, d ≠ self → rn_commitments r1 !! d = None.
Proof.
  intros Ha Hto He. unfold tick. rewrite (proj2 Ha), !(proj2 (Z.ltb_lt _ _)) by lia. cbn [andb].
  assert (u64_add (rn_epoch r) 1 = rn_epoch r + 1)%N as ->.
  { apply N.mod_small. unfold last_epoch in He. unfold two64. lia. }
  destruct (bump_active cfg valid env (rn_epoch r + 1) r Ha) as [Hb Heq].
  rewrite (proj2 (N.leb_gt _ _)) in Heq by lia. split; [done|]. split; [done|]. clear Hb Heq.
  unfold bumpEpoch. rewrite (proj2 (N.eqb_neq _ _)), (proj2 Ha), (proj2 (N.leb_gt _ _)) by lia. cbn [orb].
  rewrite !fst_andthen, fst_persist. cbn [fst broadcastCommitments]. unfold ensureLocalPoly.
  assert (∀ d, rn_commitments (resetForEpochLocked env (rn_epoch r + 1)) !! d = None) as Hno by (intros d; apply lookup_empty).
  repeat case_match; cbn [fst ret]; rewrite ?fst_persist; (split_and!; [done..|]); intros d Hne; try apply Hno.
  cbn. by rewrite lookup_insert_ne.
Qed.

(** Without acknowledgements nothing is finished. *)
Lemma finalize_waits env r :
  (1 < bc_N cfg)%Z → rn_done r = false → rn_finalizing r = false → rn_badDealers r = ∅ → rn_acks r = ∅ →
  maybeFinalize cfg env r = ret r.
Proof.
  intros Hn Hd Hf Hb Ha. unfold maybeFinalize, finalize_begin. rewrite Hd, Hf, Hb, size_empty. cbn [orb].
  pose proof (threshold_pos cfg valid). rewrite (proj2 (Z.ltb_ge _ _)) by lia.
  assert (qualified cfg r = None) as ->; [|done]. unfold qualified. rewrite (seqZ_cons 1) by lia. cbn [qual_loop].
  rewrite Hb, bool_decide_false by set_solver. case_bool_decide; [done|]. destruct (negb _); [done|].
  rewrite Ha, lookup_empty. cbn [default]. rewrite size_empty, (proj2 (Z.ltb_lt _ _)) by lia. done.
Qed.

(** The commitments of the old epoch, handled after the epoch has changed. *)
Lemma late_commitments epochTimeout env env' r m :
  active cfg r → authentic cfg m → dk_Type m = "commitments" →
  Z.of_nat (length (dk_Commitments m)) = bc_Threshold cfg → forallb commitment_ok (dk_Commitments m) = true →
  (0 < epochTimeout < re_now env - rn_epochStart r)%Z → (rn_epoch r < last_epoch)%N →
  let r1 := (tick cfg epochTimeout env r).1 in
  (dispatch cfg env' m r1).1 = set_commitments r1 (<[dk_FromIndex m := dk_Commitments m]> (rn_commitments r1)).
Proof.
  intros Ha (_ & Hf & Hself & _) Ht Hl Hok Hto He r1. pose proof (threshold_pos cfg valid) as Hth.
  destruct (tick_new_epoch epochTimeout env r Ha Hto He) as (Ha1 & _ & Hacks & Hbad & Hps & Hpo & Hfin & Hcom). fold r1 in Ha1, Hacks, Hbad, Hps, Hpo, Hfin, Hcom.
  assert (1 < bc_N cfg)%Z as Hn.
  { destruct (decide (bc_N cfg = 1%Z)) as [E|]; [|lia]. exfalso. apply Hself.
    apply BeastValidate_iff in valid as (_ & _ & Hi & _). lia. }
  unfold dispatch. rewrite Ht, bool_decide_true by done. rewrite !fst_andthen.
  assert ((onCommitments cfg m r1).1 = set_commitments r1 (<[dk_FromIndex m := dk_Commitments m]> (rn_commitments r1))) as ->.
  { unfold onCommitments. rewrite bool_decide_false by (by destruct (dk_Commitments m); [simpl in Hl; lia|]).
    rewrite bool_decide_false by (by intros []). rewrite Hok. cbn [negb]. rewrite Hbad, bool_decide_false by set_solver.
    by rewrite Hcom. }
  set (r2 := set_commitments _ _). assert ((tryProcessPending cfg (dk_FromIndex m) r2).1 = r2) as ->.
  { unfold tryProcessPending. rewrite fst_andthen. cbn [rn_pendingShare r2 set_commitments]. by rewrite Hps, lookup_empty; cbn; rewrite Hpo, lookup_empty. }
  cbn [fst broadcastMissingShares]. by rewrite finalize_waits by (done || apply Ha1).
Qed.
End races.

(** C19. An honest dealer that answers a complaint can be thrown out for it. A
    dealer that opens a share reads its coefficients, and then the epoch. When
    its retry loop starts the next epoch in between, the message opens a share
    of the old polynomial in the new epoch; and a participant that has the
    commitments of the new epoch, which the value does not fit, accepts the
    message as authentic and disqualifies the dealer. *)
Theorem late_opening_disqualifies {B : Blst} {G : AESGCM} {A : DKGAuth} {J : Json TSSDKG}
    (cfg cfgq : BeastDKGConfig) (epochTimeout : Z) (env envq : REnv) (r q : BeastDKGRunner) (to : Z) (sh : Scalar) (s : TSSDKG) :
  BeastValidate cfg = nil_err → active cfg r → active cfgq q → bc_N cfgq = bc_N cfg →
  (0 < epochTimeout < re_now env - rn_epochStart r)%Z → (rn_epoch r < last_epoch)%N →
  let r' := (tick cfg epochTimeout env r).1 in
  opening_read cfg r to = Some sh → send cfg (opening_message cfg r' to sh) = [Send s] → authentic cfgq s →
  rn_epoch q = rn_epoch r' → rn_commitments q !! bc_Index cfg = Some (rn_selfCommitments r') →
  (∀ sc, sk_Deserialize (sk_Serialize sh) = Some sc → verifyFeldmanShare sc to (rn_selfCommitments r') ≠ inr true) →
  OnMessage cfgq envq s q = andthen (onShareOpen cfgq s q) (maybeFinalize cfgq envq) ∧
  bc_Index cfg ∈ rn_badDealers (onShareOpen cfgq s q).1.
Proof.
  intros Hv Ha Hq Hn Hto He r' Hread Hsend Hauth Eq Hcom Hunfit.
  destruct (tick_new_epoch cfg Hv epochTimeout env r Ha Hto He) as (_ & Er & _). fold r' in Er.
  assert (∃ sig, s = set_sig (opening_message cfg r' to sh) sig) as [sig ->].
  { revert Hsend. unfold send, signMessage. destruct (⌜? _ ⌝); [done|]. intros [= <-]. by eexists. }
  assert (0 < to <= bc_N cfgq)%Z as Hrange.
  { revert Hread. unfold opening_read. destruct (_ || _) eqn:E; [done|]. guards. lia. }
  apply unfit_opening; cbn; try done; [rewrite Er; lia|apply Hq|rewrite Hcom; cbn|by rewrite Hcom].
  apply (ro_commitments cfgq q (proj1 Hq) _ _ Hcom).
Qed.

(** A participant mixes two epochs of a dealer. The commitments of a dealer pass
    the check of the epoch, the retry loop starts the next epoch, and then the
    handler stores them, there. What the dealer commits to in the new epoch is
    ignored, and when it opens a share of it, it is disqualified. *)
Theorem late_commitments_disqualify {B : Blst} {G : AESGCM} {A : DKGAuth} {J : Json TSSDKG}
    (cfg : BeastDKGConfig) (epochTimeout : Z) (env env' envs : REnv) (r : BeastDKGRunner) (m s : TSSDKG) :
  BeastValidate cfg = nil_err → active cfg r → authentic cfg m → dk_Type m = "commitments" →
  Z.of_nat (length (dk_Commitments m)) = bc_Threshold cfg → forallb commitment_ok (dk_Commitments m) = true →
  (0 < epochTimeout < re_now env - rn_epochStart r)%Z → (rn_epoch r < last_epoch)%N →
  let r2 := (dispatch cfg env' m (tick cfg epochTimeout env r).1).1 in
  rn_epoch r2 = (rn_epoch r + 1)%N ∧ rn_commitments r2 !! dk_FromIndex m = Some (dk_Commitments m) ∧
  (authentic cfg s → dk_FromIndex s = dk_FromIndex m → dk_Epoch s = rn_epoch r2 →
     (dk_Type s = "commitments" → length (dk_Commitments s) = length (dk_Commitments m) →
        forallb commitment_ok (dk_Commitments s) = true → onCommitments cfg s r2 = ret r2) ∧
     (dk_Type s = "share_open" → (0 < dk_ToIndex s <= bc_N cfg)%Z →
        (∀ sc, sk_Deserialize (dk_Share s) = Some sc → verifyFeldmanShare sc (dk_ToIndex s) (dk_Commitments m) ≠ inr true) →
        dk_FromIndex m ∈ rn_badDealers (onShareOpen cfg s r2).1)).
Proof.
  intros Hv Ha Hm Ht Hl Hok Hto He r2. pose proof (threshold_pos cfg Hv) as Hth.
  destruct (tick_new_epoch cfg Hv epochTimeout env r Ha Hto He) as (Ha1 & Er & _ & Hbad & _).
  assert (r2 = set_commitments (tick cfg epochTimeout env r).1 (<[dk_FromIndex m := dk_Commitments m]>
    (rn_commitments (tick cfg epochTimeout env r).1))) as E2 by (by apply late_commitments). clearbody r2.
  assert (rn_commitments r2 !! dk_FromIndex m = Some (dk_Commitments m)) as Hc by (rewrite E2; apply lookup_insert_eq).
  assert (dk_Commitments m ≠ []) as Hne by (destruct (dk_Commitments m); [simpl in Hl; lia|done]).
  split; [by rewrite E2|]. split; [done|]. intros Hs Hf Hes. split.
  - intros _ Hls Hoks. unfold onCommitments. rewrite bool_decide_false by (by intros E; rewrite E in Hls; destruct (dk_Commitments m)).
    rewrite bool_decide_false by (rewrite Hls; by intros []). rewrite Hoks, Hf, Hc. cbn [negb].
    by rewrite bool_decide_false by (rewrite E2; cbn; rewrite Hbad; set_solver).
  - intros Hts Hrange Hunfit. rewrite <-Hf.
    apply (unfit_opening cfg env' s r2); try done; [rewrite Hes, E2; cbn; rewrite Er; lia|rewrite E2; apply Ha1| |]; rewrite Hf, Hc; done.
Qed.

(** ** The dealer of the pair *)
#[local] Existing Instance toy_blst.
#[local] Existing Instance toy_gcm.
#[local] Existing Instance toy_auth.
#[local] Existing Instance brief_json.

Definition later_env : REnv := mkREnv (re_ikm (committee_env 7)) (re_nonce (committee_env 7)) 100.
Definition pair_ticked : turn := tick (pair_cfg 2) 5 later_env (pair_start 2).1.
Definition pair_opening : TSSDKG :=
  match opening_read (pair_cfg 2) (pair_start 2).1 1 with
  | Some sh => pair_message ((pair_start 2).1, send (pair_cfg 2) (opening_message (pair_cfg 2) pair_ticked.1 1 sh))
  | None => pair_share
  end.
Definition pair_receiver : BeastDKGRunner :=
  (OnMessage (pair_cfg 1) (committee_env 1) (pair_message pair_ticked) (pair_start 1).1).1.

Lemma late_opening_disqualifies_witness :
  2%Z ∈ rn_badDealers (onShareOpen (pair_cfg 1) pair_opening pair_receiver).1.
Proof.
  assert (active (pair_cfg 2) (pair_start 2).1) as H2 by (apply start_active with (now := 0%Z); reflexivity).
  assert (active (pair_cfg 1) (pair_start 1).1) as H1 by (apply start_active with (now := 0%Z); reflexivity).
  assert (active (pair_cfg 1) pair_receiver) as Hq.
  { destruct (OnMessage_inv (pair_cfg 1) eq_refl (committee_env 1) (pair_message pair_ticked) (pair_start 1).1) as [[Hok _] _];
      [by apply active_inv|]. split; [exact Hok|vm_compute; reflexivity]. }
  assert (opening_read (pair_cfg 2) (pair_start 2).1 1 = Some 33%N) as Hread by (vm_compute; reflexivity).
  refine (proj2 (late_opening_disqualifies (pair_cfg 2) (pair_cfg 1) 5 later_env (committee_env 1) (pair_start 2).1
    pair_receiver 1 33%N pair_opening _ H2 Hq _ _ _ Hread _ _ _ _ _)).
  - reflexivity.
  - reflexivity.
  - vm_compute. split; reflexivity.
  - vm_compute. reflexivity.
  - vm_compute. reflexivity.
  - split_and!; try (vm_compute; first [reflexivity|discriminate]).
  - vm_compute. reflexivity.
  - vm_compute. reflexivity.
  - assert (match sk_Deserialize (sk_Serialize (33%N : Scalar)) with
            | Some sc => match verifyFeldmanShare sc 1 (rn_selfCommitments pair_ticked.1) with inr true => false | _ => true end
            | None => true
            end = true) as Hno by (vm_compute; reflexivity).
    intros sc E Hv. rewrite E in Hno. unfold pair_ticked in Hno. rewrite Hv in Hno. discriminate Hno.
Defined.
