(* ===== verification/DkgNet.v ===== *)
(** A committee that runs the BEAST DKG (src/internal/tss/dkg/beast_runner_blst.go)
    over a network: honest participants whose messages are delivered in any order,
    any number of times, and retried on ticks. What a participant has heard
    determines its state; when everything sent has been delivered everyone is
    finished; and the shares of finished participants, of this network or of a
    hostile one, form a threshold scheme. *)
From stdpp Require Import functions relations.
From S2P Require Import CryptoOps Beast Feldman.
From S2P Require Import Prelude Metrics Codec Files Sha256 Tss TssStores Payload Private Runner.

#[export] Instance TSSDKG_eq_dec : EqDecision TSSDKG.
Proof. solve_decision. Defined.

(** ** The network

    Participant [i] runs the code of the repository with the configuration [cfg i]
    and the randomness [env0 i] of its first epoch. *)
Section network.
Context {B : Blst} {G : AESGCM} {A : DKGAuth} {J : Json TSSDKG}.
Context (n thr : Z) (epochTimeout : Z) (cfg : Z → BeastDKGConfig) (env0 : Z → REnv).

Definition is_member (i : Z) : Prop := (1 <= i <= n)%Z.

(** The state of the participants, all that was sent, and what was delivered to each. *)
Record World := mkWorld {
  wd_node : Z → BeastDKGRunner;
  wd_sent : list TSSDKG;
  wd_seen : Z → list TSSDKG;
}.

Definition fresh (i : Z) : BeastDKGRunner :=
  match NewBeastDKGRunner (cfg i) (re_now (env0 i)) with
  | inl r => r
  | inr _ => resetForEpochLocked (env0 i) 0
  end.

Definition start_turn (i : Z) : turn := (Start (cfg i) (env0 i) None None (fresh i)).1.

Definition world0 : World :=
  mkWorld (λ i, (start_turn i).1) (seqZ 1 n ≫= λ i, sends (start_turn i).2) (λ _, []).

(** Participant [i] takes a turn. *)
Definition took (i : Z) (t : turn) (seen : list TSSDKG) (w : World) : World :=
  mkWorld (<[i := t.1]> (wd_node w)) (wd_sent w ++ sends t.2) (<[i := seen]> (wd_seen w)).

Definition deliver_to (i : Z) (env : REnv) (m : TSSDKG) (w : World) : World :=
  took i (OnMessage (cfg i) env m (wd_node w i)) (m :: wd_seen w i) w.

Definition tick_at (i : Z) (env : REnv) (w : World) : World :=
  took i (tick (cfg i) epochTimeout env (wd_node w i)) (wd_seen w i) w.

Definition env_ok (env : REnv) : Prop := ∀ i, length (re_nonce env i) = 12.

(** A message that was sent reaches a participant, whatever it has heard before;
    or the retry loop of a participant ticks, before the epoch times out. *)
Inductive net_step : World → World → Prop :=
  | ns_deliver w i env m :
      is_member i → env_ok env → m ∈ wd_sent w → net_step w (deliver_to i env m w)
  | ns_tick w i env :
      is_member i → env_ok env →
      (epochTimeout <= 0 ∨ re_now env - rn_epochStart (wd_node w i) <= epochTimeout)%Z →
      net_step w (tick_at i env w).

(** Every message that was sent has been delivered to everyone. *)
Definition quiescent (w : World) : Prop := ∀ i m, is_member i → m ∈ wd_sent w → m ∈ wd_seen w i.

(** ** An honest committee *)
Context (session : string) (e : N).

(** The configurations fit together: the same committee, with keys that match. *)
Record committee : Prop := {
  cm_size : (2 <= n)%Z;
  cm_valid i : is_member i → BeastValidate (cfg i) = nil_err;
  cm_params i : is_member i →
    bc_Index (cfg i) = i ∧ bc_N (cfg i) = n ∧ bc_Threshold (cfg i) = thr ∧ bc_SessionID (cfg i) = session ∧
    (if (bc_Epoch (cfg i) =? 0)%N then 1%N else bc_Epoch (cfg i)) = e;
  cm_sig i j msg : is_member i → is_member j → ∃ mem, member (cfg i) j = Some mem ∧
    ed_Verify (mb_SigPub mem) msg (ed_Sign (bc_SigPriv (cfg j)) msg) = true;
  cm_enc i j : is_member i → is_member j → ∃ mi mj shared,
    member (cfg i) j = Some mj ∧ member (cfg j) i = Some mi ∧
    X25519 (bc_EncPriv (cfg i)) (mb_EncPub mj) = Some shared ∧
    X25519 (bc_EncPriv (cfg j)) (mb_EncPub mi) = Some shared;
}.

(** What the randomness of the dealers gives: polynomials, commitments and
    shares, a group key, and a share of it for each. *)
Context (poly : Z → list Scalar) (com : Z → list bytes) (sh : Z → Z → Scalar) (gpk : bytes) (sk : Z → bytes).

Record dealing : Prop := {
  dg_poly i : is_member i →
    map_res (λ j, randScalar (re_ikm (env0 i) j)) (List.seq 0 (Z.to_nat thr)) = inr (poly i);
  dg_com i : is_member i → commitmentsFromPoly (poly i) = inr (com i);
  dg_sh i j : is_member i → is_member j → evalPolyAt (poly i) j = inr (sh i j);
  dg_key : qual_public_key (com <$> seqZ 1 n) = inr gpk;
  dg_sk i : is_member i → qual_share ((λ d, sh d i) <$> seqZ 1 n) = inr (sk i);
}.

(** The envelope that all messages of participant [i] share. *)
Definition plain (typ : string) (from to : Z) (coms : list bytes) (nonce ct : bytes) : TSSDKG :=
  mkTSSDKG session e typ from to coms nonce ct [] [].

Definition signed (m : TSSDKG) : TSSDKG :=
  set_sig m (ed_Sign (bc_SigPriv (cfg (dk_FromIndex m))) (marshal (set_sig m []))).

(** The key that [d] and [k] derive for the share from [d] to [k]. *)
Definition pair_key (d k : Z) : bytes :=
  default [] (deriveShareKey (cfg d) (resetForEpochLocked (env0 d) e) d k).

Definition com_msg (d : Z) : TSSDKG := signed (plain "commitments" d 0 (com d) [] []).
Definition share_msg (d k : Z) (nonce : bytes) : TSSDKG :=
  signed (plain "share" d k [] nonce (Seal (pair_key d k) nonce (sk_Serialize (sh d k)))).
Definition ack_msg (k d : Z) : TSSDKG := signed (plain "ack" k d [] [] []).

(** The messages of honest participants. *)
Inductive honest : TSSDKG → Prop :=
  | honest_com d : is_member d → honest (com_msg d)
  | honest_share d k nonce : is_member d → is_member k → d ≠ k → length nonce = 12 → honest (share_msg d k nonce)
  | honest_ack k d : is_member k → is_member d → k ≠ d → honest (ack_msg k d).

Definition is_ack (m : TSSDKG) : bool := ⌜? dk_Type m = "ack" ⌝.

(** ** What a participant knows

    The facts that hold of every state of participant [i], for the messages
    [seen] that were delivered to it. *)
Record knows (i : Z) (seen : list TSSDKG) (r : BeastDKGRunner) : Prop := {
  k_epoch : rn_epoch r = e;
  k_bad : rn_badDealers r = ∅;
  k_complaints : rn_complaints r = ∅;
  k_open : rn_pendingOpen r = ∅;
  k_poly : rn_coeffs r = poly i;
  k_selfcom : rn_selfCommitments r = com i;
  k_com_self : rn_commitments r !! i = Some (com i);
  k_sh_self : rn_shares r !! i = Some (sh i i);
  k_com d c : rn_commitments r !! d = Some c → is_member d ∧ c = com d ∧ (d ≠ i → com_msg d ∈ seen);
  k_sh d s : rn_shares r !! d = Some s → is_member d ∧ s = sh d i ∧
    (d ≠ i → is_Some (rn_commitments r !! d) ∧ i ∈ default ∅ (rn_acks r !! d) ∧
             ∃ nonce, length nonce = 12 ∧ share_msg d i nonce ∈ seen);
  k_pending d m : rn_pendingShare r !! d = Some m → is_member d ∧ d ≠ i ∧
    ∃ nonce, length nonce = 12 ∧ m = share_msg d i nonce ∧ m ∈ seen;
  k_acks d k : k ∈ default ∅ (rn_acks r !! d) → is_member k ∧ k ≠ d ∧ (k ≠ i → ack_msg k d ∈ seen);
}.

(** Nothing that an unfinished participant has heard is lost, and a share waits
    only for commitments. *)
Record heard (i : Z) (seen : list TSSDKG) (r : BeastDKGRunner) : Prop := {
  h_parked d : is_Some (rn_pendingShare r !! d) → rn_commitments r !! d = None;
  h_com d : is_member d → d ≠ i → com_msg d ∈ seen → is_Some (rn_commitments r !! d);
  h_share d nonce : is_member d → d ≠ i → share_msg d i nonce ∈ seen →
    is_Some (rn_shares r !! d) ∨ is_Some (rn_pendingShare r !! d);
  h_ack k d : is_member k → k ≠ i → ack_msg k d ∈ seen → k ∈ default ∅ (rn_acks r !! d);
}.

(** All that the finalization waits for. *)
Definition ready (r : BeastDKGRunner) (d : Z) : Prop :=
  is_Some (rn_commitments r !! d) ∧ is_Some (rn_shares r !! d) ∧
  ∀ k, is_member k → k ≠ d → k ∈ default ∅ (rn_acks r !! d).

Definition complete (r : BeastDKGRunner) : Prop := ∀ d, is_member d → ready r d.

(** Unfinished, and between two messages. *)
Definition open_state (r : BeastDKGRunner) : Prop := rn_done r = false ∧ rn_finalizing r = false.

Definition local (i : Z) (seen : list TSSDKG) (r : BeastDKGRunner) : Prop :=
  knows i seen r ∧
  if rn_done r then complete r ∧ rn_result r = mkResult i thr gpk (sk i)
  else heard i seen r ∧ rn_finalizing r = false ∧ ¬ complete r.

(** ** Proofs *)
#[local] Opaque sha256 be_encode be32 str_bytes.
Context (CM : committee) (DG : dealing).
Context (ok : Z → Prop) `{VD : !VerifiedDKG sha256 ok} (Hok : ∀ i, is_member i → ok i).

Lemma cm_index i : is_member i → bc_Index (cfg i) = i.
Proof. intros H. apply (cm_params CM i H). Qed.
Lemma cm_n i : is_member i → bc_N (cfg i) = n.
Proof. intros H. apply (cm_params CM i H). Qed.
Lemma cm_thr i : is_member i → bc_Threshold (cfg i) = thr.
Proof. intros H. apply (cm_params CM i H). Qed.
Lemma cm_session i : is_member i → bc_SessionID (cfg i) = session.
Proof. intros H. apply (cm_params CM i H). Qed.
Lemma cm_keys i : is_member i → length (bc_SigPriv (cfg i)) = 64 ∧ length (bc_EncPriv (cfg i)) = 32.
Proof. intros H. pose proof (cm_valid CM i H) as (_ & _ & _ & ? & ? & _)%BeastValidate_iff. done. Qed.
Lemma epoch_pos : e ≠ 0%N.
Proof.
  assert (is_member 1) as H by (pose proof (cm_size CM); unfold is_member; lia).
  destruct (cm_params CM 1 H) as (_ & _ & _ & _ & <-). destruct (N.eqb_spec (bc_Epoch (cfg 1)) 0); done.
Qed.
Lemma thr_range : (0 < thr <= n)%Z.
Proof.
  assert (is_member 1) as H by (pose proof (cm_size CM); unfold is_member; lia).
  pose proof (threshold_pos (cfg 1) (cm_valid CM 1 H)) as Ht. by rewrite cm_thr, cm_n in Ht.
Qed.

Lemma member_lengths i j mem :
  is_member i → member (cfg i) j = Some mem → length (mb_SigPub mem) = 32 ∧ length (mb_EncPub mem) = 32.
Proof.
  intros H Hm. pose proof (cm_valid CM i H) as (_ & _ & _ & _ & _ & _ & Hall)%BeastValidate_iff.
  apply List.find_some in Hm as [Hin _]. rewrite Forall_forall in Hall. by apply Hall, list_elem_of_In.
Qed.

(** *** Messages *)
Lemma sign_plain i typ to coms nonce ct :
  is_member i → signMessage (cfg i) (plain typ i to coms nonce ct) = Some (signed (plain typ i to coms nonce ct)).
Proof.
  intros H. unfold signMessage. destruct (cm_keys i H) as [-> _]. done.
Qed.

Lemma verify_signed i m : is_member i → is_member (dk_FromIndex m) → verifySig (cfg i) (signed m) = true.
Proof.
  intros Hi Hm. unfold verifySig. cbn [dk_FromIndex signed set_sig].
  destruct (cm_sig CM i (dk_FromIndex m) (marshal (set_sig m [])) Hi Hm) as (mem & Hmem & Hv).
  rewrite Hmem. destruct (member_lengths i _ mem Hi Hmem) as [-> _]. exact Hv.
Qed.

Lemma pair_key_ok i d k r :
  is_member d → is_member k → d ≠ k → i = d ∨ i = k → rn_epoch r = e →
  deriveShareKey (cfg i) r d k = Some (pair_key d k).
Proof.
  intros Hd Hk Hne Hi He. destruct (cm_enc CM d k Hd Hk) as (md & mk & shared & Hmk & Hmd & Xd & Xk).
  assert (deriveShareKey (cfg d) (resetForEpochLocked (env0 d) e) d k =
    Some (sha256 (str_bytes "EQS/BEAST/DKG/v1" ++ shared ++ str_bytes session ++ be_encode 8 e ++ be32 d ++ be32 k))) as E.
  { unfold deriveShareKey. rewrite cm_index, Z.eqb_refl, (proj2 (Z.eqb_neq k d)) by done. cbn [negb andb].
    cbn [mbind option_bind]. rewrite Hmk. cbn [mbind option_bind].
    destruct (member_lengths d k mk Hd Hmk) as [_ ->]. rewrite Xd. cbn. by rewrite cm_session. }
  unfold pair_key. rewrite E. simpl default. destruct Hi as [->| ->].
  - etrans; [|exact E]. unfold deriveShareKey. by rewrite He.
  - unfold deriveShareKey. rewrite cm_index, Z.eqb_refl, (proj2 (Z.eqb_neq d k)) by done. cbn [negb andb].
    cbn [mbind option_bind]. rewrite Hmd. cbn [mbind option_bind].
    destruct (member_lengths k d md Hk Hmd) as [_ ->]. rewrite Xk. cbn. by rewrite cm_session, He.
Qed.

Lemma length_pair_key d k : is_member d → is_member k → d ≠ k → length (pair_key d k) = 32.
Proof.
  intros Hd Hk Hne. pose proof (pair_key_ok d d k (resetForEpochLocked (env0 d) e) Hd Hk Hne (or_introl eq_refl) eq_refl) as E.
  unfold deriveShareKey in E. apply bind_Some in E as (p & _ & E). apply bind_Some in E as (mem & _ & E).
  case_bool_decide; [done|]. apply bind_Some in E as (s & _ & [= <-]). apply length_sha256.
Qed.

Lemma honest_from m : honest m → is_member (dk_FromIndex m).
Proof. by intros []. Qed.

(** What an unfinished participant does with a message of another one. *)
Lemma OnMessage_honest i env m r :
  is_member i → honest m → dk_FromIndex m ≠ i → rn_epoch r = e → rn_done r = false →
  OnMessage (cfg i) env m r = dispatch (cfg i) env m r.
Proof.
  intros Hi Hm Hne He Hd. pose proof (honest_from m Hm) as Hf.
  assert (dk_SessionID m = session ∧ dk_Epoch m = e ∧ dk_Type m ≠ "" ∧ verifySig (cfg i) m = true) as (Es & Ee & Et & Ev).
  { destruct Hm; split_and!; try done; by apply verify_signed. }
  unfold OnMessage. rewrite Es, cm_session, bool_decide_true, Ee, (proj2 (N.eqb_neq e 0) epoch_pos) by done.
  cbn [negb orb]. rewrite cm_n, cm_index by done. unfold is_member in Hf.
  rewrite (proj2 (Z.leb_gt _ _)), (proj2 (Z.ltb_ge _ _)), (proj2 (Z.eqb_neq _ _)), bool_decide_false by (done || lia).
  cbn [orb]. rewrite Ev, Hd, He, N.ltb_irrefl. cbn [negb orb]. unfold andthen, ret. rewrite He, N.eqb_refl.
  by destruct (dispatch _ _ _ _).
Qed.

(** A participant ignores what it sent itself, and everything once it is finished. *)
Lemma OnMessage_ignored i env m r :
  is_member i → honest m → dk_FromIndex m = i ∨ rn_done r = true →
  (OnMessage (cfg i) env m r).1 = r ∧ sends (OnMessage (cfg i) env m r).2 = [].
Proof.
  intros Hi Hm Hor. unfold OnMessage. destruct (_ || _); [done|]. destruct (_ || _) eqn:E; [done|].
  destruct (negb (verifySig _ _)); [done|]. destruct Hor as [Hf|Hd]; [|by rewrite Hd].
  rewrite Hf, cm_index, Z.eqb_refl, !orb_true_r in E by done. done.
Qed.

(** *** Finalization *)
Definition others (d : Z) : gset Z := list_to_set (seqZ 1 n) ∖ {[d]}.

Lemma elem_of_others d k : k ∈ others d ↔ is_member k ∧ k ≠ d.
Proof. unfold others, is_member. rewrite elem_of_difference, elem_of_list_to_set, elem_of_seqZ, elem_of_singleton. lia. Qed.

Lemma members_but_one d : is_member d → Z.of_nat (size (others d)) = (n - 1)%Z.
Proof.
  intros H. pose proof (cm_size CM). unfold others. rewrite size_difference.
  - rewrite size_list_to_set, length_seqZ, size_singleton by apply NoDup_seqZ. lia.
  - apply singleton_subseteq_l, elem_of_list_to_set, elem_of_seqZ. unfold is_member in H. lia.
Qed.

Lemma acks_enough i seen r d : knows i seen r → is_member d →
  (n - 1 <= Z.of_nat (size (default ∅ (rn_acks r !! d))))%Z ↔
  ∀ k, is_member k → k ≠ d → k ∈ default ∅ (rn_acks r !! d).
Proof.
  intros Hr Hd. rewrite <-(members_but_one d Hd). set (X := default ∅ (rn_acks r !! d)).
  assert (X ⊆ others d) as Hsub.
  { intros k Hk. apply elem_of_others. destruct (k_acks _ _ _ Hr d k Hk) as (? & ? & _). done. }
  split.
  - intros Hs k Hk Hne. assert (X = others d) as -> by (apply set_subseteq_size_eq; [done|lia]).
    by apply elem_of_others.
  - intros H. apply inj_le, subseteq_size. intros k [Hk Hne]%elem_of_others. by apply H.
Qed.

Lemma com_nonempty d : is_member d → com d ≠ [].
Proof.
  intros H E. pose proof (dg_com DG d H) as Hc. rewrite E in Hc. revert Hc. unfold commitmentsFromPoly.
  destruct (poly d); [done|]. by intros [=].
Qed.

Lemma length_poly d : is_member d → length (poly d) = Z.to_nat thr.
Proof. intros H. by rewrite (length_map_res _ _ _ (dg_poly DG d H)), length_seq. Qed.

Lemma length_com d : is_member d → length (com d) = Z.to_nat thr.
Proof.
  intros H. rewrite <-(length_poly d H). pose proof (dg_com DG d H) as Hc. revert Hc. unfold commitmentsFromPoly.
  destruct (poly d); [done|]. intros [= <-]. cbn [length]. f_equal. apply length_map.
Qed.

Lemma qual_loop_spec i seen r ds :
  is_member i → knows i seen r → Forall is_member ds →
  match qual_loop (cfg i) r ds with
  | Some qual => qual = ds ∧ Forall (ready r) ds
  | None => ¬ Forall (ready r) ds
  end.
Proof.
  intros Hi Hr. induction ds as [|d ds IH]; intros Hds; [done|]. apply Forall_cons in Hds as [Hd Hds].
  cbn [qual_loop]. rewrite (k_bad _ _ _ Hr), bool_decide_false by set_solver.
  rewrite (k_complaints _ _ _ Hr), lookup_empty, (bool_decide_true (default ∅ None = ∅)), cm_n by done. cbn [negb].
  assert (¬ ready r d → ¬ Forall (ready r) (d :: ds)) as Hno by (intros Hn [? _]%Forall_cons; done).
  destruct (rn_commitments r !! d) as [c|] eqn:Ec; simpl default.
  2: { rewrite bool_decide_true by done. apply Hno. intros (H & _). rewrite Ec in H. by destruct H. }
  destruct (k_com _ _ _ Hr d c Ec) as (_ & -> & _). rewrite bool_decide_false by by apply com_nonempty.
  pose proof (acks_enough i seen r d Hr Hd) as Ha.
  destruct (Z.ltb_spec (Z.of_nat (size (default ∅ (rn_acks r !! d)))) (n - 1)) as [Hlt|Hge].
  { apply Hno. intros (_ & _ & H%Ha). lia. }
  destruct (rn_shares r !! d) as [s|] eqn:Es.
  2: { apply Hno. intros (_ & H & _). rewrite Es in H. by destruct H. }
  assert (ready r d) as Hready by (split_and!; [by rewrite Ec|by rewrite Es|by apply Ha]).
  specialize (IH Hds). destruct (qual_loop (cfg i) r ds); cbn [mbind option_bind].
  - destruct IH as [-> IH]. split; [done|]. by constructor.
  - by intros [_ ?]%Forall_cons.
Qed.

Lemma members_seqZ : Forall is_member (seqZ 1 n).
Proof. apply Forall_forall. intros d Hd%elem_of_seqZ. unfold is_member. lia. Qed.

Lemma complete_seqZ r : complete r ↔ Forall (ready r) (seqZ 1 n).
Proof.
  rewrite Forall_forall. unfold complete. split; intros H d Hd; apply H.
  - revert d Hd. apply Forall_forall, members_seqZ.
  - apply elem_of_seqZ. unfold is_member in Hd. lia.
Qed.

Lemma final_values_complete i seen r :
  is_member i → knows i seen r → complete r → final_values r (seqZ 1 n) = Some (gpk, sk i).
Proof.
  intros Hi Hr Hc. unfold final_values.
  assert ((λ d, default [] (rn_commitments r !! d)) <$> seqZ 1 n = com <$> seqZ 1 n) as ->.
  { apply list_fmap_ext. intros k d Hd%list_elem_of_lookup_2. assert (is_member d) as Hm.
    { revert Hd. apply Forall_forall, members_seqZ. }
    destruct (Hc d Hm) as ([c E] & _). rewrite E. apply (k_com _ _ _ Hr) in E as (_ & -> & _). done. }
  assert (omap (λ d, rn_shares r !! d) (seqZ 1 n) = (λ d, sh d i) <$> seqZ 1 n) as ->.
  { pose proof members_seqZ as Hm. induction Hm as [|d ds Hd _ IH]; [done|]. destruct (Hc d Hd) as (_ & [s E] & _).
    cbn [omap list_omap]. rewrite E, IH, fmap_cons. f_equal. by apply (k_sh _ _ _ Hr). }
  by rewrite (dg_key DG), (dg_sk DG).
Qed.

(** [maybeFinalize] finishes exactly when nothing is missing, and sends nothing. *)
Lemma finalize_local i env seen r :
  is_member i → knows i seen r → heard i seen r → open_state r →
  let t := maybeFinalize (cfg i) env r in
  local i seen t.1 ∧ sends t.2 = [] ∧ rn_shares t.1 = rn_shares r ∧ rn_acks t.1 = rn_acks r.
Proof.
  intros Hi Hr Hh [Hd Hf]. unfold maybeFinalize, finalize_begin. rewrite Hd, Hf. cbn [orb].
  pose proof thr_range. rewrite cm_n, cm_thr, (k_bad _ _ _ Hr), size_empty by done.
  rewrite (proj2 (Z.ltb_ge _ _)) by lia. unfold qualified. rewrite cm_n by done.
  pose proof (qual_loop_spec i seen r (seqZ 1 n) Hi Hr members_seqZ) as Hq.
  destruct (qual_loop (cfg i) r (seqZ 1 n)) as [qual|]; rewrite <-complete_seqZ in Hq.
  2: { cbn [fst snd ret]. split; [|done]. split; [done|]. by rewrite Hd. }
  destruct Hq as [-> Hc]. rewrite length_seqZ, (proj2 (Z.ltb_ge _ _)) by lia.
  rewrite (final_values_complete i seen) by done. cbn [andthen]. unfold finalize_end. cbn [rn_done set_final rn_epoch].
  cbn [orb]. rewrite bool_decide_false by (by intros []). cbn [andthen persistLocked fst].
  split; [|split; [|by split]].
  - split; [|split; [done|]].
    + destruct Hr. by split.
    + by rewrite cm_index, cm_thr by done.
  - by case_bool_decide.
Qed.

(** *** What the messages do to the state *)
Definition add_com (d : Z) (r : BeastDKGRunner) : BeastDKGRunner :=
  set_commitments r (<[d := com d]> (rn_commitments r)).

Definition park (d : Z) (m : TSSDKG) (r : BeastDKGRunner) : BeastDKGRunner :=
  set_pending r (<[d := m]> (rn_pendingShare r)) (rn_pendingOpen r).

Definition vote (d k : Z) (r : BeastDKGRunner) : BeastDKGRunner :=
  set_votes r (add_vote (rn_acks r) d k) (drop_complaint (rn_complaints r) d k) (rn_badDealers r).

Definition take_share (i d : Z) (r : BeastDKGRunner) : BeastDKGRunner :=
  vote d i (set_rshares (set_pending r (delete d (rn_pendingShare r)) (rn_pendingOpen r))
    (<[d := sh d i]> (rn_shares r))).

Lemma add_vote_lookup m d k d' k' :
  k' ∈ default ∅ (add_vote m d k !! d') ↔ (d' = d ∧ k' = k) ∨ k' ∈ default ∅ (m !! d').
Proof.
  unfold add_vote. destruct (decide (d' = d)) as [->|].
  - rewrite lookup_insert_eq. simpl. set_solver.
  - rewrite lookup_insert_ne by done. set_solver.
Qed.

Lemma knows_mono i seen seen' r : knows i seen r → seen ⊆ seen' → knows i seen' r.
Proof.
  intros [H1 H2 H3 H4 H5 H6 H7 H8 H9 H10 H11 H12] Hs. split; try done.
  - intros d c Hc. destruct (H9 d c Hc) as (? & ? & Hx). split_and!; [done|done|]. intros Hd. by apply Hs, Hx.
  - intros d s Hsh. destruct (H10 d s Hsh) as (? & ? & Hx). split_and!; [done|done|]. intros Hd.
    destruct (Hx Hd) as (? & ? & nonce & ? & ?). split_and!; [done|done|]. exists nonce. auto.
  - intros d m Hm. destruct (H11 d m Hm) as (? & ? & nonce & ? & ? & ?). split_and!; [done|done|]. exists nonce. auto.
  - intros d k Hk. destruct (H12 d k Hk) as (? & ? & Hx). split_and!; [done|done|]. intros Hd. by apply Hs, Hx.
Qed.

Lemma knows_add_com i seen d r :
  knows i seen r → is_member d → d ≠ i → com_msg d ∈ seen → knows i seen (add_com d r).
Proof.
  intros [H1 H2 H3 H4 H5 H6 H7 H8 H9 H10 H11 H12] Hd Hne Hin. split; try done; cbn.
  - by rewrite lookup_insert_ne.
  - intros d' c. destruct (decide (d' = d)) as [->|]; [rewrite lookup_insert_eq|rewrite lookup_insert_ne by done; apply H9].
    by intros [= <-].
  - intros d' s Hs. destruct (H10 d' s Hs) as (? & ? & Hx). split_and!; [done|done|]. intros Hne'.
    destruct (Hx Hne') as (? & ? & ?). split_and!; [|done|done].
    destruct (decide (d' = d)) as [->|]; [by rewrite lookup_insert_eq|by rewrite lookup_insert_ne].
Qed.

Lemma knows_park i seen d nonce r :
  knows i seen r → is_member d → d ≠ i → length nonce = 12 → share_msg d i nonce ∈ seen →
  knows i seen (park d (share_msg d i nonce) r).
Proof.
  intros [H1 H2 H3 H4 H5 H6 H7 H8 H9 H10 H11 H12] Hd Hne Hl Hin. split; try done; cbn.
  intros d' m. destruct (decide (d' = d)) as [->|]; [rewrite lookup_insert_eq|rewrite lookup_insert_ne by done; apply H11].
  intros [= <-]. split_and!; [done|done|]. by exists nonce.
Qed.

Lemma knows_vote i seen d k r :
  knows i seen r → is_member k → k ≠ d → (k ≠ i → ack_msg k d ∈ seen) → knows i seen (vote d k r).
Proof.
  intros [H1 H2 H3 H4 H5 H6 H7 H8 H9 H10 H11 H12] Hk Hne Hin. split; try done; cbn.
  - rewrite H3. unfold drop_complaint. by rewrite lookup_empty.
  - intros d' s Hs. destruct (H10 d' s Hs) as (? & ? & Hx). split_and!; [done|done|]. intros Hne'.
    destruct (Hx Hne') as (? & ? & ?). split_and!; [done| |done]. rewrite add_vote_lookup. by right.
  - intros d' k' [[-> ->]|Hk']%add_vote_lookup; [done|by apply H12].
Qed.

Lemma knows_take i seen d nonce r :
  is_member i → knows i seen r → is_member d → d ≠ i → is_Some (rn_commitments r !! d) → length nonce = 12 →
  share_msg d i nonce ∈ seen → knows i seen (take_share i d r).
Proof.
  intros Hi [H1 H2 H3 H4 H5 H6 H7 H8 H9 H10 H11 H12] Hd Hne Hc Hl Hin. unfold take_share.
  split; try done; cbn.
  - rewrite H3. unfold drop_complaint. by rewrite lookup_empty.
  - by rewrite lookup_insert_ne.
  - intros d' s. destruct (decide (d' = d)) as [->|].
    + rewrite lookup_insert_eq. intros [= <-]. split_and!; [done|done|]. intros _. split_and!; [done| |by exists nonce].
      rewrite add_vote_lookup. by left.
    + rewrite lookup_insert_ne by done. intros Hs. destruct (H10 d' s Hs) as (? & ? & Hx). split_and!; [done|done|].
      intros Hne'. destruct (Hx Hne') as (? & ? & ?). split_and!; [done| |done]. rewrite add_vote_lookup. by right.
  - intros d' m [_ Hm]%lookup_delete_Some. by apply H11.
  - intros d' k' [[-> ->]|Hk']%add_vote_lookup; [done|by apply H12].
Qed.

(** A new message is accounted for in the state that follows. *)
Record accounted (i : Z) (m : TSSDKG) (r : BeastDKGRunner) : Prop := {
  ac_com d : is_member d → d ≠ i → m = com_msg d → is_Some (rn_commitments r !! d);
  ac_share d nonce : is_member d → d ≠ i → m = share_msg d i nonce →
    is_Some (rn_shares r !! d) ∨ is_Some (rn_pendingShare r !! d);
  ac_ack k d : is_member k → k ≠ i → m = ack_msg k d → k ∈ default ∅ (rn_acks r !! d);
}.

Record grows (r r' : BeastDKGRunner) : Prop := {
  gr_com d : is_Some (rn_commitments r !! d) → is_Some (rn_commitments r' !! d);
  gr_share d : is_Some (rn_shares r !! d) → is_Some (rn_shares r' !! d);
  gr_pending d : is_Some (rn_pendingShare r !! d) → is_Some (rn_shares r' !! d) ∨ is_Some (rn_pendingShare r' !! d);
  gr_ack d : default ∅ (rn_acks r !! d) ⊆ default ∅ (rn_acks r' !! d);
}.

Lemma grows_refl r : grows r r.
Proof. split; auto. Qed.

Lemma grows_trans r1 r2 r3 : grows r1 r2 → grows r2 r3 → grows r1 r3.
Proof.
  intros [A1 A2 A3 A4] [B1 B2 B3 B4]. split; [auto|auto| |].
  - intros d Hd. destruct (A3 d Hd); [left; auto|auto].
  - intros d. by rewrite A4.
Qed.

Lemma heard_step i m seen r r' :
  heard i seen r → grows r r' → accounted i m r' →
  (∀ d, is_Some (rn_pendingShare r' !! d) → rn_commitments r' !! d = None) → heard i (m :: seen) r'.
Proof.
  intros [H1 H2 H3 H4] [G1 G2 G3 G4] [A1 A2 A3] Hp. split; [done|..].
  - intros d Hd Hne [E|Hin]%elem_of_cons; [by apply A1|by apply G1, H2].
  - intros d nonce Hd Hne [E|Hin]%elem_of_cons; [by eapply A2|]. destruct (H3 d nonce Hd Hne Hin); [left; auto|auto].
  - intros k d Hk Hne [E|Hin]%elem_of_cons; [by apply A3|by apply G4, H4].
Qed.

Lemma grows_add_com d r : grows r (add_com d r).
Proof.
  split; [|auto..]. intros d' H. cbn. destruct (decide (d' = d)) as [->|];
    [by rewrite lookup_insert_eq|by rewrite lookup_insert_ne].
Qed.

Lemma grows_park d m r : grows r (park d m r).
Proof.
  split; [auto|auto| |auto]. intros d' H. right. cbn. destruct (decide (d' = d)) as [->|];
    [by rewrite lookup_insert_eq|by rewrite lookup_insert_ne].
Qed.

Lemma grows_vote d k r : grows r (vote d k r).
Proof. split; [auto|auto|auto|]. intros d' k' Hk. cbn. rewrite add_vote_lookup. by right. Qed.

Lemma grows_take i d r : grows r (take_share i d r).
Proof.
  split; cbn; [done| | |].
  - intros d' H. destruct (decide (d' = d)) as [->|]; [by rewrite lookup_insert_eq|by rewrite lookup_insert_ne].
  - intros d' H. destruct (decide (d' = d)) as [->|].
    + left. by rewrite lookup_insert_eq.
    + right. by rewrite lookup_delete_ne.
  - intros d' k' Hk. rewrite add_vote_lookup. by right.
Qed.

(** *** What a turn sends *)
Lemma sends_andthen (t : turn) k : sends (andthen t k).2 = sends t.2 ++ sends (k t.1).2.
Proof. destruct t as [r es]. cbn. destruct (k r) as [r' es']. cbn. apply sends_app. Qed.

Lemma sends_persist i r : sends (persistLocked (cfg i) r).2 = [].
Proof. unfold persistLocked. cbn. by case_bool_decide. Qed.

Lemma message_plain i r typ to :
  is_member i → rn_epoch r = e → message (cfg i) r typ to = plain typ i to [] [] [].
Proof. intros Hi He. unfold message, plain. by rewrite He, cm_index, cm_session. Qed.

Lemma send_plain i typ to coms nonce ct :
  is_member i → send (cfg i) (plain typ i to coms nonce ct) = [Send (signed (plain typ i to coms nonce ct))].
Proof. intros Hi. unfold send. by rewrite sign_plain. Qed.

Lemma share_message_ok i k env seen r :
  is_member i → is_member k → k ≠ i → knows i seen r →
  share_message (cfg i) env r k = Some (plain "share" i k [] (re_nonce env k)
    (Seal (pair_key i k) (re_nonce env k) (sk_Serialize (sh i k)))).
Proof.
  intros Hi Hk Hne Hr. unfold share_message. rewrite (k_poly _ _ _ Hr), (dg_sh DG) by done.
  rewrite cm_index, (pair_key_ok i i k) by (done || by left || apply Hr || congruence).
  cbn [mbind option_bind]. unfold encryptShare. rewrite bool_decide_false by (rewrite length_pair_key; [lia|done..]).
  cbn [mbind option_bind]. by rewrite message_plain by (done || apply Hr).
Qed.

(** [broadcastMissingShares] sends shares only, and to all that have not acknowledged. *)
Lemma missing_sends i env seen r :
  is_member i → env_ok env → knows i seen r →
  let out := sends (broadcastMissingShares (cfg i) env r).2 in
  (∀ x, x ∈ out → ∃ k nonce, is_member k ∧ k ≠ i ∧ length nonce = 12 ∧ x = share_msg i k nonce) ∧
  ∀ k, is_member k → k ≠ i →
    k ∈ default ∅ (rn_acks r !! i) ∨ share_msg i k (re_nonce env k) ∈ out.
Proof.
  intros Hi He Hr. cbv zeta. unfold broadcastMissingShares. cbn [snd]. rewrite cm_n, cm_index by done.
  set (f := λ k, if _ || _ || _ then _ else _).
  assert (∀ k, is_member k → f k = if (k =? i)%Z || ⌜? k ∈ default ∅ (rn_acks r !! i) ⌝ then []
    else [Send (share_msg i k (re_nonce env k))]) as Hf.
  { intros k Hk. unfold f. rewrite (k_poly _ _ _ Hr), (length_poly i Hi). pose proof thr_range.
    rewrite (bool_decide_false (Z.to_nat thr = 0)) by lia. rewrite orb_false_r.
    destruct (Z.eqb_spec k i) as [|Hne]; [done|]. cbn [orb]. case_bool_decide; [done|].
    rewrite (share_message_ok i k env seen r) by done. by rewrite send_plain. }
  assert (∀ x, x ∈ sends (concat (f <$> seqZ 1 n)) ↔ ∃ k, is_member k ∧ x ∈ sends (f k)) as Hin.
  { intros x. unfold sends. rewrite list_elem_of_omap. setoid_rewrite list_elem_of_omap. split.
    - intros (y & Hy & E). apply list_elem_of_In, in_concat in Hy as (l & Hl & Hy).
      apply list_elem_of_In, list_elem_of_fmap in Hl as (k & -> & Hk%elem_of_seqZ). exists k. split; [unfold is_member; lia|].
      exists y. split; [by apply list_elem_of_In|done].
    - intros (k & Hk & y & Hy & E). exists y. split; [|done]. apply list_elem_of_In, in_concat. exists (f k).
      split; [|by apply list_elem_of_In]. apply list_elem_of_In, list_elem_of_fmap. exists k. split; [done|].
      apply elem_of_seqZ. unfold is_member in Hk. lia. }
  split.
  - intros x (k & Hk & Hx)%Hin. rewrite (Hf k Hk) in Hx. destruct (_ || _) eqn:E; [by apply elem_of_nil in Hx|].
    cbn in Hx. apply list_elem_of_singleton in Hx as ->. guards. exists k, (re_nonce env k). split_and!; [done|lia|apply He|done].
  - intros k Hk Hne. destruct (decide (k ∈ default ∅ (rn_acks r !! i))) as [|Ha]; [by left|right].
    apply Hin. exists k. split; [done|]. rewrite (Hf k Hk), (proj2 (Z.eqb_neq k i) Hne), bool_decide_false by done.
    cbn. by left.
Qed.

(** *** Shares and commitments on arrival *)
Definition after_share (i d : Z) (m : TSSDKG) (r : BeastDKGRunner) : BeastDKGRunner :=
  match rn_commitments r !! d, rn_shares r !! d with
  | None, _ => park d m r
  | Some _, Some _ => r
  | Some _, None => take_share i d r
  end.

Definition share_acks (i d : Z) (r : BeastDKGRunner) : list TSSDKG :=
  match rn_commitments r !! d, rn_shares r !! d with Some _, None => [ack_msg i d] | _, _ => [] end.

Lemma broadcastAck_turn i d r :
  is_member i → rn_epoch r = e →
  (broadcastAck (cfg i) d r).1 = vote d i r ∧ sends (broadcastAck (cfg i) d r).2 = [ack_msg i d].
Proof.
  intros Hi He. unfold broadcastAck. rewrite fst_andthen, sends_andthen, sends_persist. cbn [fst snd persistLocked].
  rewrite cm_index by done. split; [done|]. rewrite message_plain, send_plain by done. done.
Qed.

Lemma open_share_ok i seen d nonce r :
  is_member i → is_member d → d ≠ i → knows i seen r → length nonce = 12 →
  open_share (cfg i) r (pair_key d i) (share_msg d i nonce) (com d) = Some (sh d i).
Proof.
  intros Hi Hd Hne Hr Hl. destruct (vd_dealt (poly d) (com d) i (sh d i) (Hok i Hi) (dg_com DG d Hd) (dg_sh DG d i Hd Hi))
    as (Hv & Hs & Hlen).
  unfold open_share, decryptShare. cbn [dk_Nonce dk_Ciphertext share_msg signed set_sig plain].
  rewrite bool_decide_false by (rewrite length_pair_key; [lia|done..]). rewrite bool_decide_false by lia.
  rewrite Open_Seal by (done || by apply length_pair_key). cbn [mbind option_bind].
  rewrite bool_decide_false by lia. rewrite Hs. cbn [mbind option_bind]. rewrite cm_index by done. by rewrite Hv.
Qed.

Lemma onShare_turn i seen d nonce r :
  is_member i → is_member d → d ≠ i → knows i seen r → length nonce = 12 →
  (onShare (cfg i) (share_msg d i nonce) r).1 = after_share i d (share_msg d i nonce) r ∧
  sends (onShare (cfg i) (share_msg d i nonce) r).2 = share_acks i d r.
Proof.
  intros Hi Hd Hne Hr Hl. unfold onShare, after_share, share_acks. change (dk_FromIndex (share_msg d i nonce)) with d.
  rewrite (k_bad _ _ _ Hr), bool_decide_false by set_solver.
  destruct (rn_commitments r !! d) as [c|] eqn:Ec; simpl default; [|done].
  destruct (k_com _ _ _ Hr d c Ec) as (_ & -> & _). pose proof (com_nonempty d Hd) as Hc.
  destruct (com d) as [|c0 cs] eqn:Ecom; [done|]. rewrite <-Ecom. clear Hc.
  destruct (rn_shares r !! d); [done|]. rewrite cm_index by done.
  rewrite (pair_key_ok i d i r Hd Hi Hne (or_intror eq_refl) (k_epoch _ _ _ Hr)), (open_share_ok i seen d nonce r) by done.
  rewrite fst_andthen, sends_andthen, sends_persist, fst_persist.
  match goal with |- (broadcastAck _ _ ?r').1 = _ ∧ _ => destruct (broadcastAck_turn i d r' Hi (k_epoch _ _ _ Hr)) as [E1 E2] end.
  by rewrite E1, E2.
Qed.

Lemma onCommitments_turn i seen d r :
  is_member i → is_member d → knows i seen r →
  (onCommitments (cfg i) (com_msg d) r).1 =
    (if rn_commitments r !! d is Some _ then r else add_com d r) ∧
  sends (onCommitments (cfg i) (com_msg d) r).2 = [].
Proof.
  intros Hi Hd Hr. unfold onCommitments. change (dk_FromIndex (com_msg d)) with d. change (dk_Commitments (com_msg d)) with (com d).
  rewrite bool_decide_false by by apply com_nonempty. pose proof thr_range.
  rewrite (length_com d Hd), cm_thr, bool_decide_false by (done || lia).
  assert (forallb commitment_ok (com d) = true) as ->.
  { apply forallb_forall. intros c Hc. destruct (vd_commit (poly d) (com d) c (dg_com DG d Hd) Hc) as [Hl Hp].
    unfold commitment_ok. rewrite Hl, bool_decide_true by done. by destruct (p1_uncompress c). }
  cbn [negb]. rewrite (k_bad _ _ _ Hr), bool_decide_false by set_solver.
  destruct (rn_commitments r !! d); [done|]. rewrite sends_persist, fst_persist. done.
Qed.

Lemma pending_turn i seen d r :
  is_member i → knows i seen r →
  (tryProcessPending (cfg i) d r).1 = (if rn_pendingShare r !! d is Some m then after_share i d m r else r) ∧
  sends (tryProcessPending (cfg i) d r).2 = (if rn_pendingShare r !! d is Some _ then share_acks i d r else []).
Proof.
  intros Hi Hr. unfold tryProcessPending. rewrite fst_andthen, sends_andthen.
  destruct (rn_pendingShare r !! d) as [m|] eqn:Ep.
  - destruct (k_pending _ _ _ Hr d m Ep) as (Hd & Hne & nonce & Hl & -> & _).
    destruct (onShare_turn i seen d nonce r Hi Hd Hne Hr Hl) as [E1 E2]. rewrite E1, E2.
    assert (rn_pendingOpen (after_share i d (share_msg d i nonce) r) = ∅) as ->.
    { unfold after_share. destruct (rn_commitments r !! d), (rn_shares r !! d); cbn; apply Hr. }
    rewrite lookup_empty. cbn. by rewrite app_nil_r.
  - cbn [fst snd ret]. by rewrite (k_open _ _ _ Hr), lookup_empty.
Qed.

(** *** A turn of an unfinished participant, before the finalization *)
Definition chatter (i : Z) (x : TSSDKG) : Prop :=
  x = com_msg i ∨ ∃ k nonce, is_member k ∧ k ≠ i ∧ length nonce = 12 ∧ x = share_msg i k nonce.

Record turn_sends (i : Z) (r : BeastDKGRunner) (t : turn) : Prop := {
  ts_shape x : x ∈ sends t.2 →
    chatter i x ∨
    (∃ d, is_member d ∧ d ≠ i ∧ rn_shares r !! d = None ∧ is_Some (rn_shares t.1 !! d) ∧ x = ack_msg i d);
  ts_once : NoDup (List.filter is_ack (sends t.2));
  ts_keep d : is_Some (rn_shares r !! d) → is_Some (rn_shares t.1 !! d);
  ts_held d : rn_shares r !! d = None → is_Some (rn_shares t.1 !! d) → ack_msg i d ∈ sends t.2;
}.

Record turn_ok (i : Z) (seen : list TSSDKG) (r : BeastDKGRunner) (t : turn) : Prop := {
  to_knows : knows i seen t.1;
  to_heard : heard i seen t.1;
  to_open : open_state t.1;
  to_sends : turn_sends i r t;
}.

Lemma com_share_ne d d' k nonce : com_msg d ≠ share_msg d' k nonce.
Proof. intros E. by apply (f_equal dk_Type) in E. Qed.
Lemma com_ack_ne d d' k : com_msg d ≠ ack_msg k d'.
Proof. intros E. by apply (f_equal dk_Type) in E. Qed.
Lemma share_ack_ne d d' k k' nonce : share_msg d k nonce ≠ ack_msg k' d'.
Proof. intros E. by apply (f_equal dk_Type) in E. Qed.
Lemma com_msg_inj d d' : com_msg d = com_msg d' → d = d'.
Proof. intros E. by apply (f_equal dk_FromIndex) in E. Qed.
Lemma share_msg_inj d d' k k' nonce nonce' : share_msg d k nonce = share_msg d' k' nonce' → d = d' ∧ k = k'.
Proof. intros E. pose proof (f_equal dk_FromIndex E). pose proof (f_equal dk_ToIndex E). done. Qed.
Lemma ack_msg_inj d d' k k' : ack_msg k d = ack_msg k' d' → k = k' ∧ d = d'.
Proof. intros E. pose proof (f_equal dk_FromIndex E). pose proof (f_equal dk_ToIndex E). done. Qed.

(** A message causes only messages of a lower rank. *)
Definition rank (m : TSSDKG) : nat :=
  if ⌜? dk_Type m = "commitments" ⌝ then 3 else if ⌜? dk_Type m = "share" ⌝ then 2 else 1.

Definition lower (m : TSSDKG) (out : list TSSDKG) : Prop := ∀ x, x ∈ out → rank x < rank m.

(** The sends of a turn that takes a share, or does not, and resends shares. *)
Lemma sends_take i seen d (r r' : BeastDKGRunner) (es : list REffect) (out : list TSSDKG) :
  knows i seen r → is_member d → d ≠ i →
  (∀ x, x ∈ out → chatter i x) →
  (rn_shares r' = rn_shares r ∧ sends es = out ∨
   rn_shares r !! d = None ∧ rn_shares r' = <[d := sh d i]> (rn_shares r) ∧ sends es = ack_msg i d :: out) →
  turn_sends i r (r', es).
Proof.
  intros Hr Hd Hne Hout Hcase.
  assert (List.filter is_ack out = []) as Hnil.
  { clear Hcase. assert (Forall (λ x, is_ack x = false) out) as Hall.
    { apply Forall_forall. intros x Hx. by destruct (Hout x Hx) as [->|(k & nonce & _ & _ & _ & ->)]. }
    induction Hall as [|x l Hx _ IH]; [done|]. cbn. rewrite Hx. apply IH. intros y Hy. apply Hout. by right. }
  destruct Hcase as [[Es Eo]|(Hnone & Es & Eo)]; split; cbn [fst snd]; rewrite ?Es, ?Eo.
  - intros x Hx. left. by apply Hout.
  - rewrite Hnil. constructor.
  - done.
  - intros d' Hn [s Hs]. congruence.
  - intros x [->|Hx]%elem_of_cons; [right|left; by apply Hout].
    exists d. split_and!; [done|done|done| |done]. by rewrite lookup_insert_eq.
  - cbn. rewrite Hnil. apply NoDup_singleton.
  - intros d' Hd'. destruct (decide (d' = d)) as [->|]; [by rewrite lookup_insert_eq|by rewrite lookup_insert_ne].
  - intros d' Hn. destruct (decide (d' = d)) as [->|]; [intros _; by left|]. rewrite lookup_insert_ne by done.
    intros [s Hs]. congruence.
Qed.

Lemma grows_after_share i d m r : grows r (after_share i d m r).
Proof.
  unfold after_share. destruct (rn_commitments r !! d), (rn_shares r !! d);
    auto using grows_refl, grows_take, grows_park.
Qed.

Lemma heard_after_share i d nonce seen r :
  heard i seen r → heard i (share_msg d i nonce :: seen) (after_share i d (share_msg d i nonce) r).
Proof.
  intros Hh. apply heard_step with r; [done|apply grows_after_share|split|].
  - intros d' _ _ Eq. symmetry in Eq. by apply com_share_ne in Eq.
  - intros d' nonce' _ _ [<- _]%share_msg_inj. unfold after_share.
    destruct (rn_commitments r !! d); [destruct (rn_shares r !! d) eqn:Es|]; cbn.
    + left. by rewrite Es.
    + left. by rewrite lookup_insert_eq.
    + right. by rewrite lookup_insert_eq.
  - intros k d' _ _ Eq. by apply share_ack_ne in Eq.
  - intros d'. unfold after_share. pose proof (h_parked _ _ _ Hh d') as Hp.
    destruct (rn_commitments r !! d) eqn:Ec; [destruct (rn_shares r !! d)|]; cbn; [done| |].
    + destruct (decide (d' = d)) as [->|]; [rewrite lookup_delete_eq; by intros []|by rewrite lookup_delete_ne].
    + destruct (decide (d' = d)) as [->|]; [done|by rewrite lookup_insert_ne].
Qed.

Lemma share_turn i d nonce seen r :
  is_member i → is_member d → d ≠ i → length nonce = 12 →
  knows i seen r → heard i seen r → open_state r →
  let t := onShare (cfg i) (share_msg d i nonce) r in
  turn_ok i (share_msg d i nonce :: seen) r t ∧ lower (share_msg d i nonce) (sends t.2).
Proof.
  intros Hi Hd Hne Hl Hr Hh Ho. set (m := share_msg d i nonce).
  destruct (onShare_turn i seen d nonce r Hi Hd Hne Hr Hl) as [E1 E2]. fold m in E1, E2.
  assert (knows i (m :: seen) r) as Hr' by (apply (knows_mono i seen); [done|set_solver]).
  assert (m ∈ m :: seen) as Hin by by left. cbv zeta. split.
  2: { rewrite E2. intros x. unfold share_acks. destruct (rn_commitments r !! d); [destruct (rn_shares r !! d)|];
    intros Hx; [by apply elem_of_nil in Hx| |by apply elem_of_nil in Hx]. apply list_elem_of_singleton in Hx as ->.
    change (1 < 2). lia. }
  split.
  - rewrite E1. unfold after_share. destruct (rn_commitments r !! d) eqn:Ec; [destruct (rn_shares r !! d); [done|]|].
    + eapply knows_take; done || (rewrite Ec; by eexists).
    + by apply knows_park.
  - rewrite E1. apply heard_after_share; done.
  - rewrite E1. unfold after_share. destruct Ho. by destruct (rn_commitments r !! d), (rn_shares r !! d).
  - destruct (onShare (cfg i) m r) as [r' es]. cbn [fst snd] in E1, E2. subst r'.
    apply (sends_take i seen d) with []; [done..| |].
    + intros x Hx. by apply elem_of_nil in Hx.
    + rewrite E2. unfold after_share, share_acks. destruct (rn_commitments r !! d), (rn_shares r !! d) eqn:Es; auto.
Qed.

(** What a participant makes of commitments, and of a share that waited for them. *)
Definition after_com (i d : Z) (r : BeastDKGRunner) : BeastDKGRunner :=
  match rn_commitments r !! d, rn_pendingShare r !! d with
  | Some _, _ => r
  | None, None => add_com d r
  | None, Some _ => take_share i d (add_com d r)
  end.

Lemma grows_after_com i d r : grows r (after_com i d r).
Proof.
  unfold after_com. destruct (rn_commitments r !! d), (rn_pendingShare r !! d);
    try apply grows_refl; try apply grows_add_com.
  exact (grows_trans _ _ _ (grows_add_com d r) (grows_take i d _)).
Qed.

Lemma unknown_share i seen d r :
  knows i seen r → d ≠ i → rn_commitments r !! d = None → rn_shares r !! d = None.
Proof.
  intros Hr Hne Hc. destruct (rn_shares r !! d) as [s|] eqn:Es; [|done].
  destruct (k_sh _ _ _ Hr d s Es) as (_ & _ & Hx). destruct (Hx Hne) as ([c E] & _). congruence.
Qed.

Lemma knows_after_com i d seen r :
  is_member i → is_member d → d ≠ i → knows i seen r → knows i (com_msg d :: seen) (after_com i d r).
Proof.
  intros Hi Hd Hne Hr. assert (knows i (com_msg d :: seen) r) as Hr' by (apply (knows_mono i seen); [done|set_solver]).
  assert (com_msg d ∈ com_msg d :: seen) as Hin by by left.
  unfold after_com. destruct (rn_commitments r !! d); [done|]. pose proof (knows_add_com i _ d r Hr' Hd Hne Hin) as H1.
  destruct (rn_pendingShare r !! d) as [m|] eqn:Ep; [|done].
  destruct (k_pending _ _ _ Hr d m Ep) as (_ & _ & nonce & Hl & -> & Hm).
  apply (knows_take i _ d nonce); try done; [|by right]. cbn. by rewrite lookup_insert_eq.
Qed.

Lemma heard_after_com i d seen r :
  knows i seen r → d ≠ i → heard i seen r → heard i (com_msg d :: seen) (after_com i d r).
Proof.
  intros Hr Hne Hh. apply heard_step with r; [done|apply grows_after_com|split|].
  - intros d' _ _ <-%com_msg_inj. unfold after_com. destruct (rn_commitments r !! d) eqn:Ec; [by rewrite Ec|].
    destruct (rn_pendingShare r !! d); cbn; by rewrite lookup_insert_eq.
  - intros d' nonce _ _ Eq. by apply com_share_ne in Eq.
  - intros k d' _ _ Eq. by apply com_ack_ne in Eq.
  - intros d'. unfold after_com. pose proof (h_parked _ _ _ Hh d') as Hp.
    destruct (rn_commitments r !! d) eqn:Ec; [done|]. destruct (rn_pendingShare r !! d) eqn:Ep; cbn.
    + destruct (decide (d' = d)) as [->|]; [rewrite lookup_delete_eq; by intros []|].
      by rewrite lookup_delete_ne, lookup_insert_ne.
    + destruct (decide (d' = d)) as [->|]; [rewrite Ep; by intros []|by rewrite lookup_insert_ne].
Qed.

Definition com_acks (i d : Z) (r : BeastDKGRunner) : list TSSDKG :=
  match rn_commitments r !! d, rn_pendingShare r !! d with None, Some _ => [ack_msg i d] | _, _ => [] end.

Lemma com_pending_turn i seen d r :
  is_member i → is_member d → d ≠ i → knows i seen r → heard i seen r →
  let t := andthen (onCommitments (cfg i) (com_msg d) r) (tryProcessPending (cfg i) d) in
  t.1 = after_com i d r ∧ sends t.2 = com_acks i d r.
Proof.
  intros Hi Hd Hne Hr Hh. cbv zeta. rewrite fst_andthen, sends_andthen.
  destruct (onCommitments_turn i seen d r Hi Hd Hr) as [E1 E2]. rewrite E1, E2. cbn [app].
  unfold after_com, com_acks. destruct (rn_commitments r !! d) as [c|] eqn:Ec.
  - destruct (pending_turn i seen d r Hi Hr) as [-> ->].
    destruct (rn_pendingShare r !! d) eqn:Ep; [|done]. pose proof (h_parked _ _ _ Hh d) as Hp. rewrite Ep, Ec in Hp.
    by discriminate Hp.
  - assert (knows i (com_msg d :: seen) (add_com d r)) as H1.
    { apply knows_add_com; try done; [|by left]. apply (knows_mono i seen); [done|set_solver]. }
    destruct (pending_turn i _ d _ Hi H1) as [-> ->]. change (rn_pendingShare (add_com d r)) with (rn_pendingShare r).
    destruct (rn_pendingShare r !! d) as [m|]; [|done]. unfold after_share, share_acks.
    change (rn_shares (add_com d r)) with (rn_shares r). rewrite (unknown_share i seen d r) by done.
    change (rn_commitments (add_com d r)) with (<[d := com d]> (rn_commitments r)). by rewrite lookup_insert_eq.
Qed.

Lemma com_turn i d env seen r :
  is_member i → is_member d → d ≠ i → env_ok env → knows i seen r → heard i seen r → open_state r →
  let t := andthen (andthen (onCommitments (cfg i) (com_msg d) r) (tryProcessPending (cfg i) d))
             (broadcastMissingShares (cfg i) env) in
  turn_ok i (com_msg d :: seen) r t ∧ lower (com_msg d) (sends t.2) ∧
  ∀ k, is_member k → k ≠ i →
    k ∈ default ∅ (rn_acks t.1 !! i) ∨ ∃ nonce, share_msg i k nonce ∈ sends t.2.
Proof.
  intros Hi Hd Hne He Hr Hh Ho t. destruct (com_pending_turn i seen d r Hi Hd Hne Hr Hh) as [E1 E2].
  pose proof (knows_after_com i d seen r Hi Hd Hne Hr) as Hr'.
  destruct (missing_sends i env _ _ Hi He Hr') as [M1 M2].
  assert (t.1 = after_com i d r) as Et by (unfold t; by rewrite fst_andthen, E1).
  assert (sends t.2 = com_acks i d r ++ sends (broadcastMissingShares (cfg i) env (after_com i d r)).2) as Es.
  { unfold t. by rewrite sends_andthen, E1, E2. }
  clearbody t. destruct t as [r' es]. cbn [fst snd] in *. subst r'. split; [split; cbn [fst]|split].
  - done.
  - by apply heard_after_com.
  - unfold after_com. destruct Ho. by destruct (rn_commitments r !! d), (rn_pendingShare r !! d).
  - apply (sends_take i seen d) with (sends (broadcastMissingShares (cfg i) env (after_com i d r)).2); try done.
    { intros x Hx. right. by apply M1. }
    rewrite Es. unfold com_acks, after_com. destruct (rn_commitments r !! d) eqn:Ec, (rn_pendingShare r !! d).
    1,2,4: left; split; reflexivity.
    right. split; [by apply (unknown_share i seen)|]. split; reflexivity.
  - rewrite Es. unfold com_acks. intros x [Hx|Hx]%elem_of_app.
    + destruct (rn_commitments r !! d), (rn_pendingShare r !! d); try by apply elem_of_nil in Hx.
      apply list_elem_of_singleton in Hx as ->. change (1 < 3). lia.
    + destruct (M1 x Hx) as (k & nonce & _ & _ & _ & ->). change (2 < 3). lia.
  - intros k Hk Hkne. destruct (M2 k Hk Hkne) as [Ha|Hx]; [by left|right]. eexists. rewrite Es. apply elem_of_app. right. exact Hx.
Qed.

Lemma ack_turn i k d seen r :
  is_member i → is_member k → is_member d → k ≠ d → k ≠ i →
  knows i seen r → heard i seen r → open_state r →
  let t := onAck (cfg i) (ack_msg k d) r in
  turn_ok i (ack_msg k d :: seen) r t ∧ sends t.2 = [].
Proof.
  intros Hi Hk Hd Hkd Hne Hr Hh Ho.
  assert ((onAck (cfg i) (ack_msg k d) r).1 = vote d k r ∧ sends (onAck (cfg i) (ack_msg k d) r).2 = []) as [E1 E2].
  { unfold onAck. change (dk_ToIndex (ack_msg k d)) with d. change (dk_FromIndex (ack_msg k d)) with k.
    unfold is_member in Hd. rewrite cm_n, (proj2 (Z.leb_gt _ _)), (proj2 (Z.ltb_ge _ _)) by (done || lia). cbn [orb].
    rewrite (k_bad _ _ _ Hr), bool_decide_false by set_solver. by rewrite sends_persist, fst_persist, <-(k_bad _ _ _ Hr). }
  assert (knows i (ack_msg k d :: seen) r) as Hr' by (apply (knows_mono i seen); [done|set_solver]).
  split; [|exact E2]. split.
  - rewrite E1. apply knows_vote; try done. intros _. by left.
  - rewrite E1. apply heard_step with r; [done|apply grows_vote|split|apply (h_parked _ _ _ Hh)].
    + intros d' _ _ Eq. symmetry in Eq. by apply com_ack_ne in Eq.
    + intros d' nonce _ _ Eq. symmetry in Eq. by apply share_ack_ne in Eq.
    + intros k' d' _ _ [<- <-]%ack_msg_inj. cbn. rewrite add_vote_lookup. by left.
  - rewrite E1. exact Ho.
  - destruct (onAck _ _ _) as [r' es]. cbn [fst snd] in *. subst r'.
    split; cbn [fst snd]; rewrite ?E2; [|constructor|done|].
    + intros x Hx. by apply elem_of_nil in Hx.
    + intros d' Hn Hs. change (rn_shares (vote d k r)) with (rn_shares r) in Hs. rewrite Hn in Hs. by destruct Hs.
Qed.

(** *** A whole turn *)
Record turn_done (i : Z) (seen : list TSSDKG) (r : BeastDKGRunner) (t : turn) : Prop := {
  td_local : local i seen t.1;
  td_sends : turn_sends i r t;
}.

Lemma finish_turn i env seen r t :
  is_member i → turn_ok i seen r t →
  let t' := andthen t (maybeFinalize (cfg i) env) in
  turn_done i seen r t' ∧ sends t'.2 = sends t.2 ∧ rn_acks t'.1 = rn_acks t.1.
Proof.
  intros Hi [Hr Hh Ho [S1 S2 S3 S4]] t'.
  destruct (finalize_local i env seen t.1 Hi Hr Hh Ho) as (F1 & F2 & F3 & F4).
  assert (sends t'.2 = sends t.2) as Es by (unfold t'; by rewrite sends_andthen, F2, app_nil_r).
  assert (t'.1 = (maybeFinalize (cfg i) env t.1).1) as E1 by (unfold t'; by rewrite fst_andthen).
  split; [|split; [done|by rewrite E1]]. split; [by rewrite E1|].
  split; rewrite ?Es, ?E1, ?F3; done.
Qed.

Lemma quiet_turn i r (t : turn) : t.1 = r → sends t.2 = [] → turn_sends i r t.
Proof.
  intros E1 E2. split; rewrite ?E1, ?E2; [|constructor|done|].
  - intros x Hx. by apply elem_of_nil in Hx.
  - intros d Hn Hs. rewrite Hn in Hs. by destruct Hs.
Qed.

(** A message that changes nothing was accounted for. *)
Lemma local_ignores i m seen r :
  local i seen r → (rn_done r = false → accounted i m r) → local i (m :: seen) r.
Proof.
  intros [Hr Hd] Ha. split; [apply (knows_mono i seen); [done|set_solver]|].
  destruct (rn_done r); [done|]. destruct Hd as (Hh & Hf & Hc). split_and!; [|done|done].
  apply heard_step with r; [done|apply grows_refl|by apply Ha|apply Hh].
Qed.

Lemma accounted_own i m r : honest m → dk_FromIndex m = i → accounted i m r.
Proof.
  intros _ Hf. split.
  - intros d _ Hne ->. by destruct Hne.
  - intros d nonce _ Hne ->. by destruct Hne.
  - intros k d _ Hne ->. by destruct Hne.
Qed.

Lemma andthen_assoc (t : turn) k1 k2 : andthen (andthen t k1) k2 = andthen t (λ r, andthen (k1 r) k2).
Proof.
  destruct t as [r es]. cbn. destruct (k1 r) as [r1 es1]. cbn. destruct (k2 r1) as [r2 es2]. by rewrite app_assoc.
Qed.

Lemma dispatch_com i d env r :
  dispatch (cfg i) env (com_msg d) r =
    andthen (andthen (andthen (onCommitments (cfg i) (com_msg d) r) (tryProcessPending (cfg i) d))
      (broadcastMissingShares (cfg i) env)) (maybeFinalize (cfg i) env).
Proof. rewrite !andthen_assoc. unfold dispatch. by rewrite bool_decide_true. Qed.

(** What a message does to a participant, whoever it is for and whenever it comes. *)
Lemma message_turn i env m seen r :
  is_member i → honest m → env_ok env → local i seen r →
  let t := OnMessage (cfg i) env m r in
  turn_done i (m :: seen) r t ∧ lower m (sends t.2) ∧
  (∀ d, m = com_msg d → d ≠ i → rn_done r = false → ∀ k, is_member k → k ≠ i →
    k ∈ default ∅ (rn_acks t.1 !! i) ∨ ∃ nonce, share_msg i k nonce ∈ sends t.2).
Proof.
  intros Hi Hm He Hl t. pose proof Hl as [Hr Hd].
  assert (lower m []) as Hlow by (intros x Hx; by apply elem_of_nil in Hx).
  destruct (decide (dk_FromIndex m = i)) as [Hf|Hf].
  { destruct (OnMessage_ignored i env m r Hi Hm (or_introl Hf)) as [E1 E2]. fold t in E1, E2.
    rewrite E2. split_and!; [|done|intros d -> Hne; by destruct Hne].
    split; [|by apply quiet_turn]. rewrite E1. apply local_ignores; [done|]. intros _. by apply accounted_own. }
  destruct (rn_done r) eqn:Ed.
  { destruct (OnMessage_ignored i env m r Hi Hm (or_intror Ed)) as [E1 E2]. fold t in E1, E2.
    rewrite E2. split_and!; [|done|done].
    split; [|by apply quiet_turn]. rewrite E1. apply local_ignores; [done|]. by rewrite Ed. }
  destruct Hd as (Hh & Hfin & Hc). assert (open_state r) as Ho by done.
  assert (t = dispatch (cfg i) env m r) as Et by (apply OnMessage_honest; try done; apply Hr).
  clearbody t. subst t. destruct Hm as [d Hd|d k nonce Hd Hk Hdk Hln|k d Hk Hd Hkd].
  - change (dk_FromIndex (com_msg d)) with d in Hf.
    destruct (com_turn i d env seen r Hi Hd Hf He Hr Hh Ho) as (Ht & Hlo & Hsh).
    destruct (finish_turn i env _ r _ Hi Ht) as (Hdone & Es & Ea). cbv zeta in *.
    rewrite dispatch_com. rewrite Ea, Es. split_and!; [exact Hdone|exact Hlo|]. intros d' _ _ _. exact Hsh.
  - change (dk_FromIndex (share_msg d k nonce)) with d in Hf.
    assert (∀ d', share_msg d k nonce ≠ com_msg d') as Hnc by (intros d' Eq; symmetry in Eq; by apply com_share_ne in Eq).
    unfold dispatch. rewrite bool_decide_false, bool_decide_true by done.
    change (dk_ToIndex (share_msg d k nonce)) with k. rewrite cm_index by done. destruct (Z.eqb_spec k i) as [->|Hki]; cbn [negb].
    + destruct (share_turn i d nonce seen r) as [Ht Hlo]; try done.
      destruct (finish_turn i env _ r _ Hi Ht) as (Hdone & Es & _). cbv zeta in *. rewrite Es.
      split_and!; [done|done|]. intros d' Eq. by destruct (Hnc d').
    + split_and!; [|done|intros d' Eq; by destruct (Hnc d')]. split; [|by apply quiet_turn].
      cbn [fst ret]. apply local_ignores; [done|]. intros _. split.
      * intros d' _ _ Eq. by destruct (Hnc d').
      * intros d' nonce' _ _ [_ Eq]%share_msg_inj. done.
      * intros k' d' _ _ Eq. by apply share_ack_ne in Eq.
  - change (dk_FromIndex (ack_msg k d)) with k in Hf. destruct (ack_turn i k d seen r) as [Ht Hs]; try done.
    destruct (finish_turn i env _ r _ Hi Ht) as (Hdone & Es & _). cbv zeta in *.
    unfold dispatch. rewrite 3!bool_decide_false, bool_decide_true by done. rewrite Es, Hs.
    split_and!; [done|done|]. intros d' Eq. symmetry in Eq. by apply com_ack_ne in Eq.
Qed.

Lemma tick_turn i env seen r :
  is_member i → env_ok env → local i seen r →
  (epochTimeout <= 0 ∨ re_now env - rn_epochStart r <= epochTimeout)%Z →
  turn_done i seen r (tick (cfg i) epochTimeout env r).
Proof.
  intros Hi He Hl Hto. pose proof Hl as [Hr _]. unfold tick.
  destruct (rn_done r) eqn:Ed; [split; [done|by apply quiet_turn]|].
  assert (((0 <? epochTimeout)%Z && (epochTimeout <? re_now env - rn_epochStart r)%Z) = false) as ->.
  { apply andb_false_iff. rewrite !Z.ltb_ge. lia. }
  destruct (missing_sends i env seen r Hi He Hr) as [M1 _].
  assert (sends (broadcastCommitments (cfg i) r).2 = [com_msg i]) as Ec.
  { unfold broadcastCommitments. cbn [snd]. rewrite message_plain by (done || apply Hr).
    cbn [dk_SessionID dk_Epoch dk_Type dk_FromIndex plain]. rewrite (k_selfcom _ _ _ Hr).
    change (mkTSSDKG session e "commitments" i 0 (com i) [] [] [] []) with (plain "commitments" i 0 (com i) [] []).
    by rewrite send_plain. }
  assert ((andthen (broadcastCommitments (cfg i) r) (broadcastMissingShares (cfg i) env)).1 = r) as E1.
  { by rewrite fst_andthen. }
  split; [by rewrite E1|].
  assert (∃ d, is_member d ∧ d ≠ i) as (d & Hd & Hne).
  { pose proof (cm_size CM). unfold is_member. destruct (decide (i = 1%Z)); [exists 2%Z|exists 1%Z]; lia. }
  rewrite (surjective_pairing (andthen _ _)), E1.
  apply (sends_take i seen d) with (com_msg i :: sends (broadcastMissingShares (cfg i) env r).2); try done.
  - intros x [->|Hx]%elem_of_cons; [by left|right; by apply M1].
  - left. split; [done|]. rewrite sends_andthen, Ec. done.
Qed.

(** *** The network *)
Lemma start_turn_ok i :
  is_member i → local i [] (start_turn i).1 ∧ sends (start_turn i).2 = [com_msg i].
Proof.
  intros Hi. pose proof (cm_keys i Hi) as [Hs Hx]. pose proof (com_nonempty i Hi) as Hcne.
  destruct (cm_params CM i Hi) as (_ & _ & _ & _ & He).
  unfold start_turn, fresh, NewBeastDKGRunner. rewrite (cm_valid CM i Hi), He. unfold Start, start_fresh, ensureLocalPoly.
  cbn [rn_coeffs rn_selfCommitments length]. rewrite (bool_decide_true (0 = 0)) by done. cbn [negb andb].
  rewrite Hs, Hx, !bool_decide_false by lia. rewrite cm_thr, (dg_poly DG), (dg_com DG), cm_index, (dg_sh DG) by done.
  cbn [fst]. rewrite fst_andthen, sends_andthen, sends_persist. cbn [fst persistLocked broadcastCommitments snd app].
  match goal with |- local i [] ?r ∧ _ => set (r0 := r) end.
  assert (knows i [] r0) as Hr.
  { assert (∀ {X} (x : X) d, (<[i := x]> ∅ : gmap Z X) !! d = if decide (d = i) then Some x else None) as Hl.
    { intros X x d. case_decide as E; [subst; apply lookup_insert_eq|by rewrite lookup_insert_ne, lookup_empty]. }
    split; try done; unfold r0; cbn.
    - by rewrite lookup_insert_eq.
    - by rewrite lookup_insert_eq.
    - intros d c. rewrite Hl. case_decide; [|done]. subst. by intros [= <-].
    - intros d s. rewrite Hl. case_decide; [|done]. subst. by intros [= <-].
  }
  split.
  - split; [done|]. change (rn_done r0) with false. cbv iota. split_and!; [|done|].
    + split; [intros d; change (rn_pendingShare r0) with (∅ : gmap Z TSSDKG); rewrite lookup_empty; by intros []|..];
        intros; by match goal with H : _ ∈ [] |- _ => apply elem_of_nil in H end.
    + intros Hc. assert (∃ d, is_member d ∧ d ≠ i) as (d & Hd & Hne).
      { pose proof (cm_size CM). unfold is_member. destruct (decide (i = 1%Z)); [exists 2%Z|exists 1%Z]; lia. }
      destruct (Hc d Hd) as ([c E] & _). unfold r0 in E. cbn in E. by rewrite lookup_insert_ne, lookup_empty in E.
  - rewrite message_plain by done. cbn [dk_SessionID dk_Epoch dk_Type dk_FromIndex plain].
    change (mkTSSDKG session e "commitments" i 0 (rn_selfCommitments r0) [] [] [] [])
      with (plain "commitments" i 0 (com i) [] []).
    by rewrite send_plain.
Qed.

Record world_inv (w : World) : Prop := {
  w_local i : is_member i → local i (wd_seen w i) (wd_node w i);
  w_seen i m : is_member i → m ∈ wd_seen w i → m ∈ wd_sent w;
  w_honest m : m ∈ wd_sent w → honest m;
  w_com d : is_member d → com_msg d ∈ wd_sent w;
  w_held i d : is_member i → d ≠ i → is_Some (rn_shares (wd_node w i) !! d) → ack_msg i d ∈ wd_sent w;
  w_ack i d : ack_msg i d ∈ wd_sent w → is_Some (rn_shares (wd_node w i) !! d);
  w_shares i d k : is_member i → is_member k → d ≠ i → k ≠ i → com_msg d ∈ wd_seen w i →
    ∃ nonce, share_msg i k nonce ∈ wd_sent w;
  w_once : NoDup (List.filter is_ack (wd_sent w));
}.

Lemma inv_start : world_inv world0.
Proof.
  assert (∀ m, m ∈ wd_sent world0 ↔ ∃ d, is_member d ∧ m = com_msg d) as Hm.
  { intros m. cbn [wd_sent world0]. rewrite list_elem_of_bind. split.
    - intros (d & Hin & Hd%elem_of_seqZ). assert (is_member d) as Hmem by (unfold is_member; lia).
      destruct (start_turn_ok d Hmem) as [_ E]. rewrite E in Hin. apply list_elem_of_singleton in Hin as ->. by exists d.
    - intros (d & Hd & ->). exists d. destruct (start_turn_ok d Hd) as [_ ->]. split; [by left|].
      apply elem_of_seqZ. unfold is_member in Hd. lia. }
  split.
  - intros i Hi. by apply start_turn_ok.
  - intros i m _ Hin. by apply elem_of_nil in Hin.
  - intros m (d & Hd & ->)%Hm. by constructor.
  - intros d Hd. apply Hm. by exists d.
  - intros i d Hi Hne [s Hs]. destruct (start_turn_ok i Hi) as [[Hr _] _].
    destruct (k_sh _ _ _ Hr d s Hs) as (_ & _ & Hx). destruct (Hx Hne) as (_ & _ & nonce & _ & Hin). by apply elem_of_nil in Hin.
  - intros i d (d' & _ & E)%Hm. symmetry in E. by apply com_ack_ne in E.
  - intros i d k _ _ _ _ Hin. by apply elem_of_nil in Hin.
  - assert (List.filter is_ack (wd_sent world0) = []) as ->; [|constructor].
    assert (Forall (λ m, is_ack m = false) (wd_sent world0)) as Hall.
    { apply Forall_forall. by intros m (d & _ & ->)%Hm. }
    clear Hm. induction Hall as [|m l E _ IH]; [done|]. cbn. by rewrite E.
Qed.

Lemma took_inv i t seen w :
  world_inv w → is_member i → turn_done i seen (wd_node w i) t →
  (∀ m, m ∈ wd_seen w i → m ∈ seen) → (∀ m, m ∈ seen → m ∈ wd_sent w) →
  (∀ d, d ≠ i → com_msg d ∈ seen → com_msg d ∈ wd_seen w i ∨
    ∀ k, is_member k → k ≠ i → k ∈ default ∅ (rn_acks t.1 !! i) ∨ ∃ nonce, share_msg i k nonce ∈ sends t.2) →
  world_inv (took i t seen w).
Proof.
  intros [W1 W2 W3 W4 W5 W6 W7 W8] Hi [Hl [S1 S2 S3 S4]] Hseen Hsent Hcom.
  assert (∀ j, wd_node (took i t seen w) j = if decide (j = i) then t.1 else wd_node w j) as En.
  { intros j. cbn. case_decide; [subst; apply fn_lookup_insert|by rewrite fn_lookup_insert_ne]. }
  assert (∀ j, wd_seen (took i t seen w) j = if decide (j = i) then seen else wd_seen w j) as Ee.
  { intros j. cbn. case_decide; [subst; apply fn_lookup_insert|by rewrite fn_lookup_insert_ne]. }
  assert (∀ m, m ∈ wd_sent (took i t seen w) ↔ m ∈ wd_sent w ∨ m ∈ sends t.2) as Es by (intros m; apply elem_of_app).
  assert (∀ j d, ack_msg j d ∈ sends t.2 → j = i ∧ rn_shares (wd_node w i) !! d = None ∧ is_Some (rn_shares t.1 !! d)) as Hack.
  { intros j d [[E|(k & nonce & _ & _ & _ & E)]|(d' & _ & _ & Hn & Hs & E)]%S1.
    - symmetry in E. by apply com_ack_ne in E.
    - symmetry in E. by apply share_ack_ne in E.
    - apply ack_msg_inj in E as [-> ->]. done. }
  split.
  - intros j Hj. rewrite En, Ee. case_decide; [by subst|by apply W1].
  - intros j m Hj. rewrite Ee, Es. case_decide; [left; by apply Hsent|left; by eapply W2].
  - intros m [Hm|Hm]%Es; [by apply W3|].
    destruct (S1 m Hm) as [[->|(k & nonce & Hk & Hne & Hn & ->)]|(d & Hd & Hne & _ & _ & ->)].
    + by apply honest_com.
    + apply honest_share; congruence.
    + apply honest_ack; congruence.
  - intros d Hd. apply Es. left. by apply W4.
  - intros j d Hj Hne. rewrite En, Es. case_decide as E; [|left; by apply W5]. subst j. intros Hs.
    destruct (rn_shares (wd_node w i) !! d) as [s|] eqn:Ed; [left|right].
    + apply W5; [done|done|]. by rewrite Ed.
    + by apply S4.
  - intros j d. rewrite En, Es. intros [Hin|(-> & _ & Hs)%Hack].
    + apply W6 in Hin. case_decide; [subst; by apply S3|done].
    + by rewrite decide_True.
  - intros j d k Hj Hk Hd Hkj. rewrite Ee. setoid_rewrite Es. case_decide as E.
    + subst j. intros Hin. destruct (Hcom d Hd Hin) as [Hold|Hnew].
      * destruct (W7 i d k) as [nonce ?]; try done. exists nonce. by left.
      * destruct (Hnew k Hk Hkj) as [Ha|[nonce ?]]; [|exists nonce; by right].
        destruct Hl as [Hr _]. destruct (k_acks _ _ _ Hr i k Ha) as (_ & _ & Hx).
        specialize (Hsent _ (Hx Hkj)). apply W6 in Hsent as [s Hs]. destruct (W1 k Hk) as [Hrk _].
        destruct (k_sh _ _ _ Hrk i s Hs) as (_ & _ & Hy). destruct (Hy (not_eq_sym Hkj)) as (_ & _ & nonce & _ & Hn).
        exists nonce. left. by eapply W2.
    + intros Hin. destruct (W7 j d k) as [nonce ?]; try done. exists nonce. by left.
  - cbn [wd_sent took]. rewrite List.filter_app. apply NoDup_app. split_and!; [done| |done].
    intros x [Hx1 Hx2]%list_elem_of_In%filter_In [Hx3 _]%list_elem_of_In%filter_In.
    apply list_elem_of_In in Hx1, Hx3.
    destruct (S1 x Hx3) as [[->|(k & nonce & _ & _ & _ & ->)]|(d & _ & _ & Hn & _ & ->)]; [done|done|].
    apply W6 in Hx1. rewrite Hn in Hx1. by destruct Hx1.
Qed.

Lemma net_step_inv w w' : world_inv w → net_step w w' → world_inv w'.
Proof.
  intros W Hstep. destruct Hstep as [w i env m Hi He Hm|w i env Hi He Hto].
  - destruct (message_turn i env m _ _ Hi (w_honest _ W m Hm) He (w_local _ W i Hi)) as (Hdone & _ & Hcom).
    apply took_inv; try done.
    + intros x Hx. by right.
    + intros x [->|Hx]%elem_of_cons; [done|by eapply (w_seen _ W)].
    + intros d Hne [E|Hin]%elem_of_cons; [|by left]. destruct (rn_done (wd_node w i)) eqn:Ed; [left|right; by apply (Hcom d)].
      pose proof (w_local _ W i Hi) as [Hr Hc]. rewrite Ed in Hc. destruct Hc as [Hc _].
      assert (is_member d) as Hd by (rewrite <-E in Hm; apply (honest_from _ (w_honest _ W _ Hm))).
      destruct (Hc d Hd) as ([c Ec] & _). destruct (k_com _ _ _ Hr d c Ec) as (_ & _ & Hx). by apply Hx.
  - apply took_inv; try done.
    + by apply tick_turn; [|done|apply (w_local _ W)|].
    + intros m. by apply (w_seen _ W).
    + intros d _ Hin. by left.
Qed.

Lemma reachable_inv w : rtc net_step world0 w → world_inv w.
Proof.
  intros H. pose proof inv_start as W. revert W. induction H as [w|w1 w2 w3 Hs _ IH]; [done|].
  intros W. apply IH. by eapply net_step_inv.
Qed.

(** Everyone has finished, with the same group key and a share of it. *)
Definition settled (w : World) : Prop :=
  ∀ i, is_member i → rn_done (wd_node w i) = true ∧ rn_result (wd_node w i) = mkResult i thr gpk (sk i).

Lemma quiescent_share w i d :
  world_inv w → quiescent w → is_member i → is_member d → d ≠ i → is_Some (rn_shares (wd_node w i) !! d).
Proof.
  intros W Q Hi Hd Hne. pose proof (w_local _ W i Hi) as [Hr Hc]. destruct (rn_done (wd_node w i)) eqn:Ed.
  - destruct Hc as [Hc _]. apply (Hc d Hd).
  - destruct Hc as (Hh & _). destruct (w_shares _ W d i i Hd Hi (not_eq_sym Hne) (not_eq_sym Hne)) as [nonce Hs].
    { apply Q; [done|]. by apply (w_com _ W). }
    destruct (h_share _ _ _ Hh d nonce Hd Hne (Q _ _ Hi Hs)) as [|Hp]; [done|].
    apply (h_parked _ _ _ Hh) in Hp. destruct (h_com _ _ _ Hh d Hd Hne) as [c Ec]; [|congruence].
    apply Q; [done|]. by apply (w_com _ W).
Qed.

Lemma quiescent_settled w : world_inv w → quiescent w → settled w.
Proof.
  intros W Q i Hi. pose proof (w_local _ W i Hi) as [Hr Hc]. destruct (rn_done (wd_node w i)) eqn:Ed; [by split; [|apply Hc]|].
  destruct Hc as (Hh & _ & Hnot). destruct Hnot. intros d Hd.
  assert (∀ k, is_member k → k ≠ d → ack_msg k d ∈ wd_sent w) as Hacks.
  { intros k Hk Hne. apply (w_held _ W); [done|congruence|]. by apply quiescent_share. }
  split_and!.
  - destruct (decide (d = i)) as [->|Hne]; [by rewrite (k_com_self _ _ _ Hr)|].
    apply (h_com _ _ _ Hh); [done|done|]. apply Q; [done|]. by apply (w_com _ W).
  - destruct (decide (d = i)) as [->|Hne]; [by rewrite (k_sh_self _ _ _ Hr)|by apply quiescent_share].
  - intros k Hk Hne. destruct (decide (k = i)) as [->|Hki].
    + assert (is_Some (rn_shares (wd_node w i) !! d)) as [s Es] by (by apply quiescent_share).
      destruct (k_sh _ _ _ Hr d s Es) as (_ & _ & Hx). by apply Hx.
    + apply (h_ack _ _ _ Hh); [done|done|]. apply Q; [done|]. by apply Hacks.
Qed.

(** *** Reaching a quiescent state *)
Definition still_env : REnv := mkREnv (λ _, []) (λ _, replicate 12 Byte.x00) 0.

(** Deliver given messages of one rank; what this causes is of a lower one. *)
Lemma deliver_all (L : list (Z * TSSDKG)) q w :
  world_inv w → Forall (λ x, is_member x.1 ∧ x.2 ∈ wd_sent w ∧ rank x.2 = S q) L →
  ∃ w', rtc net_step w w' ∧ world_inv w' ∧
    (∀ m, m ∈ wd_sent w' → m ∈ wd_sent w ∨ rank m ≤ q) ∧
    (∀ i m, m ∈ wd_seen w i → m ∈ wd_seen w' i) ∧
    Forall (λ x, x.2 ∈ wd_seen w' x.1) L.
Proof.
  revert w. induction L as [|[i m] L IH]; intros w W HL; [exists w; by split_and!; [|done|left|..]|].
  apply Forall_cons in HL as [(Hi & Hm & Hq) HL]. cbn [fst snd] in Hi, Hm, Hq.
  assert (net_step w (deliver_to i still_env m w)) as Hstep by by constructor.
  destruct (message_turn i still_env m _ _ Hi (w_honest _ W m Hm) (λ _, eq_refl) (w_local _ W i Hi)) as (_ & Hlow & _).
  destruct (IH (deliver_to i still_env m w)) as (w' & Hr & W' & Hs & He & Ha).
  - by eapply net_step_inv.
  - eapply Forall_impl; [exact HL|]. intros x (? & ? & ?). split_and!; [done|by apply elem_of_app; left|done].
  - exists w'. split_and!; [by eapply rtc_l|done| | |].
    + intros x Hx. destruct (Hs x Hx) as [[?|Hc]%elem_of_app|]; [by left|right|by right].
      apply Hlow in Hc. lia.
    + intros j x Hx. apply He. cbn. destruct (decide (j = i)) as [->|].
      * rewrite fn_lookup_insert. by right.
      * by rewrite fn_lookup_insert_ne.
    + constructor; [|done]. apply He. cbn. rewrite fn_lookup_insert. by left.
Qed.

Lemma settle q w :
  world_inv w → (∀ i m, is_member i → m ∈ wd_sent w → m ∈ wd_seen w i ∨ rank m ≤ q) →
  ∃ w', rtc net_step w w' ∧ quiescent w'.
Proof.
  revert w. induction q as [|q IH]; intros w W Hq.
  - exists w. split; [done|]. intros i m Hi Hm. destruct (Hq i m Hi Hm) as [|Hr]; [done|].
    exfalso. revert Hr. unfold rank. repeat case_bool_decide; lia.
  - set (L := seqZ 1 n ≫= λ i, (λ m, (i, m)) <$> filter (λ m, rank m = S q) (wd_sent w)).
    assert (∀ i m, (i, m) ∈ L ↔ is_member i ∧ m ∈ wd_sent w ∧ rank m = S q) as HL.
    { intros i m. unfold L. rewrite list_elem_of_bind. split.
      - intros (j & (x & [= -> ->] & [Hr Hx]%list_elem_of_filter)%list_elem_of_fmap & Hj%elem_of_seqZ).
        split_and!; [unfold is_member; lia|done|done].
      - intros (Hi & Hm & Hr). exists i. split; [|apply elem_of_seqZ; unfold is_member in Hi; lia].
        apply list_elem_of_fmap. exists m. split; [done|]. by apply list_elem_of_filter. }
    destruct (deliver_all L q w W) as (w1 & R1 & W1 & Hs & He & Ha).
    { apply Forall_forall. intros [i m] Hin. by apply HL. }
    destruct (IH w1 W1) as (w2 & R2 & Q2); [|exists w2; split; [by etrans|done]].
    intros i m Hi Hm. destruct (Hs m Hm) as [Hold|]; [|by right]. destruct (Hq i m Hi Hold) as [Hin|Hr].
    { left. by apply He. }
    destruct (decide (rank m = S q)) as [Er|]; [left|right; lia].
    rewrite Forall_forall in Ha. apply (Ha (i, m)), HL. done.
Qed.

Lemma rank_bound m : rank m ≤ 3.
Proof. unfold rank. repeat case_bool_decide; lia. Qed.

(** *** The scheme of the whole committee *)
Lemma committee_scheme :
  ∃ hkey, ThresholdIBE sha256 gpk thr is_member sk hkey.
Proof.
  pose proof thr_range. destruct (vd_threshold (seqZ 1 n) (Z.to_nat thr) (com <$> seqZ 1 n) gpk
    (λ i, (λ d, sh d i) <$> seqZ 1 n) sk) as [hkey Hk].
  - intros i Hi. apply Hok. revert Hi. rewrite <-list_elem_of_In. by apply Forall_forall, members_seqZ.
  - apply NoDup_ListNoDup, NoDup_seqZ.
  - rewrite length_seqZ. lia.
  - intros E%fmap_nil_inv%(f_equal length). rewrite length_seqZ in E. simpl in E. pose proof (cm_size CM). lia.
  - intros c (d & -> & Hd)%list_elem_of_In%list_elem_of_fmap. apply length_com. revert Hd. by apply Forall_forall, members_seqZ.
  - apply (dg_key DG).
  - intros i Hi. assert (is_member i) as Hm.
    { revert Hi. rewrite <-list_elem_of_In. by apply Forall_forall, members_seqZ. }
    split; [|by apply (dg_sk DG)]. clear Hi. pose proof members_seqZ as Hall. induction Hall as [|d ds Hd _ IH]; [constructor|].
    cbn. constructor; [|exact IH]. apply (vd_dealt (poly d) (com d) i); [by apply Hok|by apply (dg_com DG)|by apply (dg_sh DG)].
  - exists hkey. rewrite Z2Nat.id in Hk by lia. eapply ThresholdIBE_sub; [|exact Hk].
    intros i Hi. split; [|done]. apply list_elem_of_In, elem_of_seqZ. unfold is_member in Hi. lia.
Qed.


End network.

(** ** Among hostile participants

    Participants that finish their own runs, whatever was sent to them. *)
Section hostile.
Context {B : Blst} {G : AESGCM} {A : DKGAuth} {J : Json TSSDKG}.
Context (ok : Z → Prop) `{VD : !VerifiedDKG sha256 ok}.

Lemma qual_loop_held cfg r ds qual :
  qual_loop cfg r ds = Some qual → Forall (λ d, is_Some (rn_shares r !! d)) qual.
Proof.
  revert qual. induction ds as [|d ds IH]; intros qual; cbn [qual_loop]; [intros [= <-]; constructor|].
  case_bool_decide; [apply IH|]. case_bool_decide; [done|]. destruct (negb _); [done|]. destruct (_ <? _)%Z; [done|].
  destruct (rn_shares r !! d) as [s|] eqn:Es; [|done]. intros (q & Hq & [= <-])%bind_Some.
  constructor; [by rewrite Es|by apply IH].
Qed.

(** A share that a participant holds fits the commitments it holds, also its own. *)
Lemma held_verified cfg r d s com :
  ok (bc_Index cfg) → runner_ok cfg r → rn_shares r !! d = Some s → rn_commitments r !! d = Some com →
  verifyFeldmanShare s (bc_Index cfg) com = inr true.
Proof.
  intros Hok Hr Hs Hc. destruct (decide (d = bc_Index cfg)) as [->|Hne].
  - destruct (ro_self _ _ Hr) as [(_ & _ & _ & Hn)|(_ & Hcom & Hc' & sc & He & Hs')]; [congruence|].
    rewrite Hc in Hc'. rewrite Hs in Hs'. injection Hc' as ->. injection Hs' as ->.
    by destruct (vd_dealt _ _ _ _ Hok Hcom He).
  - destruct (ro_shares _ _ Hr d s Hs Hne) as (com' & Hc' & Hv). congruence.
Qed.

Lemma held_length cfg r d com :
  runner_ok cfg r → rn_commitments r !! d = Some com → Z.of_nat (length com) = bc_Threshold cfg.
Proof.
  intros Hr Hc. destruct (decide (d = bc_Index cfg)) as [->|Hne].
  - destruct (ro_self _ _ Hr) as [(_ & _ & Hn & _)|(Hl & Hcom & Hc' & _)]; [congruence|].
    rewrite Hc in Hc'. injection Hc' as ->. rewrite <-Hl. revert Hcom. unfold commitmentsFromPoly.
    destruct (rn_coeffs r); [done|]. intros [= <-]. cbn [length]. by rewrite length_map.
  - by apply (ro_commitments _ _ Hr d com Hc).
Qed.

(** The shares of the qualified dealers that a participant adds up. *)
Definition shares_from (r : BeastDKGRunner) (qual : list Z) : list Scalar := omap (λ d, rn_shares r !! d) qual.

Lemma shares_verified cfg r qual com :
  ok (bc_Index cfg) → runner_ok cfg r → Forall (λ d, is_Some (rn_shares r !! d)) qual →
  (∀ d, d ∈ qual → rn_commitments r !! d = Some (com d)) →
  Forall2 (λ s c, verifyFeldmanShare s (bc_Index cfg) c = inr true) (shares_from r qual) (com <$> qual).
Proof.
  intros Hok Hr Hq Hcom. induction Hq as [|d ds [s Es] _ IH]; [constructor|].
  unfold shares_from. cbn [omap list_omap]. rewrite Es, fmap_cons. constructor.
  - apply (held_verified cfg r d); [done|done|done|]. apply Hcom. by left.
  - apply IH. intros d' Hd'. apply Hcom. by right.
Qed.

End hostile.

(** ** A committee over the group of one element *)
#[local] Existing Instances unit_blst toy_gcm toy_auth brief_json.

Lemma unit_evalPolyAt (coeffs : list Scalar) (i : Z) :
  (0 < i)%Z → coeffs ≠ [] → evalPolyAt coeffs i = inr ().
Proof.
  intros Hi Hne. unfold evalPolyAt. rewrite (proj2 (Z.leb_gt _ _) Hi). destruct coeffs as [|c coeffs]; [done|].
  assert (∀ (cs : list Scalar) st, fold_res (eval_step ()) cs st = inr ((), ())) as E; [|cbn -[fold_res]; by rewrite E].
  induction cs as [|c' cs IH]; intros [[] []]; [done|]. apply IH.
Qed.

Lemma unit_verify (s : Scalar) (i : Z) (com : list bytes) :
  (0 < i)%Z → com ≠ [] → verifyFeldmanShare s i com = inr true.
Proof.
  intros Hi Hne. unfold verifyFeldmanShare. rewrite (proj2 (Z.leb_gt _ _) Hi). destruct com as [|c com]; [done|].
  assert (∀ (cs : list bytes) st, fold_res (verify_step ()) cs st = inr ((), ())) as E;
    [|cbn -[fold_res bytes_eqb]; by rewrite E].
  induction cs as [|c' cs IH]; intros [[] []]; [done|]. apply IH.
Qed.

#[export] Instance unit_verified_dkg : VerifiedDKG sha256 (λ i, (0 < i)%Z).
Proof.
  split.
  - intros coeffs com c. unfold commitmentsFromPoly. destruct (_ =? _); [done|]. intros [= <-] (a & <- & _)%in_map_iff. done.
  - intros coeffs com i s Hi Hcom _. split; [|by destruct s]. apply unit_verify; [done|].
    revert Hcom. unfold commitmentsFromPoly. destruct coeffs; [done|]. by intros [= <-].
  - intros js t coms gpk dealt sk Hok _ [Ht _] Hne _ _ Hsk. exists unit_key. apply unit_scheme; [lia|].
    intros i Hi. split; [by apply Hok|]. destruct (Hsk i Hi) as [_ Hq]. revert Hq. unfold qual_share.
    destruct (fold_res _ _ _); [done|]. by intros [= <-].
Qed.

Definition wit_poly (_ : Z) : list Scalar := [(); ()].
Definition wit_com (_ : Z) : list bytes := replicate 2 (replicate 48 Byte.x00).
Definition wit_sh (_ _ : Z) : Scalar := ().
Definition wit_key : bytes := replicate 48 Byte.x00.
Definition wit_sk (_ : Z) : bytes := replicate 32 Byte.x00.

Lemma wit_members (P : Z → Prop) : P 1%Z → P 2%Z → P 3%Z → ∀ i, is_member 3 i → P i.
Proof.
  intros H1 H2 H3 i Hi. unfold is_member in Hi. assert (i = 1 ∨ i = 2 ∨ i = 3)%Z as [->|[->| ->]] by lia; done.
Qed.

Lemma wit_committee : committee 3 2 (committee_cfg 3 2) "s" 1.
Proof.
  split; [lia|..].
  - by apply wit_members.
  - by apply wit_members.
  - intros i j msg Hi Hj. exists (mkMember j (replicate 32 Byte.x03) (replicate 32 Byte.x04)).
    split; [|by apply bool_decide_true]. revert j Hj. by apply wit_members.
  - intros i j Hi Hj. exists (mkMember i (replicate 32 Byte.x03) (replicate 32 Byte.x04)),
      (mkMember j (replicate 32 Byte.x03) (replicate 32 Byte.x04)), (replicate 32 Byte.x11).
    split; [revert j Hj; by apply wit_members|]. split; [revert i Hi; by apply wit_members|]. done.
Qed.

Lemma wit_dealing : dealing 3 2 committee_env wit_poly wit_com wit_sh wit_key wit_sk.
Proof.
  split.
  - by apply wit_members.
  - by apply wit_members.
  - intros i j Hi Hj. apply unit_evalPolyAt; [unfold is_member in Hj; lia|done].
  - by vm_compute.
  - intros i Hi. by vm_compute.
Qed.

Notation wit_world0 := (world0 3 (committee_cfg 3 2) committee_env).



(** Two participants that hear each other. *)
Definition duo_cfg : Z → BeastDKGConfig := committee_cfg 2 2.
Definition duo_env : REnv := committee_env 1.

Definition duo_events (i : Z) : list REvent :=
  let j := (3 - i)%Z in
  RMessage duo_env <$>
    [com_msg duo_cfg "s" 1 wit_com j;
     share_msg duo_cfg committee_env "s" 1 wit_sh j i (replicate 12 Byte.x05);
     ack_msg duo_cfg "s" 1 j i].

Definition duo_run (i : Z) : BeastDKGRunner :=
  (run (runner_step (duo_cfg i) 5) (Start (duo_cfg i) (committee_env i) None None (fresh duo_cfg committee_env i)).1.1 (duo_events i)).1.

