(* ===== verification/GenConfig.v ===== *)
(** The script that writes the configurations of a DKG committee
    (src/.github/scripts/gen-beast-dkg-config.go), from the flags to the files,
    and that the files it writes make a committee in the sense of DkgNet. *)
From stdpp Require Import pretty.
From S2P Require Import CryptoOps Beast Feldman.
From S2P Require Import Prelude Metrics Codec Files Sha256 Tss TssStores Runner DkgNet.

(** crypto/ed25519 and crypto/ecdh: key generation from random bytes. *)
Class KeyGeneration := {
  ed_GenerateKey : bytes → option (bytes * bytes);   (* public key, private key *)
  x_GenerateKey : bytes → option bytes;              (* private key *)
  x_PublicKey : bytes → bytes;
}.

Record GenFlags := mkGenFlags {
  gf_OutDir : string;
  gf_SessionID : string;
  gf_Epoch : N;
  gf_N : Z;
  gf_Threshold : Z;
  gf_KeyShare : string;
  gf_SessionDir : string;
}.

Definition default_gen_flags : GenFlags :=
  mkGenFlags "" "beast-dkg" 1 4 3 "/data/tss_keyshare.dat" "/data/beast_dkg".

Record nodeKeys := mkNodeKeys {
  nk_sigPub : bytes;
  nk_sigPriv : bytes;
  nk_encPub : bytes;
  nk_encPriv : bytes;
}.

(** What a run of the script meets: random bytes for the two keys of each
    member, whether the directory can be made and each file written. *)
Record GenWorld := mkGenWorld {
  gw_rand : Z → bytes * bytes;
  gw_mkdir : bool;
  gw_write : string → bool;
}.

(** The exit code, and the files in the output directory by name. *)
Record GenResult := mkGenResult { gr_Exit : Z; gr_Files : list (string * bytes) }.

Section gen.
Context {K : KeyGeneration} (marshalIndent : BeastDKGConfig → option bytes).

Definition gen_member (rnd : bytes * bytes) : option nodeKeys :=
  '(sigPub, sigPriv) ← ed_GenerateKey rnd.1;
  encPriv ← x_GenerateKey rnd.2;
  Some (mkNodeKeys sigPub sigPriv (x_PublicKey encPriv) encPriv).

(** The first loop: the keys, by index. *)
Definition gen_keys (w : GenWorld) (n : Z) : option (list (Z * nodeKeys)) :=
  mapM (λ i, k ← gen_member (gw_rand w i); Some (i, k)) (seqZ 1 n).

Definition committee_of (keys : list (Z * nodeKeys)) : list BeastDKGMember :=
  (λ '(i, k), mkMember i (nk_sigPub k) (nk_encPub k)) <$> keys.

Definition node_config (fl : GenFlags) (ms : list BeastDKGMember) (i : Z) (k : nodeKeys) : BeastDKGConfig :=
  mkBeastDKGConfig (gf_SessionID fl) (gf_Epoch fl) (gf_N fl) (gf_Threshold fl) i (gf_KeyShare fl) (gf_SessionDir fl)
    (nk_sigPriv k) (nk_encPriv k) ms.

Definition node_file (i : Z) : string := "node" +:+ pretty i +:+ ".json".

(** The second loop: what was written when it ends, or at the first failure. *)
Fixpoint write_configs (w : GenWorld) (fl : GenFlags) (ms : list BeastDKGMember) (keys : list (Z * nodeKeys)) : GenResult :=
  match keys with
  | [] => mkGenResult 0 []
  | (i, k) :: keys' =>
      let cfg := node_config fl ms i k in
      RETURN mkGenResult 1 [] IF ⌜? BeastValidate cfg ≠ nil_err ⌝ ;;
      match marshalIndent cfg with
      | None => mkGenResult 1 []
      | Some b =>
          RETURN mkGenResult 1 [] IF negb (gw_write w (node_file i)) ;;
          let rest := write_configs w fl ms keys' in
          mkGenResult (gr_Exit rest) ((node_file i, b) :: gr_Files rest)
      end
  end.

(** [main], for parsed flags. *)
Definition gen_main (w : GenWorld) (fl : GenFlags) : GenResult :=
  RETURN mkGenResult 2 [] IF ⌜? gf_OutDir fl = "" ⌝ ;;
  RETURN mkGenResult 2 [] IF (gf_N fl <=? 0)%Z || (gf_Threshold fl <=? 0)%Z || (gf_N fl <? gf_Threshold fl)%Z ;;
  RETURN mkGenResult 1 [] IF negb (gw_mkdir w) ;;
  match gen_keys w (gf_N fl) with
  | None => mkGenResult 1 []
  | Some keys => write_configs w fl (committee_of keys) keys
  end.

(** ** The files make a committee *)
Context {A : DKGAuth}.

(** What the keys are for: signatures under a generated key verify, and two
    generated X25519 keys agree on a secret. *)
Class KeyLaws : Prop := {
  kl_ed seed pub priv : ed_GenerateKey seed = Some (pub, priv) →
    length pub = 32 ∧ length priv = 64 ∧ ∀ m, ed_Verify pub m (ed_Sign priv m) = true;
  kl_x seed priv : x_GenerateKey seed = Some priv → length priv = 32 ∧ length (x_PublicKey priv) = 32;
  kl_agree s s' a b : x_GenerateKey s = Some a → x_GenerateKey s' = Some b →
    ∃ shared, X25519 a (x_PublicKey b) = Some shared ∧ X25519 b (x_PublicKey a) = Some shared;
}.
Context `{KL : !KeyLaws}.

Lemma gen_member_inv rnd k : gen_member rnd = Some k →
  ed_GenerateKey rnd.1 = Some (nk_sigPub k, nk_sigPriv k) ∧ x_GenerateKey rnd.2 = Some (nk_encPriv k) ∧
  nk_encPub k = x_PublicKey (nk_encPriv k).
Proof.
  unfold gen_member. intros ([pub priv] & -> & H)%bind_Some. apply bind_Some in H as (x & -> & [= <-]). done.
Qed.

Lemma gen_keys_lookup w n keys : gen_keys w n = Some keys →
  ∃ key : Z → nodeKeys, keys = (λ i, (i, key i)) <$> seqZ 1 n ∧
    ∀ i, (1 <= i <= n)%Z → gen_member (gw_rand w i) = Some (key i).
Proof.
  intros H. unfold gen_keys in H.
  exists (λ i, default (mkNodeKeys [] [] [] []) (gen_member (gw_rand w i))).
  assert (∀ i, i ∈ seqZ 1 n → is_Some (gen_member (gw_rand w i))) as Hs.
  { intros i Hi. apply mapM_Some_1 in H. destruct (proj1 (list_elem_of_lookup _ _) Hi) as [k Hk].
    destruct (Forall2_lookup_l _ _ _ _ _ H Hk) as (y & _ & (x & E & _)%bind_Some). by rewrite E. }
  split.
  - apply mapM_Some_1 in H. revert H Hs. generalize (seqZ 1 n). intros l H.
    induction H as [|i y l keys' Hy _ IH]; intros Hs; [done|]. rewrite fmap_cons, <-IH by (intros j Hj; apply Hs; by right).
    apply bind_Some in Hy as (x & E & [= <-]). by rewrite E.
  - intros i Hi. destruct (Hs i) as [k E]; [apply elem_of_seqZ; lia|]. by rewrite E.
Qed.

Lemma write_configs_ok w fl ms keys :
  gr_Exit (write_configs w fl ms keys) = 0%Z →
  Forall (λ ik, BeastValidate (node_config fl ms ik.1 ik.2) = nil_err) keys ∧
  Forall2 (λ ik f, f.1 = node_file ik.1 ∧ marshalIndent (node_config fl ms ik.1 ik.2) = Some f.2) keys
    (gr_Files (write_configs w fl ms keys)).
Proof.
  induction keys as [|[i k] keys IH]; [split; constructor|]. cbn [write_configs].
  case_bool_decide as Hv; [done|]. destruct (marshalIndent _) as [b|] eqn:Em; [|done].
  destruct (negb _); [done|]. cbn [gr_Exit gr_Files]. intros H. destruct (IH H) as [H1 H2].
  split; constructor; done.
Qed.

Lemma length_append s1 s2 : String.length (s1 +:+ s2) = String.length s1 + String.length s2.
Proof. induction s1 as [|a s1 IH]; [done|]. cbn. by rewrite <-IH. Qed.

Lemma append_inj_l s1 s2 u : s1 +:+ u = s2 +:+ u → s1 = s2.
Proof.
  revert s2. induction s1 as [|a s1 IH]; intros [|b s2] E; [done|..].
  - apply (f_equal String.length) in E. rewrite !length_append in E. cbn in E. lia.
  - apply (f_equal String.length) in E. rewrite !length_append in E. cbn in E. lia.
  - cbn in E. injection E as -> E. f_equal. by apply IH.
Qed.

Lemma node_file_inj i j : node_file i = node_file j → i = j.
Proof. unfold node_file. intros H%(inj (String.append "node"))%append_inj_l. by apply (inj pretty) in H. Qed.

(** The configuration of member [i]. *)
Definition gen_config (fl : GenFlags) (ms : list BeastDKGMember) (key : Z → nodeKeys) (i : Z) : BeastDKGConfig :=
  node_config fl ms i (key i).

Lemma member_of fl key i j :
  is_member (gf_N fl) j →
  member (gen_config fl (committee_of ((λ i, (i, key i)) <$> seqZ 1 (gf_N fl))) key i) j =
    Some (mkMember j (nk_sigPub (key j)) (nk_encPub (key j))).
Proof.
  intros Hj. unfold member, gen_config, node_config, committee_of. cbn [bc_Committee].
  assert (j ∈ seqZ 1 (gf_N fl)) as Hin by (apply elem_of_seqZ; unfold is_member in Hj; lia).
  revert Hin. generalize (seqZ 1 (gf_N fl)). intros l Hin. induction l as [|i' l IH]; [by apply elem_of_nil in Hin|].
  rewrite !fmap_cons. cbn [List.find mb_Index]. destruct (Z.eqb_spec i' j) as [->|Hne]; [done|].
  apply IH. by apply elem_of_cons in Hin as [|].
Qed.

(** C27. The script makes a committee. When it exits with 0, it has written one
    file for each member, which the node loads as a valid configuration; and
    together the configurations fit: the same parameters, each with its own
    index, the keys of each matching what the others hold of it. *)
Theorem gen_main_committee {J : Json BeastDKGConfig} (w : GenWorld) (fl : GenFlags) :
  (∀ c b, json_stable c → marshalIndent c = Some b → unmarshal b = Some c) →
  (∀ ms i k, json_stable (node_config fl ms i k)) →
  gr_Exit (gen_main w fl) = 0%Z →
  ∃ cfg : Z → BeastDKGConfig,
    fst <$> gr_Files (gen_main w fl) = node_file <$> seqZ 1 (gf_N fl) ∧
    (∀ i, is_member (gf_N fl) i →
      LoadBeastDKGConfig (λ f, (list_to_map (gr_Files (gen_main w fl)) : gmap string bytes) !! f) (node_file i) =
        inr (cfg i)) ∧
    ((2 <= gf_N fl)%Z →
      committee (gf_N fl) (gf_Threshold fl) cfg (gf_SessionID fl) (if (gf_Epoch fl =? 0)%N then 1%N else gf_Epoch fl)).
Proof.
  intros Hjson Hstable. unfold gen_main. case_bool_decide; [done|]. destruct (_ || _); [done|]. destruct (negb _); [done|].
  destruct (gen_keys w (gf_N fl)) as [keys|] eqn:Ek; [|done].
  destruct (gen_keys_lookup _ _ _ Ek) as (key & -> & Hkey). set (ms := committee_of _). intros Hexit.
  destruct (write_configs_ok _ _ _ _ Hexit) as [Hvalid Hfiles]. set (files := gr_Files _) in *.
  rewrite Forall_fmap in Hvalid. apply Forall2_fmap_l in Hfiles. unfold compose in Hvalid. cbn [fst snd] in *.
  assert (∀ i, is_member (gf_N fl) i → i ∈ seqZ 1 (gf_N fl)) as Hin.
  { intros i Hi. apply elem_of_seqZ. unfold is_member in Hi. lia. }
  assert (∀ i, is_member (gf_N fl) i → BeastValidate (gen_config fl ms key i) = nil_err) as Hval.
  { intros i Hi. rewrite Forall_forall in Hvalid. by apply (Hvalid i), Hin. }
  assert (fst <$> files = node_file <$> seqZ 1 (gf_N fl)) as Hnames.
  { clear -Hfiles. induction Hfiles as [|i f l fs [E _] _ IH]; [done|]. rewrite !fmap_cons. f_equal; [exact E|exact IH]. }
  exists (gen_config fl ms key). split_and!; [done|..].
  - intros i Hi. unfold LoadBeastDKGConfig. rewrite bool_decide_false by done.
    destruct (proj1 (list_elem_of_lookup _ _) (Hin i Hi)) as [k Hk].
    destruct (Forall2_lookup_l _ _ _ _ _ Hfiles Hk) as ([f b] & Hf & Ef & Hb). cbn in Ef, Hb. subst f.
    assert ((list_to_map files : gmap string bytes) !! node_file i = Some b) as ->.
    { apply elem_of_list_to_map_1; [|by eapply list_elem_of_lookup_2]. rewrite Hnames.
      apply NoDup_fmap_2_strong; [|apply NoDup_seqZ]. intros x y _ _. apply node_file_inj. }
    rewrite (Hjson _ _ (Hstable _ _ _) Hb). unfold gen_config in Hval. by rewrite Hval.
  - intros Hn. split; [done|done|by intros i Hi|..].
    + intros i j msg Hi Hj. eexists. split; [by apply member_of|]. cbn.
      destruct (gen_member_inv _ _ (Hkey j Hj)) as (He & _). by apply (kl_ed _ _ _ He).
    + intros i j Hi Hj. destruct (gen_member_inv _ _ (Hkey i Hi)) as (_ & Hxi & Epi).
      destruct (gen_member_inv _ _ (Hkey j Hj)) as (_ & Hxj & Epj). destruct (kl_agree _ _ _ _ Hxi Hxj) as (shared & H1 & H2).
      do 2 eexists. exists shared. split; [by apply member_of|]. split; [by apply member_of|]. cbn.
      by rewrite Epi, Epj.
Qed.

(** It succeeds whenever the flags are sensible and the system cooperates. *)
Lemma gen_main_succeeds (w : GenWorld) (fl : GenFlags) :
  gf_OutDir fl ≠ "" → gf_SessionID fl ≠ "" → (1 <= gf_Threshold fl <= gf_N fl)%Z →
  gw_mkdir w = true → (∀ f, gw_write w f = true) → (∀ c, is_Some (marshalIndent c)) →
  (∀ i, is_Some (gen_member (gw_rand w i))) → gr_Exit (gen_main w fl) = 0%Z.
Proof.
  intros Hdir Hsess Ht Hmk Hw Hm Hg. unfold gen_main. rewrite bool_decide_false by done.
  rewrite !(proj2 (Z.leb_gt _ _)), (proj2 (Z.ltb_ge _ _)), Hmk by lia. cbn [orb negb].
  destruct (gen_keys w (gf_N fl)) as [keys|] eqn:Ek.
  2: { exfalso. revert Ek. unfold gen_keys. generalize (seqZ 1 (gf_N fl)). intros l. induction l as [|i l IH]; [done|].
       cbn. destruct (Hg i) as [k ->]. cbn. by destruct (mapM _ l). }
  destruct (gen_keys_lookup _ _ _ Ek) as (key & -> & Hkey).
  set (ms := committee_of _).
  assert (mb_Index <$> ms = seqZ 1 (gf_N fl)) as Hidx.
  { unfold ms, committee_of. rewrite <-!list_fmap_compose. etrans; [|apply list_fmap_id]. done. }
  assert (∀ i, is_member (gf_N fl) i → member_ok (mkMember i (nk_sigPub (key i)) (nk_encPub (key i))) ∧
    length (nk_sigPriv (key i)) = 64 ∧ length (nk_encPriv (key i)) = 32) as Hlen.
  { intros i Hi. destruct (gen_member_inv _ _ (Hkey i Hi)) as (He & Hx & Ep).
    destruct (kl_ed _ _ _ He) as (? & ? & _). destruct (kl_x _ _ Hx). unfold member_ok. cbn. by rewrite Ep. }
  assert (Forall (λ i, BeastValidate (node_config fl ms i (key i)) = nil_err) (seqZ 1 (gf_N fl))) as Hval.
  { apply Forall_forall. intros i Hi%elem_of_seqZ. assert (is_member (gf_N fl) i) as Him by (unfold is_member; lia).
    apply BeastValidate_iff. cbn. destruct (Hlen i Him) as (_ & ? & ?). split_and!; try done; [unfold is_member in Him; lia..| |].
    - by rewrite Hidx.
    - unfold ms, committee_of. rewrite !Forall_fmap. apply Forall_forall. intros j Hj%elem_of_seqZ. apply Hlen.
      unfold is_member. lia. }
  clear Ek Hlen Hidx. clearbody ms. induction Hval as [|i l Hv _ IH]; [done|]. rewrite fmap_cons. cbn [write_configs].
  rewrite bool_decide_false by (intros E; exact (E Hv)). destruct (Hm (node_config fl ms i (key i))) as [b ->].
  rewrite Hw. cbn [negb gr_Exit]. done.
Qed.
End gen.

(** ** Four members, with toy keys *)
Definition toy_keygen : KeyGeneration :=
  {| ed_GenerateKey _ := Some (replicate 32 Byte.x03, replicate 64 Byte.x01);
     x_GenerateKey _ := Some (replicate 32 Byte.x02); x_PublicKey _ := replicate 32 Byte.x04 |}.

Lemma toy_key_laws : KeyLaws (K := toy_keygen) (A := toy_auth).
Proof.
  split.
  - intros seed pub priv [= <- <-]. split_and!; [done|done|]. intros m. cbn. by apply bool_decide_true.
  - intros seed priv [= <-]. done.
  - intros s s' a b _ _. by eexists.
Qed.

#[export] Instance BeastDKGMember_eq_dec : EqDecision BeastDKGMember.
Proof. solve_decision. Defined.
#[export] Instance BeastDKGConfig_eq_dec : EqDecision BeastDKGConfig.
Proof. solve_decision. Defined.
#[export] Program Instance BeastDKGMember_countable : Countable BeastDKGMember :=
  inj_countable' (λ m, (mb_Index m, mb_SigPub m, mb_EncPub m)) (λ '(a, b, c), mkMember a b c) _.
Next Obligation. by intros []. Qed.
#[export] Program Instance BeastDKGConfig_countable : Countable BeastDKGConfig :=
  inj_countable' (λ c, (bc_SessionID c, bc_Epoch c, bc_N c, bc_Threshold c, bc_Index c, bc_KeySharePath c,
      bc_SessionDir c, (bc_SigPriv c, bc_EncPriv c, bc_Committee c)))
    (λ '(a, b, c, d, e, f, g, (h, i, j)), mkBeastDKGConfig a b c d e f g h i j) _.
Next Obligation. by intros []. Qed.

Definition wit_gen_flags : GenFlags := mkGenFlags "out" "s" 1 2 2 "k" "d".
Definition wit_gen_world : GenWorld := mkGenWorld (λ _, ([], [])) true (λ _, true).

Lemma gen_main_committee_witness :
  let J := countable_json BeastDKGConfig in
  let res := gen_main (K := toy_keygen) (λ c, Some (marshal c)) wit_gen_world wit_gen_flags in
  gr_Exit res = 0%Z ∧
  ∃ cfg : Z → BeastDKGConfig,
    fst <$> gr_Files res = node_file <$> seqZ 1 2 ∧
    (∀ i, is_member 2 i →
      LoadBeastDKGConfig (λ f, (list_to_map (gr_Files res) : gmap string bytes) !! f) (node_file i) = inr (cfg i)) ∧
    ((2 <= 2)%Z → committee (A := toy_auth) 2 2 cfg "s" 1).
Proof.
  intros J res.
  assert (gr_Exit res = 0%Z) as Hexit.
  { apply (gen_main_succeeds (K := toy_keygen) (λ c, Some (marshal c)) (A := toy_auth) (KL := toy_key_laws)); done. }
  split; [exact Hexit|].
  apply (gen_main_committee (K := toy_keygen) (λ c, Some (marshal c)) (A := toy_auth) (KL := toy_key_laws)
    (J := J) wit_gen_world wit_gen_flags); [| |exact Hexit].
  - intros c b Hc Hb. injection Hb as <-. exact (unmarshal_marshal (Json := J) c Hc).
  - done.
Defined.
