(* ===== verification/GoStrings.v ===== *)
(** The functions of Go's package strings that the program uses: TrimSpace and
    Split with a separator of one byte. *)
From S2P Require Import Prelude.

(** The UTF-8 forms of the runes that [unicode.IsSpace] holds of. *)
Definition utf8 (ns : list N) : list ascii := ascii_of_N <$> ns.
Definition spaces : list (list ascii) :=
  utf8 <$> ([[9]; [10]; [11]; [12]; [13]; [32]; [194; 133]; [194; 160]; [225; 154; 128]; [226; 128; 168];
    [226; 128; 169]; [226; 128; 175]; [226; 129; 159]; [227; 128; 128]] ++
    ((λ n, [226; 128; n]) <$> [128; 129; 130; 131; 132; 133; 134; 135; 136; 137; 138]))%N.

Fixpoint strip (p s : list ascii) : option (list ascii) :=
  match p, s with
  | [], _ => Some s
  | a :: p', b :: s' => if decide (a = b) then strip p' s' else None
  | _, [] => None
  end.

(** Removes the words of [ps] that [s] starts with; each removal takes a byte
    at least, so the length of [s] is fuel enough. *)
Fixpoint trim_front (ps : list (list ascii)) (fuel : nat) (s : list ascii) : list ascii :=
  match fuel with
  | O => s
  | S fuel' =>
      match head (omap (λ p, strip p s) ps) with
      | Some s' => trim_front ps fuel' s'
      | None => s
      end
  end.

Lemma strip_length p s s' : strip p s = Some s' → length s = length p + length s'.
Proof.
  revert s. induction p as [|a p IH]; intros [|b s]; simpl; try done.
  - by intros [= <-].
  - by intros [= <-].
  - case_decide; [|done]. intros Hs. by rewrite (IH s Hs).
Qed.

(** The fuel is enough: when the loop stops, no word is left in front. *)
Lemma trim_front_done ps fuel s :
  Forall (λ p, p ≠ []) ps → length s ≤ fuel → omap (λ p, strip p (trim_front ps fuel s)) ps = [].
Proof.
  intros Hps. revert s. induction fuel as [|fuel IH]; intros s Hs.
  - destruct s; [|simpl in Hs; lia]. simpl. induction Hps as [|p ps Hp _ IHp]; [done|]. by destruct p.
  - simpl. destruct (head (omap (λ p, strip p s) ps)) as [s'|] eqn:E.
    + apply IH. apply head_Some_elem_of, list_elem_of_omap in E as (p & Hp & Hstrip).
      rewrite Forall_forall in Hps. specialize (Hps p Hp). apply strip_length in Hstrip. destruct p; simpl in *; [done|lia].
    + by apply head_None.
Qed.

Definition TrimSpace (s : string) : string :=
  let l := String.list_ascii_of_string s in
  let l := trim_front spaces (length l) l in
  String.string_of_list_ascii (reverse (trim_front (reverse <$> spaces) (length l) (reverse l))).

Definition is_blank (s : string) : bool := ⌜? TrimSpace s = "" ⌝.

(** [strings.Split(s, sep)] for a separator of one byte. *)
Fixpoint Split (sep : ascii) (s : string) : list string :=
  match s with
  | EmptyString => [""]
  | String c s' =>
      if decide (c = sep) then "" :: Split sep s'
      else match Split sep s' with
           | [] => [String c ""]
           | w :: ws => String c w :: ws
           end
  end.

Fixpoint Join (sep : ascii) (ws : list string) : string :=
  match ws with
  | [] => ""
  | [w] => w
  | w :: ws' => w +:+ String sep (Join sep ws')
  end.

Definition lacks (sep : ascii) (s : string) : Prop := sep ∉ String.list_ascii_of_string s.

Lemma Split_lacks sep w : lacks sep w → Split sep w = [w].
Proof.
  induction w as [|c w IH]; intros H; [done|]. unfold lacks in *. simpl in *.
  apply not_elem_of_cons in H as [Hc Hw]. rewrite decide_False by congruence. by rewrite IH.
Qed.

Lemma Split_app sep w s : lacks sep w → Split sep (w +:+ String sep s) = w :: Split sep s.
Proof.
  induction w as [|c w IH]; intros H; simpl; [by rewrite decide_True|]. unfold lacks in *. simpl in H.
  apply not_elem_of_cons in H as [Hc Hw]. rewrite decide_False by congruence. by rewrite IH.
Qed.

(** Words without the separator come back from the line they are joined to. *)
Lemma Split_Join sep ws : ws ≠ [] → Forall (lacks sep) ws → Split sep (Join sep ws) = ws.
Proof.
  induction ws as [|w [|w' ws] IH]; intros Hne H; [done|..]; apply Forall_cons in H as [Hw Hs].
  - by apply Split_lacks.
  - simpl Join. rewrite Split_app by done. f_equal. by apply IH.
Qed.

Example trims_unicode_space :
  TrimSpace (String "009" (String.string_of_list_ascii (utf8 [194; 160; 97; 32; 98; 226; 128; 169; 13]%N))) = "a b".
Proof. vm_compute. reflexivity. Qed.

Example splits_empty : Split "," "" = [""] ∧ Split "," "a,,b" = ["a"; ""; "b"].
Proof. by split. Qed.
