(* ===== verification/SessionPaths.v ===== *)
(** The files of the session stores (src/internal/tss/dkg/session_store.go,
    beast_session_store.go): the path of a session is made from its id, by
    filepath.Join. Sessions whose ids have no slash have files of their own; an
    id with a slash can name any file. *)
From S2P Require Import Prelude GoStrings Metrics Codec Files Tss TssStores.

(** ** path/filepath on Unix *)

(** One element of [Clean]: the elements so far, last one first. *)
Definition clean_step (rooted : bool) (out : list string) (elem : string) : list string :=
  if ⌜? elem = "" ∨ elem = "." ⌝ then out
  else if ⌜? elem = ".." ⌝ then
    match out with
    | e :: out' => if ⌜? e = ".." ⌝ then elem :: out else out'
    | [] => if rooted then [] else [elem]
    end
  else elem :: out.

Definition is_rooted (path : string) : bool := match path with String "/" _ => true | _ => false end.

(** Cleaned elements as a path. *)
Definition path_of (rooted : bool) (elems : list string) : string :=
  (if rooted then "/" else "") +:+ Join "/" elems.

Definition Clean (path : string) : string :=
  let out := foldl (clean_step (is_rooted path)) [] (Split "/" path) in
  let res := path_of (is_rooted path) (reverse out) in
  if ⌜? res = "" ⌝ then "." else res.

(** [filepath.Join] of two elements. *)
Definition Join2 (dir name : string) : string :=
  if ⌜? dir = "" ⌝ then if ⌜? name = "" ⌝ then "" else Clean name
  else Clean (dir +:+ String "/" name).

Example clean_examples :
  Clean <$> ["/data/../etc//x"; "a/./b/../c"; "../a"; "/.."; ""; "a/.."; "/"] =
  ["/etc/x"; "a/c"; "../a"; "/"; "."; "."; "/"].
Proof. vm_compute. reflexivity. Qed.

(** ** The stores *)
Definition sess_file (prefix id : string) : string := prefix +:+ id +:+ ".dat".

(** [pathFor] of the two stores. *)
Definition sess_prefix : string := "tss_session_".
Definition beast_prefix : string := "beast_dkg_session_".
Definition pathFor (prefix dir id : string) : string := Join2 dir (sess_file prefix id).

(** [SessionStore.Save]: the error is that of the write. *)
Definition sess_Save {J : Json sessionState} (o : Outcome) (dir id : string) (st : sessionState) (fs : FS) : FS * goerr :=
  writeSess magicSess o (pathFor sess_prefix dir id) st fs.

Definition beast_Save {J : Json beastSessionState} (o : Outcome) (dir id : string) (st : beastSessionState) (fs : FS)
    : FS * goerr :=
  writeBeastSession o (pathFor beast_prefix dir id) st fs.

Definition sess_Load_id {J : Json sessionState} (dir id : string) (fs : FS) : option sessionState :=
  (sess_Load magicSess (pathFor sess_prefix dir id) fs).1.

Definition beast_Load_id {J : Json beastSessionState} (dir id : string) (fs : FS) : option beastSessionState :=
  beast_Load (pathFor beast_prefix dir id) fs.

(** ** Ids without a slash *)
Lemma append_assoc s1 s2 s3 : (s1 +:+ s2) +:+ s3 = s1 +:+ (s2 +:+ s3).
Proof. induction s1 as [|c s1 IH]; [done|]. change (String c ((s1 +:+ s2) +:+ s3) = String c (s1 +:+ (s2 +:+ s3))). by rewrite IH. Qed.

Lemma list_ascii_append s1 s2 :
  String.list_ascii_of_string (s1 +:+ s2) = String.list_ascii_of_string s1 ++ String.list_ascii_of_string s2.
Proof.
  induction s1 as [|c s1 IH]; [done|].
  change (c :: String.list_ascii_of_string (s1 +:+ s2) = c :: (String.list_ascii_of_string s1 ++ String.list_ascii_of_string s2)).
  by rewrite IH.
Qed.

Lemma Split_ne sep s : Split sep s ≠ [].
Proof. destruct s as [|c s]; [done|]. cbn [Split]. case_decide; [done|]. by destruct (Split sep s). Qed.

Lemma Split_last sep s w : lacks sep w → Split sep (s +:+ String sep w) = Split sep s ++ [w].
Proof.
  intros Hw. induction s as [|c s IH].
  - change (Split sep (String sep w) = [""; w]). cbn [Split]. rewrite decide_True by done. by rewrite Split_lacks.
  - change (Split sep (String c (s +:+ String sep w)) = Split sep (String c s) ++ [w]). cbn [Split].
    rewrite IH. destruct (decide (c = sep)); [done|].
    pose proof (Split_ne sep s). by destruct (Split sep s).
Qed.

Lemma Join_last sep ws w : ws ≠ [] → Join sep (ws ++ [w]) = Join sep ws +:+ String sep w.
Proof.
  induction ws as [|x [|y ws] IH]; intros H; [done|done|].
  change (x +:+ String sep (Join sep ((y :: ws) ++ [w])) = (x +:+ String sep (Join sep (y :: ws))) +:+ String sep w).
  rewrite IH by done. by rewrite append_assoc.
Qed.

(** An element that is a name. *)
Definition plain (w : string) : Prop := lacks "/" w ∧ w ≠ "" ∧ w ≠ "." ∧ w ≠ "..".

Lemma clean_plain rooted out w : plain w → clean_step rooted out w = w :: out.
Proof.
  intros (_ & H1 & H2 & H3). unfold clean_step. rewrite bool_decide_false by tauto. by rewrite bool_decide_false.
Qed.

(** A plain name in a directory: the cleaned directory, and the name. *)
Definition in_dir (dir : string) : string :=
  if ⌜? dir = "" ⌝ then "" else
  let elems := reverse (foldl (clean_step (is_rooted dir)) [] (Split "/" dir)) in
  path_of (is_rooted dir) elems +:+ (if ⌜? elems = [] ⌝ then "" else "/").

Lemma Join2_plain dir w : plain w → Join2 dir w = in_dir dir +:+ w.
Proof.
  intros Hw. pose proof Hw as (Hl & Hne & _). unfold Join2, in_dir. case_bool_decide as Hd.
  - rewrite bool_decide_false by done. unfold Clean. rewrite Split_lacks by done.
    assert (is_rooted w = false) as ->.
    { destruct w as [|c w]; [done|]. destruct (is_rooted (String c w)) eqn:E; [|done].
      exfalso. apply Hl. unfold is_rooted in E. repeat case_match; try done. by left. }
    cbn [foldl]. rewrite clean_plain by done. change (path_of false (reverse [w])) with w. by rewrite bool_decide_false.
  - assert (is_rooted (dir +:+ String "/" w) = is_rooted dir) as Hr by (by destruct dir).
    unfold Clean. rewrite Hr, Split_last by done. rewrite foldl_app. cbn [foldl]. rewrite clean_plain by done.
    set (out := foldl _ _ _). rewrite reverse_cons. unfold path_of.
    assert (Join "/" (reverse out ++ [w]) = (Join "/" (reverse out) +:+ (if ⌜? reverse out = [] ⌝ then "" else "/")) +:+ w) as ->.
    { destruct (decide (reverse out = [])) as [->|Hout]; [done|]. rewrite Join_last by done.
      rewrite bool_decide_false by done. by rewrite append_assoc. }
    rewrite bool_decide_false; [by rewrite !append_assoc|]. intros E.
    apply (f_equal String.list_ascii_of_string) in E. rewrite !list_ascii_append in E.
    apply app_eq_nil in E as [_ E]. apply app_eq_nil in E as [_ E]. by destruct w.
Qed.

Lemma sess_file_plain prefix id :
  prefix ∈ [sess_prefix; beast_prefix] → lacks "/" id → plain (sess_file prefix id).
Proof.
  intros Hp Hid. unfold plain, lacks, sess_file in *. rewrite !list_ascii_append.
  split; [|by repeat (apply elem_of_cons in Hp as [->|Hp]); [..|apply elem_of_nil in Hp]].
  rewrite !not_elem_of_app. split; [|split; [done|]]; apply (bool_decide_unpack _).
  - repeat (apply elem_of_cons in Hp as [->|Hp]); [by vm_compute..|by apply elem_of_nil in Hp].
  - by vm_compute.
Qed.

(** The name of a file ends in four characters of its own. *)
Lemma append_cut s t a b : String.length a = String.length b → s +:+ a = t +:+ b → s = t ∧ a = b.
Proof.
  intros Hl E. apply (f_equal String.list_ascii_of_string) in E. rewrite !list_ascii_append in E.
  assert (length (String.list_ascii_of_string a) = length (String.list_ascii_of_string b)) as Hl'.
  { clear E. revert b Hl. induction a as [|c a IH]; intros [|d b]; simpl; try done. intros [=]. f_equal. by apply IH. }
  apply app_inj_2 in E as [E1 E2]; [|done].
  split; [by rewrite <-(String.string_of_list_ascii_of_string s), E1, String.string_of_list_ascii_of_string|].
  by rewrite <-(String.string_of_list_ascii_of_string a), E2, String.string_of_list_ascii_of_string.
Qed.

(** ** What a save leaves alone *)
Definition op_paths (op : FsOp) : list string :=
  match op with
  | OpCreate p | OpOpen p | OpAppend p _ | OpSync p => [p]
  | OpBackup p q | OpRename p q => [p; q]
  end.

Lemma run_op_elsewhere fs op q : q ∉ op_paths op → run_op fs op !! q = fs !! q.
Proof.
  destruct op; cbn [op_paths run_op]; rewrite ?not_elem_of_cons; intros H; destruct_and?;
    unfold rename; repeat case_match; by simplify_map_eq.
Qed.

Lemma run_ops_elsewhere ops fs q : Forall (λ op, q ∉ op_paths op) ops → run_ops ops fs !! q = fs !! q.
Proof.
  intros H. revert fs. induction H as [|op ops Hop _ IH]; intros fs; [done|].
  change (run_ops (op :: ops) fs) with (run_ops ops (run_op fs op)). by rewrite IH, run_op_elsewhere.
Qed.

Lemma stop_at_elsewhere ft ops fs q : Forall (λ op, q ∉ op_paths op) ops → stop_at ft ops fs !! q = fs !! q.
Proof.
  intros H. unfold stop_at. destruct (ops !! f_op ft) as [op|] eqn:E; [|by apply run_ops_elsewhere].
  pose proof (Forall_lookup_1 _ _ _ _ H E) as Hop. cbn beta in Hop.
  assert (run_ops (take (f_op ft) ops) fs !! q = fs !! q) as <- by (by apply run_ops_elsewhere, Forall_take).
  destruct op; cbn [torn_op]; try done. by apply run_op_elsewhere.
Qed.

Section elsewhere.
Context {W A : Type} {RC : RecordCodec W A}.

Lemma holds_ext fs fs' q a :
  fs' !! q = fs !! q → fs' !! bak_of q = fs !! bak_of q → holds fs q a → holds fs' q a.
Proof.
  intros Hq Hb [(c & Hc & H)|(Hn & c & Hc & H)]; [left|right].
  - exists c. split; [by eapply intact_ext|done].
  - split; [by rewrite Hq|]. exists c. split; [by eapply intact_ext|done].
Qed.

(** However a save of [path] ends, what another path holds stays held. *)
Lemma attempt_elsewhere path hdr body o fs q a :
  (∀ p, p ∈ [q; bak_of q] → p ∉ [path; tmp_of path; bak_of path]) →
  holds fs q a → holds (attempt o (replace_ops fs path hdr body) fs).1 q a.
Proof.
  intros Hd Ha.
  assert (∀ p, p ∈ [q; bak_of q] → Forall (λ op, p ∉ op_paths op) (replace_ops fs path hdr body)) as Hops.
  { intros p Hp. specialize (Hd p Hp). rewrite !not_elem_of_cons in Hd. destruct_and!.
    unfold replace_ops. destruct (fs !! path); cbn [app]; repeat constructor; cbn [op_paths];
      rewrite !not_elem_of_cons; repeat split; try done; apply not_elem_of_nil. }
  assert (∀ fs', (∀ p, p ∈ [q; bak_of q] → fs' !! p = fs !! p) → holds fs' q a) as Hext.
  { intros fs' H. apply (holds_ext fs); [apply H; by left|apply H; by right; left|done]. }
  destruct o as [|ft|ft keep]; cbn [attempt fst].
  - apply Hext. intros p Hp. by apply run_ops_elsewhere, Hops.
  - unfold io_error. apply Hext. intros p Hp. specialize (Hops p Hp).
    destruct (_ !! f_op ft) as [[]|]; cbn [fst]; try (by apply stop_at_elsewhere); apply run_ops_elsewhere; [|done].
    apply Forall_app. split; [by apply Forall_take|by apply Forall_drop].
  - apply holds_power_loss, Hext. intros p Hp. by apply stop_at_elsewhere, Hops.
Qed.
End elsewhere.

(** The files of one session are not those of another. *)
Lemma session_files_apart dir prefix prefix' id id' :
  prefix ∈ [sess_prefix; beast_prefix] → prefix' ∈ [sess_prefix; beast_prefix] → lacks "/" id → lacks "/" id' →
  (prefix, id) ≠ (prefix', id') →
  let path := pathFor prefix dir id in let path' := pathFor prefix' dir id' in
  ∀ p, p ∈ [path; bak_of path] → p ∉ [path'; tmp_of path'; bak_of path'].
Proof.
  intros Hp Hp' Hid Hid' Hne path path'.
  assert (∀ pre i, pre ∈ [sess_prefix; beast_prefix] → lacks "/" i →
    pathFor pre dir i = (in_dir dir +:+ (pre +:+ i)) +:+ ".dat") as Hpath.
  { intros pre i Hpre Hi. unfold pathFor. rewrite Join2_plain by (by apply sess_file_plain).
    unfold sess_file. by rewrite !append_assoc. }
  assert (path ≠ path') as Hpp.
  { unfold path, path'. rewrite !Hpath by done. intros [E _]%append_cut; [|done]. apply string_app_inj in E. apply Hne.
    repeat (apply elem_of_cons in Hp as [->|Hp]; [|try by apply elem_of_nil in Hp]);
    repeat (apply elem_of_cons in Hp' as [->|Hp']; [|try by apply elem_of_nil in Hp']); try discriminate E;
    by apply string_app_inj in E as ->. }
  assert (∀ pre i x a, pre ∈ [sess_prefix; beast_prefix] → lacks "/" i → String.length a = 4 → a ≠ ".dat" →
    pathFor pre dir i ≠ x +:+ a) as Hext.
  { intros pre i x a Hpre Hi Hl Ha. rewrite Hpath by done. by intros [_ E]%append_cut. }
  intros p Hin. rewrite !not_elem_of_cons. unfold tmp_of, bak_of in *.
  apply elem_of_cons in Hin as [->|Hin]; [|apply list_elem_of_singleton in Hin as ->].
  - split_and!; [done|by apply Hext..|apply not_elem_of_nil].
  - split_and!; [apply not_eq_sym; by apply Hext|by intros [_ E]%append_cut|by intros [E _]%append_cut|apply not_elem_of_nil].
Qed.

(** ** Saves of many sessions *)
Inductive SessWrite :=
  | WriteSess (o : Outcome) (id : string) (st : sessionState)
  | WriteBeast (o : Outcome) (id : string) (st : beastSessionState).

Section sessions.
Context {J : Json sessionState} {JB : Json beastSessionState} (dir : string).

(** The two stores over one directory. *)
Definition sess_write (fs : FS) (w : SessWrite) : FS :=
  match w with
  | WriteSess o id st => (sess_Save o dir id st fs).1
  | WriteBeast o id st => (beast_Save o dir id st fs).1
  end.

(** A save of another session than the threshold session [id]. *)
Definition of_another (id : string) (w : SessWrite) : Prop :=
  match w with
  | WriteSess _ id' _ => lacks "/" id' ∧ id' ≠ id
  | WriteBeast _ id' _ => lacks "/" id'
  end.

End sessions.

(** An id with a slash names a file outside the directory, or the file of
    another session, whose state it replaces. *)
Example escaping_ids :
  pathFor sess_prefix "/var/lib/dvt" "x/../../../etc/y" = "/var/etc/y.dat" ∧
  pathFor sess_prefix "/var/lib/dvt" "x/../tss_session_a" = pathFor sess_prefix "/var/lib/dvt" "a" ∧
  pathFor beast_prefix "/var/lib/dvt" "x/../tss_session_a" = pathFor sess_prefix "/var/lib/dvt" "a".
Proof. vm_compute. done. Qed.

Definition empty_beast : beastSessionState := mkBeastSession 0 [] [] ∅ ∅ ∅ ∅ [] false [] [].
Definition some_session : sessionState := mkSessionState 3 ["a"] [] [] ["b"] false.

Definition other_saves : list SessWrite :=
  [WriteSess (IOError (mkFault 2 1)) "t" some_session; WriteBeast Completed "s" empty_beast;
   WriteSess (Crashed (mkFault 4 0) (λ _, 0)) ".." some_session].

