(* ===== verification/GoFlags.v ===== *)
(** Go's package flag, as the programs under src/cmd and src/.github/scripts use
    it, with the part of strconv it calls: reading numbers in any base, reading
    booleans, and the arguments of a command line. *)
From stdpp Require Import pretty.
From S2P Require Import Prelude.

(** ** strconv, base 0 and 64 bits *)
Inductive NumError := ErrSyntax | ErrRange.

Definition code (c : ascii) : N := N_of_ascii c.

(** [c | ('x' - 'X')]. *)
Definition lower (c : ascii) : N := N.lor (code c) 32.

Definition digit (c : ascii) : option N :=
  if ((48 <=? code c) && (code c <=? 57))%N then Some (code c - 48)%N
  else if ((97 <=? lower c) && (lower c <=? 122))%N then Some (lower c - 97 + 10)%N
  else None.

(** The loop of [ParseUint]: the number so far, and whether there was an underscore. *)
Fixpoint digits (base n : N) (underscores : bool) (s : string) : NumError + N * bool :=
  match s with
  | EmptyString => inr (n, underscores)
  | String c s' =>
      if decide (c = "_"%char) then digits base n true s' else
      match digit c with
      | None => inl ErrSyntax
      | Some d =>
          if (base <=? d)%N then inl ErrSyntax
          else if (two64 <=? n * base + d)%N then inl ErrRange
          else digits base (n * base + d) underscores s'
      end
  end.

(** The base by the prefix, and the rest. A prefix needs a digit after it. *)
Definition based (s : string) : N * string :=
  match s with
  | String "0" (String c (String _ _ as t) as s1) =>
      if (lower c =? 98)%N then (2%N, t)
      else if (lower c =? 111)%N then (8%N, t)
      else if (lower c =? 120)%N then (16%N, t)
      else (8%N, s1)
  | String "0" s1 => (8%N, s1)
  | _ => (10%N, s)
  end.

(** What [underscoreOK] saw last. *)
Inductive LastSeen := SBegin | SDigit | SUnderscore | SOther.

Fixpoint underscore_loop (hex : bool) (i : LastSeen) (s : string) : bool :=
  match s with
  | EmptyString => match i with SUnderscore => false | _ => true end
  | String c s' =>
      if ((48 <=? code c) && (code c <=? 57))%N || (hex && ((97 <=? lower c) && (lower c <=? 102))%N)
      then underscore_loop hex SDigit s'
      else if decide (c = "_"%char)
      then match i with SDigit => underscore_loop hex SUnderscore s' | _ => false end
      else match i with SUnderscore => false | _ => underscore_loop hex SOther s' end
  end.

Definition unsigned (s : string) : string :=
  match s with String c s' => if decide (c = "-"%char ∨ c = "+"%char) then s' else s | _ => s end.

Definition underscoreOK (s : string) : bool :=
  match unsigned s with
  | String "0" (String c t) as s1 =>
      if ((lower c =? 98) || (lower c =? 111) || (lower c =? 120))%N
      then underscore_loop (lower c =? 120)%N SDigit t
      else underscore_loop false SBegin s1
  | s1 => underscore_loop false SBegin s1
  end.

Definition ParseUint (s : string) : NumError + N :=
  match s with
  | EmptyString => inl ErrSyntax
  | _ =>
      let '(base, t) := based s in
      match digits base 0 false t with
      | inl e => inl e
      | inr (n, us) => if us && negb (underscoreOK s) then inl ErrSyntax else inr n
      end
  end.

Definition ParseInt (s : string) : NumError + Z :=
  match s with
  | EmptyString => inl ErrSyntax
  | String c _ =>
      let neg : bool := ⌜? c = "-"%char ⌝ in
      match ParseUint (unsigned s) with
      | inl e => inl e
      | inr un =>
          if negb neg && (2 ^ 63 <=? un)%N then inl ErrRange
          else if neg && (2 ^ 63 <? un)%N then inl ErrRange
          else inr (if neg then - Z.of_N un else Z.of_N un)%Z
      end
  end.

Definition ParseBool (s : string) : option bool :=
  if ⌜? s ∈ ["1"; "t"; "T"; "true"; "TRUE"; "True"] ⌝ then Some true
  else if ⌜? s ∈ ["0"; "f"; "F"; "false"; "FALSE"; "False"] ⌝ then Some false
  else None.

(** ** The flags of a program, with their values *)
Inductive FlagValue := VBool (b : bool) | VString (s : string) | VInt (z : Z) | VUint (n : N).
Notation FlagSet := (gmap string FlagValue).

(** [Value.Set]. *)
Definition set_value (v : FlagValue) (s : string) : option FlagValue :=
  match v with
  | VBool _ => VBool <$> ParseBool s
  | VString _ => Some (VString s)
  | VInt _ => match ParseInt s with inr z => Some (VInt z) | inl _ => None end
  | VUint _ => match ParseUint s with inr n => Some (VUint n) | inl _ => None end
  end.

(** ** Arguments *)
Inductive Arg := NotFlag | Terminator | BadSyntax | AFlag (name : string) (value : option string).

(** The name before the first equals sign, and the value after it. *)
Fixpoint cut_value (s : string) : string * option string :=
  match s with
  | EmptyString => (EmptyString, None)
  | String c s' =>
      if decide (c = "="%char) then (EmptyString, Some s')
      else let '(n, v) := cut_value s' in (String c n, v)
  end.

Definition read_name (name : string) : Arg :=
  match name with
  | EmptyString => BadSyntax
  | String a _ =>
      if decide (a = "-"%char ∨ a = "="%char) then BadSyntax
      else let '(n, v) := cut_value name in AFlag n v
  end.

Definition read_arg (s : string) : Arg :=
  match s with
  | String "-" (String "-" EmptyString) => Terminator
  | String "-" (String "-" name) => read_name name
  | String "-" (String _ _ as name) => read_name name
  | _ => NotFlag
  end.

(** [flag.Parse]: the flags and what is left of the arguments, or the status the
    program exits with. *)
Inductive Parsed := Args (fs : FlagSet) (rest : list string) | Exit (status : Z).

Fixpoint Parse (fs : FlagSet) (args : list string) : Parsed :=
  match args with
  | [] => Args fs []
  | s :: rest =>
      match read_arg s with
      | NotFlag => Args fs args
      | Terminator => Args fs rest
      | BadSyntax => Exit 2
      | AFlag name value =>
          match fs !! name with
          | None => Exit (if ⌜? name ∈ ["help"; "h"] ⌝ then 0 else 2)
          | Some (VBool _ as v) =>
              match set_value v (default "true" value) with
              | Some v' => Parse (<[name := v']> fs) rest
              | None => Exit 2
              end
          | Some v =>
              match value, rest with
              | Some x, _ =>
                  match set_value v x with Some v' => Parse (<[name := v']> fs) rest | None => Exit 2 end
              | None, x :: rest' =>
                  match set_value v x with Some v' => Parse (<[name := v']> fs) rest' | None => Exit 2 end
              | None, [] => Exit 2
              end
          end
      end
  end.

Example numbers_in_any_base :
  ParseUint <$> ["42"; "0x2A"; "0b10_1010"; "052"; "0"; "4_2"; "_42"; "42_"; "0x"; ""; "18446744073709551615";
                 "18446744073709551616"; "4 2"] =
  [inr 42; inr 42; inr 42; inr 42; inr 0; inr 42; inl ErrSyntax; inl ErrSyntax; inl ErrSyntax; inl ErrSyntax;
   inr 18446744073709551615; inl ErrRange; inl ErrSyntax]%N.
Proof. vm_compute. reflexivity. Qed.

(** ** Printing numbers and reading them back *)
Lemma digit_char x : (x < 10)%N → digit (pretty_N_char x) = Some x ∧ pretty_N_char x ≠ "_"%char.
Proof.
  intros Hx. assert (x = 0 ∨ x = 1 ∨ x = 2 ∨ x = 3 ∨ x = 4 ∨ x = 5 ∨ x = 6 ∨ x = 7 ∨ x = 8 ∨ x = 9)%N as H by lia.
  by repeat destruct H as [->|H]; [..|subst].
Qed.

Lemma digits_pretty_go x us s : (x < two64)%N → digits 10 0 us (pretty_N_go x s) = digits 10 x us s.
Proof.
  revert s. induction (N.lt_wf_0 x) as [x _ IH]; intros s Hx.
  assert (x = 0 ∨ 0 < x)%N as [->|Hpos] by lia; [done|].
  rewrite pretty_N_go_step by done. rewrite IH; [|by apply N.div_lt|pose proof (N.div_lt x 10 Hpos eq_refl); lia].
  cbn [digits]. pose proof (N.mod_lt x 10) as Hm. destruct (digit_char (x `mod` 10)) as [Hd Hu]; [by apply Hm|].
  rewrite decide_False by done. rewrite Hd, (proj2 (N.leb_gt _ _)) by (by apply Hm).
  assert (x `div` 10 * 10 + x `mod` 10 = x)%N as -> by (rewrite (N.mul_comm (x `div` 10)); symmetry; by apply N.div_mod).
  by rewrite (proj2 (N.leb_gt _ _)) by done.
Qed.

(** A number that is not zero is not printed with a zero in front. *)
Lemma pretty_go_head x s : (0 < x)%N → ∃ c t, pretty_N_go x s = String c t ∧ ∃ d, (0 < d < 10)%N ∧ c = pretty_N_char d.
Proof.
  revert s. induction (N.lt_wf_0 x) as [x _ IH]; intros s Hx. rewrite pretty_N_go_step by done.
  assert (x < 10 ∨ 10 ≤ x)%N as [Hs|Hl] by lia.
  - rewrite N.div_small, N.mod_small, pretty_N_go_0 by done. eexists _, _. split; [done|]. by exists x.
  - apply IH; [by apply N.div_lt|]. apply N.div_str_pos. lia.
Qed.

Lemma pretty_head n : (0 < n)%N → ∃ c t, pretty n = String c t ∧ ∃ d, (0 < d < 10)%N ∧ c = pretty_N_char d.
Proof. intros H. unfold pretty, pretty_N. rewrite decide_False by lia. by apply pretty_go_head. Qed.

Lemma nonzero_char d : (0 < d < 10)%N →
  pretty_N_char d ≠ "0"%char ∧ pretty_N_char d ≠ "-"%char ∧ pretty_N_char d ≠ "+"%char ∧ pretty_N_char d ≠ "="%char.
Proof.
  intros Hd. assert (d = 1 ∨ d = 2 ∨ d = 3 ∨ d = 4 ∨ d = 5 ∨ d = 6 ∨ d = 7 ∨ d = 8 ∨ d = 9)%N as H by lia.
  by repeat destruct H as [->|H]; [..|subst].
Qed.

Lemma based_nonzero c t : c ≠ "0"%char → based (String c t) = (10%N, String c t).
Proof. intros H. by destruct c as [[] [] [] [] [] [] [] []]. Qed.

Theorem ParseUint_pretty (n : N) : is_u64 n → ParseUint (pretty n) = inr n.
Proof.
  intros Hn. assert (n = 0 ∨ 0 < n)%N as [->|Hpos] by lia; [done|].
  destruct (pretty_head n Hpos) as (c & t & E & d & Hd & Hc). destruct (nonzero_char d Hd) as (H0 & _).
  unfold ParseUint. rewrite E, based_nonzero by (by rewrite Hc). rewrite <-E.
  unfold pretty, pretty_N. rewrite decide_False by lia. by rewrite digits_pretty_go.
Qed.

Definition is_int (z : Z) : Prop := (- 2 ^ 63 <= z < 2 ^ 63)%Z.

Lemma unsigned_pretty (n : N) : unsigned (pretty n) = pretty n.
Proof.
  assert (n = 0 ∨ 0 < n)%N as [->|Hpos] by lia; [done|].
  destruct (pretty_head n Hpos) as (c & t & -> & d & Hd & ->). destruct (nonzero_char d Hd) as (_ & Hm & Hp & _).
  unfold unsigned. by rewrite decide_False by (by intros [?|?]).
Qed.

Theorem ParseInt_pretty (z : Z) : is_int z → ParseInt (pretty z) = inr z.
Proof.
  unfold is_int. intros Hz. assert (is_u64 (Z.to_N (Z.abs z))) as Hu by (unfold is_u64, two64; lia).
  destruct z as [|p|p]; [done| |].
  - change (pretty (Z.pos p)) with (pretty (N.pos p)). destruct (pretty_head (N.pos p)) as (c & t & E & d & Hd & Hc); [done|].
    destruct (nonzero_char d Hd) as (_ & Hm & _). unfold ParseInt. rewrite E. rewrite bool_decide_false by (by rewrite Hc).
    rewrite <-E, unsigned_pretty. cbn [Z.abs Z.to_N] in Hu. rewrite ParseUint_pretty by done. cbn [negb andb].
    by rewrite (proj2 (N.leb_gt _ _)) by lia.
  - change (pretty (Z.neg p)) with (String "-" (pretty (N.pos p))). unfold ParseInt. rewrite bool_decide_true by done.
    assert (unsigned (String "-" (pretty (N.pos p))) = pretty (N.pos p)) as -> by done.
    cbn [Z.abs Z.to_N] in Hu. rewrite ParseUint_pretty by done. cbn [negb andb]. by rewrite (proj2 (N.ltb_ge _ _)) by lia.
Qed.

Lemma ParseBool_pretty (b : bool) : ParseBool (if b then "true" else "false") = Some b.
Proof. by destruct b. Qed.

(** What is read fits the machine. *)
Lemma digits_u64 base n us s m us' : is_u64 n → digits base n us s = inr (m, us') → is_u64 m.
Proof.
  revert n us. induction s as [|c s IH]; intros n us Hn; cbn [digits]; [by intros [= <- _]|].
  destruct (decide _); [by apply IH|]. destruct (digit c) as [d|]; [|done].
  destruct (base <=? d)%N; [done|]. destruct (two64 <=? n * base + d)%N eqn:E; [done|]. apply IH. by apply N.leb_gt in E.
Qed.

Lemma ParseUint_u64 s n : ParseUint s = inr n → is_u64 n.
Proof.
  unfold ParseUint. destruct s as [|c s]; [done|]. destruct (based _) as [base t].
  destruct (digits base 0 false t) as [|[m us]] eqn:E; [done|]. destruct (us && _); [done|]. intros [= <-].
  eapply digits_u64; [|exact E]. unfold is_u64, two64. lia.
Qed.

Lemma ParseInt_int s z : ParseInt s = inr z → is_int z.
Proof.
  unfold ParseInt, is_int. destruct s as [|c s]; [done|]. destruct (ParseUint _) as [|un]; [done|].
  destruct (⌜? c = "-"%char ⌝); cbn [negb andb].
  - destruct (N.ltb_spec (2 ^ 63) un); [done|]. intros [= <-]. lia.
  - destruct (N.leb_spec (2 ^ 63) un); [done|]. intros [= <-]. lia.
Qed.

(** ** Command lines *)
Definition show (v : FlagValue) : string :=
  match v with
  | VBool b => if b then "true" else "false"
  | VString s => s
  | VInt z => pretty z
  | VUint n => pretty n
  end.

Definition in_range (v : FlagValue) : Prop :=
  match v with VInt z => is_int z | VUint n => is_u64 n | _ => True end.

Definition same_kind (v v' : FlagValue) : bool :=
  match v, v' with
  | VBool _, VBool _ | VString _, VString _ | VInt _, VInt _ | VUint _, VUint _ => true
  | _, _ => false
  end.

Lemma set_value_show v v' : same_kind v v' = true → in_range v' → set_value v (show v') = Some v'.
Proof.
  destruct v, v'; intros [=] H; simpl; [by rewrite ParseBool_pretty|done|by rewrite ParseInt_pretty|by rewrite ParseUint_pretty].
Qed.

Lemma set_value_typed v s v' : set_value v s = Some v' → same_kind v v' = true ∧ in_range v'.
Proof.
  destruct v; simpl.
  - destruct (ParseBool s); by intros [= <-].
  - by intros [= <-].
  - destruct (ParseInt s) as [|z'] eqn:E; [done|]. intros [= <-]. split; [done|by eapply ParseInt_int].
  - destruct (ParseUint s) as [|n'] eqn:E; [done|]. intros [= <-]. split; [done|by eapply ParseUint_u64].
Qed.

(** A flag with its value: [-name=value]. *)
Definition show_arg (x : string * FlagValue) : string := "-" +:+ x.1 +:+ "=" +:+ show x.2.

(** A name that can be given: not empty, without an equals sign, no dash in front. *)
Definition name_ok (name : string) : bool :=
  match name with EmptyString => false | String a _ => ⌜? a ≠ "-"%char ⌝ end &&
  ⌜? "="%char ∉ String.list_ascii_of_string name ⌝.

Lemma cut_value_app name x :
  "="%char ∉ String.list_ascii_of_string name → cut_value (name +:+ "=" +:+ x) = (name, Some x).
Proof.
  induction name as [|c name IH]; intros H; [done|].
  change (cut_value (String c (name +:+ "=" +:+ x)) = (String c name, Some x)). cbn [cut_value].
  cbn [String.list_ascii_of_string] in H. apply not_elem_of_cons in H as [Hc H].
  rewrite decide_False by congruence. by rewrite IH.
Qed.

Lemma read_arg_show name v : name_ok name = true → read_arg (show_arg (name, v)) = AFlag name (Some (show v)).
Proof.
  unfold name_ok, show_arg. intros [Hd He]%andb_true_iff. apply bool_decide_eq_true in He. cbn [fst snd].
  destruct name as [|a name]; [done|]. apply bool_decide_eq_true in Hd.
  assert (a ≠ "="%char) as Ha by (intros ->; apply He; by left).
  change (read_arg (String "-" (String a (name +:+ "=" +:+ show v))) = AFlag (String a name) (Some (show v))).
  assert (read_name (String a (name +:+ "=" +:+ show v)) = AFlag (String a name) (Some (show v))) as Hn.
  { cbn [read_name]. rewrite decide_False by (by intros [?|?]).
    by rewrite (cut_value_app (String a name) (show v) He : cut_value (String a (name +:+ "=" +:+ show v)) = _). }
  revert Hd Hn. generalize (name +:+ "=" +:+ show v). intros t Hd Hn.
  destruct a as [[] [] [] [] [] [] [] []]; try exact Hn. by destruct Hd.
Qed.

(** A flag that is given with a value of its kind is set. *)
Lemma Parse_given fs name v v' rest :
  name_ok name = true → fs !! name = Some v → same_kind v v' = true → in_range v' →
  Parse fs (show_arg (name, v') :: rest) = Parse (<[name := v']> fs) rest.
Proof.
  intros Hn Hv Hk Hr. cbn [Parse]. rewrite read_arg_show, Hv by done. pose proof (set_value_show v v' Hk Hr) as Hs.
  destruct v; [change (default "true" (Some (show v'))) with (show v')|..]; by rewrite Hs.
Qed.

(** Giving a list of flags sets each of them. *)
Definition fits (fs : FlagSet) (x : string * FlagValue) : Prop :=
  name_ok x.1 = true ∧ in_range x.2 ∧ ∃ v, fs !! x.1 = Some v ∧ same_kind v x.2 = true.

Lemma same_kind_trans v1 v2 v3 : same_kind v1 v2 = true → same_kind v2 v3 = true → same_kind v1 v3 = true.
Proof. by destruct v1, v2, v3. Qed.
Lemma same_kind_sym v1 v2 : same_kind v1 v2 = true → same_kind v2 v1 = true.
Proof. by destruct v1, v2. Qed.
Lemma same_kind_refl v : same_kind v v = true.
Proof. by destruct v. Qed.

Theorem Parse_all_given fs xs rest :
  Forall (fits fs) xs →
  Parse fs ((show_arg <$> xs) ++ rest) = Parse (foldl (λ fs x, <[x.1 := x.2]> fs) fs xs) rest.
Proof.
  revert fs. induction xs as [|[name v'] xs IH]; intros fs H; [done|]. apply Forall_cons in H as [(Hn & Hr & v & Hv & Hk) H].
  cbn [fst snd] in *. cbn [fmap list_fmap app foldl]. rewrite (Parse_given fs name v v') by done. apply IH.
  eapply Forall_impl; [exact H|]. intros [n2 w] (Hn2 & Hr2 & v2 & Hv2 & Hk2). split; [done|]. split; [done|]. cbn [fst snd] in *.
  destruct (decide (n2 = name)) as [->|].
  - rewrite lookup_insert_eq. exists v'. split; [done|]. rewrite Hv in Hv2. injection Hv2 as <-.
    eapply same_kind_trans; [by apply same_kind_sym|done].
  - rewrite lookup_insert_ne by done. by exists v2.
Qed.

(** Nothing is looked at after the first argument that is no flag. *)
Lemma Parse_stops fs s rest : read_arg s = NotFlag → Parse fs (s :: rest) = Args fs (s :: rest).
Proof. intros H. cbn [Parse]. by rewrite H. Qed.

(** Whatever is given, the flags stay those that are defined, each of its kind
    and within the machine's range, and what is left is the end of the
    arguments. *)
Theorem Parse_typed fs args fs' rest :
  Parse fs args = Args fs' rest → map_Forall (λ _, in_range) fs →
  map_Forall (λ _, in_range) fs' ∧ rest `suffix_of` args ∧
  ∀ name, option_Forall2 (λ v v', same_kind v v' = true) (fs !! name) (fs' !! name).
Proof.
  revert fs. induction (well_founded_ltof _ length args) as [args _ IH]. intros fs Hp Hr.
  assert (∀ name v v', fs !! name = Some v → same_kind v v' = true → in_range v' →
    ∀ args', length args' < length args → args' `suffix_of` args → Parse (<[name := v']> fs) args' = Args fs' rest →
    map_Forall (λ _, in_range) fs' ∧ rest `suffix_of` args ∧
    ∀ name, option_Forall2 (λ v v', same_kind v v' = true) (fs !! name) (fs' !! name)) as Hgo.
  { intros name v v' Hv Hk Hr' args' Hlt Hsuf Hp'. destruct (IH args' Hlt _ Hp') as (H1 & H2 & H3).
    { by apply map_Forall_insert_2. }
    split; [done|]. split; [by etransitivity|]. intros name'. specialize (H3 name').
    destruct (decide (name' = name)) as [->|]; [|by rewrite lookup_insert_ne in H3].
    rewrite lookup_insert_eq in H3. rewrite Hv. inversion H3 as [? w Hw|]; subst. constructor.
    by eapply same_kind_trans. }
  assert (∀ args', args' `suffix_of` args → Args fs args' = Args fs' rest →
    map_Forall (λ _, in_range) fs' ∧ rest `suffix_of` args ∧
    ∀ name, option_Forall2 (λ v v', same_kind v v' = true) (fs !! name) (fs' !! name)) as Hstop.
  { intros args' Hs [= <- <-]. split; [done|]. split; [done|]. intros name. destruct (fs !! name); constructor. apply same_kind_refl. }
  destruct args as [|s args]; [by apply (Hstop [])|]. cbn [Parse] in Hp. 
  assert (args `suffix_of` s :: args) as Hs1 by by apply suffix_cons_r.
  destruct (read_arg s) as [| | |name value]; [by apply (Hstop (s :: args))|by apply (Hstop args)|done|].
  destruct (fs !! name) as [v|] eqn:Hv; [|done].
  assert (∀ x args', length args' < S (length args) → args' `suffix_of` s :: args →
    match set_value v x with Some v' => Parse (<[name := v']> fs) args' | None => Exit 2 end = Args fs' rest →
    map_Forall (λ _, in_range) fs' ∧ rest `suffix_of` s :: args ∧
    ∀ name, option_Forall2 (λ v v', same_kind v v' = true) (fs !! name) (fs' !! name)) as Hset.
  { intros x args' Hlt Hsuf H. destruct (set_value v x) as [v'|] eqn:E; [|done].
    apply set_value_typed in E as [Hk Hr']. by apply (Hgo name v v' Hv Hk Hr' args'). }
  destruct v; [by eapply Hset; [|exact Hs1|exact Hp]; simpl; lia|..];
    (destruct value as [x|]; [by eapply Hset; [|exact Hs1|exact Hp]; simpl; lia|]);
    (destruct args as [|x args]; [done|]);
    (eapply Hset; [|by do 2 apply suffix_cons_r|exact Hp]; simpl; lia).
Qed.
