(* ===== verification/Api.v ===== *)
(** The validator API (src/internal/api/service.go) and the wire form of
    transactions (src/internal/p2p/wire/tx.go): what each request is answered,
    what it publishes and what it counts. Requests come with what the handlers
    read of them; the HTTP server, the reverse proxy and the logs are outside. *)
From stdpp Require Import pretty.
From S2P Require Import Prelude Metrics Codec Sha256 NoncePool Payload Lifecycle.

(** ** The wire form of a transaction (tx.go) *)
Definition TypePlaintextV1 : string := "plaintext_v1".
Definition TypeAuctionBidV1 : string := "auction_bid_v1".
Definition TypePrivateV1 : string := "private_v1".

Record TxEnvelope := mkTxEnvelope {
  te_Type : string;
  te_From : string;
  te_Nonce : N;
  te_Gas : N;
  te_Fee : N;
  te_Bid : N;
  te_FeeRecipient : string;
  te_Ciphertext : bytes;
  te_EphemeralKey : bytes;
  te_TargetHeight : N;
  te_BatchIndex : N;
  te_PuncturedKey : bytes;
  te_Sig : bytes;
}.

#[export] Instance TxEnvelope_eq_dec : EqDecision TxEnvelope.
Proof. solve_decision. Defined.

(** [TxFromInternal]; every payload of the program is of a supported type. *)
Definition TxFromInternal (p : Payload) : TxEnvelope * bool :=
  match p with
  | Plaintext tx =>
      (mkTxEnvelope (Type_of p) (pt_From tx) (pt_Nonce tx) (pt_Gas tx) (pt_Fee tx) 0 "" [] [] 0 0 [] (pt_Sig tx), true)
  | Auction tx =>
      (mkTxEnvelope (Type_of p) (ab_From tx) (ab_Nonce tx) (ab_Gas tx) 0 (ab_Bid tx) (ab_FeeRecipient tx)
         [] [] 0 0 [] (ab_Sig tx), true)
  | Private tx =>
      (mkTxEnvelope (Type_of p) (pv_From tx) (pv_Nonce tx) 0 0 0 "" (pv_Ciphertext tx) (pv_EphemeralKey tx)
         (pv_TargetHeight tx) (pv_BatchIndex tx) (pv_PuncturedKey tx) [], true)
  end.

(** [TxEnvelope.ToInternal]; [None] is the nil payload of an unknown type. *)
Definition tx_ToInternal (w : TxEnvelope) : option Payload :=
  let typ := if ⌜? te_Type w = "" ⌝ then TypePlaintextV1 else te_Type w in
  if ⌜? typ = TypePlaintextV1 ⌝ then
    Some (Plaintext (mkPlaintextTx (te_From w) (te_Nonce w) (te_Gas w) (te_Fee w) (te_Sig w)))
  else if ⌜? typ = TypeAuctionBidV1 ⌝ then
    Some (Auction (mkAuctionBidTx (te_From w) (te_Nonce w) (te_Gas w) (te_Bid w) (te_FeeRecipient w) (te_Sig w)))
  else if ⌜? typ = TypePrivateV1 ⌝ then
    Some (Private (mkPrivateTx (te_From w) (te_Nonce w) (te_Ciphertext w) (te_EphemeralKey w)
      (te_TargetHeight w) (te_BatchIndex w) (te_PuncturedKey w)))
  else None.

(** The payload, which may be nil, or the error of the JSON decoder. *)
Definition ParseTx {J : Json TxEnvelope} (b : bytes) : option (option Payload) :=
  match unmarshal b with
  | None => None
  | Some env => Some (tx_ToInternal env)
  end.

Definition payload_Validate (p : Payload) : goerr :=
  match p with Plaintext t => pt_Validate t | Auction t => ab_Validate t | Private t => pv_Validate t end.

(** ** Requests *)

(** [rq_Body] is nil, or the bytes of the body and whether reading them fails;
    [rq_now] is the clock in nanoseconds, [rq_ms] the time the handler takes. *)
Record Request := mkRequest {
  rq_Method : string;
  rq_Path : string;
  rq_Body : option (bytes * bool);
  rq_Trace : string;
  rq_now : N;
  rq_ms : N;
}.

Record Response := mkResponse { rp_Code : Z; rp_Body : string }.

Inductive AEffect :=
  | AMetric (e : MEvent)
  | APublish (ctx : option string) (b : bytes)       (* onPublish *)
  | APublishTx (ctx : option string) (p : Payload)   (* onPublishTx *)
  | ABroadcastTx (p : Payload).                      (* txb.BroadcastTx *)

(** Which callbacks are set, the upstream, and the flags of the environment
    (AEQUA_ENABLE_TX_API, AEQUA_ENABLE_BEAST). *)
Record Service := mkService {
  sv_onPublish : bool;
  sv_upstream : string;
  sv_txb : bool;
  sv_onPublishTx : bool;
  sv_tx_api : bool;
  sv_beast : bool;
}.

Definition traceID (r : Request) : string :=
  if ⌜? rq_Trace r ≠ "" ⌝ then rq_Trace r else pretty (rq_now r).

(** The metrics of a request that is answered with [code]. *)
Definition api_metrics (route code : string) (ms : N) : list AEffect :=
  [AMetric (Inc "api_requests_total" [("route", route); ("code", code)]);
   AMetric (Observe "api_latency_ms" [("route", route)] (float64_of ms))].

Definition logAPI (r : Request) (route : string) (code : Z) (errMsg : string) : Response * list AEffect :=
  (mkResponse code errMsg, api_metrics route (pretty code) (rq_ms r)).

(** The end of the handlers that accept a request. *)
Definition accepted (r : Request) (route : string) (ef : list AEffect) : Response * list AEffect :=
  (mkResponse 202 "", ef ++ api_metrics route "202" (rq_ms r)).

Definition max_body : nat := 1024 * 1024.

(** [io.ReadAll(http.MaxBytesReader(w, r.Body, 1<<20))]. *)
Definition read_body (body : bytes * bool) : option bytes :=
  let '(b, fails) := body in
  if fails || (max_body <? length b)%nat then None else Some b.

Record dutyEnvelope := mkDuty { du_Type : string; du_Height : N; du_Round : N }.

Section handlers.
Context {JD : Json dutyEnvelope} {JT : Json TxEnvelope}.

Definition validateDutyJSON (b : bytes) : goerr :=
  RETURN Some "empty" IF ⌜? b = [] ⌝ ;;
  RETURN Some "too large" IF (max_body <? length b)%nat ;;
  match unmarshal b with
  | None => Some "invalid json"
  | Some d =>
      RETURN Some "invalid type" IF negb ⌜? du_Type d ∈ ["attester"; "proposer"; "sync"] ⌝ ;;
      RETURN Some "height out of range" IF (2 ^ 62 <? du_Height d)%N ;;
      RETURN Some "round out of range" IF (2 ^ 40 <? du_Round d)%N ;;
      nil_err
  end.

Definition handleDuty (s : Service) (r : Request) : Response * list AEffect :=
  let route := "/v1/duty" in
  RETURN logAPI r route 405 "method not allowed" IF negb ⌜? rq_Method r = "POST" ⌝ ;;
  match rq_Body r with
  | None => logAPI r route 400 "empty body"
  | Some body =>
      match read_body body with
      | None => logAPI r route 400 "read error"
      | Some b =>
          match validateDutyJSON b with
          | Some e => logAPI r route 400 e
          | None => accepted r route (if sv_onPublish s then [APublish (WithTraceID None (traceID r)) b] else [])
          end
      end
  end.

Definition handleTxPlain (s : Service) (r : Request) : Response * list AEffect :=
  let route := "/v1/tx/plain" in
  RETURN logAPI r route 405 "method not allowed" IF negb ⌜? rq_Method r = "POST" ⌝ ;;
  match rq_Body r with
  | None => logAPI r route 400 "empty body"
  | Some body =>
      match read_body body with
      | None => logAPI r route 400 "read error"
      | Some b =>
          match ParseTx b with
          | None => logAPI r route 400 "invalid json"
          | Some None => logAPI r route 400 "invalid tx"
          | Some (Some pl) =>
              RETURN logAPI r route 503 "beast disabled" IF ⌜? Type_of pl = "private_v1" ⌝ && negb (sv_beast s) ;;
              RETURN logAPI r route 400 "invalid tx" IF ⌜? payload_Validate pl ≠ nil_err ⌝ ;;
              accepted r route
                ((if sv_onPublishTx s then [APublishTx (WithTraceID None (traceID r)) pl] else []) ++
                 (if sv_txb s then [ABroadcastTx pl] else []))
          end
      end
  end.

Definition handleHealth (r : Request) : Response * list AEffect :=
  (mkResponse 200 "ok", api_metrics "/health" "200" (rq_ms r)).

(** [upstream] is the reply of the proxied server, if any; [valid_url] is
    [url.Parse]. *)
Definition proxy (valid_url : string → bool) (upstream : Request → option Response)
    (s : Service) (r : Request) : Response * list AEffect :=
  RETURN (mkResponse 404 "404 page not found", []) IF ⌜? sv_upstream s = "" ⌝ ;;
  RETURN (mkResponse 502 "bad upstream", []) IF negb (valid_url (sv_upstream s)) ;;
  match upstream r with
  | Some resp => (resp, api_metrics "proxy" (pretty (rp_Code resp)) (rq_ms r))
  | None => (mkResponse 502 "upstream error", api_metrics "proxy" "502" (rq_ms r))
  end.

(** The routes that [Start] installs. *)
Definition serve (valid_url : string → bool) (upstream : Request → option Response)
    (s : Service) (r : Request) : Response * list AEffect :=
  if ⌜? rq_Path r = "/health" ⌝ then handleHealth r
  else if ⌜? rq_Path r = "/v1/duty" ⌝ then handleDuty s r
  else if ⌜? rq_Path r = "/v1/tx/plain" ⌝ && sv_tx_api s then handleTxPlain s r
  else proxy valid_url upstream s r.
End handlers.

(** ** Properties *)

(** What a request makes the service do, the metrics aside; and the routes and
    codes it is counted under. *)
Definition outputs (ef : list AEffect) : list AEffect :=
  List.filter (λ x, match x with AMetric _ => false | _ => true end) ef.

Definition counted (ef : list AEffect) : list (list (string * string)) :=
  omap (λ x, match x with AMetric (Inc "api_requests_total" ls) => Some ls | _ => None end) ef.

Lemma outputs_app a b : outputs (a ++ b) = outputs a ++ outputs b.
Proof. apply List.filter_app. Qed.
Lemma counted_app a b : counted (a ++ b) = counted a ++ counted b.
Proof. apply omap_app. Qed.

Section properties.
Context {JD : Json dutyEnvelope} {JT : Json TxEnvelope}.
Context (s : Service).

(** The bytes of a POST request that could be read. *)
Definition posted (r : Request) : option bytes :=
  if ⌜? rq_Method r = "POST" ⌝ then rq_Body r ≫= read_body else None.

(** The body of a duty: known type, height and round in range. *)
Definition duty_ok (b : bytes) : Prop :=
  (length b ≤ max_body)%nat ∧ ∃ d, unmarshal b = Some d ∧ du_Type d ∈ ["attester"; "proposer"; "sync"] ∧
    (du_Height d <= 2 ^ 62)%N ∧ (du_Round d <= 2 ^ 40)%N.

(** The transaction a request submits, when it is one the node takes. *)
Definition tx_ok (r : Request) (p : Payload) : Prop :=
  (∃ b env, posted r = Some b ∧ unmarshal b = Some env ∧ tx_ToInternal env = Some p) ∧
  payload_Validate p = nil_err ∧ (Type_of p = "private_v1" → sv_beast s = true).

Lemma validateDutyJSON_iff b : validateDutyJSON b = nil_err ↔ duty_ok b.
Proof.
  unfold validateDutyJSON, duty_ok. destruct (decide (b = [])) as [->|Hne].
  { simpl. split; [done|]. intros (_ & d & Hd & _). by rewrite unmarshal_nil in Hd. }
  rewrite bool_decide_false by done. destruct (Nat.ltb_spec max_body (length b)).
  { split; [done|]. intros [? _]. lia. }
  destruct (unmarshal b) as [d|] eqn:Hd; [|split; [done|by intros (_ & ? & ? & _)]].
  case_bool_decide as Ht; simpl.
  2:{ split; [done|]. intros (_ & d' & [= <-] & ? & _). done. }
  destruct (N.ltb_spec (2 ^ 62) (du_Height d)).
  { split; [done|]. intros (_ & d' & [= <-] & _ & ? & _). lia. }
  destruct (N.ltb_spec (2 ^ 40) (du_Round d)).
  { split; [done|]. intros (_ & d' & [= <-] & _ & _ & ?). lia. }
  split; [intros _|done]. split; [lia|]. by exists d.
Qed.

(** A refusal: an error code, and nothing but metrics. *)
Definition refused (t : Response * list AEffect) : Prop := (400 <= rp_Code t.1)%Z ∧ outputs t.2 = [].

Lemma refused_log r route code e : (400 <= code)%Z → refused (logAPI r route code e).
Proof. by split. Qed.
#[local] Hint Resolve refused_log : core.

Lemma accepted_outputs r route ef :
  counted ef = [] → outputs ef = ef → rp_Code (accepted r route ef).1 = 202%Z ∧
  outputs (accepted r route ef).2 = ef.
Proof. intros _ H. split; [done|]. simpl. by rewrite outputs_app, H, app_nil_r. Qed.

Lemma handleDuty_cases r :
  (∃ b, posted r = Some b ∧ duty_ok b ∧ handleDuty s r = accepted r "/v1/duty"
     (if sv_onPublish s then [APublish (WithTraceID None (traceID r)) b] else [])) ∨
  ((∀ b, posted r = Some b → ¬ duty_ok b) ∧ refused (handleDuty s r)).
Proof.
  unfold handleDuty, posted. case_bool_decide as Hm; simpl; [|right; split; [done|auto with lia]].
  destruct (rq_Body r) as [body|]; simpl; [|right; split; [done|auto with lia]].
  destruct (read_body body) as [b|]; [|right; split; [done|auto with lia]].
  destruct (validateDutyJSON b) as [e|] eqn:Hv.
  - right. split; [|auto with lia]. intros ? [= <-] Hok%validateDutyJSON_iff. congruence.
  - left. exists b. split_and!; [done|by apply validateDutyJSON_iff|done].
Qed.

Lemma handleTxPlain_cases r :
  (∃ p, tx_ok r p ∧ handleTxPlain s r = accepted r "/v1/tx/plain"
     ((if sv_onPublishTx s then [APublishTx (WithTraceID None (traceID r)) p] else []) ++
      (if sv_txb s then [ABroadcastTx p] else []))) ∨
  ((∀ p, ¬ tx_ok r p) ∧ refused (handleTxPlain s r)).
Proof.
  unfold handleTxPlain, tx_ok, posted.
  assert (∀ P Q R : Payload → Prop, (∀ p, ¬ P p) → ∀ p, ¬ (P p ∧ Q p ∧ R p)) as Hno by naive_solver.
  case_bool_decide as Hm; simpl; [|right; split; [apply Hno; naive_solver|auto with lia]].
  destruct (rq_Body r) as [body|]; simpl; [|right; split; [apply Hno; naive_solver|auto with lia]].
  destruct (read_body body) as [b|]; [|right; split; [apply Hno; naive_solver|auto with lia]].
  unfold ParseTx. destruct (unmarshal b) as [env|] eqn:Hu; [|right; split; [apply Hno; naive_solver|auto with lia]].
  destruct (tx_ToInternal env) as [p|] eqn:Hp; [|right; split; [apply Hno; naive_solver|auto with lia]].
  case_bool_decide as Ht; destruct (sv_beast s); simpl.
  2: right; split; [naive_solver|auto with lia].
  all: case_bool_decide as Hv; [right; split; [naive_solver|auto with lia]|].
  all: left; exists p; split; [|done]; naive_solver.
Qed.

Context (valid_url : string → bool) (upstream : Request → option Response).

(** C35. The API acts exactly on the requests it admits. A request is answered
    202 when it posts a duty of a known type in range, or, with the
    transaction route enabled, a transaction that validates (a private one only
    with BEAST enabled), and then that duty or transaction, with the trace id of the
    request, is all it publishes and broadcasts; any other request to these
    routes gets an error code and has no effect but its metrics. *)
Theorem api_acts_on_admitted (r : Request) :
  let t := serve valid_url upstream s r in
  (rq_Path r = "/v1/duty" →
    (∃ b, posted r = Some b ∧ duty_ok b ∧ rp_Code t.1 = 202%Z ∧
       outputs t.2 = if sv_onPublish s then [APublish (WithTraceID None (traceID r)) b] else []) ∨
    ((∀ b, posted r = Some b → ¬ duty_ok b) ∧ refused t)) ∧
  (rq_Path r = "/v1/tx/plain" → sv_tx_api s = true →
    (∃ p, tx_ok r p ∧ rp_Code t.1 = 202%Z ∧
       outputs t.2 = (if sv_onPublishTx s then [APublishTx (WithTraceID None (traceID r)) p] else []) ++
                     (if sv_txb s then [ABroadcastTx p] else [])) ∨
    ((∀ p, ¬ tx_ok r p) ∧ refused t)).
Proof.
  unfold serve. split.
  - intros ->. simpl. destruct (handleDuty_cases r) as [(b & Hb & Hok & ->)|H]; [left|by right].
    exists b. split_and!; [done|done|done|]. apply accepted_outputs; by destruct (sv_onPublish s).
  - intros -> ->. simpl. destruct (handleTxPlain_cases r) as [(p & Hp & ->)|H]; [left|by right].
    exists p. split_and!; [done|done|].
    apply accepted_outputs; by destruct (sv_onPublishTx s), (sv_txb s).
Qed.

(** The route a request is counted under; [None] when the proxy has no usable
    upstream. *)
Definition counted_route (r : Request) : option string :=
  if ⌜? rq_Path r ∈ ["/health"; "/v1/duty"] ⌝ || ⌜? rq_Path r = "/v1/tx/plain" ⌝ && sv_tx_api s
  then Some (rq_Path r)
  else if ⌜? sv_upstream s = "" ⌝ || negb (valid_url (sv_upstream s)) then None else Some "proxy".

Lemma counted_accepted r route ef :
  counted ef = [] → let t := accepted r route ef in
  counted t.2 = [[("route", route); ("code", pretty (rp_Code t.1))]].
Proof. intros H. simpl. by rewrite counted_app, H. Qed.

(** Every request is counted once, under its route and the code it was
    answered with, except those the proxy cannot forward for want of an
    upstream, which are not counted at all. *)
Theorem requests_counted_once (r : Request) :
  let t := serve valid_url upstream s r in
  counted t.2 = match counted_route r with
                | Some route => [[("route", route); ("code", pretty (rp_Code t.1))]]
                | None => []
                end.
Proof.
  assert (∀ route code e, counted (logAPI r route code e).2 =
    [[("route", route); ("code", pretty (rp_Code (logAPI r route code e).1))]]) as Hlog by done.
  unfold serve, counted_route. cbv zeta.
  destruct (decide (rq_Path r = "/health")) as [->|H1]; [done|].
  rewrite (bool_decide_false (rq_Path r = "/health")) by done.
  destruct (decide (rq_Path r = "/v1/duty")) as [->|H2].
  { simpl. unfold handleDuty. repeat (case_match; try apply Hlog; try by apply counted_accepted). }
  rewrite (bool_decide_false (rq_Path r = "/v1/duty")) by done.
  rewrite (bool_decide_false (rq_Path r ∈ _)) by (rewrite !elem_of_cons, elem_of_nil; naive_solver). simpl.
  destruct (⌜? rq_Path r = "/v1/tx/plain" ⌝ && sv_tx_api s) eqn:H3.
  { apply andb_true_iff in H3 as [->%bool_decide_eq_true _]. unfold handleTxPlain.
    repeat (case_match; try apply Hlog; try by apply counted_accepted). }
  unfold proxy. destruct (⌜? sv_upstream s = "" ⌝); [done|]. simpl.
  destruct (valid_url (sv_upstream s)); [|done]. simpl. by destruct (upstream r).
Qed.
End properties.

Lemma ToInternal_From p : tx_ToInternal (TxFromInternal p).1 = Some p.
Proof. by destruct p as [[]|[]|[]]. Qed.

Lemma tx_form_ok p : (TxFromInternal p).2 = true ∧ te_Type (TxFromInternal p).1 = Type_of p.
Proof. by destruct p. Qed.

Lemma ParseTx_marshal {J : Json TxEnvelope} p :
  json_stable (TxFromInternal p).1 → ParseTx (marshal (TxFromInternal p).1) = Some (Some p).
Proof. intros Hs. unfold ParseTx. by rewrite unmarshal_marshal, ToInternal_From. Qed.

(** C36. A transaction survives the wire. Every payload has a wire form, which the
    receiver turns back into exactly that payload, through its JSON encoding. *)
Theorem tx_wire_round_trip {J : Json TxEnvelope} (p : Payload) :
  (TxFromInternal p).2 = true ∧ tx_ToInternal (TxFromInternal p).1 = Some p ∧
  (json_stable (TxFromInternal p).1 → ParseTx (marshal (TxFromInternal p).1) = Some (Some p)).
Proof.
  split_and!; [apply tx_form_ok|apply ToInternal_From|apply ParseTx_marshal].
Qed.

(** The route for plaintext transactions takes all three types. *)
Lemma plain_route_takes_auctions {JD : Json dutyEnvelope} {J : Json TxEnvelope} (s : Service) (tx : AuctionBidTx) :
  json_stable (TxFromInternal (Auction tx)).1 → ab_Validate tx = nil_err →
  (length (marshal (TxFromInternal (Auction tx)).1) ≤ max_body)%nat →
  rp_Code (handleTxPlain s (mkRequest "POST" "/v1/tx/plain"
    (Some (marshal (TxFromInternal (Auction tx)).1, false)) "" 0 0)).1 = 202%Z.
Proof.
  intros Hs Hv Hl. unfold handleTxPlain, read_body. cbn [rq_Method rq_Body orb].
  rewrite bool_decide_true by done. cbn [negb].
  destruct (Nat.ltb_spec max_body (length (marshal (TxFromInternal (Auction tx)).1))); [lia|].
  rewrite (ParseTx_marshal _ Hs). simpl. by rewrite Hv.
Qed.
