(* ===== verification/Transport.v ===== *)
(** The gossip transport (src/internal/p2p/factory_p2p.go, transport.go,
    wire/beast_share.go): topics, broadcasts and the receive loops, as a client of
    libp2p and gossipsub, which are parameters; and the transport that does nothing. *)
From S2P Require Import Prelude GoStrings Metrics Codec Sha256 QbftMessage NoncePool Payload CryptoOps Feldman Runner Api.

(** ** Topics and messages *)
Definition TopicQBFT : string := "aequa/qbft/v1".
Definition TopicTx : string := "aequa/tx/v1".
Definition TopicTxPrivate : string := "aequa/tx/private/v1".
Definition TopicBeastShare : string := "aequa/beast/share/v1".
Definition TopicTSSDKG : string := "aequa/tss/dkg/v1".

Record BeastShare := mkBeastShare { sh_Height : N; sh_Index : Z; sh_Share : bytes }.

(** What a handler registered with the transport is called with. *)
Inductive Delivery :=
  | DQBFT (m : Message)
  | DTx (p : Payload)
  | DShare (s : BeastShare)
  | DDKG (m : TSSDKG).

(** [TPublish] is a call of [Topic.Publish] and its error; [THandle] a call of a handler. *)
Inductive TEffect :=
  | TPublish (topic : string) (data : bytes) (err : goerr)
  | TMetric (e : MEvent)
  | THandle (d : Delivery).

(** The broadcasts of the interfaces Transport, BeastShareTransport and
    TSSDKGTransport. *)
Class Transport (T : Type) := {
  BroadcastQBFT : T → Message → goerr * list TEffect;
  BroadcastTx : T → Payload → goerr * list TEffect;
  BroadcastBeastShare : T → BeastShare → goerr * list TEffect;
  BroadcastTSSDKG : T → TSSDKG → goerr * list TEffect;
}.

(** [NoopTransport] keeps its handlers and does nothing else. *)
Inductive NoopTransport := noop_transport.
#[export] Instance noop : Transport NoopTransport := {|
  BroadcastQBFT _ _ := (nil_err, []);
  BroadcastTx _ _ := (nil_err, []);
  BroadcastBeastShare _ _ := (nil_err, []);
  BroadcastTSSDKG _ _ := (nil_err, []);
|}.

(** ** The libp2p transport *)
Record NetConfig := mkNetConfig {
  nc_Enable : bool;
  nc_Listen : list string;
  nc_Bootnodes : list string;
  nc_NAT : bool;
  nc_EnableBeast : bool;
  nc_EnableTSSDKG : bool;
}.

(** The topics joined, the topics subscribed to, the receive loops that run,
    and the handlers that are set. *)
Record Libp2pTransport := mkLibp2p {
  lt_cfg : NetConfig;
  lt_host : bool;                  (* host != nil *)
  lt_joined : list string;
  lt_subs : list string;
  lt_loops : list string;
  lt_onQBFT : bool;
  lt_onTx : bool;
  lt_onShare : bool;
  lt_onDKG : bool;
}.

Definition BuildTransport (cfg : NetConfig) : Libp2pTransport := mkLibp2p cfg false [] [] [] false false false false.

Definition add_topic (t : Libp2pTransport) (topic : string) : Libp2pTransport :=
  mkLibp2p (lt_cfg t) (lt_host t) (topic :: lt_joined t) (lt_subs t) (lt_loops t)
    (lt_onQBFT t) (lt_onTx t) (lt_onShare t) (lt_onDKG t).
Definition add_sub (t : Libp2pTransport) (topic : string) : Libp2pTransport :=
  mkLibp2p (lt_cfg t) (lt_host t) (lt_joined t) (topic :: lt_subs t) (lt_loops t)
    (lt_onQBFT t) (lt_onTx t) (lt_onShare t) (lt_onDKG t).
Definition set_host (t : Libp2pTransport) : Libp2pTransport :=
  mkLibp2p (lt_cfg t) true (lt_joined t) (lt_subs t) (lt_loops t) (lt_onQBFT t) (lt_onTx t) (lt_onShare t) (lt_onDKG t).
Definition set_loops (t : Libp2pTransport) (loops : list string) : Libp2pTransport :=
  mkLibp2p (lt_cfg t) (lt_host t) (lt_joined t) (lt_subs t) loops (lt_onQBFT t) (lt_onTx t) (lt_onShare t) (lt_onDKG t).

(** [OnQBFT], [OnTx], [OnBeastShare] and [OnTSSDKG], with a handler that is not nil. *)
Definition OnQBFT (t : Libp2pTransport) : Libp2pTransport :=
  mkLibp2p (lt_cfg t) (lt_host t) (lt_joined t) (lt_subs t) (lt_loops t) true (lt_onTx t) (lt_onShare t) (lt_onDKG t).
Definition OnTx (t : Libp2pTransport) : Libp2pTransport :=
  mkLibp2p (lt_cfg t) (lt_host t) (lt_joined t) (lt_subs t) (lt_loops t) (lt_onQBFT t) true (lt_onShare t) (lt_onDKG t).
Definition OnBeastShare (t : Libp2pTransport) : Libp2pTransport :=
  mkLibp2p (lt_cfg t) (lt_host t) (lt_joined t) (lt_subs t) (lt_loops t) (lt_onQBFT t) (lt_onTx t) true (lt_onDKG t).
Definition OnTSSDKG (t : Libp2pTransport) : Libp2pTransport :=
  mkLibp2p (lt_cfg t) (lt_host t) (lt_joined t) (lt_subs t) (lt_loops t) (lt_onQBFT t) (lt_onTx t) (lt_onShare t) true.

(** What libp2p and gossipsub answer during [Start]. *)
Record NetEnv := mkNetEnv {
  se_addr : string → bool;
  se_host : goerr;
  se_pubsub : goerr;
  se_join : string → goerr;
  se_subscribe : string → goerr;
}.

(** [if err != nil { return err }], in state [t]. *)
Notation "'TRY' e 'IN' t ;; k" := (match e with Some x => (t, Some x) | None => k end)
  (at level 10, e at level 99, t at level 99, k at level 200) : go_scope.

(** [if topic, err = ps.Join(..); err == nil { sub, _ = topic.Subscribe() }]. *)
Definition join_optional (env : NetEnv) (topic : string) (t : Libp2pTransport) : Libp2pTransport :=
  match se_join env topic with
  | Some _ => t
  | None => let t := add_topic t topic in
            match se_subscribe env topic with Some _ => t | None => add_sub t topic end
  end.

Definition lt_Start (env : NetEnv) (t : Libp2pTransport) : Libp2pTransport * goerr :=
  let cfg := lt_cfg t in
  RETURN (t, nil_err) IF negb (nc_Enable cfg) ;;
  RETURN (t, Some "invalid multiaddr")
    IF existsb (λ s, negb (is_blank s) && negb (se_addr env s)) (nc_Listen cfg) ;;
  TRY se_host env IN t ;;
  let t := set_host t in
  TRY se_pubsub env IN t ;;
  TRY se_join env TopicQBFT IN t ;;
  let t := add_topic t TopicQBFT in
  TRY se_join env TopicTx IN t ;;
  let t := add_topic t TopicTx in
  TRY se_subscribe env TopicQBFT IN t ;;
  let t := add_sub t TopicQBFT in
  TRY se_subscribe env TopicTx IN t ;;
  let t := add_sub t TopicTx in
  let t := if nc_EnableBeast cfg
           then join_optional env TopicBeastShare (join_optional env TopicTxPrivate t) else t in
  let t := if nc_EnableTSSDKG cfg then join_optional env TopicTSSDKG t else t in
  (set_loops t (lt_loops t ++ [TopicQBFT; TopicTx] ++
     (if nc_EnableBeast cfg && ⌜? TopicTxPrivate ∈ lt_subs t ⌝ then [TopicTxPrivate] else []) ++
     (if nc_EnableBeast cfg && ⌜? TopicBeastShare ∈ lt_subs t ⌝ then [TopicBeastShare] else []) ++
     (if nc_EnableTSSDKG cfg && ⌜? TopicTSSDKG ∈ lt_subs t ⌝ then [TopicTSSDKG] else [])), nil_err).

(** [Stop]: the receive loops end, as their subscriptions are cancelled, and the
    host is closed, with the error given. The topics stay set. *)
Definition lt_Stop (host_close : goerr) (t : Libp2pTransport) : Libp2pTransport * goerr :=
  (set_loops t [], if lt_host t then host_close else nil_err).

(** The bootnodes that [Start] dials. *)
Definition dialed (cfg : NetConfig) : list string :=
  List.filter (λ b, negb (is_blank b)) (nc_Bootnodes cfg).

(** ** Broadcasts and receive loops *)
Definition msgs_total (topic direction result : string) : TEffect :=
  TMetric (Inc "p2p_msgs_total" [("topic", topic); ("direction", direction); ("result", result)]).
Definition bytes_total (topic direction : string) : TEffect :=
  TMetric (Inc "p2p_bytes_total" [("topic", topic); ("direction", direction)]).

(** The body the broadcasts share; [pub] is the error of [Publish]. *)
Definition broadcast (pub : string → goerr) (t : Libp2pTransport) (need topic : string) (data : bytes)
    : goerr * list TEffect :=
  RETURN (Some "p2p not started", []) IF negb ⌜? need ∈ lt_joined t ⌝ ;;
  match pub topic with
  | Some e => (Some e, [TPublish topic data (Some e); msgs_total topic "tx" "error"])
  | None => (nil_err, [TPublish topic data nil_err; msgs_total topic "tx" "ok"; bytes_total topic "tx"])
  end.

Section loops.
Context {JQ : Json Wire.QBFT} {JT : Json TxEnvelope} {JS : Json BeastShare} {JD : Json TSSDKG}.
Context (pub : string → goerr).

(** The topic a payload goes out on. *)
Definition tx_topic (t : Libp2pTransport) (p : Payload) : string :=
  if ⌜? Type_of p = TypePrivateV1 ⌝ && ⌜? TopicTxPrivate ∈ lt_joined t ⌝ then TopicTxPrivate else TopicTx.

#[export] Instance libp2p : Transport Libp2pTransport := {|
  BroadcastQBFT t m := broadcast pub t TopicQBFT TopicQBFT (marshal (Wire.FromInternal m));
  BroadcastTx t p :=
    let '(w, ok) := TxFromInternal p in
    RETURN (Some "p2p not started", []) IF negb ⌜? TopicTx ∈ lt_joined t ⌝ ;;
    RETURN (nil_err, []) IF negb ok ;;
    broadcast pub t TopicTx (tx_topic t p) (marshal w);
  BroadcastBeastShare t s := broadcast pub t TopicBeastShare TopicBeastShare (marshal s);
  BroadcastTSSDKG t m := broadcast pub t TopicTSSDKG TopicTSSDKG (marshal m);
|}.

(** One turn of a receive loop: decode, count, and call the handler. *)
Definition receive {W : Type} {J : Json W} (topic : string) (set : bool) (deliver : W → option Delivery)
    (data : bytes) : list TEffect :=
  match unmarshal (A := W) data with
  | None => [msgs_total topic "rx" "decode_error"]
  | Some w =>
      [msgs_total topic "rx" "ok"; bytes_total topic "rx"] ++
      (if set then match deliver w with Some d => [THandle d] | None => [] end else [])
  end.

Definition loopQBFT (t : Libp2pTransport) : bytes → list TEffect :=
  receive (W := Wire.QBFT) TopicQBFT (lt_onQBFT t) (λ w, Some (DQBFT (Wire.ToInternal w))).
Definition loopTx (t : Libp2pTransport) : bytes → list TEffect :=
  receive (W := TxEnvelope) TopicTx (lt_onTx t) (λ w, DTx <$> tx_ToInternal w).
Definition loopTxPriv (t : Libp2pTransport) : bytes → list TEffect :=
  receive (W := TxEnvelope) TopicTxPrivate (lt_onTx t) (λ w, DTx <$> tx_ToInternal w).
Definition loopBeastShare (t : Libp2pTransport) : bytes → list TEffect :=
  receive (W := BeastShare) TopicBeastShare (lt_onShare t) (λ w, Some (DShare w)).
Definition loopTSSDKG (t : Libp2pTransport) : bytes → list TEffect :=
  receive (W := TSSDKG) TopicTSSDKG (lt_onDKG t) (λ w, Some (DDKG w)).

(** What arrives on a topic goes to its loop, when that runs. *)
Definition arrive (t : Libp2pTransport) (topic : string) (data : bytes) : list TEffect :=
  RETURN [] IF negb ⌜? topic ∈ lt_loops t ⌝ ;;
  if ⌜? topic = TopicQBFT ⌝ then loopQBFT t data
  else if ⌜? topic = TopicTx ⌝ then loopTx t data
  else if ⌜? topic = TopicTxPrivate ⌝ then loopTxPriv t data
  else if ⌜? topic = TopicBeastShare ⌝ then loopBeastShare t data
  else if ⌜? topic = TopicTSSDKG ⌝ then loopTSSDKG t data
  else [].

(** A network that gossips every published message to the node once. *)
Definition gossip (t : Libp2pTransport) (ef : list TEffect) : list TEffect :=
  concat ((λ x, match x with TPublish topic data None => arrive t topic data | _ => [] end) <$> ef).

Definition handled (ef : list TEffect) : list Delivery :=
  omap (λ x, match x with THandle d => Some d | _ => None end) ef.
End loops.

(** ** Started nodes *)

(** A started node in the gossip network: its transport after [Start] without
    errors, with the handlers that are set by then. *)
Definition with_handlers (t : Libp2pTransport) (q x s d : bool) : Libp2pTransport :=
  mkLibp2p (lt_cfg t) (lt_host t) (lt_joined t) (lt_subs t) (lt_loops t) q x s d.

Definition no_errors (env : NetEnv) (cfg : NetConfig) : Prop :=
  se_host env = nil_err ∧ se_pubsub env = nil_err ∧
  (∀ topic, se_join env topic = nil_err ∧ se_subscribe env topic = nil_err) ∧
  (∀ a, a ∈ nc_Listen cfg → is_blank a = false → se_addr env a = true).

Definition started (cfg : NetConfig) (t : Libp2pTransport) : Prop :=
  nc_Enable cfg = true ∧ ∃ env, no_errors env cfg ∧
    t = with_handlers (lt_Start env (BuildTransport cfg)).1 (lt_onQBFT t) (lt_onTx t) (lt_onShare t) (lt_onDKG t).

(** The topics of a configuration. *)
Definition topics (cfg : NetConfig) : list string :=
  [TopicQBFT; TopicTx] ++ (if nc_EnableBeast cfg then [TopicTxPrivate; TopicBeastShare] else []) ++
  (if nc_EnableTSSDKG cfg then [TopicTSSDKG] else []).

Lemma started_topics cfg t topic :
  started cfg t → (topic ∈ lt_joined t ↔ topic ∈ topics cfg) ∧ (topic ∈ lt_loops t ↔ topic ∈ topics cfg).
Proof.
  intros (He & env & (H1 & H2 & H3 & H4) & ->).
  pose proof (λ x, proj1 (H3 x)) as Hj. pose proof (λ x, proj2 (H3 x)) as Hs.
  assert (existsb (λ s, negb (is_blank s) && negb (se_addr env s)) (nc_Listen cfg) = false) as Ha.
  { apply not_true_iff_false. rewrite existsb_exists. intros (a & Hin%list_elem_of_In & Hb).
    apply andb_true_iff in Hb as [Hb%negb_true_iff Hc%negb_true_iff]. rewrite H4 in Hc by done. done. }
  unfold lt_Start, join_optional, topics. simpl. rewrite He, Ha, H1, H2, !Hj, !Hs. simpl.
  destruct (nc_EnableBeast cfg), (nc_EnableTSSDKG cfg); simpl; rewrite ?Hj, ?Hs; simpl; rewrite ?Hj, ?Hs; simpl;
    rewrite !elem_of_cons, elem_of_nil; tauto.
Qed.

Section gossip.
Context {JQ : Json Wire.QBFT} {JT : Json TxEnvelope} {JS : Json BeastShare} {JD : Json TSSDKG}.
Context (pub : string → goerr) (Hpub : ∀ topic, pub topic = nil_err).

Lemma gossip_broadcast t b need topic data :
  need ∈ lt_joined t → handled (gossip b (broadcast pub t need topic data).2) = handled (arrive b topic data).
Proof.
  intros H. unfold broadcast, gossip. rewrite bool_decide_true, Hpub by done. simpl. by rewrite app_nil_r.
Qed.

Lemma handled_receive {W} {J : Json W} topic set deliver (w : W) :
  json_stable w → handled (receive topic set deliver (marshal w)) = if set then option_list (deliver w) else [].
Proof.
  intros Hw. unfold receive. rewrite unmarshal_marshal by done. simpl.
  destruct set, (deliver w); done.
Qed.

Lemma handled_arrive b topic data :
  handled (arrive b topic data) =
  if ⌜? topic ∈ lt_loops b ⌝ then
    handled (if ⌜? topic = TopicQBFT ⌝ then loopQBFT b data
             else if ⌜? topic = TopicTx ⌝ then loopTx b data
             else if ⌜? topic = TopicTxPrivate ⌝ then loopTxPriv b data
             else if ⌜? topic = TopicBeastShare ⌝ then loopBeastShare b data
             else if ⌜? topic = TopicTSSDKG ⌝ then loopTSSDKG b data else [])
  else [].
Proof. unfold arrive. by case_bool_decide. Qed.

Lemma bool_decide_started cfg b topic :
  started cfg b → ⌜? topic ∈ lt_loops b ⌝ = ⌜? topic ∈ topics cfg ⌝.
Proof. intros H. apply bool_decide_ext. by apply started_topics. Qed.

(** The route of a transaction. *)
Lemma gossip_tx (ca cb : NetConfig) (a b : Libp2pTransport) (p : Payload) :
  started ca a → started cb b → json_stable (TxFromInternal p).1 →
  handled (gossip b (BroadcastTx (Transport := libp2p pub) a p).2) =
  if lt_onTx b && (negb (⌜? Type_of p = TypePrivateV1 ⌝ && nc_EnableBeast ca) || nc_EnableBeast cb)
  then [DTx p] else [].
Proof.
  intros Ha Hb Hp. assert (TopicTx ∈ lt_joined a) as Htx by (apply (started_topics ca); [done|unfold topics; set_solver]).
  simpl. pose proof (ToInternal_From p) as Hr. pose proof (proj1 (tx_form_ok p)) as Hok.
  destruct (TxFromInternal p) as [w ok]. simpl in *. subst ok.
  rewrite bool_decide_true by done. simpl. rewrite gossip_broadcast by done.
  rewrite handled_arrive, (bool_decide_started cb) by done. unfold tx_topic, loopTx, loopTxPriv.
  rewrite (bool_decide_ext (TopicTxPrivate ∈ lt_joined a) (TopicTxPrivate ∈ topics ca)) by (by apply started_topics).
  unfold topics. destruct (⌜? Type_of p = TypePrivateV1 ⌝), (nc_EnableBeast ca), (nc_EnableBeast cb),
    (nc_EnableTSSDKG ca), (nc_EnableTSSDKG cb), (lt_onTx b) eqn:Hx; simpl;
    rewrite ?handled_receive, ?Hr by done; by rewrite ?Hx.
Qed.

(** Gossip hands over exactly what was broadcast. Between two started
    nodes, when publishing succeeds, a consensus message, a transaction, a
    decryption share or a DKG message that one broadcasts reaches the handler
    of the other as the same value, once, if that handler is set and the other
    node has the feature enabled; in particular a private transaction from a node with
    BEAST enabled reaches exactly the nodes that enable it too, and one from a
    node without BEAST goes out on the public topic and reaches all. *)
Theorem gossip_delivers (ca cb : NetConfig) (a b : Libp2pTransport) :
  started ca a → started cb b →
  let to {T} (r : goerr * T) := r.2 in
  (∀ m, json_stable (Wire.FromInternal m) →
     handled (gossip b (to (BroadcastQBFT (Transport := libp2p pub) a m))) = if lt_onQBFT b then [DQBFT m] else []) ∧
  (∀ p, json_stable (TxFromInternal p).1 →
     handled (gossip b (to (BroadcastTx (Transport := libp2p pub) a p))) =
     if lt_onTx b && (negb (⌜? Type_of p = TypePrivateV1 ⌝ && nc_EnableBeast ca) || nc_EnableBeast cb)
     then [DTx p] else []) ∧
  (∀ s, json_stable s → nc_EnableBeast ca = true →
     handled (gossip b (to (BroadcastBeastShare (Transport := libp2p pub) a s))) =
     if lt_onShare b && nc_EnableBeast cb then [DShare s] else []) ∧
  (∀ m, json_stable m → nc_EnableTSSDKG ca = true →
     handled (gossip b (to (BroadcastTSSDKG (Transport := libp2p pub) a m))) =
     if lt_onDKG b && nc_EnableTSSDKG cb then [DDKG m] else []).
Proof.
  intros Ha Hb to. unfold to. clear to.
  assert (∀ topic, topic ∈ topics ca → topic ∈ lt_joined a) as Hj by (intros; by apply (started_topics ca)).
  split_and!.
  - intros m Hm. simpl. rewrite gossip_broadcast by (apply Hj; unfold topics; set_solver).
    rewrite handled_arrive, (bool_decide_started cb) by done. simpl. unfold loopQBFT.
    rewrite handled_receive by done. by rewrite Wire.ToInternal_FromInternal.
  - intros p Hp. by apply gossip_tx.
  - intros s Hs He. simpl. rewrite gossip_broadcast by (apply Hj; unfold topics; rewrite He; set_solver).
    rewrite handled_arrive, (bool_decide_started cb) by done. unfold topics, loopBeastShare.
    destruct (nc_EnableBeast cb), (nc_EnableTSSDKG cb); simpl; rewrite ?handled_receive by done; by destruct (lt_onShare b).
  - intros m Hm He. simpl. rewrite gossip_broadcast by (apply Hj; unfold topics; rewrite He; set_solver).
    rewrite handled_arrive, (bool_decide_started cb) by done. unfold topics, loopTSSDKG.
    destruct (nc_EnableBeast cb), (nc_EnableTSSDKG cb); simpl; rewrite ?handled_receive by done; by destruct (lt_onDKG b).
Qed.
End gossip.

(** The bytes counter counts messages: one per message, whatever its size. *)
Lemma bytes_total_counts_messages (pub : string → goerr) t need topic data :
  pub topic = nil_err → need ∈ lt_joined t →
  List.filter (λ x, match x with TMetric (Inc "p2p_bytes_total" _) => true | _ => false end)
    (broadcast pub t need topic data).2 = [bytes_total topic "tx"].
Proof. intros H Hn. unfold broadcast. by rewrite bool_decide_true, H. Qed.

(** ** Concrete inputs *)
#[export] Instance QBFT_eq_dec : EqDecision Wire.QBFT.
Proof. solve_decision. Defined.
#[export] Instance QBFT_countable : Countable Wire.QBFT.
Proof.
  refine (inj_countable'
    (λ w, (Wire.w_ID w, Wire.w_From w, Wire.w_Height w, Wire.w_Round w, Wire.w_Type w, Wire.w_Payload w,
           Wire.w_TraceID w, Wire.w_Sig w))
    (λ '(a, b, c, d, e, f, g, h), Wire.mkQBFT a b c d e f g h) _); by intros [].
Defined.
#[export] Instance TxEnvelope_countable : Countable TxEnvelope.
Proof.
  refine (inj_countable'
    (λ w, (te_Type w, te_From w, te_Nonce w, te_Gas w, te_Fee w, te_Bid w, te_FeeRecipient w,
           (te_Ciphertext w, te_EphemeralKey w, te_TargetHeight w, te_BatchIndex w, te_PuncturedKey w, te_Sig w)))
    (λ '(a, b, c, d, e, f, g, (h, i, j, k, l, m)), mkTxEnvelope a b c d e f g h i j k l m) _); by intros [].
Defined.
#[export] Instance BeastShare_eq_dec : EqDecision BeastShare.
Proof. solve_decision. Defined.
#[export] Instance BeastShare_countable : Countable BeastShare.
Proof.
  refine (inj_countable' (λ s, (sh_Height s, sh_Index s, sh_Share s)) (λ '(a, b, c), mkBeastShare a b c) _);
    by intros [].
Defined.
#[export] Instance TSSDKG_eq_dec : EqDecision TSSDKG.
Proof. solve_decision. Defined.
#[export] Instance TSSDKG_countable : Countable TSSDKG.
Proof.
  refine (inj_countable'
    (λ m, (dk_SessionID m, dk_Epoch m, dk_Type m, dk_FromIndex m, dk_ToIndex m,
           (dk_Commitments m, dk_Nonce m, dk_Ciphertext m, dk_Share m, dk_Sig m)))
    (λ '(a, b, c, d, e, (f, g, h, i, j)), mkTSSDKG a b c d e f g h i j) _); by intros [].
Defined.

Definition quiet_env : NetEnv := mkNetEnv (λ _, true) None None (λ _, None) (λ _, None).
Definition beast_cfg : NetConfig := mkNetConfig true ["/ip4/0.0.0.0/tcp/31000"] [] false true false.
Definition plain_cfg : NetConfig := mkNetConfig true [] [] false false false.
Definition node_of (cfg : NetConfig) : Libp2pTransport :=
  with_handlers (lt_Start quiet_env (BuildTransport cfg)).1 true true true true.

Lemma node_started cfg : nc_Enable cfg = true → started cfg (node_of cfg).
Proof. intros He. split; [done|]. exists quiet_env. by split. Qed.

Definition sample_private : Payload := Private (mkPrivateTx "alice" 1 [Byte.x01] [Byte.x02] 9 0 []).

(** A private transaction from a BEAST node reaches a BEAST node and not a plain one. *)
Lemma gossip_delivers_witness :
  let JQ := countable_json Wire.QBFT in let JT := countable_json TxEnvelope in
  let JS := countable_json BeastShare in let JD := countable_json TSSDKG in
  let sent := (BroadcastTx (Transport := libp2p (JQ := JQ) (JT := JT) (JS := JS) (JD := JD) (λ _, None))
                 (node_of beast_cfg) sample_private).2 in
  let at_ cfg := handled (gossip (JQ := JQ) (JT := JT) (JS := JS) (JD := JD) (node_of cfg) sent) in
  at_ beast_cfg = [DTx sample_private] ∧ at_ plain_cfg = [].
Proof.
  intros JQ JT JS JD sent at_. split.
  - destruct (gossip_delivers (JQ := JQ) (JT := JT) (JS := JS) (JD := JD) (λ _, None) (λ _, eq_refl)
      beast_cfg beast_cfg _ _ (node_started beast_cfg eq_refl) (node_started beast_cfg eq_refl)) as (_ & H & _).
    exact (eq_trans (H sample_private I) eq_refl).
  - destruct (gossip_delivers (JQ := JQ) (JT := JT) (JS := JS) (JD := JD) (λ _, None) (λ _, eq_refl)
      beast_cfg plain_cfg _ _ (node_started beast_cfg eq_refl) (node_started plain_cfg eq_refl)) as (_ & H & _).
    exact (eq_trans (H sample_private I) eq_refl).
Defined.
