(* ===== verification/Client.v ===== *)
(** The command line tools of the private mempool (src/cmd/beast-keygen and
    src/cmd/beast-encrypt): the committee keys a dealer writes, and the two ways
    a client encrypts a transaction. JSON and randomness are arguments; printing
    and exit codes are errors. The interface at the end is what the batched mode
    promises to the node that opens such a transaction. *)
From Stdlib Require Import String List ZArith NArith Bool Lia.
From S2P Require Import CryptoOps Beast.
Import ListNotations.
Local Open Scope res_scope.
Local Open Scope string_scope.
Local Open Scope list_scope.

Record publicConfig := mkPublic { pc_GroupPubKey : bytes; pc_Threshold : Z; pc_N : Z }.

Record nodeConfig := mkNodeConfig {
  kc_Mode : string;
  kc_GroupPubKey : bytes;
  kc_Threshold : Z;
  kc_Index : Z;
  kc_Share : bytes;
  kc_BatchN : Z;
}.

Record innerEnvelope := mkInner {
  in_Type : string;
  in_From : string;
  in_Nonce : N;
  in_Gas : N;
  in_Fee : N;
  in_Bid : N;
  in_FeeRecipient : string;
}.

Record outerEnvelope := mkOuter {
  oe_Type : string;
  oe_From : string;
  oe_Nonce : N;
  oe_Ciphertext : bytes;
  oe_EphemeralKey : bytes;
  oe_TargetHeight : N;
  oe_BatchIndex : N;
  oe_PuncturedKey : bytes;
}.

Section client.
Context {B : Blst} {G : AESGCM} (sha256 : bytes -> bytes).

(** ** beast-keygen *)
Definition kg_randScalar (ikm : bytes) : res Scalar := must "bad randomness" (sk_KeyGen ikm).

Definition horner_step (xs acc c : Scalar) : res Scalar :=
  LET m <- checked "mul failed" (sk_mul acc xs) IN checked "add failed" (sk_add m c).

(** [evalPoly]: from the last coefficient down. *)
Definition evalPoly (coeffs : list Scalar) (x : Z) : res Scalar :=
  match rev coeffs with
  | [] => inl "empty polynomial"
  | c :: cs => fold_res (horner_step (scalarFromInt x)) cs c
  end.

(** The mode of every node file. *)
Definition mode_threshold : string := "threshold".

Definition node_config (t n : Z) (gpk : bytes) (coeffs : list Scalar) (i : nat) : res nodeConfig :=
  LET share <- evalPoly coeffs (Z.of_nat i) IN
  inr (mkNodeConfig mode_threshold gpk t (Z.of_nat i) (sk_Serialize share) n).

(** The public file and the file of each node. *)
Definition keygen (n t : Z) (ikm : nat -> bytes) : res (publicConfig * list nodeConfig) :=
  FAIL "invalid n/t" WHEN ((n <=? 0) || (t <=? 0) || (n <? t))%Z ELSE
  LET coeffs <- map_res (fun j => kg_randScalar (ikm j)) (seq 0 (Z.to_nat t)) IN
  match coeffs with
  | [] => inl "empty polynomial"
  | msk :: _ =>
      let gpk := p1_compress (p1_mult p1_gen msk) in
      LET nodes <- map_res (node_config t n gpk coeffs) (seq 1 (Z.to_nat n)) IN
      inr (mkPublic gpk t n, nodes)
  end.

(** ** beast-encrypt *)

(** [loadPublic], after the file was read and decoded. *)
Definition loadPublic (decoded : option publicConfig) : res publicConfig :=
  LET cfg <- must "invalid json" decoded IN
  FAIL "missing group_pubkey" WHEN (length (pc_GroupPubKey cfg) =? 0)%nat ELSE
  FAIL "invalid group_pubkey length" WHEN negb (length (pc_GroupPubKey cfg) =? 48)%nat ELSE
  inr cfg.

(** What the two modes read of [rand.Reader]. *)
Record ClientRand := mkClientRand { cr_ikm : bytes; cr_nonce : bytes; cr_key : bytes; cr_bte : bytes }.

(** The type of every encrypted transaction. *)
Definition mode_private : string := "private_v1".

Definition encrypt_ibe (pub : publicConfig) (target : N) (inner : innerEnvelope) (pt : bytes) (rnd : ClientRand)
    : res outerEnvelope :=
  LET ec <- ibe_Encrypt sha256 (pc_GroupPubKey pub) (IdentityForHeight target) pt (cr_ikm rnd) (cr_nonce rnd) IN
  inr (mkOuter mode_private (in_From inner) (in_Nonce inner) (snd ec) (fst ec) target 0 []).

(** [int(inner.Nonce%uint64(pub.N)) + 1]. *)
Definition batch_index (n : Z) (nonce : N) : Z := (Z.of_N (nonce mod Z.to_N n) + 1)%Z.

Definition encrypt_batched (pub : publicConfig) (target : N) (inner : innerEnvelope) (pt : bytes) (rnd : ClientRand)
    : res outerEnvelope :=
  FAIL "batched mode requires n>0 in beast-public.json" WHEN (pc_N pub <=? 0)%Z ELSE
  LET pp <- SetupLinearDeterministic sha256 (pc_N pub) (pc_GroupPubKey pub) IN
  LET key <- pprf_KeyGen (cr_key rnd) IN
  let idx := batch_index (pc_N pub) (in_Nonce inner) in
  LET prf <- Eval pp key idx IN
  let beta := RecoverXOR sha256 pt prf in
  LET ct <- EncryptKey (pc_GroupPubKey pub) key (cr_bte rnd) IN
  LET kStar <- Puncture pp key idx IN
  inr (mkOuter mode_private (in_From inner) (in_Nonce inner) beta (C1 ct ++ C2 ct) target (Z.to_N idx) kStar).

Definition set_type (inner : innerEnvelope) (typ : string) : innerEnvelope :=
  mkInner typ (in_From inner) (in_Nonce inner) (in_Gas inner) (in_Fee inner) (in_Bid inner) (in_FeeRecipient inner).

(** [main] of beast-encrypt, from the decoded inputs to what it prints. *)
Definition beast_encrypt (marshal : innerEnvelope -> bytes) (mode : string) (target : N)
    (public : option publicConfig) (input : option innerEnvelope) (rnd : ClientRand) : res outerEnvelope :=
  FAIL "missing --conf or --target-height" WHEN (target =? 0)%N ELSE
  LET pub <- loadPublic public IN
  LET inner <- must "invalid inner json" input IN
  FAIL "inner.from required" WHEN (in_From inner =? "")%string ELSE
  let inner := if (in_Type inner =? "")%string then set_type inner "plaintext_v1" else inner in
  let pt := marshal inner in
  if (mode =? "ibe")%string then encrypt_ibe pub target inner pt rnd
  else if (mode =? "batched")%string then encrypt_batched pub target inner pt rnd
  else inl "unsupported mode".

(** ** What batched mode promises to the node that opens

    The holder of the only share, [share] at [index], gets back from what a client sent
    each value that decryptBatched asks for, and in the end the plaintext. *)
Class BatchedOpening (pub : publicConfig) (index : Z) (share : bytes) : Prop := {
  bo_open target inner pt rnd o :
    encrypt_batched pub target inner pt rnd = inr o ->
    (1 <= Z.of_N (oe_BatchIndex o) <= pc_N pub)%Z /\
    length (oe_EphemeralKey o) = 96 /\ length (oe_PuncturedKey o) = 48 /\
    length (oe_Ciphertext o) = length pt /\
    exists pp sh gk prf,
      let ct := mkKeyCiphertext (firstn 48 (oe_EphemeralKey o)) (skipn 48 (oe_EphemeralKey o)) in
      let idx := Z.of_N (oe_BatchIndex o) in
      SetupLinearDeterministic sha256 (pc_N pub) (pc_GroupPubKey pub) = inr pp /\
      PartialDecrypt ct share index = inr (mkPartial index sh) /\ length sh = 48 /\
      DecryptKeyG ct [mkPartial index sh] 1 = inr gk /\
      RecoverPRFAt pp gk idx [(idx, oe_PuncturedKey o)] = Returns (inr prf) /\
      RecoverXOR sha256 (oe_Ciphertext o) prf = pt;
}.

(** ** An eavesdropper

    The parameters of the puncturable PRF are derived from the public key, and so
    is their secret exponent; with it anyone computes the mask of a transaction
    from its punctured key. *)
Definition eavesdrop (pub : publicConfig) (o : outerEnvelope) : res bytes :=
  LET x <- must ErrInvalidKey (sk_KeyGen (sha256 (pc_GroupPubKey pub))) IN
  LET kStar <- must ErrInvalidKey (p1_uncompress (oe_PuncturedKey o)) IN
  let q := Nat.iter (S (Z.to_nat (pc_N pub))) (fun q => p2_mult q x) p2_gen in
  inr (RecoverXOR sha256 (oe_Ciphertext o) (gt_bytes (pairing [(q, kStar)]))).
End client.

Arguments bo_open {B sha256 pub index share _} target inner pt rnd o _.

(** ** Lemmas on the mask *)
Lemma lxor_small a b : (a < 256)%N -> (b < 256)%N -> (N.lxor a b mod 256 = N.lxor a b)%N.
Proof.
  intros Ha Hb. change 256%N with (2 ^ 8)%N in *. apply N.bits_inj. intros k.
  destruct (N.ltb_spec k 8) as [Hk|Hk]; [now rewrite N.mod_pow2_bits_low|].
  rewrite N.mod_pow2_bits_high, N.lxor_spec by exact Hk.
  rewrite <-(N.mod_small a (2 ^ 8)), <-(N.mod_small b (2 ^ 8)) by assumption.
  now rewrite !N.mod_pow2_bits_high.
Qed.

Lemma xor_byte_involutive a b : xor_byte (xor_byte a b) b = a.
Proof.
  unfold xor_byte. pose proof (Byte.to_N_bounded a). pose proof (Byte.to_N_bounded b).
  rewrite byte_of_N_value, lxor_small by lia.
  rewrite N.lxor_assoc, N.lxor_nilpotent, N.lxor_0_r.
  unfold byte_of_N. rewrite N.mod_small by lia. now rewrite Byte.of_to_N.
Qed.

Lemma length_RecoverXOR sha256 pt prf : length (RecoverXOR sha256 pt prf) = length pt.
Proof.
  destruct pt as [|b pt]; [reflexivity|]. unfold RecoverXOR.
  rewrite length_map, length_combine, length_seq. apply Nat.min_id.
Qed.

Definition mask (sum : bytes) (i : nat) (bs : bytes) : bytes :=
  map (fun '(i, b) => xor_byte b (nth (Nat.modulo i (length sum)) sum Byte.x00)) (combine (seq i (length bs)) bs).

Lemma mask_mask sum i bs : mask sum i (mask sum i bs) = bs.
Proof.
  unfold mask. revert i. induction bs as [|b bs IH]; intros i; [reflexivity|]. simpl.
  rewrite xor_byte_involutive. f_equal. apply IH.
Qed.

(** Masking twice gives back the plaintext. *)
Lemma RecoverXOR_involutive sha256 pt prf : RecoverXOR sha256 (RecoverXOR sha256 pt prf) prf = pt.
Proof.
  assert (forall bs, RecoverXOR sha256 bs prf = mask (sha256 prf) 0 bs) as H by (intros []; reflexivity).
  rewrite !H. apply mask_mask.
Qed.
