(* ===== verification/Node.v ===== *)
(** The node and its tools put together (src/cmd/dvt-node, src/cmd/beast-keygen,
    src/cmd/beast-encrypt): the callbacks that main.go installs between the API, the
    transport, the bus and the private mempool, the decrypter that is enabled
    after a DKG, and what a transaction goes through from a client to the
    committee. *)
From stdpp Require Import pretty.
From S2P Require Import CryptoOps Feldman Client.
From S2P Require Import Prelude Metrics Codec Files StateStore Sha256 QbftMessage QbftVerifier QbftState QbftWal.
From S2P Require Import NoncePool Payload Dfba Builder TssStores Runner Lifecycle Consensus Beast Private Api Transport.

(** ** The callbacks of main.go *)

(** [publish], given to the API. *)
Definition api_publish (ctx : option string) (b : bytes) : Event :=
  mkEvent KindDuty 0 0 OtherBody (FromContext ctx).1.

(** The callback of [SetTxPublisher]. *)
Definition tx_publish (ctx : option string) (p : Payload.Payload) : Event :=
  mkEvent KindTx 0 0 (PayloadBody p) (FromContext ctx).1.

(** The callbacks of [OnQBFT] and [OnTx]. *)
Definition on_qbft (m : Message) : Event := mkEvent KindConsensus (Height m) (Round m) (MessageBody m) (TraceID m).
Definition on_tx (p : Payload.Payload) : Event := mkEvent KindTx 0 0 (PayloadBody p) "".

(** The callback of [OnBeastShare]. *)
Definition on_share (t : Thresh) (s : BeastShare) : Thresh :=
  HandleThresholdShare t (Transport.sh_Height s) (Transport.sh_Index s) (Transport.sh_Share s).

(** The part of a node that messages come to. *)
Record Node := mkNode { nd_bus : Bus Event; nd_thresh : Thresh }.

(** What the transport hands over; the DKG runner has its own handler. *)
Definition ingest (n : Node) (d : Delivery) : Node :=
  match d with
  | DQBFT m => mkNode (Publish (nd_bus n) (on_qbft m)) (nd_thresh n)
  | DTx p => mkNode (Publish (nd_bus n) (on_tx p)) (nd_thresh n)
  | DShare s => mkNode (nd_bus n) (on_share (nd_thresh n) s)
  | DDKG _ => n
  end.

(** The events the effects of a request put on the bus, and what they broadcast. *)
Definition api_event (x : AEffect) : option Event :=
  match x with
  | APublish ctx b => Some (api_publish ctx b)
  | APublishTx ctx p => Some (tx_publish ctx p)
  | _ => None
  end.

Definition api_broadcasts (ef : list AEffect) : list Payload.Payload :=
  omap (λ x, match x with ABroadcastTx p => Some p | _ => None end) ef.

(** ** The decrypter after a DKG (beast_dkg_blst.go) *)
Definition dkg_conf (cfg : BeastDKGConfig) (res : BeastDKGResult) : Private.Config :=
  mkConfig "batched" (rs_GroupPubKey res) [] (bc_Threshold cfg) (bc_Index cfg) (rs_ShareScalar res) (bc_N cfg).

(** One tick of the loop that waits for the result: the state, and whether the
    decrypter was installed. *)
Definition dkg_poll (cfg : BeastDKGConfig) {B : CryptoOps.Blst} (r : BeastDKGRunner) (t : Thresh)
    : option (Thresh * goerr) :=
  if rn_done r then Some (EnableBLSTDecrypt (dkg_conf cfg (rn_result r)) t) else None.

(** ** A client's transaction on the wire

    The JSON that beast-encrypt prints has some of the fields of [TxEnvelope];
    the others are left at their zero values by the decoder. *)
Definition envelope_of (o : outerEnvelope) : TxEnvelope :=
  mkTxEnvelope (oe_Type o) (oe_From o) (oe_Nonce o) 0 0 0 "" (oe_Ciphertext o) (oe_EphemeralKey o)
    (oe_TargetHeight o) (oe_BatchIndex o) (oe_PuncturedKey o) [].

(** The file of a node as its configuration. *)
Definition conf_of (c : nodeConfig) : Private.Config :=
  mkConfig (kc_Mode c) (kc_GroupPubKey c) [] (kc_Threshold c) (kc_Index c) (kc_Share c) (kc_BatchN c).

Lemma tx_ok_unique {J : Json TxEnvelope} s r p p' : tx_ok s r p → tx_ok s r p' → p = p'.
Proof. intros [(b & e & H1 & H2 & H3) _] [(b' & e' & H1' & H2' & H3') _]. congruence. Qed.

(** The trace id survives the context, whatever it is. *)
Lemma FromContext_With tid : (FromContext (WithTraceID None tid)).1 = tid.
Proof. unfold WithTraceID, FromContext. case_bool_decide as Ht; [done|]. by rewrite bool_decide_true. Qed.

(** ** Duties *)

(** The consensus never learns the height of a duty. Whatever height, round
    and payload an admitted duty request carries, the event that main.go
    publishes for it becomes the same proposal for height zero, whose id is made
    of the trace id alone; so two duties with one trace id are one message. *)
Theorem duty_loses_its_height {JD : Json dutyEnvelope} {JT : Json TxEnvelope} (valid_url : string → bool)
    (upstream : Request → option Response) (s : Api.Service) (r : Request) (b : bytes) :
  rq_Path r = "/v1/duty" → sv_onPublish s = true → posted r = Some b → duty_ok b →
  MapEventToQBFT <$> omap api_event (serve valid_url upstream s r).2 =
    [mkMessage "consensus_stub" 0 0 MsgPreprepare [] ("ev-" +:+ traceID r +:+ "-0-0") (traceID r) []].
Proof.
  intros Hp Hs Hb Hok. unfold serve. rewrite Hp. simpl.
  destruct (handleDuty_cases s r) as [(b' & _ & _ & ->)|[H _]]; [|by destruct (H b Hb)]. rewrite Hs. simpl.
  unfold MapEventToQBFT, api_publish. simpl. unfold fallback_id. cbn [ev_TraceID ev_Height]. by rewrite FromContext_With.
Qed.

(** ** After a DKG *)

(** C22. A committee that ran the DKG decrypts nothing. The decrypter that main.go
    installs when the DKG has finished runs in batched mode under the threshold of the
    committee; if that is two or more, then whatever the result was and
    whatever shares and transactions arrive later, no private transaction is
    ever decrypted. *)
Theorem dkg_committee_never_decrypts {B : CryptoOps.Blst} {G : AESGCM} {J : Json jsonEnvelope}
    (cfg : BeastDKGConfig) (r : BeastDKGRunner) (t t' : Thresh) (err : goerr) (es : list TEvent)
    (hdr : BlockHeader) (tx : PrivateTx) :
  (1 < bc_Threshold cfg)%Z → batchSharesByHeight t = ∅ → dkg_poll cfg r t = Some (t', err) →
  let conf := dkg_conf cfg (rn_result r) in
  (blst_Decrypt conf (run (thresh_step conf) t' es).1 hdr (Private tx)).2.1 = None.
Proof.
  intros Hk Hb Hp conf. assert (batchSharesByHeight t' = ∅) as Hb'.
  { unfold dkg_poll in Hp. destruct (rn_done r); [|done]. injection Hp as Hp.
    unfold EnableBLSTDecrypt in Hp. by destruct (⌜? cf_GroupPubKey _ = [] ⌝); simplify_eq/=. }
  by apply batched_threshold_two_never_ready.
Qed.

(** ** Transactions between nodes *)
Section peers.
Context {MI : MapIter} {V P ST SE D : Type}.
Context {VI : VerifierI V} {PI : ProcessorI P} {SI : Store ST SE} {PD : PrivateDecrypter D}.
Context {WJ : Json walEntry} {BJ : Json StandardBlock}.
Context {JQ : Json Wire.QBFT} {JT : Json TxEnvelope} {JS : Json BeastShare} {JK : Json TSSDKG} {JD : Json dutyEnvelope}.

(** A transaction event, as the consensus service handles it. *)
Lemma handle_tx_event (e : TurnEnv) (sv : Consensus.Service (V := V) (P := P) (ST := ST) (D := D)) ev pool p :
  ev_Kind ev = KindTx → ev_Body ev = PayloadBody p → sv_pool sv = Some pool →
  ∃ ef, handle_event e sv ev = Some (set_pool sv (container_Add (te_early e) (te_now e) pool p).1.1, ef).
Proof.
  intros Hk Hb Hp. unfold handle_event. rewrite bool_decide_true, Hp, Hb by done.
  destruct (container_Add _ _ _ _) as [[pool' err] mev]. by eexists.
Qed.

End peers.

(** ** Concrete inputs *)
Definition duty_body : dutyEnvelope := mkDuty "attester" 41 3.
Definition duty_request : Request := mkRequest "POST" "/v1/duty" (Some ([Byte.x7d], false)) "trace-1" 0 1.
Definition tx_request : Request := mkRequest "POST" "/v1/tx/plain" (Some ([Byte.x7d], false)) "trace-2" 0 1.
Definition open_api : Api.Service := Api.mkService true "" true true true true.
Definition tx_wire : TxEnvelope := (TxFromInternal sample_private).1.

Lemma duty_loses_its_height_witness :
  let JD := one_json duty_body in let JT := one_json tx_wire in
  MapEventToQBFT <$> omap api_event (serve (λ _, true) (λ _, None) open_api duty_request).2 =
    [mkMessage "consensus_stub" 0 0 MsgPreprepare [] "ev-trace-1-0-0" "trace-1" []].
Proof.
  intros JD JT.
  apply (duty_loses_its_height (JD := JD) (JT := JT) (λ _, true) (λ _, None) open_api duty_request [Byte.x7d]).
  - reflexivity.
  - reflexivity.
  - reflexivity.
  - split; [unfold max_body; simpl length; lia|]. exists duty_body. split; [reflexivity|]. split; [left|].
    by vm_compute.
Defined.

(** A runner that has just finished. *)
Definition finished_runner : BeastDKGRunner :=
  set_final (wit_started wit_cfg) true false
    (Runner.mkResult 1 2 (replicate 48 Byte.x01) (replicate 32 Byte.x07)).

Lemma dkg_committee_never_decrypts_witness :
  let t' := (EnableBLSTDecrypt (dkg_conf wit_cfg (rn_result finished_runner)) Thresh_init).1 in
  let conf := dkg_conf wit_cfg (rn_result finished_runner) in
  (blst_Decrypt (B := toy_blst) (G := toy_gcm) (J := one_json sample_env) conf
     (run (thresh_step (B := toy_blst) (G := toy_gcm) (J := one_json sample_env) conf) t'
        [EvRemote 5 3 (unit_key [])]).1 (mkBlockHeader 8 0) (Private sample_tx)).2.1 = None.
Proof.
  apply (dkg_committee_never_decrypts (B := toy_blst) (G := toy_gcm) (J := one_json sample_env)
    wit_cfg finished_runner Thresh_init _
    (EnableBLSTDecrypt (dkg_conf wit_cfg (rn_result finished_runner)) Thresh_init).2).
  - reflexivity.
  - reflexivity.
  - reflexivity.
Defined.

