(* ===== verification/Committee.v ===== *)
(** A committee at work: a node that reads the file a dealer wrote, collects the
    shares that its peers gossip, and opens what clients encrypt, in threshold
    mode (over any scheme that implements ThresholdIBE) and in batched mode
    (over any that implements BatchedOpening). *)
From S2P Require Import CryptoOps Client Beast.
From S2P Require Import Prelude Metrics Codec Sha256 NoncePool Payload Dfba Builder Private Api Transport Node.

(** ** Threshold mode *)
Section threshold.
Context {B : Blst} {G : AESGCM} {J : Json jsonEnvelope}.
Context (gpk : bytes) (k : Z) (valid : Z → Prop) (share : Z → bytes) (hkey : bytes → bytes).
Context `{TI : !ThresholdIBE sha256 gpk k valid share hkey}.
Notation ready := (ready k valid share hkey).

(** The parameters of the node, which nothing but [enableThreshold] changes. *)
Definition same_params (t t' : Thresh) : Prop :=
  threshEnabled t' = threshEnabled t ∧ threshK t' = threshK t ∧ threshIndex t' = threshIndex t ∧
  threshShare t' = threshShare t.

(** What changes at the heights other than [h], and in the parameters: nothing. *)
Definition only_at (h : N) (t t' : Thresh) : Prop :=
  same_params t t' ∧
  ∀ h', h' ≠ h → snapshotShares t' h' = snapshotShares t h' ∧ getPrivKey t' h' = getPrivKey t h'.

Lemma ready_other h t t' h' : only_at h t t' → h' ≠ h → ready t h' → ready t' h'.
Proof.
  intros [(E1 & E2 & E3 & E4) Ho] Hne [R1 R2 R3 R4 R5 R6]. destruct (Ho h' Hne) as [Es Ek].
  split; rewrite ?E1, ?E2, ?E3, ?E4, ?Es, ?Ek; done.
Qed.

Lemma only_at_trans h t1 t2 t3 : only_at h t1 t2 → only_at h t2 t3 → only_at h t1 t3.
Proof.
  intros [(A1 & A2 & A3 & A4) A] [(B1 & B2 & B3 & B4) B']. split; [unfold same_params; split_and!; congruence|].
  intros h' Hne. destruct (A h' Hne) as [<- <-]. by apply B'.
Qed.

Lemma only_at_publish h t height i s : only_at h t (publish_once t height i s).
Proof.
  unfold publish_once. destruct (negb _); [by split|]. unfold markShareSent. case_bool_decide; by split.
Qed.

Lemma snapshot_other t h i s h' :
  h' ≠ h → snapshotShares (recordLocalShare t h i s) h' = snapshotShares t h'.
Proof. intros. unfold snapshotShares. simpl. by rewrite lookup_insert_ne. Qed.

Lemma only_at_record t h i s : only_at h t (recordLocalShare t h i s).
Proof. split; [done|]. intros h' Hne. split; [by apply snapshot_other|done]. Qed.

Lemma only_at_ensure t h : only_at h t (maybeEnsureShare t h).
Proof.
  assert (only_at h t t) as Hrefl by by split.
  unfold maybeEnsureShare. destruct (h =? 0)%N; [done|]. destruct (_ || _ || _); [done|].
  case_bool_decide; [apply only_at_publish|]. destruct (DeriveShare _ _); [done|].
  case_bool_decide; [done|]. eapply only_at_trans; [apply only_at_record|apply only_at_publish].
Qed.

Lemma only_at_key t h : only_at h t (thresholdPrivateKey t h).1.
Proof.
  assert (only_at h t t) as Hrefl by by split.
  unfold thresholdPrivateKey. destruct (h =? 0)%N; [done|]. case_bool_decide; [done|].
  destruct (negb _ || _); [done|]. destruct (_ <? _)%Z; [done|]. destruct (CombineShares _ _); [done|].
  case_bool_decide; [done|]. split; [done|]. intros h' Hne. split; [done|].
  unfold getPrivKey. simpl. by rewrite lookup_insert_ne.
Qed.

(** Readiness survives the operations at its own height. *)
Lemma ready_ensure t h : ready t h → ready (maybeEnsureShare t h) h.
Proof.
  intros Hr. destruct (decide (h = 0%N)) as [->|Hh]; [done|].
  destruct (ensure_ready gpk k valid share hkey t h Hh Hr) as (Hhon & _ & Hkey & He & Hk).
  destruct (only_at_ensure t h) as [(E1 & E2 & E3 & E4) _]. destruct Hr as [R1 R2 R3 R4 R5 R6].
  split; rewrite ?E3, ?E4, ?Hkey; done.
Qed.

Lemma ready_key t h : ready t h → ready (thresholdPrivateKey t h).1 h.
Proof.
  intros Hr. unfold thresholdPrivateKey. destruct (h =? 0)%N; [done|]. case_bool_decide; [done|].
  destruct (negb _ || _); [done|].
  destruct (Z.ltb_spec (Z.of_nat (size (snapshotShares t h))) (threshK t)) as [|Hs]; [done|].
  rewrite (rd_k _ _ _ _ _ _ Hr) in *.
  rewrite (honest_combine gpk k valid share hkey (snapshotShares t h) h) by (apply Hr || done).
  case_bool_decide; [done|]. destruct Hr as [R1 R2 R3 R4 R5 R6]. split; try done. right.
  unfold getPrivKey. simpl. by rewrite lookup_insert_eq.
Qed.

(** A share of the committee, as gossip carries it. *)
Definition honest_share (h : N) (i : Z) (s : bytes) : Prop :=
  (0 < i)%Z ∧ valid i ∧ length s = 96 ∧ DeriveShare (share i) (IdentityForHeight h) = inr s.

Lemma only_at_handle t h i s : only_at h t (HandleThresholdShare t h i s).
Proof.
  assert (only_at h t t) as Hrefl by by split.
  unfold HandleThresholdShare. destruct (_ || _ || _); [done|]. case_match; [done|].
  split; [done|]. intros h' Hne. split; [|done]. unfold snapshotShares. simpl. by rewrite lookup_insert_ne.
Qed.

(** A share that arrives is among those of its height, and honest. *)
Lemma handle_honest t h i s :
  h ≠ 0%N → honest_share h i s → ready t h →
  ready (HandleThresholdShare t h i s) h ∧
  dom (snapshotShares (HandleThresholdShare t h i s) h) = {[i]} ∪ dom (snapshotShares t h).
Proof.
  intros Hh (Hi & Hv & Hl & Hd) Hr. unfold HandleThresholdShare.
  rewrite (proj2 (N.eqb_neq _ _) Hh), (proj2 (Z.leb_gt _ _) Hi), bool_decide_false by lia. simpl.
  destruct (_ !! i) as [s'|] eqn:E.
  - split; [done|]. assert (i ∈ dom (snapshotShares t h)); [|set_solver]. apply elem_of_dom. by exists s'.
  - assert (snapshotShares (set_shares t (<[h:=<[i:=s]> (default ∅ (sharesByHeight t !! h))]> (sharesByHeight t))) h =
      <[i := s]> (snapshotShares t h)) as Es.
    { unfold snapshotShares. simpl. by rewrite lookup_insert_eq. }
    rewrite Es. split; [|apply dom_insert_L]. destruct Hr as [R1 R2 R3 R4 R5 R6]. split; try done.
    rewrite Es. intros j v. destruct (decide (j = i)) as [->|].
    + rewrite lookup_insert_eq. by intros [= <-].
    + rewrite lookup_insert_ne by done. apply R5.
Qed.

(** ** Runs with honest shares *)
Section runs.
Context (conf : Private.Config) (Hmode : cf_Mode conf = "threshold").

Definition honest_event (e : TEvent) : Prop :=
  match e with EvRemote h i s => h ≠ 0%N ∧ honest_share h i s | _ => True end.

(** The indices of the shares that arrived for a height. *)
Definition peers (h : N) (es : list TEvent) : gset Z :=
  list_to_set (omap (λ e, match e with EvRemote h' i _ => if decide (h' = h) then Some i else None | _ => None end) es).

Lemma step_grows t e :
  same_params t (thresh_step conf t e).1 ∧
  ∀ h, dom (snapshotShares t h) ⊆ dom (snapshotShares (thresh_step conf t e).1 h).
Proof.
  apply (change_preserves conf (λ t', same_params t t' ∧ ∀ h, dom (snapshotShares t h) ⊆ dom (snapshotShares t' h)) t);
    [apply change_step|..|by split].
  - intros t' h i s _ [Hp Hd]. split; [done|]. intros h'. etrans; [apply Hd|].
    destruct (decide (h' = h)) as [->|Hne]; [|by rewrite snapshot_other].
    unfold snapshotShares. simpl. rewrite lookup_insert_eq. simpl. rewrite dom_insert_L. set_solver.
  - intros t' h b s [Hp Hd]. unfold recordBatchedShare. destruct (_ || _ || _ || _); [done|].
    by destruct (_ !! cf_Index conf).
  - intros t' h i s Hs [Hp Hd]. unfold markShareSent. by case_bool_decide.
  - done.
  - done.
Qed.

Lemma step_ready t e : honest_event e → (∀ h, ready t h) → ∀ h, ready (thresh_step conf t e).1 h.
Proof.
  intros He Hr h. destruct e as [h0 i s|hdr p|h0|b]; cbn [thresh_step fst].
  - destruct He as [H0 Hs]. destruct (decide (h = h0)) as [->|Hne]; [by apply handle_honest|].
    eapply ready_other; [apply only_at_handle|done|done].
  - assert (ready (blst_Decrypt conf t hdr p).1 h) as H; [|by destruct (blst_Decrypt conf t hdr p)].
    unfold blst_Decrypt, with_due. destruct p as [|tx|tx]; [done..|].
    destruct (_ =? 0)%N; [done|]. destruct (_ <? _)%N; [done|]. rewrite bool_decide_true by done.
    unfold decryptThresholdIBE. destruct (_ || _); [done|].
    assert (ready (thresholdPrivateKey (maybeEnsureShare t (pv_TargetHeight tx)) (pv_TargetHeight tx)).1 h) as H.
    { destruct (decide (h = pv_TargetHeight tx)) as [->|Hne]; [by apply ready_key, ready_ensure|].
      eapply ready_other; [|done|apply Hr]. eapply only_at_trans; [apply only_at_ensure|apply only_at_key]. }
    destruct (thresholdPrivateKey _ _) as [t2 [pk|]]; [|done]. by destruct (ibe_Decrypt _ _ _ _).
  - destruct (decide (h = h0)) as [->|Hne]; [by apply ready_ensure|].
    eapply ready_other; [apply only_at_ensure|done|done].
  - destruct (Hr h) as [R1 R2 R3 R4 R5 R6]. by split.
Qed.

Lemma run_ready es t :
  Forall honest_event es → (∀ h, ready t h) →
  let t' := (run (thresh_step conf) t es).1 in
  (∀ h, ready t' h) ∧ threshIndex t' = threshIndex t ∧
  ∀ h, dom (snapshotShares t h) ∪ peers h es ⊆ dom (snapshotShares t' h).
Proof.
  revert t. induction es as [|e es IH]; intros t Hes Hr; [split_and!; [done|done|set_solver]|].
  apply Forall_cons in Hes as [He Hes]. cbn [run]. pose proof (step_ready t e He Hr) as Hr1.
  destruct (step_grows t e) as [(_ & _ & Hi & _) Hg].
  assert (∀ h, dom (snapshotShares t h) ∪ peers h [e] ⊆ dom (snapshotShares (thresh_step conf t e).1 h)) as Hd.
  { intros h. apply union_least; [apply Hg|]. unfold peers.
    destruct e as [h0 i s| | |]; [|apply empty_subseteq..]. cbn [omap list_omap].
    case_decide as Hh; [|apply empty_subseteq]. subst h0. destruct He as [H0 Hs]. cbn [thresh_step fst].
    destruct (handle_honest t h i s H0 Hs (Hr h)) as [_ ->]. simpl. clear. set_solver. }
  destruct (thresh_step conf t e) as [t1 o]. cbn [fst] in *. destruct (IH t1 Hes Hr1) as (IH1 & IH2 & IH3).
  destruct (run (thresh_step conf) t1 es) as [t2 os]. cbn [fst] in *. split_and!; [done|congruence|].
  intros h. specialize (Hd h). specialize (IH3 h).
  assert (peers h (e :: es) = peers h [e] ∪ peers h es) as ->; [|clear -Hd IH3; set_solver].
  clear. unfold peers. destruct e as [h0 i s| | |]; simpl; [|set_solver..]. case_decide; simpl; set_solver.
Qed.

(** C8. A threshold committee opens what clients encrypt. A node starts from
    the dealer's file, and then its peers' shares, decryptions and early
    shares come in any order. Once the peers whose shares arrived for a height,
    with the node itself, reach the threshold, a transaction that
    beast-encrypt made for that height, parsed from the wire form, is decrypted to exactly
    the client's payload at that height and every later one. *)
Theorem threshold_committee_opens {JC : Json Private.Config} (readf : string → option bytes) (path : string)
    (es : list TEvent) (pub : publicConfig) (marshal_inner : innerEnvelope → bytes) (inner : innerEnvelope)
    (rnd : ClientRand) (target : N) (o : outerEnvelope) (hdr : BlockHeader) (p pl : Payload) :
  LoadConfig readf path = inr conf → cf_GroupPubKey conf = gpk → cf_Threshold conf = k →
  valid (cf_Index conf) → cf_Share conf = share (cf_Index conf) →
  Forall honest_event es →
  (k <= Z.of_nat (size ({[cf_Index conf]} ∪ peers target es)))%Z →
  loadPublic (Some pub) = inr pub → pc_GroupPubKey pub = gpk → length (cr_nonce rnd) = 12 →
  beast_encrypt sha256 marshal_inner "ibe" target (Some pub) (Some inner) rnd = inr o →
  decodeEnvelopeBytes (marshal_inner (if (in_Type inner =? "")%string then set_type inner "plaintext_v1" else inner))
    = Some pl →
  tx_ToInternal (envelope_of o) = Some p → (target <= bh_Height hdr)%N →
  let t0 := (EnableBLSTDecrypt conf Thresh_init).1 in
  (blst_Decrypt conf (run (thresh_step conf) t0 es).1 hdr p).2 = (Some pl, None).
Proof.
  intros Hload Hg Hk Hv Hs Hes Hsize Hpub Hgp Hn Henc Hpl Hp Hh t0.
  destruct (LoadConfig_enables _ _ _ Thresh_init Hload) as (Hen & Hlen & Hmodes).
  destruct (Hmodes (or_introl Hmode)) as [Hls Hi].
  assert (t0 = enableThreshold Thresh_init (cf_Index conf) k (share (cf_Index conf))) as E0.
  { unfold t0. revert Hen. unfold EnableBLSTDecrypt.
    rewrite bool_decide_false by (intros E; by rewrite E in Hlen). rewrite bool_decide_true by done.
    destruct (_ || _ || _); [done|]. intros _. simpl. by rewrite Hk, Hs. }
  assert (∀ h, ready t0 h) as Hr0.
  { intros h. rewrite E0. split; try done; [|by left].
    split; [done|]. simpl. intros E. by rewrite Hs, E in Hls. }
  destruct (run_ready es t0 Hes Hr0) as (Hr & Hidx & Hdom).
  set (t := (run (thresh_step conf) t0 es).1) in *. rewrite E0 in Hidx. simpl in Hidx.
  unfold beast_encrypt in Henc. destruct (target =? 0)%N eqn:Et; [done|]. apply N.eqb_neq in Et.
  rewrite Hpub in Henc. cbn [bind must] in Henc. destruct (in_From inner =? "")%string; [done|].
  set (typed := if (in_Type inner =? "")%string then _ else _) in *. simpl in Henc.
  unfold encrypt_ibe in Henc. destruct (ibe_Encrypt _ _ _ _ _ _) as [|[u ct]] eqn:Ei; simpl in Henc; [done|].
  injection Henc as <-. simpl in Hp. injection Hp as <-. rewrite Hgp in Ei.
  apply (threshold_opens gpk k valid share hkey conf t hdr _ (marshal_inner typed) pl (cr_ikm rnd) (cr_nonce rnd));
    simpl; try done.
  rewrite Hidx. etrans; [exact Hsize|]. apply inj_le, subseteq_size. specialize (Hdom target). set_solver.
Qed.
End runs.
End threshold.

(** ** Concrete inputs *)
Definition inner_of (i : innerEnvelope) : jsonEnvelope :=
  mkEnvelope (in_Type i) (in_From i) (in_Nonce i) (in_Gas i) (in_Fee i) (in_Bid i) (in_FeeRecipient i).
Definition sample_marshal (i : innerEnvelope) : bytes := marshal (Json := countable_json jsonEnvelope) (inner_of i).
Definition sample_inner : innerEnvelope := mkInner "" "alice" 7 1 9 0 "".
Definition sample_rand : ClientRand := mkClientRand [] (replicate 12 Byte.x00) [] [].
Definition sample_pub : publicConfig := mkPublic (replicate 48 Byte.x01) 2 3.

Definition sample_outer : outerEnvelope :=
  match beast_encrypt (B := unit_blst) (G := toy_gcm) sha256 sample_marshal "ibe" 5 (Some sample_pub) (Some sample_inner)
          sample_rand with
  | inr o => o
  | inl _ => mkOuter "" "" 0 [] [] 0 0 []
  end.

Definition sample_payload : Payload :=
  default (Plaintext (mkPlaintextTx "" 0 0 0 [])) (tx_ToInternal (envelope_of sample_outer)).

Lemma threshold_committee_opens_witness :
  let t0 := (EnableBLSTDecrypt sample_conf Thresh_init).1 in
  (blst_Decrypt (B := unit_blst) (G := toy_gcm) (J := countable_json jsonEnvelope) sample_conf
     (run (thresh_step (B := unit_blst) (G := toy_gcm) (J := countable_json jsonEnvelope) sample_conf) t0
        [EvPublisher true; EvRemote 5 3 (unit_key []); EvEarly 5]).1
     (mkBlockHeader 8 0) sample_payload).2 = (Some (Plaintext (mkPlaintextTx "alice" 7 1 9 [])), None).
Proof.
  apply (threshold_committee_opens (B := unit_blst) (G := toy_gcm) (J := countable_json jsonEnvelope)
    (replicate 48 Byte.x01) 2 (λ i, (0 < i)%Z) unit_share unit_key
    (TI := unit_threshold toy_gcm (replicate 48 Byte.x01) 2 ltac:(lia))
    sample_conf eq_refl (JC := one_json sample_conf) (λ _, Some [Byte.x7d]) "beast.json"
    [EvPublisher true; EvRemote 5 3 (unit_key []); EvEarly 5] sample_pub sample_marshal sample_inner sample_rand
    5 sample_outer (mkBlockHeader 8 0) sample_payload).
  - reflexivity.
  - reflexivity.
  - reflexivity.
  - by vm_compute.
  - reflexivity.
  - repeat constructor; done.
  - by vm_compute.
  - reflexivity.
  - reflexivity.
  - reflexivity.
  - vm_compute. reflexivity.
  - vm_compute. reflexivity.
  - vm_compute. reflexivity.
  - by vm_compute.
Defined.

(** ** Batched mode *)
Lemma publish_batches t h i s h' b :
  snapshotBatchedShares (publish_once t h i s) h' b = snapshotBatchedShares t h' b.
Proof. unfold publish_once. destruct (negb _); [done|]. unfold markShareSent. by case_bool_decide. Qed.

Lemma record_batched t h b i s :
  h ≠ 0%N → b ≠ 0%N → (0 < i)%Z → length s = 48 → snapshotBatchedShares t h b = ∅ →
  snapshotBatchedShares (recordBatchedShare t h b i s) h b = {[i := s]}.
Proof.
  intros Hh Hb Hi Hl He. unfold recordBatchedShare.
  rewrite (proj2 (N.eqb_neq _ _) Hh), (proj2 (N.eqb_neq _ _) Hb), (proj2 (Z.leb_gt _ _) Hi), bool_decide_false by lia.
  cbn [orb]. unfold snapshotBatchedShares in *. cbv zeta. rewrite He, lookup_empty.
  cbn [batchSharesByHeight set_batch_shares]. by simplify_map_eq.
Qed.

(** The first result of a chain of fallible calls, when the chain succeeded. *)
Ltac unbind_res H :=
  match type of H with
  | bind ?r _ = inr _ => let E := fresh "E" in destruct r eqn:E; cbn [bind] in H; [discriminate H|]
  end.

(** C23. With a threshold of one, batched mode opens what clients encrypt. A node
    in batched mode that holds the committee's share decrypts a transaction that
    beast-encrypt made in batched mode, parsed from the wire form and due, to
    exactly the client's payload, when it is the first of its height and batch
    index. *)
Theorem batched_mode_opens {B : Blst} {G : AESGCM} {J : Json jsonEnvelope}
    (conf : Private.Config) (pub : publicConfig) (marshal_inner : innerEnvelope → bytes) (inner : innerEnvelope)
    (rnd : ClientRand) (target : N) (o : outerEnvelope) (t : Thresh) (hdr : BlockHeader) (p pl : Payload) :
  BatchedOpening sha256 pub (cf_Index conf) (cf_Share conf) →
  cf_Mode conf = "batched" → cf_Threshold conf = 1%Z → cf_GroupPubKey conf = pc_GroupPubKey pub →
  cf_BatchN conf = pc_N pub → (pc_N pub < 2 ^ 63)%Z → (0 < cf_Index conf)%Z → length (cf_Share conf) = 32 →
  loadPublic (Some pub) = inr pub →
  beast_encrypt sha256 marshal_inner "batched" target (Some pub) (Some inner) rnd = inr o →
  decodeEnvelopeBytes (marshal_inner (if (in_Type inner =? "")%string then set_type inner "plaintext_v1" else inner))
    = Some pl →
  tx_ToInternal (envelope_of o) = Some p → (target <= bh_Height hdr)%N →
  snapshotBatchedShares t target (oe_BatchIndex o) = ∅ →
  (blst_Decrypt conf t hdr p).2 = (Some pl, None).
Proof.
  intros HB Hm Hk Hg HN Hmax Hi Hs Hpub Henc Hpl Hp Hh Hfirst.
  unfold beast_encrypt in Henc. destruct (target =? 0)%N eqn:Et; [done|]. apply N.eqb_neq in Et.
  rewrite Hpub in Henc. cbn [bind must] in Henc. destruct (in_From inner =? "")%string; [done|].
  set (pt := marshal_inner _) in *. simpl in Henc. fold pt in Henc.
  destruct (bo_open _ _ _ _ _ Henc) as (Hidx & Heph & Hstar & Hct & pp & sh & gk & prf & Hpp & Hpart & Hsh & Hgk & Hprf & Hxor).
  assert (oe_Type o = "private_v1" ∧ oe_TargetHeight o = target) as [Htyp Htgt].
  { unfold encrypt_batched in Henc. destruct (_ <=? 0)%Z; [done|]. repeat (unbind_res Henc). injection Henc as <-. done. }
  assert (pt ≠ []) as Hne.
  { intros E. rewrite E in Hpl. unfold decodeEnvelopeBytes in Hpl. by rewrite unmarshal_nil in Hpl. }
  unfold tx_ToInternal, envelope_of in Hp. simpl in Hp. rewrite Htyp in Hp. simpl in Hp. injection Hp as <-.
  unfold blst_Decrypt, with_due. cbn [pv_TargetHeight]. rewrite Htgt.
  rewrite (proj2 (N.eqb_neq _ _) Et), (proj2 (N.ltb_ge _ _) Hh), Hm. rewrite bool_decide_false, bool_decide_true by done.
  unfold decryptBatched. cbn [pv_Ciphertext pv_EphemeralKey pv_BatchIndex pv_PuncturedKey pv_TargetHeight].
  rewrite HN, Hg. rewrite (proj2 (Z.leb_gt (pc_N pub) 0)) by lia.
  rewrite bool_decide_false by lia. rewrite (proj2 (Z.leb_gt _ _) Hi). cbn [orb].
  rewrite bool_decide_false by (intros E; rewrite E in Hct; by destruct pt).
  rewrite bool_decide_false by lia. rewrite (proj2 (N.eqb_neq (oe_BatchIndex o) 0)) by lia.
  rewrite bool_decide_false by lia. cbn [orb].
  assert (int_of_u64 (oe_BatchIndex o) = Z.of_N (oe_BatchIndex o)) as Eint.
  { unfold int_of_u64. apply i64_small. lia. }
  rewrite Eint, (proj2 (Z.ltb_ge _ _)) by lia. rewrite Hpp, Hpart. cbn [pd_Index pd_Share snd].
  set (t1 := recordBatchedShare _ _ _ _ _).
  assert (snapshotBatchedShares (if threshEnabled t1 then publish_once t1 target (cf_Index conf) sh else t1)
    target (oe_BatchIndex o) = {[cf_Index conf := sh]}) as ->.
  { assert (snapshotBatchedShares t1 target (oe_BatchIndex o) = {[cf_Index conf := sh]}) as E
      by (apply record_batched; done || lia).
    destruct (threshEnabled t1); by rewrite ?publish_batches. }
  unfold batch_open. rewrite map_size_singleton, Hk. simpl (_ <? 1)%Z. cbv iota.
  unfold bte_shares. rewrite map_to_list_singleton. cbn [fmap list_fmap]. rewrite Hgk.
  cbn [pv_BatchIndex pv_PuncturedKey pv_Ciphertext]. rewrite Eint, Hprf, Hxor.
  unfold open_envelope. rewrite Hpl. by rewrite bool_decide_false.
Qed.

(** A committee of one over the group of one element. *)
Definition lone_pub : publicConfig := mkPublic (replicate 48 Byte.x01) 1 1.
Definition lone_conf : Private.Config := mkConfig "batched" (replicate 48 Byte.x01) [] 1 1 (unit_share 1) 1.
Definition lone_params : res LinearParams :=
  SetupLinearDeterministic (B := unit_blst) sha256 (pc_N lone_pub) (pc_GroupPubKey lone_pub).
Definition lone_pp : LinearParams := match lone_params with inr pp => pp | inl _ => mkLinearParams 0 [] [] end.

Lemma unit_batched : BatchedOpening (B := unit_blst) sha256 lone_pub 1 (unit_share 1).
Proof.
  assert (lone_params = inr lone_pp) as Hpp by (vm_compute; reflexivity).
  split. intros target inner pt rnd o. unfold encrypt_batched. fold lone_params. rewrite Hpp.
  assert (batch_index (pc_N lone_pub) (in_Nonce inner) = 1%Z) as ->.
  { unfold batch_index. change (Z.to_N (pc_N lone_pub)) with 1%N. by rewrite N.mod_1_r. }
  change (pc_N lone_pub <=? 0)%Z with false. cbn [bind].
  assert (pprf_KeyGen (B := unit_blst) (cr_key rnd) = inr (replicate 32 Byte.x00)) as -> by done. cbn [bind].
  assert (Eval (B := unit_blst) lone_pp (replicate 32 Byte.x00) 1 = inr []) as -> by (vm_compute; reflexivity).
  assert (EncryptKey (B := unit_blst) (pc_GroupPubKey lone_pub) (replicate 32 Byte.x00) (cr_bte rnd) =
    inr (mkKeyCiphertext (replicate 48 Byte.x00) (replicate 48 Byte.x00))) as -> by done.
  assert (Puncture (B := unit_blst) lone_pp (replicate 32 Byte.x00) 1 = inr (replicate 48 Byte.x00)) as ->
    by (vm_compute; reflexivity).
  cbn [bind]. intros [= <-]. cbn [oe_BatchIndex oe_EphemeralKey oe_PuncturedKey oe_Ciphertext C1 C2].
  split; [by vm_compute|]. split; [done|]. split; [done|]. split; [apply length_RecoverXOR|].
  exists lone_pp, (replicate 48 Byte.x00), (replicate 48 Byte.x00), [].
  split; [exact Hpp|]. split; [done|]. split; [done|]. split; [done|].
  split; [vm_compute; reflexivity|]. apply RecoverXOR_involutive.
Qed.

Definition lone_outer : outerEnvelope :=
  match beast_encrypt (B := unit_blst) (G := toy_gcm) sha256 sample_marshal "batched" 5 (Some lone_pub)
          (Some sample_inner) sample_rand with
  | inr o => o
  | inl _ => mkOuter "" "" 0 [] [] 0 0 []
  end.

Definition lone_payload : Payload :=
  default (Plaintext (mkPlaintextTx "" 0 0 0 [])) (tx_ToInternal (envelope_of lone_outer)).

Lemma batched_mode_opens_witness :
  (blst_Decrypt (B := unit_blst) (G := toy_gcm) (J := countable_json jsonEnvelope) lone_conf Thresh_init
     (mkBlockHeader 8 0) lone_payload).2 = (Some (Plaintext (mkPlaintextTx "alice" 7 1 9 [])), None).
Proof.
  apply (batched_mode_opens (B := unit_blst) (G := toy_gcm) (J := countable_json jsonEnvelope)
    lone_conf lone_pub sample_marshal sample_inner sample_rand 5 lone_outer Thresh_init (mkBlockHeader 8 0) lone_payload).
  - exact unit_batched.
  - reflexivity.
  - reflexivity.
  - reflexivity.
  - reflexivity.
  - by vm_compute.
  - by vm_compute.
  - reflexivity.
  - reflexivity.
  - vm_compute. reflexivity.
  - vm_compute. reflexivity.
  - vm_compute. reflexivity.
  - by vm_compute.
  - reflexivity.
Defined.
