(* ===== verification/Main.v ===== *)
(** The program (src/cmd/dvt-node/main.go, beast_dkg_blst.go): what [main] builds
    from its flags, the environment and the files they name, before it starts the
    services. *)
From stdpp Require Import pretty.
From S2P Require Import CryptoOps Feldman.
From S2P Require Import Prelude GoStrings Metrics Codec Files StateStore Sha256 QbftMessage QbftVerifier QbftState QbftWal.
From S2P Require Import NoncePool Payload Dfba Builder Tss TssStores Runner Lifecycle Consensus Private Api Transport Node.

(** ** Flags and the world *)
Record Flags := mkFlags {
  upstream : string;
  enableTSS : bool;
  p2pEnable : bool;
  p2pListen : string;
  p2pBoot : string;
  p2pNAT : bool;
  enableBeast : bool;
  enableJSON : bool;
  beastConf : string;
  beastDKGConf : string;
  enableBuilder : bool;
  builderMaxN : Z;
  builderWindow : Z;
  builderMinBid : N;
  builderMinFee : N;
  builderTicksMs : Z;
  builderUseDFBA : bool;
}.

(** [os.Getenv], [os.ReadFile], and [os.Stat] (whether it is a directory). *)
Record World := mkWorld {
  Getenv : string → string;
  ReadFile : string → option bytes;
  Stat : string → option bool;
}.

Definition env_set (w : World) (name : string) : bool := ⌜? Getenv w name = "1" ⌝.

(** ** The parts *)
Definition newline : ascii := "010".

(** The bytes of a file as a string. *)
Definition text_of (b : bytes) : string := String.string_of_list_ascii (ascii_of_byte <$> b).

Definition not_empty (ws : list string) : list string := List.filter (λ w, negb ⌜? w = "" ⌝) ws.

(** A list separated by commas, or the lines of a file. *)
Definition bootnodes (w : World) (boot : string) : list string :=
  RETURN [] IF ⌜? boot = "" ⌝ ;;
  match Stat w boot with
  | Some false => match ReadFile w boot with
                  | Some b => not_empty (TrimSpace <$> Split newline (text_of b))
                  | None => []
                  end
  | _ => not_empty (TrimSpace <$> Split "," boot)
  end.

Definition main_net (fl : Flags) (w : World) : NetConfig :=
  mkNetConfig true (if ⌜? p2pListen fl = "" ⌝ then [] else [p2pListen fl]) (bootnodes w (p2pBoot fl)) (p2pNAT fl)
    (enableBeast fl) (negb ⌜? beastDKGConf fl = "" ⌝).

(** The pools of the payload container. *)
Definition main_pools (beast : bool) : Container :=
  NewContainer
    (let base : gmap string Mempool :=
       <["plaintext_v1" := PlaintextPool New]> (<["auction_bid_v1" := AuctionPool New]> ∅) in
     if beast then <["private_v1" := PrivateTxPool private_New]> base else base).

(** The policy of the flags; the order is left to the consensus service. *)
Definition main_policy (fl : Flags) : BuilderPolicy :=
  mkBuilderPolicy [] (builderMaxN fl) 0 (builderMinBid fl) (builderMinFee fl) (builderWindow fl) (builderTicksMs fl)
    (builderUseDFBA fl).

(** ** The decrypter of private transactions *)

(** What was last given to [SetPrivateDecrypter]. *)
Inductive Installed := INoop | IJson | IPending | IBlst (conf : Private.Config).

Record Dec := mkDec { dc_installed : Installed; dc_thresh : Thresh }.

Section decrypter.
Context {B : CryptoOps.Blst} {G : AESGCM} {JE : Json jsonEnvelope}.

Definition dec_Decrypt (d : Dec) (h : BlockHeader) (p : Payload) : Dec * (option Payload * option PrivErr) :=
  match dc_installed d with
  | INoop => (d, (Some p, None))
  | IJson => let '(t, r) := json_Decrypt (dc_thresh d) h p in (mkDec IJson t, r)
  | IPending => let '(t, r) := pending_Decrypt (dc_thresh d) h p in (mkDec IPending t, r)
  | IBlst conf => let '(t, r) := blst_Decrypt conf (dc_thresh d) h p in (mkDec (IBlst conf) t, r)
  end.

#[export] Instance installed_decrypter : PrivateDecrypter Dec := {| Decrypt := dec_Decrypt |}.
End decrypter.

Section main.
Context {JC : Json Private.Config} {JD : Json BeastDKGConfig}.

(** A configuration that cannot be installed leaves the decrypter as it was. *)
Definition install (conf : Private.Config) (d : Dec) : Dec :=
  let '(t, err) := EnableBLSTDecrypt conf (dc_thresh d) in
  match err with None => mkDec (IBlst conf) t | Some _ => mkDec (dc_installed d) t end.

(** The decrypter, and [beastThreshold]. *)
Definition main_beast (fl : Flags) (w : World) : Dec * bool :=
  let d := mkDec INoop Thresh_init in
  RETURN (d, false) IF negb (enableBeast fl) ;;
  let d := if enableJSON fl then mkDec IJson (dc_thresh d) else d in
  RETURN (d, true) IF negb ⌜? beastDKGConf fl = "" ⌝ ;;
  RETURN (d, false) IF ⌜? beastConf fl = "" ⌝ ;;
  match LoadConfig (ReadFile w) (beastConf fl) with
  | inl _ => (d, false)
  | inr conf => (install conf d, ⌜? cf_Mode conf = "threshold" ⌝ || (0 <? cf_Threshold conf)%Z)
  end.

(** [maybeStartBeastDKG], up to its loop: the runner's first turn and the
    decrypter, or how it is counted that there is none. *)
Inductive DkgStart {B : CryptoOps.Blst} :=
  | DkgOff
  | DkgFailed (result : string)
  | DkgRuns (cfg : BeastDKGConfig) (t : turn) (d : Dec).

Definition maybeStartBeastDKG {B : CryptoOps.Blst} {G : AESGCM} {A : DKGAuth} {J : Json TSSDKG} (w : World)
    (env : REnv) (ks : option KeyShare) (st : option beastSessionState) (confPath : string) (d : Dec) : DkgStart :=
  RETURN DkgOff IF ⌜? confPath = "" ⌝ ;;
  match LoadBeastDKGConfig (ReadFile w) confPath with
  | inl _ => DkgFailed "config_error"
  | inr cfg =>
      match NewBeastDKGRunner cfg (re_now env) with
      | inr _ => DkgFailed "init_error"
      | inl r =>
          match Runner.Start cfg env ks st r with
          | (t, None) => DkgRuns cfg t (mkDec IPending (dc_thresh d))
          | (_, Some _) => DkgFailed "start_error"
          end
      end
  end.

(** ** The services *)

(** The API service, as its handlers see it. *)
Definition main_api (fl : Flags) (w : World) : Api.Service :=
  Api.mkService true (upstream fl) (p2pEnable fl) true (env_set w "AEQUA_ENABLE_TX_API")
    (enableBeast fl || env_set w "AEQUA_ENABLE_BEAST").

(** The environment that the consensus service starts in. *)
Definition main_env (fl : Flags) (w : World) : StartEnv :=
  mkStartEnv (env_set w "AEQUA_ENABLE_TSS_STATE_SYNC") (enableBuilder fl || env_set w "AEQUA_ENABLE_BUILDER")
    (env_set w "AEQUA_ENABLE_TSS_SIGN") (enableBeast fl || env_set w "AEQUA_ENABLE_BEAST").

(** The consensus service: verifier, store and processor are left to its [Start],
    which takes the default ones. *)
Definition main_consensus (fl : Flags) (w : World) (fs : FS)
    : Consensus.Service (V := BasicVerifier) (P := State) (ST := MemoryStore) (D := Dec) :=
  Consensus.mkService (NewBasicVerifierWithPolicy DefaultPolicy) NewMemoryStore zero_state None zero_message
    false false false (Some (main_pools (enableBeast fl)))
    (if enableBuilder fl then main_policy fl else mkBuilderPolicy [] 0 0 0 0 0 0 false) (enableBuilder fl)
    ∅ false false false (main_beast fl w).1 fs.

(** The names of the services, in the order they are added. *)
Definition main_services (fl : Flags) : list string :=
  ["api"; "monitoring"; "p2p"] ++ (if enableTSS fl then ["tss"] else []) ++ ["consensus"] ++
  (if p2pEnable fl then ["p2p-transport"] else []).

(** [NetService]: the transport as a service. *)
Definition NetService (env : NetEnv) (close : goerr) : ServiceI Libp2pTransport :=
  mkServiceI "p2p-transport" (lt_Start env) (lt_Stop close).
End main.

(** ** The wiring stays as main left it *)
Section wiring.
Context {MI : MapIter} {B : CryptoOps.Blst} {G : AESGCM} {JE : Json jsonEnvelope}.
Context {WJ : Json walEntry} {BJ : Json StandardBlock}.
Notation Service := (Consensus.Service (V := BasicVerifier) (P := State) (ST := MemoryStore) (D := Dec)).
Implicit Types (s : Service) (e : TurnEnv (SE := unit)).

(** The parts that no turn changes, and the pools, which stay under their types. *)
Record same_wiring s s' : Prop := {
  sw_wal : sv_wal s' = sv_wal s;
  sw_bc : sv_hasBc s' = sv_hasBc s;
  sw_signer : sv_hasSigner s' = sv_hasSigner s;
  sw_policy : sv_policy s' = sv_policy s;
  sw_builder : sv_enableBuilder s' = sv_enableBuilder s;
  sw_pool c : sv_pool s = Some c → well_typed c → ∃ c', sv_pool s' = Some c' ∧ well_typed c';
}.

#[export] Instance same_wiring_preorder : PreOrder same_wiring.
Proof.
  split.
  - intros s. split; try done. intros c Hc Hwt. by exists c.
  - intros s1 s2 s3 [A1 A2 A3 A4 A5 A6] [B1 B2 B3 B4 B5 B6]. split; try congruence.
    intros c Hc Hwt. destruct (A6 c Hc Hwt) as (c2 & Hc2 & Hwt2). eauto.
Qed.

Lemma append_intent_wiring e s msg : same_wiring s (append_intent e s msg).1.
Proof.
  unfold append_intent. destruct (sv_wal s) eqn:E; [|done]. destruct (negb _); [done|].
  destruct (AppendIntent _ _ _ _) as [[fs' err] ev]. split; try done. intros c Hc Hwt. by exists c.
Qed.

Lemma build_block_wiring e s msg : same_wiring s (build_block e s msg).1.
Proof.
  unfold build_block. destruct (sv_pool s) eqn:E; [|done]. destruct (negb _); [done|].
  destruct (PrepareProposal _ _ _ _ _) as [[d blk] ev].
  destruct (ProcessProposal _ _); (split; try done; intros c' Hc Hwt; by exists c').
Qed.

Lemma apply_message_wiring e s msg s' ef : apply_message e s msg = Some (s', ef) → same_wiring s s'.
Proof.
  unfold apply_message. destruct (p_Process (sv_st s) msg) as [[st' [err ev]]|]; simpl; [|done].
  destruct (SaveLastState (te_store e) (sv_store s) (mkLastState (Height msg) (Round msg))) as [[store' err2] ev2]. intros [= <- <-].
  split; try done. intros c Hc Hwt. by exists c.
Qed.

Lemma handle_event_wiring e s ev s' ef : handle_event e s ev = Some (s', ef) → same_wiring s s'.
Proof.
  unfold handle_event. case_bool_decide.
  - destruct (sv_pool s) as [c|] eqn:Hc; [|by intros [= <- <-]]. destruct (ev_Body ev) as [| |p|]; try by intros [= <- <-].
    pose proof (container_Add_typed (te_early e) (te_now e) c p) as Ht.
    destruct (container_Add _ _ c p) as [[c' err] mev]. intros [= <- <-]. split; try done.
    intros c0 Hc0 Hwt. simplify_eq. exists c'. by split; [|apply Ht].
  - destruct (v_Verify _ _) as [[v' err] vev].
    assert (same_wiring s (set_v s v')) as Hv by (split; try done; intros c Hc Hwt; by exists c).
    destruct err; [by intros [= <- <-]|]. unfold handle_verified.
    pose proof (append_intent_wiring e (set_v s v') (MapEventToQBFT ev)) as H1.
    destruct (append_intent _ _ _) as [s1 ef1]. simpl in H1.
    pose proof (build_block_wiring e s1 (MapEventToQBFT ev)) as H2.
    destruct (build_block _ _ _) as [s2 ef3]. simpl in H2. assert (same_wiring s s2) as Hs by (by rewrite Hv, H1).
    destruct (negb _); [by intros [= <- <-]|].
    destruct (apply_message e s2 _) as [[s3 ef4]|] eqn:E; simpl; [|done]. intros [= <- <-].
    rewrite Hs. by eapply apply_message_wiring.
Qed.

Lemma handle_events_wiring evs s s' ef : handle_events s evs = Some (s', ef) → same_wiring s s'.
Proof.
  revert s ef. induction evs as [|[e ev] evs IH]; intros s ef; simpl; [by intros [= <- <-]|].
  destruct (handle_event e s ev) as [[s1 ef1]|] eqn:E1; simpl; [|done].
  destruct (handle_events s1 evs) as [[s2 ef2]|] eqn:E2; simpl; [|done]. intros [= <- <-].
  rewrite (handle_event_wiring _ _ _ _ _ E1). by eapply IH.
Qed.

(** What a node does about votes: logging, broadcasting and signing. *)
Definition cast (ef : list Effect) : list Effect :=
  List.filter (λ x, match x with EAppend _ _ | EBroadcast _ | ESign _ _ _ => true | _ => false end) ef.

#[local] Arguments metrics : simpl never.

Lemma cast_app a b : cast (a ++ b) = cast a ++ cast b.
Proof. apply List.filter_app. Qed.
Lemma cast_metrics es : cast (metrics es) = [].
Proof. by induction es. Qed.

Lemma apply_message_silent e s msg s' ef :
  sv_hasSigner s = false → apply_message e s msg = Some (s', ef) → cast ef = [].
Proof.
  intros Hg. unfold apply_message. destruct (p_Process (sv_st s) msg) as [[st' [err ev]]|]; simpl; [|done].
  destruct (SaveLastState (te_store e) (sv_store s) (mkLastState (Height msg) (Round msg))) as [[store' err2] ev2].
  intros [= <- <-]. cbn. rewrite !cast_app, cast_metrics. cbn. rewrite cast_metrics, app_nil_r.
  unfold account_block. destruct (_ ≫= _); [|done]. by rewrite Hg, andb_false_r.
Qed.

Lemma build_block_silent e s msg : cast (build_block e s msg).2 = [].
Proof.
  unfold build_block. destruct (sv_pool _); [|done]. destruct (negb _); [done|].
  destruct (PrepareProposal _ _ _ _ _) as [[d blk] mev]. destruct (ProcessProposal _ _); apply cast_metrics.
Qed.

Lemma handle_event_silent e s ev s' ef :
  sv_wal s = None → sv_hasBc s = false → sv_hasSigner s = false →
  handle_event e s ev = Some (s', ef) → cast ef = [].
Proof.
  intros Hw Hb Hg. unfold handle_event. case_bool_decide.
  - destruct (sv_pool s) as [c|]; [|by intros [= <- <-]]. destruct (ev_Body ev) as [| |p|]; try by intros [= <- <-].
    destruct (container_Add _ _ c p) as [[c' err] mev]. intros [= <- <-]. apply cast_metrics.
  - destruct (v_Verify _ _) as [[v' err] vev]. destruct err.
    { intros [= <- <-]. simpl. by rewrite cast_app, cast_metrics. }
    unfold handle_verified, append_intent, broadcast_vote. cbn [sv_wal set_v]. rewrite Hw. cbn [sv_hasBc set_v]. rewrite Hb.
    cbn [andb negb app]. pose proof (build_block_wiring e (set_v s v') (MapEventToQBFT ev)) as [_ _ Hsg _ _ _].
    pose proof (build_block_silent e (set_v s v') (MapEventToQBFT ev)) as Hblk.
    destruct (build_block _ _ _) as [s2 ef3]. simpl in Hsg, Hblk. destruct (negb _).
    { intros [= <- <-]. cbn. by rewrite !cast_app, cast_metrics, Hblk. }
    destruct (apply_message e s2 _) as [[s3 ef4]|] eqn:E; simpl; [|done]. intros [= <- <-]. cbn.
    apply apply_message_silent in E; [|congruence]. by rewrite !cast_app, cast_metrics, Hblk, E.
Qed.

Lemma handle_events_silent evs s s' ef :
  sv_wal s = None → sv_hasBc s = false → sv_hasSigner s = false →
  handle_events s evs = Some (s', ef) → cast ef = [].
Proof.
  revert s ef. induction evs as [|[e ev] evs IH]; intros s ef Hw Hb Hg; simpl; [by intros [= <- <-]|].
  destruct (handle_event e s ev) as [[s1 ef1]|] eqn:E1; simpl; [|done].
  destruct (handle_events s1 evs) as [[s2 ef2]|] eqn:E2; simpl; [|done]. intros [= <- <-].
  destruct (handle_event_wiring _ _ _ _ _ E1) as [H1 H2 H3 _ _ _].
  rewrite cast_app, (handle_event_silent _ _ _ _ _ Hw Hb Hg E1). cbn. by apply (IH s1); [congruence..|].
Qed.
End wiring.

(** ** What runs *)
Section runs.
Context {MI : MapIter} {B : CryptoOps.Blst} {G : AESGCM} {JE : Json jsonEnvelope}.
Context {WJ : Json walEntry} {BJ : Json StandardBlock} {JC : Json Private.Config}.
Context (fl : Flags) (w : World) (fs : FS).
Notation Service := (Consensus.Service (V := BasicVerifier) (P := State) (ST := MemoryStore) (D := Dec)).

(** The consensus service once it is started. *)
Definition main_started : Service := (Consensus.Start (SE := unit) (main_env fl w) (main_consensus fl w fs)).1.

Lemma main_started_wiring :
  sv_wal main_started = None ∧ sv_hasBc main_started = false ∧ sv_hasSigner main_started = false ∧
  sv_enableBuilder main_started = enableBuilder fl || env_set w "AEQUA_ENABLE_BUILDER" ∧
  sv_pool main_started = Some (main_pools (enableBeast fl)).
Proof.
  unfold main_started, Start. cbn [sv_wal main_consensus]. destruct (start_policy _ _) as [pol ev].
  destruct fl as [a b c d f g h i j k [] ? ? ? ? ? ?]; by repeat split.
Qed.

Lemma main_started_policy :
  enableBuilder fl || env_set w "AEQUA_ENABLE_BUILDER" = true →
  Order (sv_policy main_started) = default_order (enableBeast fl || env_set w "AEQUA_ENABLE_BEAST").
Proof.
  intros Hb. unfold main_started, Start. cbn [sv_wal main_consensus].
  unfold start_policy. cbn [sv_enableBuilder main_consensus sv_polConfigured sv_policy main_env se_builder se_beast].
  destruct (enableBuilder fl) eqn:E; cbn [orb negb]; [done|]. simpl in Hb. by rewrite Hb.
Qed.

Lemma main_pools_typed beast : well_typed (main_pools beast).
Proof.
  unfold well_typed. apply (bool_decide_unpack _). destruct beast; vm_compute; exact I.
Qed.

(** Whatever the flags, the environment and the events, the node that main.go
    wires logs no vote, broadcasts none and asks for no signature. *)
Theorem main_never_votes (evs : list (TurnEnv (SE := unit) * Event)) (s : Service) (ef : list Effect) :
  handle_events main_started evs = Some (s, ef) → cast ef = [].
Proof. destruct main_started_wiring as (H1 & H2 & H3 & _). by apply handle_events_silent. Qed.

End runs.

(** ** Concrete inputs *)
Definition builder_flags : Flags :=
  mkFlags "" false true "/ip4/0.0.0.0/tcp/31000" " /dns4/a/tcp/1 ,, /dns4/b/tcp/2" false false false "" "" true 16 0 0 2 0 false.
Definition quiet_world : World := mkWorld (λ _, "") (λ _, None) (λ _, None).

Example main_net_sample :
  main_net builder_flags quiet_world =
    mkNetConfig true ["/ip4/0.0.0.0/tcp/31000"] ["/dns4/a/tcp/1"; "/dns4/b/tcp/2"] false false false.
Proof. vm_compute. reflexivity. Qed.

Definition main_events : list (TurnEnv (SE := unit) * Event) :=
  [(sample_turn, on_tx (Plaintext (mkPlaintextTx "alice" 0 21000 5 sig32)));
   (sample_turn, consensus_event (msg MsgPreprepare "p" 7 0));
   (sample_turn, consensus_event (msg MsgPrepare "q" 7 0))].

#[local] Existing Instances unit_blst toy_gcm iter_forward wal_json block_json.
#[local] Instance main_env_json : Json jsonEnvelope := one_json sample_env.
#[local] Instance main_conf_json : Json Private.Config := one_json sample_conf.

Definition main_run := default (main_started builder_flags quiet_world ∅, [])
  (handle_events (main_started builder_flags quiet_world ∅) main_events).

Lemma main_run_some : handle_events (main_started builder_flags quiet_world ∅) main_events = Some main_run.
Proof.
  unfold main_run. assert (is_Some (handle_events (main_started builder_flags quiet_world ∅) main_events)) as [r ->];
    [|done]. eexists. vm_compute. reflexivity.
Qed.

Lemma main_never_votes_witness : length main_run.2 = 16 ∧ cast main_run.2 = [].
Proof.
  split; [vm_compute; reflexivity|].
  apply (main_never_votes builder_flags quiet_world ∅ main_events main_run.1).
  rewrite <-surjective_pairing. exact main_run_some.
Defined.

Definition main_pool : Container := default (main_pools false) (sv_pool main_run.1).

