(* ===== verification/CommandLine.v ===== *)
(** The command line of the node (src/cmd/dvt-node/main.go): its flags with
    their defaults, and the options that a list of arguments gives. *)
From stdpp Require Import pretty.
From S2P Require Import CryptoOps Feldman.
From S2P Require Import Prelude GoFlags Main.

(** ** Reading the value of a flag that is defined *)
Definition get_bool (fs : FlagSet) (name : string) : bool :=
  match fs !! name with Some (VBool b) => b | _ => false end.
Definition get_string (fs : FlagSet) (name : string) : string :=
  match fs !! name with Some (VString s) => s | _ => "" end.
Definition get_int (fs : FlagSet) (name : string) : Z :=
  match fs !! name with Some (VInt z) => z | _ => 0 end.
Definition get_uint (fs : FlagSet) (name : string) : N :=
  match fs !! name with Some (VUint n) => n | _ => 0 end.

Lemma get_int_range fs name : map_Forall (λ _, in_range) fs → is_int (get_int fs name).
Proof.
  intros H. unfold get_int. destruct (fs !! name) as [[]|] eqn:E; try (unfold is_int; lia). exact (H name _ E).
Qed.

Lemma get_uint_range fs name : map_Forall (λ _, in_range) fs → is_u64 (get_uint fs name).
Proof.
  intros H. unfold get_uint. destruct (fs !! name) as [[]|] eqn:E; try (unfold is_u64, two64; lia). exact (H name _ E).
Qed.

(** ** The node *)
Definition node_defaults : list (string * FlagValue) :=
  [("validator-api", VString "127.0.0.1:4600"); ("monitoring", VString "127.0.0.1:4620"); ("upstream", VString "");
   ("enable-tss", VBool false); ("p2p.enable", VBool false); ("p2p.listen", VString ""); ("p2p.bootnodes", VString "");
   ("p2p.nat", VBool false); ("fee-sink.webhook", VString ""); ("enable-beast", VBool false); ("beast.json", VBool false);
   ("beast.conf", VString ""); ("beast.dkg.conf", VString ""); ("enable-builder", VBool false);
   ("builder.max-n", VInt 0); ("builder.window", VInt 0); ("builder.min-bid", VUint 0); ("builder.min-fee", VUint 0);
   ("builder.batch-ticks-ms", VInt 0); ("builder.use-dfba", VBool false)].

Definition node_flags : FlagSet := list_to_map node_defaults.

(** The variables of [main] after [flag.Parse]. *)
Record NodeOptions := mkNodeOptions {
  apiAddr : string;
  monAddr : string;
  feeSink : string;
  no_flags : Flags;
}.

Definition node_options (fs : FlagSet) : NodeOptions :=
  mkNodeOptions (get_string fs "validator-api") (get_string fs "monitoring") (get_string fs "fee-sink.webhook")
    (mkFlags (get_string fs "upstream") (get_bool fs "enable-tss") (get_bool fs "p2p.enable") (get_string fs "p2p.listen")
      (get_string fs "p2p.bootnodes") (get_bool fs "p2p.nat") (get_bool fs "enable-beast") (get_bool fs "beast.json")
      (get_string fs "beast.conf") (get_string fs "beast.dkg.conf") (get_bool fs "enable-builder")
      (get_int fs "builder.max-n") (get_int fs "builder.window") (get_uint fs "builder.min-bid")
      (get_uint fs "builder.min-fee") (get_int fs "builder.batch-ticks-ms") (get_bool fs "builder.use-dfba")).

(** The exit status, or the options; [main] does not ask what is left. *)
Definition node_command (args : list string) : Z + NodeOptions :=
  match Parse node_flags args with Exit status => inl status | Args fs _ => inr (node_options fs) end.

(** ** What can be said on a command line *)
Definition node_machine (o : NodeOptions) : Prop :=
  let fl := no_flags o in
  is_int (builderMaxN fl) ∧ is_int (builderWindow fl) ∧ is_u64 (builderMinBid fl) ∧ is_u64 (builderMinFee fl) ∧
  is_int (builderTicksMs fl).

(** Every option, given as [-name=value]. *)
Definition node_args (o : NodeOptions) : list (string * FlagValue) :=
  let fl := no_flags o in
  [("validator-api", VString (apiAddr o)); ("monitoring", VString (monAddr o)); ("upstream", VString (upstream fl));
   ("enable-tss", VBool (enableTSS fl)); ("p2p.enable", VBool (p2pEnable fl)); ("p2p.listen", VString (p2pListen fl));
   ("p2p.bootnodes", VString (p2pBoot fl)); ("p2p.nat", VBool (p2pNAT fl)); ("fee-sink.webhook", VString (feeSink o));
   ("enable-beast", VBool (enableBeast fl)); ("beast.json", VBool (enableJSON fl)); ("beast.conf", VString (beastConf fl));
   ("beast.dkg.conf", VString (beastDKGConf fl)); ("enable-builder", VBool (enableBuilder fl));
   ("builder.max-n", VInt (builderMaxN fl)); ("builder.window", VInt (builderWindow fl));
   ("builder.min-bid", VUint (builderMinBid fl)); ("builder.min-fee", VUint (builderMinFee fl));
   ("builder.batch-ticks-ms", VInt (builderTicksMs fl)); ("builder.use-dfba", VBool (builderUseDFBA fl))].

Lemma node_args_fit o : node_machine o → Forall (fits node_flags) (node_args o).
Proof.
  intros (H1 & H2 & H3 & H4 & H5). unfold node_args.
  repeat (apply Forall_cons; split; [split; [by vm_compute|]; split; [done|by eexists; split; vm_compute]|]). by constructor.
Qed.

Lemma node_defaults_range : map_Forall (λ _, in_range) node_flags.
Proof.
  intros name v H%elem_of_list_to_map_2. unfold node_defaults in H.
  repeat (apply elem_of_cons in H as [[= -> ->]|H]; [try done; unfold in_range, is_int, is_u64, two64; lia|]).
  by apply elem_of_nil in H.
Qed.

(** C40. The command line says exactly the options there are. Every choice of
    options whose numbers fit the machine can be given to the node, flag by
    flag, and is read back as it was; and whatever the arguments, the options
    the node runs with have numbers that fit the machine: anything else, in any
    base, with signs or underscores, out of range or malformed, ends the
    program before it starts. *)
Theorem node_command_range (o : NodeOptions) :
  (node_machine o → node_command (show_arg <$> node_args o) = inr o) ∧
  (∀ args, node_command args = inr o → node_machine o).
Proof.
  split.
  - intros H%node_args_fit. unfold node_command. rewrite <-(app_nil_r (show_arg <$> _)), Parse_all_given by done.
    cbn [Parse]. f_equal. destruct o as [a m f []]. vm_compute. reflexivity.
  - intros args. unfold node_command. destruct (Parse node_flags args) as [fs rest|] eqn:E; [|done]. intros [= <-].
    apply Parse_typed in E as [Hr _]; [|by apply node_defaults_range].
    split_and!; cbn; by (apply get_int_range || apply get_uint_range).
Qed.

Lemma node_command_range_witness :
  let o := mkNodeOptions "0.0.0.0:4600" "0.0.0.0:4620" ""
             (mkFlags "" true true "/ip4/0.0.0.0/tcp/31000" "" false false false "" "" true 100 (-1) 18446744073709551615 7 0 false) in
  node_command (show_arg <$> node_args o) = inr o.
Proof.
  intros o. apply (node_command_range o). unfold node_machine, is_int, is_u64, two64. cbn. lia.
Defined.

(** The command of the compose file with TSS, and the flags of the runbook. *)
Example compose_command :
  match node_command ["--validator-api"; "0.0.0.0:4600"; "--monitoring"; "0.0.0.0:4620"; "--enable-tss"] with
  | inr o => ⌜? apiAddr o = "0.0.0.0:4600" ⌝ && ⌜? monAddr o = "0.0.0.0:4620" ⌝ && enableTSS (no_flags o) &&
             negb (p2pEnable (no_flags o))
  | inl _ => false
  end = true.
Proof. vm_compute. reflexivity. Qed.

(** A value apart from a boolean flag ends the flags: the rest is not looked at. *)
Example flags_after_a_stray_value :
  (λ args, match node_command args with
           | inr o => Some (enableTSS (no_flags o), p2pEnable (no_flags o))
           | inl _ => None
           end) <$> [["--enable-tss"; "true"; "--p2p.enable"]; ["--enable-tss=true"; "--p2p.enable"]; ["--enable-tss=yes"]] =
  [Some (true, false); Some (true, true); None].
Proof. vm_compute. reflexivity. Qed.
