(* ===== verification/Tools.v ===== *)
(** The programs beside the node, from their arguments to what they write: the
    committee keys (src/cmd/beast-keygen), encryption (src/cmd/beast-encrypt),
    and the DKG configurations (src/.github/scripts/gen-beast-dkg-config.go). *)
From stdpp Require Import pretty.
From S2P Require Import CryptoOps Beast Feldman.
From S2P Require Import Prelude Metrics Codec Files Sha256 Tss TssStores Runner DkgNet GenConfig GoFlags Main CommandLine.
From S2P Require Client.
Import Client(publicConfig, mkPublic, nodeConfig, innerEnvelope, outerEnvelope, ClientRand, keygen, kg_randScalar,
  evalPoly, loadPublic, beast_encrypt, in_From, pc_GroupPubKey).

(** What a tool finds: which directories and files it can write, what it can read. *)
Record ToolWorld := mkToolWorld {
  tw_mkdir : string → bool;
  tw_write : string → bool;
  tw_ReadFile : string → option bytes;
  tw_Stdin : option bytes;
}.

(** The exit status, and the files in the output directory by name. *)
Definition Written : Type := Z * list (string * bytes).

(** ** beast-keygen *)
Section keygen.
Context {B : CryptoOps.Blst} (w : ToolWorld) (ikm : nat → bytes).
Context (indent_public : publicConfig → option bytes) (indent_node : nodeConfig → option bytes).

Definition keygen_flags : FlagSet := list_to_map [("n", VInt 4); ("t", VInt 3); ("out", VString "beast-keys")].

(** [writeJSON]. *)
Definition writeJSON (file : string) (b : option bytes) : option bytes :=
  b ← b; if tw_write w file then Some b else None.

Definition public_file : string := "beast-public.json".
Definition beast_node_file (i : nat) : string := "beast-node-" +:+ pretty i +:+ ".json".

(** The loop over the nodes: what is written when it ends, or at the first failure. *)
Fixpoint write_nodes (n t : Z) (gpk : bytes) (coeffs : list Scalar) (js : list nat) : Written :=
  match js with
  | [] => (0%Z, [])
  | i :: js' =>
      match Client.node_config t n gpk coeffs i with
      | inl _ => (1%Z, [])
      | inr cfg =>
          match writeJSON (beast_node_file i) (indent_node cfg) with
          | None => (1%Z, [])
          | Some b => let rest := write_nodes n t gpk coeffs js' in (rest.1, (beast_node_file i, b) :: rest.2)
          end
      end
  end.

Definition keygen_main (args : list string) : Written :=
  match Parse keygen_flags args with
  | Exit status => (status, [])
  | Args fs _ =>
      let n := get_int fs "n" in
      let t := get_int fs "t" in
      RETURN (2%Z, []) IF (n <=? 0)%Z || (t <=? 0)%Z || (n <? t)%Z ;;
      RETURN (1%Z, []) IF negb (tw_mkdir w (get_string fs "out")) ;;
      match map_res (λ j, kg_randScalar (ikm j)) (List.seq 0 (Z.to_nat t)) with
      | inl _ => (1%Z, [])
      | inr coeffs =>
          match coeffs with
          | [] => (1%Z, [])
          | msk :: _ =>
              let gpk := p1_compress (p1_mult p1_gen msk) in
              match writeJSON public_file (indent_public (mkPublic gpk t n)) with
              | None => (1%Z, [])
              | Some b =>
                  let rest := write_nodes n t gpk coeffs (List.seq 1 (Z.to_nat n)) in (rest.1, (public_file, b) :: rest.2)
              end
          end
      end
  end.

(** What a whole set of files is. *)
Definition key_files (pub : publicConfig) (nodes : list nodeConfig) (files : list (string * bytes)) : Prop :=
  ∃ b bs, indent_public pub = Some b ∧ Forall2 (λ c b, indent_node c = Some b) nodes bs ∧
    files = (public_file, b) :: zip (beast_node_file <$> List.seq 1 (length nodes)) bs.

Lemma write_nodes_ok n t gpk coeffs js files :
  write_nodes n t gpk coeffs js = (0%Z, files) →
  ∃ nodes bs, map_res (Client.node_config t n gpk coeffs) js = inr nodes ∧
    Forall2 (λ c b, indent_node c = Some b) nodes bs ∧ files = zip (beast_node_file <$> js) bs.
Proof.
  revert files. induction js as [|i js IH]; intros files; cbn [write_nodes map_res].
  { intros [= <-]. exists [], []. split_and!; [done|constructor|done]. }
  destruct (Client.node_config t n gpk coeffs i) as [|cfg]; [done|]. unfold writeJSON.
  destruct (indent_node cfg) as [b|] eqn:Eb; [|done]. cbn [mbind option_bind]. destruct (tw_write w _); [|done].
  destruct (write_nodes n t gpk coeffs js) as [st fs]. cbn [fst snd]. intros [= -> <-].
  destruct (IH fs eq_refl) as (nodes & bs & -> & Hall & ->). exists (cfg :: nodes), (b :: bs). cbn [bind].
  split_and!; [done|by constructor|done].
Qed.

Lemma write_nodes_all n t gpk coeffs js nodes :
  (∀ f, tw_write w f = true) → (∀ c, is_Some (indent_node c)) →
  map_res (Client.node_config t n gpk coeffs) js = inr nodes → (write_nodes n t gpk coeffs js).1 = 0%Z.
Proof.
  intros Hw Hi. revert nodes. induction js as [|i js IH]; intros nodes; cbn [write_nodes map_res]; [done|].
  destruct (Client.node_config t n gpk coeffs i) as [|cfg]; [done|]. cbn [bind].
  destruct (map_res _ js) as [|cs]; [done|]. intros _. unfold writeJSON. destruct (Hi cfg) as [b ->].
  cbn [mbind option_bind]. rewrite Hw. by apply (IH cs).
Qed.

Lemma length_map_nodes t n gpk coeffs js nodes :
  map_res (Client.node_config t n gpk coeffs) js = inr nodes → length nodes = length js.
Proof. apply length_map_res. Qed.

(** beast-keygen writes what a dealer deals. When the program exits with status
    0, for whatever arguments, the files it has written are the public file and
    the node files of [keygen] for the numbers the arguments give; and it does
    exit so whenever the arguments give a threshold [1 <= t <= n], the
    randomness is good and the directory can be written. *)
Theorem keygen_main_refines (args : list string) (fs : FlagSet) (rest : list string) :
  Parse keygen_flags args = Args fs rest →
  let n := get_int fs "n" in let t := get_int fs "t" in
  (∀ files, keygen_main args = (0%Z, files) → ∃ pub nodes, keygen n t ikm = inr (pub, nodes) ∧ key_files pub nodes files) ∧
  (∀ pub nodes, keygen n t ikm = inr (pub, nodes) → tw_mkdir w (get_string fs "out") = true →
     (∀ f, tw_write w f = true) → (∀ c, is_Some (indent_node c)) → (∀ c, is_Some (indent_public c)) →
     (keygen_main args).1 = 0%Z).
Proof.
  intros Hp n t. unfold keygen_main. rewrite Hp. fold n t. unfold keygen.
  destruct ((n <=? 0)%Z || (t <=? 0)%Z || (n <? t)%Z) eqn:Eb; [by split|]. guards.
  destruct (map_res _ (List.seq 0 _)) as [|[|msk coeffs]] eqn:Ec; [by split; [destruct (tw_mkdir w _)|]..|]. cbn [bind]. split.
  - intros files. destruct (tw_mkdir w _); [|done]. cbn [negb]. unfold writeJSON.
    destruct (indent_public _) as [b|] eqn:Ei; [|done]. cbn [mbind option_bind]. destruct (tw_write w _); [|done].
    destruct (write_nodes _ _ _ _ _) as [st wfs] eqn:Ew. cbn [fst snd]. intros [= -> <-].
    apply write_nodes_ok in Ew as (nodes & bs & En & Hall & ->). rewrite En. cbn [bind]. eexists _, nodes. split; [done|].
    exists b, bs. split; [done|]. split; [done|]. by rewrite (length_map_nodes _ _ _ _ _ _ En), length_seq.
  - intros pub nodes Hkeys Hd Hw Hn Hpub. rewrite Hd. cbn [negb]. unfold writeJSON.
    destruct (Hpub (mkPublic (p1_compress (p1_mult p1_gen msk)) t n)) as [b ->]. cbn [mbind option_bind]. rewrite Hw. cbn [fst].
    destruct (map_res _ (List.seq 1 _)) as [|cs] eqn:En; [done|]. by eapply write_nodes_all.
Qed.
End keygen.

(** ** beast-encrypt *)
Section encrypt.
Context {B : CryptoOps.Blst} {G : AESGCM}.
Context {JP : Json publicConfig} {JI : Json innerEnvelope} {JO : Json outerEnvelope}.
Context (w : ToolWorld) (rnd : ClientRand).

Definition encrypt_flags : FlagSet :=
  list_to_map [("conf", VString ""); ("in", VString ""); ("target-height", VUint 0); ("mode", VString "batched")].

(** [readAll]: a file, or the standard input. *)
Definition readAll (path : string) : option bytes := if ⌜? path = "" ⌝ then tw_Stdin w else tw_ReadFile w path.

(** The failures that exit with status 2; the others exit with 1. *)
Definition encrypt_status (e : string) : Z :=
  if ⌜? e ∈ ["missing --conf or --target-height"; "invalid inner json"; "inner.from required";
             "batched mode requires n>0 in beast-public.json"; "unsupported mode"] ⌝ then 2 else 1.

(** The exit status, and the line printed. *)
Definition encrypt_main (args : list string) : Z * option bytes :=
  match Parse encrypt_flags args with
  | Exit status => (status, None)
  | Args fs _ =>
      RETURN (2%Z, None) IF ⌜? get_string fs "conf" = "" ⌝ || (get_uint fs "target-height" =? 0)%N ;;
      match tw_ReadFile w (get_string fs "conf") with
      | None => (1%Z, None)
      | Some conf =>
          match loadPublic (unmarshal conf) with
          | inl e => (1%Z, None)
          | inr _ =>
              match readAll (get_string fs "in") with
              | None => (1%Z, None)
              | Some inp =>
                  match beast_encrypt sha256 marshal (get_string fs "mode") (get_uint fs "target-height")
                          (unmarshal conf) (unmarshal inp) rnd with
                  | inl e => (encrypt_status e, None)
                  | inr o => (0%Z, Some (marshal o))
                  end
              end
          end
      end
  end.

Lemma beast_encrypt_envelope mode target pub inner o :
  beast_encrypt sha256 marshal mode target (Some pub) (Some inner) rnd = inr o →
  in_From inner ≠ "" ∧ target ≠ 0%N ∧ Client.oe_Type o = "private_v1" ∧ Client.oe_From o = in_From inner ∧
  Client.oe_TargetHeight o = target.
Proof.
  unfold beast_encrypt, must. destruct (N.eqb_spec target 0); [done|]. destruct (loadPublic (Some pub)) as [|pub']; [done|].
  cbn [bind]. destruct (String.eqb_spec (in_From inner) ""); [done|].
  set (inner' := if (Client.in_Type inner =? "")%string then _ else _).
  assert (in_From inner' = in_From inner) as Ef by (unfold inner'; by destruct (_ =? _)%string).
  unfold Client.encrypt_ibe, Client.encrypt_batched, bind. intros H. repeat case_match; simplify_eq; cbn; done.
Qed.

(** What beast-encrypt prints is an envelope for the height it was given. *)
Theorem encrypt_main_prints (args : list string) (out : bytes) :
  encrypt_main args = (0%Z, Some out) →
  ∃ fs rest conf inp pub inner o,
    Parse encrypt_flags args = Args fs rest ∧ tw_ReadFile w (get_string fs "conf") = Some conf ∧
    readAll (get_string fs "in") = Some inp ∧ unmarshal conf = Some pub ∧ unmarshal inp = Some inner ∧
    length (pc_GroupPubKey pub) = 48 ∧ in_From inner ≠ "" ∧ out = marshal o ∧
    beast_encrypt sha256 marshal (get_string fs "mode") (get_uint fs "target-height") (Some pub) (Some inner) rnd = inr o ∧
    Client.oe_Type o = "private_v1" ∧ Client.oe_From o = in_From inner ∧
    Client.oe_TargetHeight o = get_uint fs "target-height" ∧ (0 < Client.oe_TargetHeight o < two64)%N.
Proof.
  unfold encrypt_main. destruct (Parse encrypt_flags args) as [fs rest|] eqn:Ep; [|done].
  destruct (_ || _) eqn:Eb; [done|]. destruct (tw_ReadFile w _) as [conf|] eqn:Ec; [|done].
  destruct (loadPublic (unmarshal conf)) as [|pub] eqn:El; [done|]. destruct (readAll _) as [inp|] eqn:Ei; [|done].
  destruct (beast_encrypt _ _ _ _ _ _ _) as [e|o] eqn:Ee; [done|]. intros [= <-].
  assert (unmarshal conf = Some pub ∧ length (pc_GroupPubKey pub) = 48) as [Hpub Hlen].
  { revert El. unfold loadPublic, must. destruct (unmarshal conf) as [p|]; [|done]. cbn [bind].
    destruct (_ =? 0)%nat; [done|]. destruct (length (pc_GroupPubKey p) =? 48)%nat eqn:E; [|done].
    cbn [negb]. intros [= <-]. split; [done|]. by apply Nat.eqb_eq. }
  assert (is_Some (unmarshal inp : option innerEnvelope)) as [inner Hinner].
  { revert Ee. unfold beast_encrypt. destruct (_ =? 0)%N; [done|]. destruct (loadPublic _); [done|]. cbn [bind].
    destruct (unmarshal inp); [intros _; by eexists|done]. }
  rewrite Hpub, Hinner in Ee.
  apply beast_encrypt_envelope in Ee as H. destruct H as (H1 & H2 & H3 & H4 & H5).
  exists fs, rest, conf, inp, pub, inner, o. split_and!; try done; rewrite H5; [lia|].
  apply Parse_typed in Ep as [Hr _]; [by apply get_uint_range|].
  intros name v H%elem_of_list_to_map_2.
  repeat (apply elem_of_cons in H as [[= -> ->]|H]; [try done; unfold in_range, is_u64, two64; lia|]). by apply elem_of_nil in H.
Qed.
End encrypt.

(** ** gen-beast-dkg-config *)
Section gen.
Context {K : KeyGeneration} (marshalIndent : BeastDKGConfig → option bytes) (w : GenWorld).

Definition gen_defaults : list (string * FlagValue) :=
  [("out-dir", VString ""); ("session-id", VString "beast-dkg"); ("epoch", VUint 1); ("n", VInt 4); ("threshold", VInt 3);
   ("keyshare-path", VString "/data/tss_keyshare.dat"); ("session-dir", VString "/data/beast_dkg")].

Definition gen_flags : FlagSet := list_to_map gen_defaults.

Definition gen_options (fs : FlagSet) : GenFlags :=
  mkGenFlags (get_string fs "out-dir") (get_string fs "session-id") (get_uint fs "epoch") (get_int fs "n")
    (get_int fs "threshold") (get_string fs "keyshare-path") (get_string fs "session-dir").

Definition gen_command (args : list string) : GenResult :=
  match Parse gen_flags args with
  | Exit status => mkGenResult status []
  | Args fs _ => gen_main marshalIndent w (gen_options fs)
  end.

Definition gen_args (fl : GenFlags) : list (string * FlagValue) :=
  [("out-dir", VString (gf_OutDir fl)); ("session-id", VString (gf_SessionID fl)); ("epoch", VUint (gf_Epoch fl));
   ("n", VInt (gf_N fl)); ("threshold", VInt (gf_Threshold fl)); ("keyshare-path", VString (gf_KeyShare fl));
   ("session-dir", VString (gf_SessionDir fl))].

(** Every run of the script on parsed flags is that of a command line. *)
Lemma gen_command_given fl :
  is_u64 (gf_Epoch fl) → is_int (gf_N fl) → is_int (gf_Threshold fl) →
  gen_command (show_arg <$> gen_args fl) = gen_main marshalIndent w fl.
Proof.
  intros H1 H2 H3. unfold gen_command. rewrite <-(app_nil_r (show_arg <$> _)), Parse_all_given.
  - cbn [Parse]. f_equal. by destruct fl.
  - unfold gen_args.
    repeat (apply Forall_cons; split; [split; [by vm_compute|]; split; [done|by eexists; split; vm_compute]|]). by constructor.
Qed.

Lemma gen_command_default : gen_options gen_flags = default_gen_flags.
Proof. vm_compute. reflexivity. Qed.
End gen.
