(* ===== verification/Monitoring.v ===== *)
(** The monitoring server (src/internal/monitoring/service.go) over the metrics
    registry with its locks (src/pkg/metrics/metrics.go): the service, the page it
    serves, and what becomes of the metrics of a node when a page fails.

    A panic in a handler is recovered by the HTTP server, but the read lock that
    DumpProm holds then is not released. A read lock is granted unless a writer
    waits; a write lock waits for readers, here for those that never leave. *)
From S2P Require Import Prelude Metrics Api.

(** ** The service *)

(** [mo_srv] tells whether [srv] is set. *)
Record Service := mkService { mo_addr : string; mo_srv : bool }.

Definition mon_New (addr : string) : Service := mkService addr false.

Definition mon_op (op : string) (ms : N) : MEvent :=
  Observe "service_op_ms" [("service", "monitoring"); ("op", op)] (float64_of ms).

Definition mon_Start (ms : N) (s : Service) : Service * goerr * list MEvent :=
  (mkService (mo_addr s) true, nil_err, [mon_op "start" ms]).

(** [shutdown] is the error of the server's Shutdown. *)
Definition mon_Stop (shutdown : goerr) (ms : N) (s : Service) : Service * goerr * list MEvent :=
  RETURN (s, nil_err, [mon_op "stop" ms]) IF negb (mo_srv s) ;;
  (s, shutdown, [mon_op "stop" ms]).

(** ** The registry and its locks *)

(** [mx_held]: a reader holds the lock for good. [mx_waits]: a writer waits for
    it, for good. *)
Record RWMutex := mkRWMutex { mx_held : bool; mx_waits : bool }.
Definition unlocked : RWMutex := mkRWMutex false false.

(** [RLock], with what is done under it; [None] blocks for ever. *)
Definition with_RLock {A} (m : RWMutex) (k : A) : option A := if mx_waits m then None else Some k.

(** The state after [Lock], and whether it was granted. *)
Definition Lock (m : RWMutex) : RWMutex * bool :=
  if mx_held m then (mkRWMutex true true, false) else (m, negb (mx_waits m)).

Record Metrics := mkMetrics {
  reg : Registry;
  countersMu : RWMutex;
  gaugesMu : RWMutex;
  summaryMu : RWMutex;
}.

Definition metrics_init : Metrics := mkMetrics empty_registry unlocked unlocked unlocked.

(** How a call ends. *)
Inductive Ended := Returns | Panics | Blocks.

Section metrics.
Context {MI : MapIter}.

Definition set_reg (m : Metrics) (r : Registry) : Metrics := mkMetrics r (countersMu m) (gaugesMu m) (summaryMu m).
Definition set_counters (m : Metrics) (l : RWMutex) : Metrics := mkMetrics (reg m) l (gaugesMu m) (summaryMu m).
Definition set_gauges (m : Metrics) (l : RWMutex) : Metrics := mkMetrics (reg m) (countersMu m) l (summaryMu m).
Definition set_summaries (m : Metrics) (l : RWMutex) : Metrics := mkMetrics (reg m) (countersMu m) (gaugesMu m) l.

Definition key_of (name : string) (ls : list (string * string)) : string * string := (name, labelsKey (labels ls)).

(** Inc, ObserveSummary, AddGauge and SetGauge with their locks: an existing
    counter or gauge is updated without the write lock. *)
Definition emit (e : MEvent) (m : Metrics) : Metrics * Ended :=
  let write (l : RWMutex) (set : Metrics → RWMutex → Metrics) :=
    let '(l', granted) := Lock l in
    let m' := set m l' in
    if granted then (set_reg m' (apply_event (reg m') e), Returns) else (m', Blocks) in
  match e with
  | Inc name ls =>
      match with_RLock (countersMu m) (counters (reg m) !! key_of name ls) with
      | None => (m, Blocks)
      | Some (Some _) => (set_reg m (apply_event (reg m) e), Returns)
      | Some None => write (countersMu m) set_counters
      end
  | AddGauge name ls _ =>
      match with_RLock (gaugesMu m) (gauges (reg m) !! key_of name ls) with
      | None => (m, Blocks)
      | Some (Some _) => (set_reg m (apply_event (reg m) e), Returns)
      | Some None => write (gaugesMu m) set_gauges
      end
  | SetGauge _ _ _ => write (gaugesMu m) set_gauges
  | Observe _ _ v =>
      match v with
      | NaN | Inf => (m, Returns)
      | Fin _ => write (summaryMu m) set_summaries
      end
  end.

(** The calls of one thread, up to the first that does not return. *)
Fixpoint emits (es : list MEvent) (m : Metrics) : Metrics * Ended :=
  match es with
  | [] => (m, Returns)
  | e :: es' => match emit e m with (m', Returns) => emits es' m' | r => r end
  end.

(** The part of DumpProm under one lock; a panic leaves the lock held. *)
Definition dump_part (l : RWMutex) (set : Metrics → RWMutex → Metrics) (part : option string)
    (m : Metrics) : Metrics * (string + Ended) :=
  match with_RLock l part with
  | None => (m, inr Blocks)
  | Some None => (set m (mkRWMutex true (mx_waits l)), inr Panics)
  | Some (Some s) => (m, inl s)
  end.

Definition dump (m : Metrics) : Metrics * (string + Ended) :=
  match dump_part (countersMu m) set_counters (dump_counters (reg m)) m with
  | (m, inr r) => (m, inr r)
  | (m, inl cs) =>
      match dump_part (gaugesMu m) set_gauges (dump_gauges (reg m)) m with
      | (m, inr r) => (m, inr r)
      | (m, inl gs) =>
          match dump_part (summaryMu m) set_summaries (dump_summaries (reg m)) m with
          | (m, inr r) => (m, inr r)
          | (m, inl ss) => (m, inl (dump_header +:+ cs +:+ gs +:+ ss))
          end
      end
  end.

(** [handleMetrics]: the reply is written before the request is counted; [ms]
    is the latency. *)
Definition page_events (ms : N) : list MEvent :=
  [Inc "api_requests_total" [("route", "/metrics"); ("code", "200")];
   Observe "api_latency_ms" [("route", "/metrics")] (float64_of ms)].

Definition handleMetrics (ms : N) (m : Metrics) : Metrics * option Response * Ended :=
  match dump m with
  | (m, inr r) => (m, None, r)
  | (m, inl body) => let '(m, r) := emits (page_events ms) m in (m, Some (mkResponse 200 body), r)
  end.

(** ** While all labels are well formed *)

Definition well_labelled (e : MEvent) : Prop := Forall comma_free (event_labels e).

Definition free (m : Metrics) : Prop :=
  countersMu m = unlocked ∧ gaugesMu m = unlocked ∧ summaryMu m = unlocked.

(** Without a leaked lock, the locks are invisible. *)
Lemma emit_free e m : free m → emit e m = (mkMetrics (apply_event (reg m) e) unlocked unlocked unlocked, Returns).
Proof.
  destruct m as [r c g s]. intros (Hc & Hg & Hs). simpl in *. subst. unfold emit, with_RLock, Lock. simpl.
  destruct e as [n ls|n ls v|n ls d|n ls v]; simpl; try done.
  - by destruct (counters r !! _).
  - by destruct v.
  - by destruct (gauges r !! _).
Qed.

Lemma emits_free es m : free m → emits es m = (mkMetrics (apply_events (reg m) es) unlocked unlocked unlocked, Returns).
Proof.
  revert m. induction es as [|e es IH]; intros m Hm; simpl.
  - destruct m, Hm as (? & ? & ?). simpl in *. by subst.
  - rewrite emit_free by done. by rewrite IH.
Qed.

Lemma dump_free m : free m → registry_ok (reg m) → ∃ body, dump m = (m, inl body) ∧ DumpProm (reg m) = Some body.
Proof.
  intros (Hc & Hg & Hs) ([cs Ec] & [gs Eg] & [ss Es])%dump_parts_total.
  destruct m. simpl in *. subst. unfold dump, dump_part, DumpProm. simpl. rewrite Ec. simpl. rewrite Eg. simpl.
  rewrite Es. by eexists.
Qed.

Lemma apply_events_ok es r : Forall well_labelled es → registry_ok r → registry_ok (apply_events r es).
Proof.
  intros H. revert r. induction H as [|e es He _ IH]; [done|]. intros r Hr. simpl. apply IH. by apply apply_event_ok.
Qed.

Lemma page_well_labelled ms : Forall well_labelled (page_events ms).
Proof. repeat constructor. Qed.

(** A page is served, and counted. *)
Lemma handleMetrics_free ms m :
  free m → registry_ok (reg m) → ∃ body, DumpProm (reg m) = Some body ∧
    handleMetrics ms m = (mkMetrics (apply_events (reg m) (page_events ms)) unlocked unlocked unlocked,
                          Some (mkResponse 200 body), Returns).
Proof.
  intros Hm Hr. destruct (dump_free m Hm Hr) as (body & E & Hb). exists body. split; [done|].
  unfold handleMetrics. rewrite E. by rewrite emits_free.
Qed.

(** ** After a page has failed *)

(** One label with a comma, under a counter, is enough: the page panics, from
    then on no counter can be created, and the first attempt also stops every
    update of a counter that exists, and every later page. *)
Lemma failed_page_freezes_counters ms m e :
  free m → dump_counters (reg m) = None →
  let '(m1, resp, r1) := handleMetrics ms m in
  resp = None ∧ r1 = Panics ∧
  (∀ name ls, e = Inc name ls → counters (reg m) !! key_of name ls = None →
   let '(m2, r2) := emit e m1 in
   r2 = Blocks ∧ (∀ name' ls', (emit (Inc name' ls') m2).2 = Blocks) ∧ (∀ ms', (handleMetrics ms' m2).2 = Blocks)).
Proof.
  destruct m. intros (Hc & _) Hd. simpl in *. subst. unfold handleMetrics, dump, dump_part at 1. simpl. rewrite Hd. simpl. split_and!; [done|done|].
  intros name ls -> Hk. unfold emit, with_RLock, Lock. simpl. rewrite Hk. simpl. split_and!; [done|done|].
  intros ms'. unfold handleMetrics, dump, dump_part. done.
Qed.
End metrics.
