(* ===== verification/NodeMetrics.v ===== *)
(** The metrics of the whole node (what main.go wires, over
    src/internal/monitoring and src/pkg/metrics): every label that the node emits
    is well formed, whatever comes from the network and from clients, so that
    the metrics page is always served and no metric call ever blocks. *)
From stdpp Require Import pretty.
From S2P Require Import CryptoOps Feldman.
From S2P Require Import Prelude GoStrings Metrics Codec Files StateStore Sha256 QbftMessage QbftVerifier QbftState QbftWal.
From S2P Require Import NoncePool Payload Dfba Builder P2p Tss TssStores Runner Lifecycle Consensus Private Api Transport Node Main Monitoring.

Notation clean := (Forall well_labelled).
Definition comma_less (s : string) : Prop := has_char ","%char s = false.

(** ** Labels with a variable part *)
Lemma well_labelled_1 (name k v : string) :
  comma_less k → comma_less v → well_labelled (Inc name [(k, v)]).
Proof. by repeat constructor. Qed.

Lemma well_labelled_0 (name : string) : well_labelled (Inc name []).
Proof. constructor. Qed.

(** The events of a branch, one by one. *)
Ltac clean_tac :=
  repeat first [apply List.Forall_nil|apply List.Forall_cons|apply well_labelled_0|apply well_labelled_1];
  try done; try (by repeat constructor).

Lemma pretty_N_go_comma_less n s : comma_less s → comma_less (pretty_N_go n s).
Proof.
  revert s. induction (N.lt_wf_0 n) as [n _ IH]; intros s Hs. destruct (decide (n = 0%N)) as [->|Hn].
  { by rewrite pretty_N_go_0. }
  rewrite pretty_N_go_step by lia. apply IH; [apply N.div_lt; lia|]. unfold comma_less. simpl. rewrite Hs, orb_false_r.
  unfold pretty_N_char. destruct (n `mod` 10)%N as [|p]; [done|].
  by repeat (destruct p as [p|p|]; try done).
Qed.

Lemma pretty_comma_less (z : Z) : comma_less (pretty z).
Proof.
  assert (∀ n : N, comma_less (pretty n)) as HN.
  { intros n. unfold pretty, pretty_N. case_decide; [done|]. by apply pretty_N_go_comma_less. }
  destruct z as [|p|p]; [done|apply (HN (Npos p))|]. unfold comma_less. simpl. apply (HN (Npos p)).
Qed.

#[local] Hint Resolve well_labelled_1 pretty_comma_less : core.

(** ** Consensus *)
Section consensus.
Context {MI : MapIter}.

Lemma Verify_clean v m v' err ev :
  Verify v m = (v', err, ev) → clean ev ∧ (err = nil_err → validType (Type_ m) = true).
Proof.
  unfold Verify, verified. destruct (validType (Type_ m)) eqn:Ht.
  - assert (comma_less (Type_ m)) as Hc.
    { unfold validType in Ht. apply bool_decide_eq_true in Ht. rewrite !elem_of_cons, elem_of_nil in Ht.
      by destruct Ht as [->|[->|[->|[->|[->|[]]]]]]. }
    destruct (check_replay v m) as [r dup].
    repeat (case_match; simpl); intros [= <- <- <-];
      (split; [constructor; [first [by apply well_labelled_1|by repeat constructor]|done]|done]).
  - rewrite orb_true_r. intros [= <- <- <-]. split; [by repeat constructor|done].
Qed.
Lemma validType_comma_less t : validType t = true → comma_less t.
Proof.
  unfold validType. rewrite bool_decide_eq_true, !elem_of_cons, elem_of_nil.
  by intros [->|[->|[->|[->|[->|[]]]]]].
Qed.

Lemma Process_clean st m st' err ev :
  validType (Type_ m) = true → Process st m = Some (st', (err, ev)) → clean ev.
Proof.
  intros Ht%validType_comma_less.
  assert (∀ s extra, finish m s extra = Some (st', (err, ev)) → clean extra → clean ev) as Hfin.
  { intros s extra [= <- <- <-] H. simpl. constructor; [by apply well_labelled_1|]. apply Forall_app. split; [done|]. clean_tac. }
  assert (∀ s e, fail m s e = Some (st', (err, ev)) → clean ev) as Hfail.
  { intros s e [= <- <- <-]. clean_tac. }
  unfold Process. generalize (set_coords st (Height m)
    (if ⌜? Type_ m = MsgViewChange ⌝ || ⌜? Type_ m = MsgNewView ⌝ then st_Round st else Round m)). intros s.
  unfold processPreprepare, processPrepare, processCommit, processViewChange, processNewView.
  repeat match goal with
  | |- (if ?b then _ else _) = _ → _ => destruct b
  | |- (_ ≫= _) = _ → _ => let E := fresh in intros E; apply bind_Some in E as (? & _ & E); revert E
  | |- fail _ _ _ = _ → _ => apply Hfail
  | |- finish _ _ _ = _ → _ => let E := fresh in intros E; apply (Hfin _ _ E); by clean_tac
  end.
Qed.

(** *** The pools *)
Lemma Add_clean {T} `{!NonceTx T} (p : Pool (T := T)) tx : clean (NoncePool.Add p tx).2.
Proof. unfold NoncePool.Add. by repeat (case_match; simpl); repeat constructor. Qed.

Lemma container_Add_clean early now c p : clean (container_Add early now c p).2.
Proof.
  unfold container_Add. destruct (impl c !! Type_of p) as [pool|]; [|done].
  assert (clean (mempool_Add early pool p).2) as H.
  { unfold mempool_Add. destruct pool as [q|q|q], p as [tx|tx|tx]; simpl; try done.
    - pose proof (Add_clean q tx). by destruct (NoncePool.Add q tx) as [[] ].
    - pose proof (Add_clean q tx). by destruct (NoncePool.Add q tx) as [[] ].
    - unfold private_Add. by repeat (case_match; simplify_eq; simpl); repeat constructor. }
  by destruct (mempool_Add early pool p) as [[] ].
Qed.

(** *** The builder *)
Context {D : Type} {PD : PrivateDecrypter D}.

Lemma decrypt_clean (d : D) hdr cands : clean (decryptAndMapPrivate d hdr cands).2.
Proof.
  revert d. induction cands as [|p cands IH]; intros d; simpl; [done|].
  destruct (Decrypt d hdr p) as [d1 [[dec|] [e|]]]; pose proof (IH d1) as H;
    destruct (decryptAndMapPrivate d1 hdr cands) as [[d2 out] ev]; simpl in *;
    (constructor; [apply well_labelled_1; [done|try by destruct e]|done]); done.
Qed.

Lemma reject_clean typ reason : comma_less typ → comma_less reason → well_labelled (reject_event typ reason).
Proof. by repeat constructor. Qed.

Lemma candidates_clean env (d : D) c hdr pol typ : comma_less typ → clean (candidates env d c hdr pol typ).2.
Proof.
  intros Ht. unfold candidates. set (now := be_now env). set (dur := window_dur pol).
  assert (∀ cands, clean (filterByWindowAndThreshold c cands typ pol now dur).2) as Hf.
  { induction cands as [|p cands IH]; simpl; [done|].
    destruct (filterByWindowAndThreshold c cands typ pol now dur) as [out ev]. simpl in IH.
    destruct (reject_reason c typ pol now dur p) as [reason|] eqn:E; [|done].
    constructor; [|done]. apply reject_clean; [done|]. revert E. unfold reject_reason, belowThreshold.
    by repeat (case_match; simpl); intros; simplify_eq. }
  specialize (Hf (GetAll c typ)). destruct (filterByWindowAndThreshold _ _ _ _ _ _) as [filtered ev]. simpl in Hf.
  destruct (_ && _); [|done]. pose proof (decrypt_clean d hdr filtered) as Hd.
  destruct (decryptAndMapPrivate d hdr filtered) as [[d' out] ev']. simpl in *. by apply Forall_app.
Qed.

Lemma prepare_types_clean env c hdr pol max window order (d : D) res :
  Forall comma_less order → clean (prepare_types env c hdr pol max window order d res).2.
Proof.
  intros Ho. revert d res. induction Ho as [|typ order Ht _ IH]; intros d res; simpl; [done|].
  destruct (_ <=? 0)%Z; [done|]. pose proof (candidates_clean env d c hdr pol typ Ht) as Hc.
  destruct (candidates env d c hdr pol typ) as [[d1 filtered] ev]. simpl in Hc.
  set (sel := takeDeterministic _ _ _). specialize (IH d1 (res ++ sel)).
  destruct (prepare_types _ _ _ _ _ _ order d1 (res ++ sel)) as [[d2 res2] ev2]. simpl in *.
  rewrite !Forall_app, Forall_fmap. split_and!; [done| |done]. apply Forall_true. intros ?. by apply well_labelled_1.
Qed.

Lemma collect_items_clean env c hdr pol order (d : D) :
  Forall comma_less order → let '(_, items, ev) := collect_items env c hdr pol order d in
  clean ev ∧ Forall (λ it, comma_less (it_Type it)) items.
Proof.
  intros Ho. revert d. induction Ho as [|typ order Ht _ IH]; intros d; simpl; [done|].
  pose proof (candidates_clean env d c hdr pol typ Ht) as Hc.
  destruct (candidates env d c hdr pol typ) as [[d1 filtered] ev]. simpl in Hc. specialize (IH d1).
  destruct (collect_items env c hdr pol order d1) as [[d2 items] ev2]. destruct IH as [H1 H2].
  rewrite !Forall_app, Forall_fmap. split_and!; try done. by apply Forall_true.
Qed.

(** The solver picks among the items it is given. *)
Notation Items := (list (Item (P := Payload.Payload))).

Lemma sorted_in (items : Items) typ : sortItems (byType items typ) ⊆ items.
Proof. intros it. rewrite sortItems_perm. unfold byType. rewrite list_elem_of_filter. tauto. Qed.

Lemma take_need_in need remain (l items : Items) : l ⊆ items → take_need need remain l ⊆ items.
Proof. intros H. unfold take_need. by rewrite subseteq_take. Qed.

Lemma selectPerType_in (items : Items) order max window sel :
  sel ⊆ items → selectPerType items order max window sel ⊆ items.
Proof.
  revert sel. induction order as [|typ order IH]; intros sel H; simpl; [done|].
  destruct (_ <=? 0)%Z; [done|]. apply IH. apply list_subseteq_app_iff_l. split; [done|].
  apply take_need_in, sorted_in.
Qed.

Lemma groupMatched_in (items bids users : Items) order max window sel :
  bids ⊆ items → users ⊆ items → sel ⊆ items → groupMatched items bids users order max window sel ⊆ items.
Proof.
  intros Hb Hu. revert sel. induction order as [|typ order IH]; intros sel H; simpl; [done|].
  apply IH. apply list_subseteq_app_iff_l. split; [done|].
  case_bool_decide; [done|]. case_bool_decide; [done|]. apply take_need_in, sorted_in.
Qed.

Lemma SolveDeterministic_clean ms (items : Items) pol :
  (SolveDeterministic ms items pol).1 ⊆ items ∧ clean (SolveDeterministic ms items pol).2.
Proof.
  unfold SolveDeterministic.
  set (fb := (selectPerType items (dp_Order pol) _ _ [], _)).
  assert (fb.1 ⊆ items ∧ clean fb.2) as Hfb.
  { split; [apply selectPerType_in, list_subseteq_nil|repeat constructor]. }
  destruct (_ || _); [done|]. destruct (_ <=? 0)%Z; [done|]. destruct (_ <=? 0)%Z; [done|]. split.
  - apply groupMatched_in; [rewrite subseteq_take; apply sorted_in..|apply list_subseteq_nil].
  - cbn [snd]. rewrite !Forall_app. split_and!; [|unfold matched_events; rewrite !Forall_app; split_and!|repeat constructor].
    + unfold clearing_price. repeat case_match; repeat constructor.
    + apply Forall_concat, Forall_replicate. repeat constructor.
    + apply Forall_replicate. repeat constructor.
    + apply Forall_replicate. repeat constructor.
Qed.

Lemma PrepareProposal_clean env (d : D) c hdr pol :
  Forall comma_less (Order pol) → clean (PrepareProposal env d c hdr pol).2.
Proof.
  intros Ho. unfold PrepareProposal, prepareProposalDFBA. destruct (UseDFBA pol).
  - pose proof (collect_items_clean env c hdr pol (Order pol) d Ho) as Hc.
    destruct (collect_items env c hdr pol (Order pol) d) as [[d1 items] ev]. destruct Hc as [H1 H2].
    pose proof (SolveDeterministic_clean (be_durMs env) items
      (dfba_policy pol (clamp_max (MaxN pol)) (clamp_window (Window pol) (clamp_max (MaxN pol))))) as [Hin H3].
    destruct (SolveDeterministic _ _ _) as [sel ev2]. simpl in *. rewrite Forall_forall in H2.
    rewrite !Forall_app, !Forall_fmap, !Forall_forall. split_and!; [by apply Forall_forall..| |].
    + intros it Hit. apply well_labelled_1; [done|]. by apply H2, Hin.
    + intros it [_ Hit]%list_elem_of_filter. apply reject_clean; [by apply H2|done].
  - pose proof (prepare_types_clean env c hdr pol (clamp_max (MaxN pol)) (clamp_window (Window pol) (clamp_max (MaxN pol)))
      (Order pol) d [] Ho) as H.
    by destruct (prepare_types _ _ _ _ _ _ _ _ _) as [[d' res] ev].
Qed.
End consensus.

(** *** A turn of the loop *)
Definition emitted (ef : list Effect) : list MEvent := omap (λ x, match x with EMetric e => Some e | _ => None end) ef.

Lemma emitted_app a b : emitted (a ++ b) = emitted a ++ emitted b.
Proof. apply omap_app. Qed.
Lemma emitted_metrics es : emitted (metrics es) = es.
Proof. induction es as [|e es IH]; [done|]. cbn. by f_equal. Qed.

Section turns.
Context {MI : MapIter} {D : Type} {PD : PrivateDecrypter D}.
Context {WJ : Json walEntry} {BJ : Json StandardBlock}.
Notation Service := (Consensus.Service (V := BasicVerifier) (P := State) (ST := MemoryStore) (D := D)).
Implicit Types (s : Service) (e : TurnEnv (SE := unit)).

Lemma append_intent_emits e s msg : clean (emitted (append_intent e s msg).2).
Proof.
  unfold append_intent. destruct (sv_wal s) as [p|]; [|done]. destruct (negb _); [done|].
  unfold AppendIntent. repeat (case_match; simplify_eq; simpl); rewrite ?emitted_metrics; clean_tac.
Qed.

Lemma append_intent_policy e s msg : sv_policy (append_intent e s msg).1 = sv_policy s.
Proof.
  unfold append_intent. destruct (sv_wal s); [|done]. destruct (negb _); [done|].
  by destruct (AppendIntent _ _ _ _) as [[fs' err] ev].
Qed.

Lemma build_block_emits e s msg : Forall comma_less (Order (sv_policy s)) → clean (emitted (build_block e s msg).2).
Proof.
  intros Ho. unfold build_block. destruct (sv_pool s) as [pool|]; [|done]. destruct (negb _); [done|].
  pose proof (PrepareProposal_clean (te_build e) (sv_dec s) pool (mkBlockHeader (Height msg) (Round msg)) (sv_policy s) Ho) as H.
  destruct (PrepareProposal _ _ _ _ _) as [[d blk] ev]. destruct (ProcessProposal _ _); simpl; by rewrite emitted_metrics.
Qed.

Lemma broadcast_emits e s msg : validType (Type_ msg) = true → clean (emitted (broadcast_vote e s msg)).
Proof.
  intros Ht%validType_comma_less. unfold broadcast_vote. destruct (negb _); [done|]. simpl. constructor; [|done].
  repeat constructor; simpl; try done. by destruct (te_bc_err e).
Qed.

Lemma account_emits e s msg : clean (emitted (account_block e s msg)).
Proof.
  unfold account_block. destruct (_ ≫= _); [|done]. cbn. destruct (_ && _); cbn; repeat constructor. by destruct (te_sign_err e).
Qed.

Lemma apply_message_emits e s msg s' ef :
  validType (Type_ msg) = true → apply_message e s msg = Some (s', ef) → clean (emitted ef).
Proof.
  intros Ht. unfold apply_message. destruct (p_Process (sv_st s) msg) as [[st' [err ev]]|] eqn:E; simpl; [|done].
  intros [= <- <-]. cbn. rewrite !emitted_app, emitted_metrics. cbn. rewrite !Forall_app. split_and!; [|apply account_emits|done].
  by eapply (Process_clean (sv_st s) msg).
Qed.

(** The kinds that the publishers of the node use. *)
Definition published (ev : Event) : Prop := ev_Kind ev ∈ [KindDuty; KindConsensus; KindTx].

Lemma handle_event_emits e s ev s' ef :
  Forall comma_less (Order (sv_policy s)) → published ev → handle_event e s ev = Some (s', ef) → clean (emitted ef).
Proof.
  intros Ho Hp. assert (comma_less (ev_Kind ev)) as Hk.
  { unfold published in Hp. rewrite !elem_of_cons, elem_of_nil in Hp. by destruct Hp as [->|[->|[->|[]]]]. }
  assert (∀ v, well_labelled (Observe "consensus_proc_ms" [("kind", ev_Kind ev)] v)) as Hobs by (by repeat constructor).
  unfold handle_event. case_bool_decide.
  - destruct (sv_pool s) as [c|]; [|by intros [= <- <-]]. destruct (ev_Body ev) as [| |p|]; try by intros [= <- <-].
    pose proof (container_Add_clean (te_early e) (te_now e) c p) as Ht.
    destruct (container_Add _ _ c p) as [[c' err] mev]. intros [= <- <-]. by rewrite emitted_metrics.
  - destruct (v_Verify _ _) as [[v' err] vev] eqn:Ev. destruct (Verify_clean _ _ _ _ _ Ev) as [Hv Ht].
    destruct err as [er|].
    { intros [= <- <-]. cbn. constructor; [by apply well_labelled_1|]. rewrite emitted_app, emitted_metrics.
      apply Forall_app. split; [done|]. by constructor. }
    specialize (Ht eq_refl). unfold handle_verified. set (msg := MapEventToQBFT ev) in *.
    pose proof (append_intent_emits e (set_v s v') msg) as H1.
    pose proof (append_intent_policy e (set_v s v') msg) as Hpol.
    destruct (append_intent e (set_v s v') msg) as [s1 ef1]. simpl in H1, Hpol.
    pose proof (broadcast_emits e s1 msg Ht) as H2.
    pose proof (build_block_emits e s1 msg) as H3. rewrite Hpol in H3. specialize (H3 Ho).
    destruct (build_block e s1 msg) as [s2 ef3]. simpl in H3.
    destruct (negb _); cbn [mbind option_bind].
    { intros [= <- <-]. cbn. constructor; [by apply well_labelled_1|]. rewrite !emitted_app, emitted_metrics, !Forall_app.
      split_and!; try done; clean_tac; by apply Hobs. }
    destruct (apply_message e s2 msg) as [[s3 ef4]|] eqn:E; cbn [mbind option_bind]; [|done]. intros [= <- <-].
    pose proof (apply_message_emits _ _ _ _ _ Ht E) as H4.
    cbn. constructor; [by apply well_labelled_1|]. rewrite !emitted_app, emitted_metrics, !Forall_app.
    split_and!; try done; clean_tac; by apply Hobs.
Qed.
End turns.

(** ** The other parts *)

(** *** The API *)
Definition api_emitted (ef : list AEffect) : list MEvent := omap (λ x, match x with AMetric e => Some e | _ => None end) ef.

Lemma api_metrics_emits route code ms : comma_less route → comma_less code → clean (api_emitted (api_metrics route code ms)).
Proof. intros. repeat constructor; try done. Qed.

Lemma accepted_emits r route ef :
  comma_less route → clean (api_emitted ef) → clean (api_emitted (Api.accepted r route ef).2).
Proof.
  intros Hr He. unfold Api.accepted, api_emitted. simpl. rewrite omap_app, Forall_app. split; [done|].
  by apply (api_metrics_emits route "202").
Qed.

Lemma serve_emits {JD : Json dutyEnvelope} {JT : Json TxEnvelope} valid_url upstream (s : Api.Service) (r : Request) :
  clean (api_emitted (serve valid_url upstream s r).2).
Proof.
  assert (∀ route code e, comma_less route → clean (api_emitted (logAPI r route code e).2)) as Hlog.
  { intros route code e H. by apply api_metrics_emits. }
  unfold serve, handleHealth, handleDuty, handleTxPlain, proxy.
  repeat (case_match; simpl); try done; try (by apply Hlog); try (by apply api_metrics_emits);
    apply accepted_emits; done.
Qed.

(** *** The transport *)
Definition net_emitted (ef : list TEffect) : list MEvent := omap (λ x, match x with TMetric e => Some e | _ => None end) ef.

Lemma receive_emits {W} {J : Json W} topic set deliver data :
  comma_less topic → clean (net_emitted (receive topic set deliver data)).
Proof. intros Ht. unfold receive. repeat (case_match; simpl); repeat constructor; done. Qed.

Lemma arrive_emits {JQ : Json Wire.QBFT} {JT : Json TxEnvelope} {JS : Json BeastShare} {JD : Json TSSDKG}
    (t : Libp2pTransport) topic data : clean (net_emitted (arrive t topic data)).
Proof.
  unfold arrive, loopQBFT, loopTx, loopTxPriv, loopBeastShare, loopTSSDKG.
  repeat case_match; try done; by apply receive_emits.
Qed.

Lemma broadcast_emits_net pub t need topic data : comma_less topic → clean (net_emitted (broadcast pub t need topic data).2).
Proof. intros Ht. unfold broadcast. repeat (case_match; simpl); repeat constructor; done. Qed.

(** *** Peer admission *)
Lemma gate_reason g id : comma_less (gate_admit g id).2.2.
Proof.
  unfold gate_admit, combined_AllowWithReason, rate_AllowWithReason, score_AllowWithReason.
  by repeat (case_match; simplify_eq; simpl).
Qed.

Lemma conn_attempt_clean s : comma_less s → well_labelled (conn_attempt s).
Proof. by repeat constructor. Qed.

Lemma p2p_step_emits s op : clean (p2p_step s op).2.2.
Proof.
  destruct op as [id|id| |]; unfold p2p_step.
  - unfold Connect. pose proof (gate_reason (gate s) id) as Hg. destruct (gate_admit (gate s) id) as [g [ok reason]]. simpl in Hg.
    unfold TryOpen, AddPeer, OnPeerJoin. repeat (case_match; simplify_eq; simpl);
      repeat first [apply List.Forall_nil|apply List.Forall_cons|apply conn_attempt_clean]; try done; by repeat constructor.
  - unfold Disconnect, RemovePeer, Close, OnPeerLeave. repeat (case_match; simplify_eq; simpl); by clean_tac.
  - unfold TryOpenTSS, tss_TryOpen. repeat (case_match; simplify_eq; simpl); by clean_tac.
  - unfold CloseTSS, tss_Close. repeat (case_match; simplify_eq; simpl); by clean_tac.
Qed.

(** *** The DKG runner *)
Definition dkg_emitted (ef : list REffect) : list MEvent := omap (λ x, match x with RMetric e => Some e | _ => None end) ef.

Section runner.
Context {B : CryptoOps.Blst} {G : AESGCM} {A : DKGAuth} {J : Json TSSDKG}.
Context (cfg : BeastDKGConfig) (epochTimeout : Z).

Definition calm (t : turn) : Prop := clean (dkg_emitted t.2).

Lemma calm_andthen t k : calm t → (∀ r, calm (k r)) → calm (andthen t k).
Proof.
  destruct t as [r e]. unfold calm, andthen. intros H Hk. specialize (Hk r). destruct (k r) as [r' e']. simpl in *.
  unfold dkg_emitted. rewrite omap_app. by apply Forall_app.
Qed.

Lemma calm_ret r : calm (ret r).
Proof. by constructor. Qed.
Lemma calm_persist r : calm (persistLocked cfg r).
Proof. unfold persistLocked, calm. simpl. by case_bool_decide. Qed.

Lemma calm_send r m : calm (r, send cfg m).
Proof. unfold calm, send. simpl. by destruct (signMessage cfg m). Qed.

Lemma calm_shares env r : calm (broadcastMissingShares cfg env r).
Proof.
  unfold broadcastMissingShares, calm. simpl. generalize (seqZ 1 (bc_N cfg)). intros l.
  induction l as [|i l IH]; [done|]. cbn [fmap list_fmap concat]. unfold dkg_emitted. rewrite omap_app.
  apply Forall_app. split; [|exact IH]. destruct (_ || _); [done|]. destruct (share_message cfg env r i) as [m|]; [|done].
  exact (calm_send r m).
Qed.

Ltac calm :=
  repeat first
    [ apply calm_ret | apply calm_persist | apply calm_send | apply calm_shares
    | match goal with
      | |- calm (andthen _ _) => apply calm_andthen; [|intros ?]
      | |- calm (if ?b then _ else _) => destruct b
      | |- calm (match ?x with _ => _ end) => destruct x
      | |- calm (_, match ?x with _ => _ end) => destruct x
      | |- calm (let _ := _ in _) => cbv zeta
      end
    | by repeat constructor ].

Lemma calm_ensure env r : calm (ensureLocalPoly cfg env r).1.
Proof.
  unfold ensureLocalPoly. repeat case_match; simpl; first [apply calm_ret|apply calm_persist].
Qed.

Lemma calm_bump env epoch r : calm (bumpEpoch cfg env epoch r).
Proof. unfold bumpEpoch, broadcastCommitments. calm. apply calm_ensure. Qed.

Lemma calm_finalize env r : calm (maybeFinalize cfg env r).
Proof.
  unfold maybeFinalize. destruct (finalize_begin cfg r) as [r' []]; [apply calm_ret|apply calm_bump|].
  apply calm_andthen; [by repeat constructor|]. intros r2. unfold finalize_end. calm.
Qed.

Lemma calm_disqualify d r : calm (disqualify cfg d r).
Proof. unfold disqualify, disqualifyDealerLocked. calm. Qed.

Lemma calm_onShare m r : calm (onShare cfg m r).
Proof.
  unfold onShare, broadcastAck, broadcastComplaint. calm.
Qed.

Lemma calm_onShareOpen m r : calm (onShareOpen cfg m r).
Proof. unfold onShareOpen, accept_open, broadcastAck. calm; apply calm_disqualify. Qed.

Lemma OnMessage_emits env m r : calm (Runner.OnMessage cfg env m r).
Proof.
  unfold Runner.OnMessage, dispatch. calm; try apply calm_bump; try apply calm_finalize;
    unfold onCommitments, tryProcessPending, onAck, onComplaint, broadcastShareOpen; calm;
    try apply calm_disqualify; try apply calm_onShare; apply calm_onShareOpen.
Qed.

Lemma tick_emits env r : calm (tick cfg epochTimeout env r).
Proof. unfold tick, broadcastCommitments. calm. apply calm_bump. Qed.
End runner.

(** ** The node *)

(** The publishers of main.go put events of the known kinds on the bus. *)
Lemma api_publish_published ctx b : published (api_publish ctx b).
Proof. unfold published. set_solver. Qed.
Lemma tx_publish_published ctx p : published (tx_publish ctx p).
Proof. unfold published. set_solver. Qed.
Lemma on_qbft_published m : published (on_qbft m).
Proof. unfold published. set_solver. Qed.
Lemma on_tx_published p : published (on_tx p).
Proof. unfold published. set_solver. Qed.

(** What happens to the metrics of a node: one of its parts emits, or a page is
    asked for. *)
Inductive Call := Emit (es : list MEvent) | Page (ms : N).

Definition call_events (c : Call) : list MEvent := match c with Emit es => es | Page ms => page_events ms end.

Definition run_call {MI : MapIter} (c : Call) (m : Monitoring.Metrics) : Monitoring.Metrics * Ended :=
  match c with
  | Emit es => emits es m
  | Page ms => let '(m', _, r) := handleMetrics ms m in (m', r)
  end.

(** The calls in order, and how each of them ends. *)
Fixpoint run_calls {MI : MapIter} (cs : list Call) (m : Monitoring.Metrics) : Monitoring.Metrics * list Ended :=
  match cs with
  | [] => (m, [])
  | c :: cs' => let '(m1, r) := run_call c m in let '(m2, rs) := run_calls cs' m1 in (m2, r :: rs)
  end.

Section node.
Context {MI : MapIter} {B : CryptoOps.Blst} {G : AESGCM} {A : DKGAuth}.
Context {JE : Json jsonEnvelope} {WJ : Json walEntry} {BJ : Json StandardBlock} {JC : Json Private.Config}.
Context {JD : Json dutyEnvelope} {JT : Json TxEnvelope} {JQ : Json Wire.QBFT} {JS : Json BeastShare} {JK : Json TSSDKG}.
Context (fl : Flags) (w : World) (fs : FS).

(** What the parts that main.go wires emit: the consensus loop after any turns,
    the API, the transport both ways, peer admission, the TSS service, the
    runner of the DKG, and the monitoring service itself. *)
Inductive node_emits : list MEvent → Prop :=
  | ne_turn evs (s : Consensus.Service (V := BasicVerifier) (P := State) (ST := MemoryStore) (D := Dec)) ef0 e ev s' ef :
      handle_events (SE := unit) (main_started fl w fs) evs = Some (s, ef0) →
      published ev → handle_event e s ev = Some (s', ef) → node_emits (emitted ef)
  | ne_request valid_url upstream r :
      node_emits (api_emitted (serve valid_url upstream (main_api fl w) r).2)
  | ne_arrive t topic data : node_emits (net_emitted (arrive t topic data))
  | ne_send_qbft pub t m : node_emits (net_emitted (BroadcastQBFT (Transport := libp2p pub) t m).2)
  | ne_send_tx pub t p : node_emits (net_emitted (BroadcastTx (Transport := libp2p pub) t p).2)
  | ne_send_share pub t s : node_emits (net_emitted (BroadcastBeastShare (Transport := libp2p pub) t s).2)
  | ne_send_dkg pub t m : node_emits (net_emitted (BroadcastTSSDKG (Transport := libp2p pub) t m).2)
  | ne_p2p_start ms s : node_emits (P2p.Start ms s).2
  | ne_p2p_stop ms s : node_emits (P2p.Stop ms s).2
  | ne_p2p s op : node_emits (p2p_step s op).2.2
  | ne_tss_start ms s : node_emits (tss_Start ms s).2
  | ne_tss_stop ms s : node_emits (tss_Stop ms s).2
  | ne_dkg cfg env m r : node_emits (dkg_emitted (Runner.OnMessage cfg env m r).2)
  | ne_dkg_tick cfg timeout env r : node_emits (dkg_emitted (tick cfg timeout env r).2)
  | ne_mon_start ms s : node_emits (mon_Start ms s).2
  | ne_mon_stop err ms s : node_emits (mon_Stop err ms s).2.

Lemma started_order : Forall comma_less (Order (sv_policy (main_started fl w fs))).
Proof.
  assert (∀ b, Forall comma_less (default_order b)) as Hd by (intros []; by repeat constructor).
  destruct (enableBuilder fl || env_set w "AEQUA_ENABLE_BUILDER") eqn:E.
  - by rewrite (main_started_policy fl w fs E).
  - unfold main_started, Start, start_policy. cbn [sv_enableBuilder main_consensus se_builder main_env]. rewrite E.
    apply orb_false_iff in E as [E _]. cbn. rewrite E. constructor.
Qed.

Lemma node_emits_clean es : node_emits es → clean es.
Proof.
  intros []; try apply serve_emits; try apply arrive_emits; try apply p2p_step_emits; try apply OnMessage_emits;
    try apply tick_emits; try (apply broadcast_emits_net; done).
  - eapply handle_event_emits; [|done|done].
    match goal with H : handle_events _ _ = _ |- _ => rewrite (sw_policy _ _ (handle_events_wiring _ _ _ _ H)) end.
    apply started_order.
  - simpl. repeat case_match; try done. apply broadcast_emits_net. unfold tx_topic. by case_match.
  - unfold P2p.Start. repeat (case_match; simplify_eq; simpl); by clean_tac.
  - by clean_tac.
  - unfold tss_Start. destruct (ts_p2p s) as [p|]; [|by clean_tac]. pose proof (p2p_step_emits p DoTryTSS) as H.
    simpl in H. destruct (TryOpenTSS p) as [[p' ok] ev]. apply Forall_app. split; [done|by clean_tac].
  - unfold tss_Stop. destruct (ts_p2p s) as [p|]; [|by clean_tac]. pose proof (p2p_step_emits p DoCloseTSS) as H.
    simpl in H. destruct (ts_opened s); [|by clean_tac]. destruct (CloseTSS p) as [p' ev].
    apply Forall_app. split; [done|by clean_tac].
  - by clean_tac.
  - unfold mon_Stop. case_match; by clean_tac.
Qed.

Lemma run_calls_spec cs m :
  (∀ es, Emit es ∈ cs → node_emits es) → free m → registry_ok (reg m) →
  let '(m', rs) := run_calls cs m in
  Forall (λ r, r = Returns) rs ∧ free m' ∧ registry_ok (reg m') ∧ reg m' = apply_events (reg m) (cs ≫= call_events).
Proof.
  revert m. induction cs as [|c cs IH]; intros m He Hm Hr; [done|]. cbn [run_calls].
  assert (run_call c m = (mkMetrics (apply_events (reg m) (call_events c)) unlocked unlocked unlocked, Returns) ∧
          clean (call_events c)) as [Ec Hc].
  { destruct c as [es|ms]; cbn [run_call call_events].
    - split; [by apply emits_free|]. apply node_emits_clean, He. by left.
    - split; [|apply page_well_labelled]. by destruct (handleMetrics_free ms m Hm Hr) as (body & _ & ->). }
  rewrite Ec. specialize (IH (mkMetrics (apply_events (reg m) (call_events c)) unlocked unlocked unlocked)).
  destruct (run_calls cs _) as [m' rs]. destruct IH as (H1 & H2 & H3 & H4).
  - intros es H. apply He. by right.
  - done.
  - by apply apply_events_ok.
  - split_and!; [by constructor|done|done|]. rewrite H4. cbn. unfold apply_events. by rewrite foldl_app.
Qed.

(** C26. The metrics of the node never stop. Whatever arrives from the network, from
    clients and from the other members of the committee, in any order with any
    number of scrapes, every metric call of the node returns, so that neither a
    panic of the exposition nor the read lock it would leave behind ever
    stops a part of the node; and at any point the page is answered 200 with
    the exposition of exactly what was emitted before. *)
Theorem node_metrics_never_stop (cs : list Call) (ms : N) :
  (∀ es, Emit es ∈ cs → node_emits es) →
  let '(m, rs) := run_calls cs metrics_init in
  Forall (λ r, r = Returns) rs ∧
  ∃ body, DumpProm (apply_events empty_registry (cs ≫= call_events)) = Some body ∧
    ∃ m', handleMetrics ms m = (m', Some (mkResponse 200 body), Returns).
Proof.
  intros He. pose proof (run_calls_spec cs metrics_init He) as H.
  destruct (run_calls cs metrics_init) as [m rs]. destruct H as (H1 & H2 & H3 & H4); [done|done|].
  split; [done|]. cbn [reg metrics_init] in H4. destruct (handleMetrics_free ms m H2 H3) as (body & Hb & Hp).
  exists body. rewrite <-H4. split; [done|]. by eexists.
Qed.
End node.

(** ** Concrete inputs *)
#[local] Existing Instances unit_blst toy_gcm toy_auth brief_json iter_forward wal_json block_json.
#[local] Instance nm_env_json : Json jsonEnvelope := one_json sample_env.
#[local] Instance nm_conf_json : Json Private.Config := one_json sample_conf.
#[local] Instance nm_duty_json : Json dutyEnvelope := one_json duty_body.
#[local] Instance nm_tx_json : Json TxEnvelope := one_json tx_wire.
#[local] Instance nm_qbft_json : Json Wire.QBFT := one_json (Wire.FromInternal (msg MsgPrepare "q" 7 0)).
#[local] Instance nm_share_json : Json BeastShare := one_json (mkBeastShare 1 1 []).

Definition health_request : Request := mkRequest "GET" "/health" None "t" 0 3.
Definition proposal_event : Event := consensus_event (msg MsgPreprepare "p" 7 0).
Definition proposal_effects : list Effect :=
  match handle_event sample_turn (main_started builder_flags quiet_world ∅) proposal_event with Some r => r.2 | None => [] end.

Definition health_effects : list AEffect :=
  (serve (λ _, true) (λ _, None) (main_api builder_flags quiet_world) health_request).2.

Definition sample_calls : list Call := [Emit (api_emitted health_effects); Page 2; Emit (emitted proposal_effects)].

Lemma node_metrics_never_stop_witness :
  let '(m, rs) := run_calls sample_calls metrics_init in
  rs = [Returns; Returns; Returns] ∧ length (sample_calls ≫= call_events) = 11 ∧
  ∃ body m', handleMetrics 1 m = (m', Some (mkResponse 200 body), Returns).
Proof.
  pose proof (node_metrics_never_stop builder_flags quiet_world ∅ sample_calls 1) as H.
  destruct (run_calls sample_calls metrics_init) as [m rs] eqn:E.
  destruct H as [Hall (body & _ & m' & Hp)].
  - intros es Hin. unfold sample_calls in Hin. rewrite !elem_of_cons, elem_of_nil in Hin.
    assert (es = api_emitted health_effects ∨ es = emitted proposal_effects) as [-> | ->]
      by (destruct Hin as [E1|[E1|[E1|[]]]]; [left| |right]; congruence).
    { apply ne_request. }
    destruct (handle_event sample_turn (main_started builder_flags quiet_world ∅) proposal_event) as [[s' ef]|] eqn:Et.
    + unfold proposal_effects. rewrite Et. apply (ne_turn _ _ _ [] (main_started builder_flags quiet_world ∅) [] sample_turn
        proposal_event s' ef); [done| |done]. unfold published. rewrite !elem_of_cons. right. left. reflexivity.
    + assert (match handle_event sample_turn (main_started builder_flags quiet_world ∅) proposal_event with
              | Some _ => true | None => false end = true) as Hs by (vm_compute; reflexivity).
      by rewrite Et in Hs.
  - assert (length rs = 3) as Hl.
    { change rs with (m, rs).2. rewrite <-E. vm_compute. reflexivity. }
    split; [|split; [vm_compute; reflexivity|exists body, m'; exact Hp]]. clear E Hp body m'.
    destruct rs as [|r1 [|r2 [|r3 [|]]]]; try discriminate Hl.
    apply Forall_cons in Hall as [-> [-> [-> _]%Forall_cons]%Forall_cons]. reflexivity.
Defined.

(** A message type with a comma, which no part of the node counts unchecked but
    the engine of src/internal/tss/dkg/engine.go does: the next page panics
    under the lock, and the first new counter then stops all of them. *)
Example comma_freezes_the_metrics :
  let '(m, _) := emit (Inc "tss_msgs_total" [("type", "a,b")]) metrics_init in
  let '(m1, resp, r1) := handleMetrics 0 m in
  let '(m2, r2) := emit (Inc "qbft_wal_appends_total" []) m1 in
  resp = None ∧ r1 = Panics ∧ r2 = Blocks ∧ (emit (Inc "tss_msgs_total" [("type", "a,b")]) m2).2 = Blocks.
Proof. by vm_compute. Qed.
