(* ===== verification/Endpoints.v ===== *)
(** The edges of the node: the servers of the API as lifecycle services
    (src/internal/api/service.go), the webhook sink of block values
    (src/internal/consensus/sink_webhook.go), the endpoints of end-to-end builds
    (src/internal/consensus/e2e_server_e2e.go, src/internal/tss/e2e_server_e2e.go), the
    structured logger (src/pkg/logger/logger.go) and the loader of cluster locks
    (src/pkg/config/loader.go). Sockets and clocks are outside. *)
From stdpp Require Import pretty.
From S2P Require Import Prelude Metrics Codec Files StateStore QbftMessage QbftVerifier QbftState QbftWal Payload Builder Consensus Api.

(** ** The API server *)

(** [as_routes] are the patterns of the server that [Start] makes. *)
Record Server := mkServer { as_addr : string; as_routes : option (list string) }.

Definition api_New (addr : string) : Server := mkServer addr None.

Definition api_op (op : string) (ms : N) : MEvent :=
  Observe "service_op_ms" [("service", "api"); ("op", op)] (float64_of ms).

(** [tx_api] is AEQUA_ENABLE_TX_API=1. *)
Definition api_Start (tx_api : bool) (ms : N) (s : Server) : Server * goerr * list MEvent :=
  (mkServer (as_addr s) (Some (["/health"; "/v1/duty"] ++ (if tx_api then ["/v1/tx/plain"] else []) ++ ["/"])),
   nil_err, [api_op "start" ms]).

Definition api_Stop (shutdown : goerr) (ms : N) (s : Server) : Server * goerr * list MEvent :=
  match as_routes s with
  | None => (s, nil_err, [api_op "stop" ms])
  | Some _ => (s, shutdown, [api_op "stop" ms])
  end.

(** The pattern that [http.ServeMux] picks: the exact one, or the catch-all. *)
Definition mux (routes : list string) (path : string) : option string :=
  if ⌜? path ∈ routes ⌝ then Some path else if ⌜? "/" ∈ routes ⌝ then Some "/" else None.

(** The handlers by pattern. *)
Definition handler {JD : Json dutyEnvelope} {JT : Json TxEnvelope} (valid_url : string → bool)
    (upstream : Request → option Response) (s : Api.Service) (pattern : string) (r : Request) : Response * list AEffect :=
  if ⌜? pattern = "/health" ⌝ then handleHealth r
  else if ⌜? pattern = "/v1/duty" ⌝ then handleDuty s r
  else if ⌜? pattern = "/v1/tx/plain" ⌝ then handleTxPlain s r
  else proxy valid_url upstream s r.

(** The routes of a started server are those that the handlers are modelled with. *)
Theorem started_server_serves {JD : Json dutyEnvelope} {JT : Json TxEnvelope} valid_url upstream (s : Api.Service)
    (addr : string) (ms : N) (r : Request) :
  ∃ routes pattern, as_routes (api_Start (sv_tx_api s) ms (api_New addr)).1.1 = Some routes ∧
    mux routes (rq_Path r) = Some pattern ∧ handler valid_url upstream s pattern r = serve valid_url upstream s r.
Proof.
  eexists. exists (if ⌜? rq_Path r ∈ ["/health"; "/v1/duty"] ⌝ || ⌜? rq_Path r = "/v1/tx/plain" ⌝ && sv_tx_api s
                   then rq_Path r else "/"). split; [reflexivity|].
  unfold mux, serve, handler. cbn [as_addr api_New].
  destruct (decide (rq_Path r = "/health")) as [->|H1]; [by destruct (sv_tx_api s)|].
  destruct (decide (rq_Path r = "/v1/duty")) as [->|H2]; [by destruct (sv_tx_api s)|].
  destruct (decide (rq_Path r = "/v1/tx/plain")) as [->|H3]; [by destruct (sv_tx_api s)|].
  rewrite (bool_decide_false (rq_Path r = "/health")), (bool_decide_false (rq_Path r = "/v1/duty")),
    (bool_decide_false (rq_Path r = "/v1/tx/plain")) by done.
  rewrite (bool_decide_false (rq_Path r ∈ ["/health"; "/v1/duty"])) by (rewrite !elem_of_cons, elem_of_nil; naive_solver).
  split; [|done]. cbn [orb andb].
  destruct (decide (rq_Path r = "/")) as [->|H4]; [by destruct (sv_tx_api s)|].
  destruct (sv_tx_api s); (rewrite bool_decide_false; [done|]); simpl; rewrite !elem_of_cons, elem_of_nil; naive_solver.
Qed.

(** ** The webhook sink *)
Record WebhookSink := mkWebhookSink { ws_URL : string; ws_Timeout : Z }.

(** In nanoseconds. *)
Definition ws_timeout (w : WebhookSink) : Z := if (0 <? ws_Timeout w)%Z then ws_Timeout w else 500000000%Z.

(** What comes of the request: it cannot be built, it fails, or its status. *)
Inductive PostResult := BadRequest | PostError | Status (code : Z).

(** The request that is sent (URL, body, timeout), and the result that is logged. *)
Definition sink_Publish {J : Json ValueRecord} (post : string → bytes → Z → PostResult) (w : WebhookSink)
    (v : ValueRecord) : option (string * bytes * Z) * option string :=
  RETURN (None, None) IF ⌜? ws_URL w = "" ⌝ ;;
  let payload := marshal v in
  match post (ws_URL w) payload (ws_timeout w) with
  | BadRequest => (None, Some "request_error")
  | PostError => (Some (ws_URL w, payload, ws_timeout w), Some "post_error")
  | Status code => (Some (ws_URL w, payload, ws_timeout w), Some (if (400 <=? code)%Z then "remote_error" else "ok"))
  end.

(** The receiver of a posted record gets the value of the block, in time. *)
Lemma sink_posts_value {J : Json ValueRecord} post w v url body t res :
  json_stable v → sink_Publish post w v = (Some (url, body, t), res) →
  url = ws_URL w ∧ url ≠ "" ∧ unmarshal body = Some v ∧ (0 < t)%Z.
Proof.
  intros Hv. unfold sink_Publish. case_bool_decide as Hu; [done|].
  assert (0 < ws_timeout w)%Z as Ht by (unfold ws_timeout; destruct (Z.ltb_spec 0 (ws_Timeout w)); lia).
  destruct (post _ _ _); intros [= <- <- <- _]; (split_and!; [done|done|by apply unmarshal_marshal|done]).
Qed.

(** ** The consensus endpoint of end-to-end builds *)
Section e2e.
Context {MI : MapIter} {V P ST SE D : Type}.
Context {VI : VerifierI V} {PI : ProcessorI P} {SI : Store ST SE} {PD : PrivateDecrypter D}.
Context {WJ : Json walEntry} {BJ : Json StandardBlock}.
Notation Service := (Consensus.Service (V := V) (P := P) (ST := ST) (D := D)).

(** [POST /e2e/qbft]: the decoded body, if it decodes; the status. The handler
    runs beside the loop, on the same verifier and state. *)
Definition e2e_qbft (body : option Message) (s : Service) : option (Service * Z * list Effect) :=
  match body with
  | None => Some (s, 400%Z, [])
  | Some msg =>
      let '(v', err, vev) := v_Verify (sv_v s) msg in
      let s := set_v s v' in
      match err with
      | Some _ => Some (s, 202%Z, metrics vev)
      | None =>
          '(st', (_, ev)) ← p_Process (sv_st s) msg;
          Some (set_st s st', 200%Z, metrics vev ++ EProcess msg :: metrics ev)
      end
  end.

(** An injected message that verifies is processed as in the loop, without any
    of what surrounds it there: it is not logged, not broadcast, not held to
    the restart guard and not saved, and no block is built for it. *)
Theorem injected_vote_only_processed (s s' : Service) (body : option Message) (code : Z) (ef : list Effect) :
  e2e_qbft body s = Some (s', code, ef) →
  (code = 200%Z ↔ ∃ msg, body = Some msg ∧ (v_Verify (sv_v s) msg).1.2 = nil_err) ∧
  processed ef = (if (code =? 200)%Z then option_list body else []) ∧
  (∀ x, x ∈ ef → (∃ e, x = EMetric e) ∨ (∃ m, x = EProcess m)) ∧
  sv_store s' = sv_store s ∧ sv_fs s' = sv_fs s ∧ sv_lastBlock s' = sv_lastBlock s ∧ sv_lastWAL s' = sv_lastWAL s.
Proof.
  unfold e2e_qbft. destruct body as [msg|].
  2:{ intros [= <- <- <-]. split_and!; try done; [split; [done|naive_solver]|set_solver]. }
  destruct (v_Verify (sv_v s) msg) as [[v' err] vev] eqn:Ev. destruct err as [e|].
  - intros [= <- <- <-]. split_and!; try done.
    + split; [done|]. intros (m & [= <-] & H). by rewrite Ev in H.
    + by apply processed_metrics.
    + intros x Hx. left. by apply metrics_only in Hx.
  - intros H. apply bind_Some in H as ([st' [err ev]] & _ & [= <- <- <-]). split_and!; try done.
    + split; [|done]. intros _. exists msg. by rewrite Ev.
    + rewrite processed_app, processed_metrics. change (msg :: processed (metrics ev) = [msg]). by rewrite processed_metrics.
    + intros x. rewrite elem_of_app, elem_of_cons. intros [Hx%metrics_only|[->|Hx%metrics_only]]; eauto.
Qed.
End e2e.

(** ** The TSS endpoint of end-to-end builds *)

(** [codes] are the calls of WriteHeader that the wrapped handler makes. The
    client sees the first of them, the recorder keeps the last. *)
Definition sent_code (codes : list Z) : Z := default 200%Z (head codes).
Definition rr_code (codes : list Z) : Z := default 200%Z (head (reverse codes)).

Definition wrapMetrics (codes : list Z) (ms : N) : Z * list MEvent :=
  (sent_code codes,
   [Inc "tss_e2e_requests_total" [("code", pretty (rr_code codes))];
    Observe "tss_e2e_latency_ms" [] (float64_of ms)]).

(** A handler that sets its status once is counted under the code it sent. *)
Lemma wrapMetrics_code codes ms :
  (length codes ≤ 1)%nat →
  (wrapMetrics codes ms).2 !! 0%nat = Some (Inc "tss_e2e_requests_total" [("code", pretty (wrapMetrics codes ms).1)]).
Proof. by destruct codes as [|c [|]]; simpl; [| |lia]. Qed.

(** ** The structured logger *)
Section logger.
Context {A : Type} (of_string : string → A) (to_json : gmap string A → option bytes).

(** [logJ]: the fields as the caller's map is left, and the line; a nil map is
    replaced by a new one, and a value that does not encode leaves an empty
    line. *)
Definition logJ (level now msg : string) (fields : option (gmap string A)) : gmap string A * bytes :=
  let f := <["msg" := of_string msg]> (<["ts" := of_string now]> (<["level" := of_string level]> (default ∅ fields))) in
  (f, default [] (to_json f) ++ [Byte.x0a]).

Definition InfoJ := logJ "info".
Definition WarnJ := logJ "warn".
Definition ErrorJ := logJ "error".

(** The level, the time and the message of a line cannot be forged by its fields;
    the others are kept. *)
Theorem log_fields_authoritative (level now msg : string) (fields : option (gmap string A)) :
  let f := (logJ level now msg fields).1 in
  f !! "level" = Some (of_string level) ∧ f !! "ts" = Some (of_string now) ∧ f !! "msg" = Some (of_string msg) ∧
  ∀ k, k ∉ ["level"; "ts"; "msg"] → f !! k = default ∅ fields !! k.
Proof.
  unfold logJ. cbn [fst]. split_and!; simplify_map_eq; [done..|].
  intros k Hk. rewrite !elem_of_cons in Hk. rewrite !lookup_insert_ne by (intros <-; tauto). done.
Qed.
End logger.

(** ** Cluster locks *)
Record Operator := mkOperator { op_Index : Z; op_PeerID : string }.
Record ClusterLock := mkClusterLock { cl_Name : string; cl_Threshold : Z; cl_Operators : list Operator }.

(** The lock, or the error of reading or parsing. *)
Definition LoadClusterLock {J : Json ClusterLock} (ReadFile : string → option bytes) (path : string)
    : ClusterLock + string :=
  match ReadFile path with
  | None => inr "read"
  | Some b => match unmarshal b with Some c => inl c | None => inr "json" end
  end.

Lemma LoadClusterLock_written {J : Json ClusterLock} ReadFile path c :
  json_stable c → ReadFile path = Some (marshal c) → LoadClusterLock ReadFile path = inl c.
Proof. intros Hc H. unfold LoadClusterLock. by rewrite H, unmarshal_marshal. Qed.
