(* ===== verification/JsonPayload.v ===== *)
(** The payload manager (src/internal/consensus/payload/manager.go): validation,
    the canonical form and the hash of JSON payloads, over encoding/json on
    values of type [any]. *)
From S2P Require Import Prelude Sha256.

(** encoding/json on [any]: what decodes can be encoded again, and decodes to
    the same value (strings that decode are valid UTF-8, numbers are finite). *)
Class AnyJson := {
  Any : Type;
  any_unmarshal : bytes → option Any;
  any_marshal : Any → option bytes;
  any_again b v : any_unmarshal b = Some v → ∃ c, any_marshal v = Some c ∧ any_unmarshal c = Some v;
}.

Definition errTooLarge : string := "payload too large".
Definition errInvalidJSON : string := "invalid json payload".

Record JSONManager := mkJSONManager { jm_max : Z }.
Definition NewJSONManager (maxBytes : Z) : JSONManager := mkJSONManager maxBytes.
Definition MaxSize (m : JSONManager) : Z := jm_max m.

Section manager.
Context {J : AnyJson}.

Definition too_large (m : JSONManager) (b : bytes) : bool := (0 <? jm_max m)%Z && (jm_max m <? Z.of_nat (length b))%Z.

Definition Validate (m : JSONManager) (b : bytes) : goerr :=
  RETURN Some errTooLarge IF too_large m b ;;
  match any_unmarshal b with
  | None => Some errInvalidJSON
  | Some _ => nil_err
  end.

Definition Canonical (m : JSONManager) (b : bytes) : bytes * goerr :=
  match Validate m b with
  | Some e => ([], Some e)
  | None =>
      match any_unmarshal b ≫= any_marshal with
      | None => ([], Some errInvalidJSON)
      | Some enc => (enc, nil_err)
      end
  end.

Definition zero32 : bytes := replicate 32 Byte.x00.

Definition Hash (m : JSONManager) (b : bytes) : bytes * goerr :=
  match Canonical m b with
  | (_, Some e) => (zero32, Some e)
  | (enc, None) => (sha256 enc, nil_err)
  end.

(** ** Properties *)

Lemma Validate_ok m b : Validate m b = nil_err ↔ too_large m b = false ∧ is_Some (any_unmarshal b).
Proof.
  unfold Validate. destruct (too_large m b); [by split; [|intros []]|]. destruct (any_unmarshal b); split; try done.
  by intros [_ []].
Qed.

(** A valid payload has a canonical form, which decodes to the same value. *)
Lemma Canonical_valid m b v :
  too_large m b = false → any_unmarshal b = Some v →
  ∃ c, Canonical m b = (c, nil_err) ∧ any_marshal v = Some c ∧ any_unmarshal c = Some v.
Proof.
  intros Hl Hv. destruct (any_again b v Hv) as (c & Hc & Hd). exists c. split_and!; [|done|done].
  unfold Canonical. rewrite (proj2 (Validate_ok m b)) by (split; [done|by eexists]). rewrite Hv. simpl. by rewrite Hc.
Qed.

Lemma Canonical_error m b e : Validate m b = Some e → Canonical m b = ([], Some e) ∧ Hash m b = (zero32, Some e).
Proof. intros H. unfold Hash, Canonical. by rewrite H. Qed.

(** The canonical form identifies the value. Exactly the payloads within the limit that
    parse are accepted by all three operations; two accepted payloads have one
    canonical form if and only if they parse to the same value, and then one
    hash; and the canonical form, when it is itself within the limit, is its own
    canonical form and has the same hash. *)
Theorem canonical_identifies_value (m : JSONManager) (b b' : bytes) :
  (Validate m b = nil_err ↔ (Canonical m b).2 = nil_err) ∧ (Validate m b = nil_err ↔ (Hash m b).2 = nil_err) ∧
  (Validate m b = nil_err → Validate m b' = nil_err →
   ((Canonical m b).1 = (Canonical m b').1 ↔ any_unmarshal b = any_unmarshal b') ∧
   (any_unmarshal b = any_unmarshal b' → Hash m b = Hash m b') ∧
   (too_large m (Canonical m b).1 = false →
    Canonical m (Canonical m b).1 = Canonical m b ∧ Hash m (Canonical m b).1 = Hash m b)).
Proof.
  assert (∀ e, Validate m b = Some e → ¬ Validate m b = nil_err) as Hn by congruence.
  split_and!.
  - destruct (Validate m b) as [e|] eqn:E; [by rewrite (proj1 (Canonical_error m b e E))|].
    apply Validate_ok in E as [Hl [v Hv]]. by destruct (Canonical_valid m b v Hl Hv) as (c & -> & _).
  - destruct (Validate m b) as [e|] eqn:E; [by rewrite (proj2 (Canonical_error m b e E))|].
    apply Validate_ok in E as [Hl [v Hv]]. unfold Hash. by destruct (Canonical_valid m b v Hl Hv) as (c & -> & _).
  - intros [Hl [v Hv]]%Validate_ok [Hl' [v' Hv']]%Validate_ok.
    destruct (Canonical_valid m b v Hl Hv) as (c & Hc & Hm & Hd).
    destruct (Canonical_valid m b' v' Hl' Hv') as (c' & Hc' & Hm' & Hd').
    unfold Hash. rewrite Hc, Hc', Hv, Hv'. cbn [fst]. split_and!.
    + split; [intros ->|intros [= ->]]; congruence.
    + intros [= ->]. congruence.
    + intros Hcl. destruct (Canonical_valid m c v Hcl Hd) as (c2 & -> & Hm2 & _).
      assert (c2 = c) as -> by congruence. done.
Qed.
End manager.

(** ** Concrete inputs

    Values of one character, which encoding may have to escape, with spaces
    around them. *)
Definition toy_parse (b : bytes) : option Byte.byte :=
  match List.filter (λ c, negb ⌜? c = Byte.x20 ⌝) b with
  | [c] => if ⌜? c = Byte.x5c ⌝ then None else Some c
  | [Byte.x5c; c] => if ⌜? c = Byte.x3c ⌝ then Some c else None
  | _ => None
  end.

Definition toy_print (c : Byte.byte) : option bytes :=
  if ⌜? c = Byte.x20 ⌝ || ⌜? c = Byte.x5c ⌝ then None else if ⌜? c = Byte.x3c ⌝ then Some [Byte.x5c; c] else Some [c].

Lemma toy_again b c : toy_parse b = Some c → ∃ d, toy_print c = Some d ∧ toy_parse d = Some c.
Proof.
  unfold toy_parse at 1. intros H.
  assert (c ≠ Byte.x20 ∧ c ≠ Byte.x5c) as [H1 H2].
  { destruct (List.filter _ b) as [|x l] eqn:E; [done|].
    assert (∀ y, List.In y (x :: l) → y ≠ Byte.x20) as Hf.
    { intros y Hy. rewrite <-E in Hy. apply List.filter_In in Hy as [_ Hy]. by apply negb_true_iff, bool_decide_eq_false in Hy. }
    destruct l as [|y [|]]; [| |by destruct x].
    - destruct (decide (x = Byte.x5c)) as [->|Hx]; [done|].
      assert (Some x = Some c) as [= <-] by (revert H; rewrite bool_decide_false by done; by destruct x).
      split; [apply Hf; by left|done].
    - destruct (decide (y = Byte.x3c)) as [->|Hy]; [|by destruct x; rewrite ?bool_decide_false in H].
      destruct x; try done. by injection H as <-. }
  unfold toy_print. rewrite !bool_decide_false by done. simpl. case_bool_decide as H3.
  - subst. eexists. by split.
  - exists [c]. split; [done|]. unfold toy_parse. simpl. rewrite (bool_decide_false (c = Byte.x20)) by done. simpl.
    by destruct c; rewrite ?bool_decide_false by done.
Qed.

Definition toy_any : AnyJson := {| any_unmarshal := toy_parse; any_marshal := toy_print; any_again := toy_again |}.

Lemma canonical_identifies_value_witness :
  let b := [Byte.x20; Byte.x37] in let b' := [Byte.x37; Byte.x20; Byte.x20] in
  Hash (J := toy_any) (NewJSONManager 4) b = Hash (J := toy_any) (NewJSONManager 4) b' ∧
  Canonical (J := toy_any) (NewJSONManager 4) [Byte.x37] = ([Byte.x37], nil_err).
Proof.
  intros b b'. destruct (canonical_identifies_value (J := toy_any) (NewJSONManager 4) b b') as (_ & _ & H).
  destruct H as (_ & H2 & H3); [reflexivity|reflexivity|]. split.
  - apply H2. reflexivity.
  - apply H3. reflexivity.
Defined.

(** The limit is on what is received, not on the canonical form: encoding
    escapes characters, so a payload within the limit can have a canonical form
    that the same manager refuses. *)
Example canonical_exceeds_limit :
  let m := NewJSONManager 1 in let c := Canonical (J := toy_any) m [Byte.x3c] in
  c.2 = nil_err ∧ Validate (J := toy_any) m c.1 = Some errTooLarge.
Proof. by vm_compute. Qed.
