(* ===== verification/Tbls.v ===== *)
(** The BLS signature layer: the wrapper of the blst library
    (src/internal/tss/core/bls381), the partial signatures over it
    (src/internal/tss/bls), and the placeholders beside them (core/group.go,
    core/hash_to_curve.go, tss/api/api.go). *)
From Stdlib Require Import String List ZArith Bool.
From S2P Require Import CryptoOps.
Import ListNotations.
Local Open Scope res_scope.
Local Open Scope string_scope.
Local Open Scope list_scope.

(** What the wrapper calls of blst beyond the class Blst: signing, verification
    with the group checks on, an aggregate under construction, and fast
    aggregate verification. A [None] is a nil, or an error code other than
    BLST_SUCCESS. *)
Class BlsSig {B : Blst} := {
  p2_Sign : Scalar -> bytes -> bytes -> option P2;
  p2_Verify : P2 -> P1 -> bytes -> bytes -> bool;
  Agg2 : Type;
  agg_New : Agg2;
  agg_Aggregate : Agg2 -> P2 -> option Agg2;
  agg_Affine : Agg2 -> P2;
  FastAggregateVerify : P2 -> list P1 -> bytes -> bytes -> bool;
}.

(** ** core *)
Definition DSTSig : string := "EQS/TSS/v1/SIG".
Definition DSTDkg : string := "EQS/TSS/v1/DKG".
Definition DSTApp : string := "EQS/APP/v1/MSG".
Definition ErrNotImplemented : string := "not implemented".
Definition ErrInvalidDST : string := "invalid dst".

Definition IsValidDST (dst : string) : bool :=
  String.eqb dst DSTSig || String.eqb dst DSTDkg || String.eqb dst DSTApp.

Definition HashToCurve (msg : bytes) (dst : string) : res bytes :=
  FAIL ErrInvalidDST WHEN negb (IsValidDST dst) ELSE
  inl ErrNotImplemented.

(** The placeholder service of tss/api. *)
Definition api_Sign (height round : N) (msg : bytes) : res bytes := inl ErrNotImplemented.
Definition api_VerifyAgg (pkGroup msg aggSig : bytes) : bool := false.
Definition api_Resume (sessionID : string) : option string := Some ErrNotImplemented.

(** ** core/bls381 without the blst tag *)
Definition stub_HashToG2 (msg dst : bytes) : res bytes := inl ErrNotImplemented.
Definition stub_Verify (pk sig msg dst : bytes) : res bool := inl ErrNotImplemented.
Definition stub_Aggregate (sigs : list bytes) : res bytes := inl ErrNotImplemented.
Definition stub_VerifyAggregate (pks : list bytes) (sig msg dst : bytes) : res bool := inl ErrNotImplemented.

(** ** tss/bls without the blst tag: [VerifyShare] and [VerifyAgg] drop the error. *)
Definition accepted (r : res bool) : bool := match r with inr b => b | inl _ => false end.

Definition stub_PartialSign (sk msg : bytes) (dst : string) : res bytes := inl ErrNotImplemented.
Definition stub_VerifyShare (sig pk msg : bytes) (dst : string) : bool :=
  accepted (stub_Verify pk sig msg (list_byte_of_string dst)).
Definition stub_Combine (shares : list bytes) : res bytes :=
  FAIL "no shares" WHEN (length shares =? 0)%nat ELSE inl ErrNotImplemented.
Definition stub_VerifyAgg (sig gpk msg : bytes) (dst : string) : bool :=
  accepted (stub_Verify gpk sig msg (list_byte_of_string dst)).

Section bls.
Context {B : Blst} {BS : BlsSig}.

(** ** core/bls381 over blst *)
Definition ErrInvalidInput : string := "invalid input".

Definition bls_HashToG2 (msg dst : bytes) : res bytes := inr (p2_compress (HashToG2 msg dst)).

Definition bls_Verify (pk sig msg dst : bytes) : res bool :=
  FAIL ErrInvalidInput WHEN (length pk =? 0)%nat || (length sig =? 0)%nat ELSE
  LET pkAff <- must ErrInvalidInput (p1_uncompress pk) IN
  LET sigAff <- must ErrInvalidInput (p2_uncompress sig) IN
  inr (p2_Verify sigAff pkAff msg dst).

Definition agg_step (err : string) (agg : Agg2) (s : bytes) : res Agg2 :=
  LET aff <- must err (p2_uncompress s) IN
  must err (agg_Aggregate agg aff).

Definition bls_Aggregate (sigs : list bytes) : res bytes :=
  FAIL ErrInvalidInput WHEN (length sigs =? 0)%nat ELSE
  LET agg <- fold_res (agg_step ErrInvalidInput) sigs agg_New IN
  inr (p2_compress (agg_Affine agg)).

Definition bls_VerifyAggregate (pks : list bytes) (sig msg dst : bytes) : res bool :=
  FAIL ErrInvalidInput WHEN (length pks =? 0)%nat || (length sig =? 0)%nat ELSE
  LET sigAff <- must ErrInvalidInput (p2_uncompress sig) IN
  LET arr <- map_res (fun pk => must ErrInvalidInput (p1_uncompress pk)) pks IN
  inr (FastAggregateVerify sigAff arr msg dst).

(** ** tss/bls over blst *)

(** The secret key is derived from the bytes of the share by [KeyGen]. *)
Definition PartialSign (sk msg : bytes) (dst : string) : res bytes :=
  FAIL ErrNotImplemented WHEN (length sk =? 0)%nat ELSE
  LET sec <- must ErrNotImplemented (sk_KeyGen sk) IN
  LET sig <- must ErrNotImplemented (p2_Sign sec msg (list_byte_of_string dst)) IN
  inr (p2_compress sig).

Definition VerifyShare (sig pk msg : bytes) (dst : string) : bool :=
  accepted (bls_Verify pk sig msg (list_byte_of_string dst)).

(** The sum of the partial signatures, without weights. *)
Definition Combine (shares : list bytes) : res bytes :=
  FAIL ErrNotImplemented WHEN (length shares =? 0)%nat ELSE
  LET agg <- fold_res (agg_step ErrNotImplemented) shares agg_New IN
  inr (p2_compress (agg_Affine agg)).

Definition VerifyAgg (sig gpk msg : bytes) (dst : string) : bool :=
  accepted (bls_Verify gpk sig msg (list_byte_of_string dst)).

(** [Combine] is [Aggregate] with another error. *)
Lemma Combine_Aggregate shares out : Combine shares = inr out <-> bls_Aggregate shares = inr out.
Proof.
  unfold Combine, bls_Aggregate. destruct (length shares =? 0)%nat; [split; discriminate|].
  assert (forall acc a, fold_res (agg_step ErrNotImplemented) shares acc = inr a <-> fold_res (agg_step ErrInvalidInput) shares acc = inr a) as H.
  { induction shares as [|s shares IH]; intros acc a; cbn [fold_res]; [reflexivity|]. unfold agg_step at 1 3.
    destruct (p2_uncompress s) as [p|]; cbn [must bind]; [|split; discriminate].
    destruct (agg_Aggregate acc p) as [acc'|]; cbn [must]; [apply IH|split; discriminate]. }
  specialize (H agg_New). destruct (fold_res (agg_step ErrNotImplemented) shares agg_New) as [e|a],
    (fold_res (agg_step ErrInvalidInput) shares agg_New) as [e'|a']; cbn [bind].
  - split; discriminate.
  - pose proof (proj2 (H a') eq_refl); discriminate.
  - pose proof (proj1 (H a) eq_refl); discriminate.
  - assert (inr a' = inr a :> res Agg2) as E by (apply H; reflexivity). assert (a' = a) as -> by congruence. reflexivity.
Qed.
End bls.
