(* ===== verification/PairingGroups.v ===== *)
(** Prime-order pairing groups: Lagrange interpolation at zero over a field, the
    blst class instantiated with a field, modules over it and a bilinear map,
    and what the share-combining loops of ibe_blst.go, bte_blst.go and
    feldman_crypto_blst.go compute there. *)
From Stdlib Require Import ZArith Nnat Lia.
From HB Require Import structures.
From mathcomp Require Import boot algebra.
From S2P Require Import CryptoOps.
Import GRing.Theory.
#[local] Set Warnings "-rewrite-rw".
Set Implicit Arguments.
Unset Strict Implicit.
Unset Printing Implicit Defensive.
Local Open Scope ring_scope.

(** ** Interpolation at zero *)
Section lagrange.
Variable F : fieldType.
Implicit Types (xs : seq F) (p : {poly F}).

Definition others xs (x : F) : seq F := [seq y <- xs | y != x].

Definition lambda xs (x : F) : F :=
  (\prod_(y <- others xs x) (0 - y)) / \prod_(y <- others xs x) (x - y).

Definition basis xs (x : F) : {poly F} :=
  (\prod_(y <- others xs x) (x - y))^-1 *: \prod_(y <- others xs x) ('X - y%:P).

Lemma den_neq0 xs x : \prod_(y <- others xs x) (x - y) != 0.
Proof.
  rewrite prodf_seq_neq0. apply/allP => y. rewrite mem_filter => /andP [Hy _] /=.
  by rewrite subr_eq0 eq_sym.
Qed.

Lemma num_neq0 xs x : 0 \notin xs -> \prod_(y <- others xs x) (0 - y) != 0.
Proof.
  move=> H0. rewrite prodf_seq_neq0. apply/allP => y. rewrite mem_filter => /andP [_ Hy] /=.
  rewrite sub0r oppr_eq0. by apply: contraNneq H0 => <-.
Qed.

Lemma horner_prodX (s : seq F) (z : F) : (\prod_(y <- s) ('X - y%:P)).[z] = \prod_(y <- s) (z - y).
Proof. rewrite horner_prod. by apply: eq_bigr => y _; rewrite hornerXsubC. Qed.

Lemma basis_same xs x : (basis xs x).[x] = 1.
Proof.
  by rewrite hornerZ horner_prodX mulVf // den_neq0.
Qed.

Lemma basis_other xs x z : z \in xs -> z != x -> (basis xs x).[z] = 0.
Proof.
  move=> Hz Hne. rewrite hornerZ horner_prodX. apply/eqP. rewrite mulf_eq0. apply/orP; right.
  rewrite prodf_seq_eq0. apply/hasP. exists z; first by rewrite mem_filter Hne.
  by rewrite /= subrr.
Qed.

Lemma size_others xs x : uniq xs -> x \in xs -> (size (others xs x)).+1 = size xs.
Proof.
  move=> Hu Hx. rewrite /others -rem_filter // size_rem //. by rewrite prednK //; case: xs Hx {Hu}.
Qed.

Lemma size_basis xs x : uniq xs -> x \in xs -> (size (basis xs x) <= size xs)%N.
Proof.
  move=> Hu Hx. apply: (leq_trans (size_scale_leq _ _)).
  by rewrite size_prod_XsubC size_others.
Qed.

Lemma basis_at0 xs x : (basis xs x).[0] = lambda xs x.
Proof. by rewrite hornerZ horner_prodX mulrC. Qed.

Lemma interpolate xs p : uniq xs -> (size p <= size xs)%N -> p = \sum_(x <- xs) p.[x] *: basis xs x.
Proof.
  move=> Hu Hs. apply/eqP. rewrite -subr_eq0. apply/eqP.
  set q := \sum_(x <- xs) _. apply: (@roots_geq_poly_eq0 _ _ xs) => //.
  - apply/allP => z Hz. rewrite /root hornerD hornerN subr_eq0. apply/eqP.
    rewrite /q horner_sum (bigD1_seq z) //= hornerZ basis_same mulr1 big1_seq ?addr0 //.
    move=> x /andP [Hne _]. by rewrite hornerZ basis_other ?mulr0 // eq_sym.
  - apply: (leq_trans (size_polyD _ _)). rewrite geq_max Hs size_polyN /q /=.
    rewrite big_seq. elim/big_ind: _ => [|a b Ha Hb|x Hx]; first by rewrite size_poly0.
      by apply: (leq_trans (size_polyD _ _)); rewrite geq_max Ha.
    by apply: (leq_trans (size_scale_leq _ _)); apply: size_basis.
Qed.

Lemma interpolate_at xs p z : uniq xs -> (size p <= size xs)%N ->
  \sum_(x <- xs) (basis xs x).[z] * p.[x] = p.[z].
Proof.
  move=> Hu Hs. rewrite {2}(interpolate Hu Hs) horner_sum. apply: eq_bigr => x _.
  by rewrite hornerZ mulrC.
Qed.

Lemma interpolate_at0 xs p : uniq xs -> (size p <= size xs)%N ->
  \sum_(x <- xs) lambda xs x * p.[x] = p.[0].
Proof. by move=> Hu Hs; rewrite -(interpolate_at _ Hu Hs); apply: eq_bigr => x _; rewrite basis_at0. Qed.
End lagrange.

HB.instance Definition _ := hasDecEq.Build Z Z.eqb_spec.

(** ** Pairing groups *)
Record PairingGroup := {
  pF : fieldType;
  pV1 : lmodType pF;
  pV2 : lmodType pF;
  pVT : lmodType pF;
  gen1 : pV1;
  gen2 : pV2;
  hash2 : bytes -> bytes -> pV2;
  pair : pV2 -> pV1 -> pVT;
  pairZl : forall a q p, pair (a *: q) p = a *: pair q p;
  pairZr : forall a q p, pair q (a *: p) = a *: pair q p;
  pairNr : forall q p, pair q (- p) = - pair q p;
  pairDr : forall q p p', pair q (p + p') = pair q p + pair q p';
  gen1_free : forall a, a *: gen1 = 0 -> a = 0;
  enc1 : pV1 -> bytes;
  dec1 : bytes -> option pV1;
  enc1K : forall p, dec1 (enc1 p) = Some p;
  length_enc1 : forall p, length (enc1 p) = 48%N;
  enc2 : pV2 -> bytes;
  dec2 : bytes -> option pV2;
  enc2K : forall p, dec2 (enc2 p) = Some p;
  length_enc2 : forall p, length (enc2 p) = 96%N;
  encT : pVT -> bytes;
  ser : pF -> bytes;
  deser : bytes -> option pF;
  serK : forall a, a != 0 -> deser (ser a) = Some a;
  deser0 : deser (ser 0) = None;
  length_ser : forall a, length (ser a) = 32%N;
  keygen : bytes -> option pF;
}.

Arguments pair {_} _ _.
Arguments enc1 {_} _.
Arguments dec1 {_} _.
Arguments enc2 {_} _.
Arguments dec2 {_} _.
Arguments encT {_} _.
Arguments ser {_} _.
Arguments deser {_} _.

Existing Class PairingGroup.

(** blst over a pairing group: an operation on scalars checks that its result
    is not zero. *)
#[export] Instance group_blst (S : PairingGroup) : Blst :=
  {| Scalar := pF S; P1 := pV1 S; P2 := pV2 S; GT := pVT S;
     sk_zero := 0;
     sk_FromBEndian b := (N.to_nat (be_value b))%:R;
     sk_Deserialize := @deser S;
     sk_Serialize := @ser S;
     sk_KeyGen := @keygen S;
     sk_add a b := (a + b, a + b != 0);
     sk_sub a b := (a - b, a - b != 0);
     sk_mul a b := (a * b, a * b != 0);
     sk_Inverse a := a^-1;
     p1_zero := 0; p1_gen := gen1 S;
     p1_add a b := a + b; p1_sub a b := a - b; p1_mult p k := k *: p;
     p1_compress := @enc1 S; p1_uncompress := @dec1 S;
     p2_zero := 0; p2_gen := gen2 S;
     p2_add a b := a + b; p2_mult p k := k *: p;
     p2_compress := @enc2 S; p2_uncompress := @dec2 S;
     HashToG2 := @hash2 S;
     pairing l := \sum_(qp <- l) pair qp.1 qp.2;
     gt_bytes := @encT S |}.

Section groups.
Variable S : PairingGroup.
Let F := pF S.

(** The scalar of an index. *)
Definition pt (i : Z) : F := (N.to_nat (to_u64 i))%:R.

Lemma scalarFromIntE i : scalarFromInt i = pt i.
Proof. by rewrite /scalarFromInt /sk_FromBEndian /group_blst scalar_bytes. Qed.

(** Indices that are positive and stay distinct and nonzero as scalars. *)
Definition good_indices (js : seq Z) : Prop :=
  [/\ uniq js, {in js &, injective pt} & {in js, forall j, Z.lt 0 j /\ pt j != 0}].

Lemma chk_add err (a b : F) : a + b != 0 -> checked err (sk_add a b) = inr (a + b).
Proof. by rewrite /checked /= => ->. Qed.

Lemma chk_sub err (a b : F) : a - b != 0 -> checked err (sk_sub a b) = inr (a - b).
Proof. by rewrite /checked /= => ->. Qed.

Lemma chk_mul err (a b : F) : a * b != 0 -> checked err (sk_mul a b) = inr (a * b).
Proof. by rewrite /checked /= => ->. Qed.

Lemma pt0 : pt 0 = 0.
Proof. by []. Qed.

Lemma pt1 : pt 1 = 1.
Proof. by []. Qed.

Lemma lagrange_stepE err i j (num den : F) :
  j <> i -> pt j != pt i -> pt j != 0 -> num != 0 -> den != 0 ->
  lagrange_step err i (num, den) j = inr (num * (0 - pt j), den * (pt i - pt j)).
Proof.
  move=> /Z.eqb_neq E Hji Hj Hn Hd. rewrite /lagrange_step E !scalarFromIntE pt0.
  have Hneg : 0 - pt j != 0 by rewrite sub0r oppr_eq0.
  have Hdiff : pt i - pt j != 0 by rewrite subr_eq0 eq_sym.
  by rewrite chk_sub // [bind _ _]/= chk_mul ?mulf_neq0 // [bind _ _]/= chk_sub // [bind _ _]/= chk_mul ?mulf_neq0.
Qed.

Lemma lagrange_fold err i (js : seq Z) (num den : F) :
  {in js, forall j, j <> i -> pt j != pt i} -> {in js, forall j, pt j != 0} ->
  num != 0 -> den != 0 ->
  let rest := [seq pt j | j <- js & j != i] in
  fold_res (lagrange_step err i) js (num, den) =
    inr (num * \prod_(y <- rest) (0 - y), den * \prod_(y <- rest) (pt i - y)).
Proof.
  elim: js num den => [|j js IH] num den Hne H0 Hn Hd; first by rewrite /= !big_nil !mulr1.
  have Hne' : {in js, forall j, j <> i -> pt j != pt i}.
    by move=> j0 Hj; apply: Hne; rewrite in_cons Hj orbT.
  have H0' : {in js, forall j, pt j != 0} by move=> j0 Hj; apply: H0; rewrite in_cons Hj orbT.
  move: IH => /(_ _ _ Hne' H0') IH. cbn [fold_res filter map]. case: (Z.eqb_spec j i) => [E|E].
  - have -> : (j != i) = false by rewrite E eqxx.
    rewrite {1}/lagrange_step E Z.eqb_refl. exact: (IH num den).
  - have Hj : pt j != 0 by apply: H0; rewrite mem_head.
    have Hji : pt j != pt i by apply: Hne => //; rewrite mem_head.
    have Hn' : num * (0 - pt j) != 0 by rewrite mulf_neq0 // sub0r oppr_eq0.
    have Hd' : den * (pt i - pt j) != 0 by rewrite mulf_neq0 // subr_eq0 eq_sym.
    have -> : j != i by apply/eqP.
    rewrite lagrange_stepE //. cbn [bind]. rewrite IH //. cbv zeta. cbn [map].
    by rewrite !big_cons !mulrA.
Qed.

(** The code computes the Lagrange coefficient. *)
Lemma lagrangeAtZeroE err i (js : seq Z) :
  good_indices js -> i \in js -> lagrangeAtZero err i js = inr (lambda [seq pt j | j <- js] (pt i)).
Proof.
  move=> [Hu Hinj Hpos] Hi.
  have Hrest : [seq pt j | j <- js & j != i] = others [seq pt j | j <- js] (pt i).
    rewrite /others filter_map. congr map. apply: eq_in_filter => j Hj /=.
    by congr negb; apply/eqP/eqP => [->//|]; apply: Hinj.
  set xs := [seq pt j | j <- js] in Hrest *.
  have Hd : {in js, forall j, j <> i -> pt j != pt i}.
    by move=> j Hj Hne; apply/eqP => E; apply: Hne; apply: Hinj.
  have Hz : {in js, forall j, pt j != 0} by move=> j /Hpos [].
  have := lagrange_fold err Hd Hz (oner_neq0 F) (oner_neq0 F).
  cbv zeta. rewrite Hrest !mul1r => E.
  have H0 : 0 \notin xs.
    by apply/mapP => -[j Hj E0]; have [_] := Hpos _ Hj; rewrite -E0 eqxx.
  rewrite /lagrangeAtZero !scalarFromIntE -/F. have -> : pt 1 = 1 by [].
  rewrite E. apply: chk_mul. by rewrite mulf_neq0 ?invr_neq0 ?den_neq0 ?num_neq0.
Qed.
(** ** Combining shares *)
Section combine.
Variables (A : Type) (index : A -> Z) (V : lmodType F) (val : A -> V) (step : V -> A -> res V).
Implicit Types (sh : list A).

Lemma fold_combine (coeff : A -> F) sh acc :
  (forall a acc, List.In a sh -> step acc a = inr (acc + coeff a *: val a)) ->
  fold_res step sh acc = inr (acc + \sum_(a <- sh) coeff a *: val a).
Proof.
  elim: sh acc => [|a sh IH] acc H; first by rewrite /= big_nil addr0.
  cbn [fold_res]. rewrite H; first by left. cbn [bind].
  rewrite IH; first by move=> b acc' Hb; apply: H; right. by rewrite big_cons addrA.
Qed.

(** The sum that the coefficients weigh to zero. *)
Lemma combine_at0 sh (f : {poly F}) (h : V) :
  good_indices (List.map index sh) -> (size f <= size sh)%N ->
  (forall a, List.In a sh -> val a = f.[pt (index a)] *: h) ->
  \sum_(a <- sh) lambda [seq pt j | j <- List.map index sh] (pt (index a)) *: val a = f.[0] *: h.
Proof.
  move=> [Hu Hinj _] Hs Hv. set xs := [seq pt j | j <- _].
  have Hux : uniq xs by rewrite map_inj_in_uniq.
  have -> : \sum_(a <- sh) lambda xs (pt (index a)) *: val a =
      \sum_(a <- sh) lambda xs (pt (index a)) *: (f.[pt (index a)] *: h).
    elim: (sh) Hv => [|a l IH] Hv; first by rewrite !big_nil.
    rewrite !big_cons IH; first by move=> b Hb; apply: Hv; right.
    by rewrite (Hv a (or_introl erefl)).
  have Hsize : (size f <= size xs)%N by rewrite size_map size_map.
  rewrite -(interpolate_at0 Hux Hsize) scaler_suml /xs !big_map.
  by apply: eq_bigr => a _; rewrite scalerA.
Qed.
End combine.

Lemma In_mem (js : seq Z) j : List.In j js <-> j \in js.
Proof.
  elim: js => [|k js IH]; first by split.
  rewrite in_cons /=. split; first by case=> [->|/IH ->]; rewrite ?eqxx ?orbT.
  by case/orP => [/eqP ->|/IH]; [left|right].
Qed.

Lemma NoDup_uniq (js : seq Z) : uniq js -> List.NoDup js.
Proof.
  elim: js => [|j js IH] /=; first by move=> _; constructor.
  by case/andP => Hj Hu; constructor; [rewrite In_mem; apply/negP|exact: IH].
Qed.

Lemma uniq_NoDup (js : seq Z) : List.NoDup js -> uniq js.
Proof. elim=> [//|j l Hj _ IH] /=. by rewrite IH andbT; apply/negP => /In_mem. Qed.

(** The shares that are used inherit what the indices of the given ones satisfy. *)
Lemma good_chosen A (index : A -> Z) k (l : list A) :
  good_indices (List.map index l) -> (k <= length l)%coq_nat ->
  good_indices (List.map index (List.firstn k (sort_by_index index l))).
Proof.
  move=> [Hu Hinj Hpos] Hk. have [_ [Hincl Hnd]] := chosen_shares index k l Hk.
  have Hsub : {subset List.map index (List.firstn k (sort_by_index index l)) <= List.map index l}.
    move=> j /In_mem /List.in_map_iff [a [<- Ha]]. by apply/In_mem/List.in_map/Hincl.
  split.
  - by apply/uniq_NoDup/Hnd/NoDup_uniq.
  - by move=> i j /Hsub Hi /Hsub Hj; apply: Hinj.
  - by move=> j /Hsub /Hpos.
Qed.

(** Shares that are accepted by the checks. *)
Lemma check_chosen A (index : A -> Z) (ok : A -> bool) (l : list A) :
  good_indices (List.map index l) -> (forall a, List.In a l -> ok a = true) ->
  check_indices index ok [::] l = true.
Proof.
  move=> [Hu _ Hpos] Hok. apply: check_indices_true; last exact: NoDup_uniq.
  move=> a Ha. split; last by split; [exact: Hok|case].
  have Hin : index a \in List.map index l by apply/In_mem/List.in_map.
  by have [] := Hpos _ Hin.
Qed.
Lemma must_Some A err (a : A) : must err (Some a) = inr a.
Proof. by []. Qed.

Lemma must_inr A err (o : option A) a : must err o = inr a -> o = Some a.
Proof. by case: o => //= b [->]. Qed.

Lemma bind_inr A B (r : res A) (k : A -> res B) b : bind r k = inr b -> exists2 a, r = inr a & k a = inr b.
Proof. by case: r => //= a; exists a. Qed.

Lemma deser_ser (a b : F) : deser (ser a) = Some b -> a = b.
Proof.
  have [->|Ha] := eqVneq a 0; first by rewrite deser0.
  by rewrite serK // => -[].
Qed.
End groups.

Arguments pt {S} i.
Arguments good_indices {S} js.

(** Name the value of the first step of a successful sequence. *)
Ltac unbind H x E := case: (bind_inr H) => {H} x E H.

(** ** A concrete pairing group

    The field of seven elements as each of the groups, with the product as the
    pairing, to show that the laws of the record can hold. *)
Section small.
Let F := 'F_7.

Definition small_enc (k : nat) (a : F) : bytes := be_bytes k (N.of_nat a).
Definition small_dec (b : bytes) : F := (N.to_nat (be_value b))%:R.

Lemma small_encK k a : (0 < k)%coq_nat -> small_dec (small_enc k a) = a.
Proof.
  move=> Hk. rewrite /small_dec /small_enc be_value_bytes.
    have Ha : (a < 7)%N by case: a.
    have Hpow : N.le (N.pow 256 1) (N.pow 256 (N.of_nat k)) by apply: N.pow_le_mono_r; lia.
    move/ltP: Ha. rewrite N.pow_1_r in Hpow. lia.
  by rewrite Nat2N.id natr_Zp.
Qed.

Definition small_deser (b : bytes) : option F := let a := small_dec b in if a == 0 then None else Some a.

Lemma small_serK a : a != 0 -> small_deser (small_enc 32 a) = Some a.
Proof. by move=> /negbTE Ha; rewrite /small_deser small_encK ?Ha //; lia. Qed.

Lemma small_deser0 : small_deser (small_enc 32 0) = None.
Proof. by rewrite /small_deser small_encK ?eqxx //; lia. Qed.

Lemma length_small_enc k a : length (small_enc k a) = k.
Proof. exact: length_be_bytes. Qed.
End small.

Definition small_group : PairingGroup.
Proof.
  refine {| pF := 'F_7; pV1 := ('F_7 : fieldType)^o; pV2 := ('F_7 : fieldType)^o; pVT := ('F_7 : fieldType)^o;
    gen1 := (1 : 'F_7); gen2 := (1 : 'F_7); hash2 _ _ := (1 : 'F_7);
    pair q p := (q * p : 'F_7);
    enc1 := small_enc 48; dec1 b := Some (small_dec b);
    enc2 := small_enc 96; dec2 b := Some (small_dec b);
    encT := small_enc 576; ser := small_enc 32; deser := small_deser;
    serK := small_serK; deser0 := small_deser0;
    length_enc1 := length_small_enc 48; length_enc2 := length_small_enc 96;
    length_ser := length_small_enc 32; keygen _ := Some (1 : 'F_7) |}.
  - by move=> a q p; rewrite /= -scalerAl.
  - by move=> a q p; rewrite /= -scalerAr.
  - by move=> q p; rewrite mulrN.
  - by move=> q p p'; rewrite mulrDr.
  - by move=> a; rewrite /= [_ *: _]mulr1.
  - by move=> p; rewrite small_encK //; lia.
  - by move=> p; rewrite small_encK //; lia.
Defined.
