(* ===== verification/BeastCorrect.v ===== *)
(** Correctness of the threshold encryption schemes of BEAST over any pairing
    group: identity-based (ibe/ibe_blst.go) and batched (bte/bte_blst.go). *)
From Stdlib Require Import ZArith Lia.
From mathcomp Require Import boot algebra.
From S2P Require Import CryptoOps Beast PairingGroups.
Import GRing.Theory.
#[local] Set Warnings "-rewrite-rw".
Set Implicit Arguments.
Unset Strict Implicit.
Unset Printing Implicit Defensive.
Local Open Scope ring_scope.

Section correct.
Variable S : PairingGroup.
Let F := pF S.

(** *** Identity-based encryption *)
Lemma DeriveShareE (s : F) id v : DeriveShare (ser s) id = inr v -> v = enc2 (s *: hash2 S id hashDST).
Proof.
  rewrite /DeriveShare. have -> : Nat.eqb (length (ser s)) 0 = false by rewrite length_ser.
  cbv iota => H. unbind H sk E. by case: H; rewrite -(deser_ser (must_inr E)) => <-.
Qed.

Lemma DeriveShare_ok (s : F) id : s != 0 -> DeriveShare (ser s) id = inr (enc2 (s *: hash2 S id hashDST)).
Proof. by move=> Hs; rewrite /DeriveShare length_ser; cbn [Nat.eqb sk_Deserialize group_blst]; rewrite serK. Qed.

Lemma CombineSharesE (shares : list Share) (k : nat) (f : {poly F}) (h : pV2 S) :
  (0 < k)%N -> (size f <= k)%N -> (k <= length shares)%N ->
  good_indices (List.map sh_Index shares) ->
  (forall a, List.In a shares -> sh_Value a = enc2 (f.[pt (sh_Index a)] *: h)) ->
  CombineShares shares (Z.of_nat k) = inr (enc2 (f.[0] *: h)).
Proof.
  move=> /ltP Hk Hs /leP Hl Hg Hv. rewrite /CombineShares Nat2Z.id.
  have -> : Z.leb (Z.of_nat k) 0 = false by apply/Z.leb_gt; lia.
  have -> : Z.ltb (Z.of_nat (length shares)) (Z.of_nat k) = false by apply/Z.ltb_ge; lia.
  have [Hlen [Hincl _]] := chosen_shares sh_Index k shares Hl. have Hg' := good_chosen Hg Hl.
  set c := List.firstn k _ in Hlen Hincl Hg' *.
  have Hv' a : List.In a c -> sh_Value a = enc2 (f.[pt (sh_Index a)] *: h) by move=> /Hincl /Hv.
  rewrite check_chosen //; first by move=> a /Hv' ->; rewrite length_enc2.
  cbn [negb]. rewrite (@fold_combine _ _ _ (fun a => f.[pt (sh_Index a)] *: h) _
    (fun a => lambda [seq pt j | j <- List.map sh_Index c] (pt (sh_Index a)))).
  - move=> a acc Ha. rewrite /combine_step lagrangeAtZeroE //; first by apply/In_mem/List.in_map.
    by rewrite (Hv' _ Ha) /= enc2K.
  - cbn [bind]. congr (inr (enc2 _)). rewrite add0r.
    apply: combine_at0 => //. have -> : size c = k by rewrite -Hlen. exact: Hs.
Qed.

(** What is encrypted to a group key opens under the identity's key. *)
Lemma ibe_encrypt_opens {G : AESGCM} (sha256 : bytes -> bytes) (s : F) (id msg ikm nonce : bytes) (r : F) :
  keygen S ikm = Some r -> length nonce = 12%N -> (forall b, length (sha256 b) = 32%N) ->
  exists u ct, ibe_Encrypt sha256 (enc1 (s *: gen1 S)) id msg ikm nonce = inr (u, ct) /\
    ibe_Decrypt sha256 (enc2 (s *: hash2 S id hashDST)) u ct = inr msg.
Proof.
  move=> Hr Hn Hsha. rewrite /ibe_Encrypt /= enc1K Hr /=.
  eexists _, _. split; first by reflexivity.
  rewrite /ibe_Decrypt. cbn [p2_uncompress p1_uncompress group_blst]. rewrite enc2K enc1K. cbn [must bind].
  have Hlt (c : bytes) : Nat.ltb (length (List.app nonce c)) 12 = false.
    apply: (proj2 (Nat.ltb_ge _ _)). rewrite List.length_app Hn. lia.
  rewrite Hlt (firstn_prefix _ _ _ Hn) (skipn_prefix _ _ _ Hn). cbn [pairing group_blst gt_bytes].
  rewrite !big_seq1 /= pairZl !pairZr !scalerA (mulrC r).
  by rewrite Open_Seal.
Qed.

(** Threshold identity-based decryption works. Take any polynomial of
    degree below [k] as the shared secret, its value at zero as the group key,
    and any [k] or more shares with distinct indices, derived from its values. Then CombineShares, from any
    order and any number of them, gives the key of the identity, and Decrypt
    under it returns exactly the message that Encrypt sealed for the identity. *)
Theorem ibe_threshold_decrypts {G : AESGCM} (sha256 : bytes -> bytes) (f : {poly F}) (k : nat)
    (shares : list Share) (id msg ikm nonce : bytes) (r : F) :
  (0 < k)%N -> (size f <= k)%N -> (k <= length shares)%N ->
  good_indices (List.map sh_Index shares) ->
  (forall a, List.In a shares -> DeriveShare (ser f.[pt (sh_Index a)]) id = inr (sh_Value a)) ->
  keygen S ikm = Some r -> length nonce = 12%N -> (forall b, length (sha256 b) = 32%N) ->
  exists u ct sk,
    [/\ ibe_Encrypt sha256 (enc1 (f.[0] *: gen1 S)) id msg ikm nonce = inr (u, ct),
        CombineShares shares (Z.of_nat k) = inr sk &
        ibe_Decrypt sha256 sk u ct = inr msg].
Proof.
  move=> Hk Hs Hl Hg Hv Hr Hn Hsha.
  have Hv' a : List.In a shares -> sh_Value a = enc2 (f.[pt (sh_Index a)] *: hash2 S id hashDST)
    by move=> /Hv /DeriveShareE.
  have [u [ct [-> Hdec]]] := ibe_encrypt_opens f.[0] id msg Hr Hn Hsha.
  rewrite (CombineSharesE Hk Hs Hl Hg Hv'). by eexists _, _, _; split.
Qed.

(** Indices taken from good ones, without repetition. *)
Lemma good_sub (js is' : seq Z) : good_indices js -> uniq is' -> {subset is' <= js} -> good_indices is'.
Proof.
  move=> [_ Hinj Hpos] Hu Hsub. split=> //; last by move=> i /Hsub /Hpos.
  by move=> i j /Hsub Hi /Hsub Hj; apply: Hinj.
Qed.

Lemma ibe_Encrypt_inv {G : AESGCM} sha256 gpk id msg ikm nonce u ct :
  ibe_Encrypt sha256 gpk id msg ikm nonce = inr (u, ct) ->
  exists r k, [/\ keygen S ikm = Some r, u = enc1 (r *: gen1 S) & ct = List.app nonce (Seal k nonce msg)].
Proof.
  rewrite /ibe_Encrypt => H. unbind H pk Epk. unbind H r Er. case: H => <- <-.
  exists r. eexists. split; [exact: must_inr Er|reflexivity|reflexivity].
Qed.

(** The pairing groups implement the interface that the private-transaction
    code relies on: the values of a polynomial of degree below the threshold at
    distinct nonzero indices are shares whose combinations all give the key that
    opens what is encrypted to the polynomial's value at zero. *)
Theorem group_threshold_ibe {G : AESGCM} (sha256 : bytes -> bytes) (f : {poly F}) (k : nat) (js : seq Z) :
  (forall b, length (sha256 b) = 32%N) -> (0 < k)%N -> (size f <= k)%N -> good_indices js ->
  {in js, forall i, f.[pt i] != 0} ->
  ThresholdIBE sha256 (enc1 (f.[0] *: gen1 S)) (Z.of_nat k) (fun i => i \in js)
    (fun i => ser f.[pt i]) (fun id => enc2 (f.[0] *: hash2 S id hashDST)).
Proof.
  move=> Hsha Hk Hs Hg Hf. split.
  - by move/ltP: Hk; lia.
  - move=> i id Hi. exists (enc2 (f.[pt i] *: hash2 S id hashDST)). split; first by apply/DeriveShare_ok/Hf.
    by move/(congr1 (@length _)); rewrite length_enc2.
  - move=> id shares Hl Hnd Hsh. apply: (CombineSharesE Hk Hs).
    + by apply/leP; lia.
    + apply: (good_sub Hg); first exact: uniq_NoDup.
      by move=> i /In_mem /List.in_map_iff [s [<- /Hsh []]].
    + by move=> s /Hsh [_ /DeriveShareE].
  - by move=> id /(congr1 (@length _)); rewrite length_enc2.
  - move=> id msg ikm nonce u ct Henc Hn. have [r [key [Hr Hu Hct]]] := ibe_Encrypt_inv Henc.
    split; first by rewrite Hu => /(congr1 (@length _)); rewrite length_enc1.
    split; first by rewrite Hct => /(congr1 (@length _)); rewrite List.length_app Hn.
    have [u' [ct' [E Hd]]] := ibe_encrypt_opens f.[0] id msg Hr Hn Hsha.
    by move: Hd; rewrite E in Henc; case: Henc => -> ->.
Qed.

(** *** Batched threshold encryption *)
Lemma EncryptKeyE (a kappa : F) ikm ct :
  EncryptKey (enc1 (a *: gen1 S)) (ser kappa) ikm = inr ct ->
  exists r, C1 ct = enc1 (r *: gen1 S) /\ C2 ct = enc1 (r *: (a *: gen1 S) + kappa *: gen1 S).
Proof.
  rewrite /EncryptKey length_enc1 length_ser. cbn [Nat.eqb andb negb]. cbv iota.
  cbn [p1_uncompress group_blst]. rewrite enc1K. cbn [must bind] => H.
  unbind H k E. unbind H r E'. case: H => <- /=. exists r. split=> //.
  by rewrite (deser_ser (must_inr E)).
Qed.

Lemma add_stepE (p1 p2 q1 q2 : pV1 S) ct :
  C1 ct = enc1 q1 -> C2 ct = enc1 q2 -> add_step (p1, p2) ct = inr (p1 + q1, p2 + q2).
Proof.
  move=> H1 H2. rewrite /add_step H1 H2 !length_enc1. cbn [Nat.eqb andb negb]. cbv iota.
  cbn [p1_uncompress group_blst]. by rewrite !enc1K.
Qed.

Lemma add_fold cts (acc : pV1 S * pV1 S) (a kappa0 : F) (r0 : F) (keys : seq (F * bytes)) :
  acc = (r0 *: gen1 S, r0 *: (a *: gen1 S) + kappa0 *: gen1 S) ->
  List.Forall2 (fun p ct => EncryptKey (enc1 (a *: gen1 S)) (ser p.1) p.2 = inr ct) keys cts ->
  exists r, fold_res add_step cts acc =
    inr (r *: gen1 S, r *: (a *: gen1 S) + (kappa0 + \sum_(p <- keys) p.1) *: gen1 S).
Proof.
  move=> -> H. elim: H r0 kappa0 => [|p ct keys' cts' Hct _ IH] r0 kappa0.
    by exists r0; rewrite /= big_nil addr0.
  have [r [H1 H2]] := EncryptKeyE Hct. have [r' E] := IH (r0 + r) (kappa0 + p.1).
  exists r'. rewrite big_cons addrA. refine (eq_trans _ E). cbn [fold_res].
  rewrite (add_stepE _ _ H1 H2). cbn [bind]. congr (fold_res _ _ (_, _)); first by rewrite scalerDl.
  by rewrite !scalerDl addrACA.
Qed.

Lemma AddCiphertextsE cts (a : F) (keys : seq (F * bytes)) :
  keys <> [::] ->
  List.Forall2 (fun p ct => EncryptKey (enc1 (a *: gen1 S)) (ser p.1) p.2 = inr ct) keys cts ->
  exists r, AddCiphertexts cts = inr (mkKeyCiphertext (enc1 (r *: gen1 S))
    (enc1 (r *: (a *: gen1 S) + (\sum_(p <- keys) p.1) *: gen1 S))).
Proof.
  move=> Hne H. rewrite /AddCiphertexts.
  have -> : Nat.eqb (length cts) 0 = false by case: H Hne.
  have E0 : (0, 0) = (0 *: gen1 S, 0 *: (a *: gen1 S) + 0 *: gen1 S) by rewrite !scale0r addr0.
  have [r E] := add_fold E0 H. exists r. cbn [p1_zero group_blst]. by rewrite E add0r.
Qed.

Lemma PartialDecryptE (s r : F) ct i d :
  C1 ct = enc1 (r *: gen1 S) -> PartialDecrypt ct (ser s) i = inr d ->
  d = mkPartial i (enc1 (s *: (r *: gen1 S))).
Proof.
  rewrite /PartialDecrypt => -> /=. case: (Z.leb i 0) => //.
  rewrite length_enc1 length_ser. cbn [Nat.eqb negb]. cbv iota => H. unbind H k E.
  move: H. rewrite enc1K /= => -[<-]. by rewrite (deser_ser (must_inr E)).
Qed.

(** Batched threshold decryption works. The ciphertexts of any keys under
    the group key add up to a ciphertext of the sum of the keys, and any [k] or
    more partial decryptions of it with distinct indices recover the group
    element of that sum, when the shared secret has degree below [k]. *)
Theorem bte_batch_decrypts (f : {poly F}) (k : nat) (keys : seq (F * bytes))
    (cts : list KeyCiphertext) :
  (0 < k)%N -> (size f <= k)%N -> keys <> [::] ->
  List.Forall2 (fun p ct => EncryptKey (enc1 (f.[0] *: gen1 S)) (ser p.1) p.2 = inr ct) keys cts ->
  exists2 ct, AddCiphertexts cts = inr ct &
    forall shares : list PartialDecryptShare,
      (k <= length shares)%N -> good_indices (List.map pd_Index shares) ->
      (forall d, List.In d shares -> PartialDecrypt ct (ser f.[pt (pd_Index d)]) (pd_Index d) = inr d) ->
      DecryptKeyG ct shares (Z.of_nat k) = inr (enc1 ((\sum_(p <- keys) p.1) *: gen1 S)).
Proof.
  move=> /ltP Hk Hs Hne Hcts. have [r E] := AddCiphertextsE Hne Hcts.
  set ct := mkKeyCiphertext _ _ in E. exists ct => // shares /leP Hl Hg Hd.
  have Hv d : List.In d shares -> pd_Share d = enc1 (f.[pt (pd_Index d)] *: (r *: gen1 S)).
    by move=> /Hd /(@PartialDecryptE _ r) H; rewrite {1}H.
  rewrite /DecryptKeyG Nat2Z.id.
  have -> : orb (Z.leb (Z.of_nat k) 0) (Z.ltb (Z.of_nat (length shares)) (Z.of_nat k)) = false.
    apply: (proj2 (Bool.orb_false_iff _ _)). split; [apply/Z.leb_gt; lia|apply/Z.ltb_ge; lia].
  rewrite length_enc1. cbn [Nat.eqb negb]. cbv iota.
  have [Hlen [Hincl _]] := chosen_shares pd_Index k shares Hl. have Hg' := good_chosen Hg Hl.
  set c := List.firstn k _ in Hlen Hincl Hg' *.
  have Hv' d : List.In d c -> pd_Share d = enc1 (f.[pt (pd_Index d)] *: (r *: gen1 S)) by move=> /Hincl /Hv.
  rewrite check_chosen //; first by move=> d /Hv' ->; rewrite length_enc1.
  cbn [negb]. rewrite (@fold_combine _ _ _ (fun d => f.[pt (pd_Index d)] *: (r *: gen1 S)) _
    (fun d => lambda [seq pt j | j <- List.map pd_Index c] (pt (pd_Index d)))).
  - move=> d acc Hin. rewrite /decrypt_step /bte_lagrangeAtZeroScalar lagrangeAtZeroE //;
      first by apply/In_mem/List.in_map.
    by rewrite (Hv' _ Hin) /= enc1K.
  - cbn [bind p1_uncompress group_blst C2]. rewrite enc1K. cbn [must bind p1_sub p1_compress group_blst].
    congr (inr (enc1 _)). rewrite add0r (@combine_at0 _ _ pd_Index _ _ _ f (r *: gen1 S)) //.
      have -> : size c = k by rewrite -Hlen. exact: Hs.
    by rewrite !scalerA (mulrC f.[0]) addrAC subrr add0r.
Qed.
End correct.

(** ** Two of the shares of s(x) = 1 + x over the small group *)
Section witness.
Let f : {poly 'F_7} := Poly [:: 1; 1].
Let share (i : Z) : 'F_7 := horner_rec [:: 1; 1] (pt (S := small_group) i).
Let id := IdentityForHeight (Z.to_N 5).
Let sha (_ : bytes) : bytes := List.repeat Byte.x00 32.
Let shares := [seq mkShare i (@enc2 small_group (share i *: hash2 small_group id hashDST)) | i <- [:: Z.of_nat 2; Z.of_nat 1]].

Lemma shareE i : f.[pt (S := small_group) i] = share i.
Proof. exact: horner_Poly. Qed.

Lemma share_neq0 i : i \in [:: Z.of_nat 1; Z.of_nat 2] -> share i != 0.
Proof. by rewrite /share !inE => /orP [/eqP ->|/eqP ->]. Qed.

Lemma small_indices : good_indices (S := small_group) [:: Z.of_nat 2; Z.of_nat 1].
Proof.
  split=> //.
  - by move=> i j; rewrite !inE => /orP [/eqP ->|/eqP ->] /orP [/eqP ->|/eqP ->].
  - by move=> i; rewrite !inE => /orP [/eqP ->|/eqP ->].
Qed.

Lemma group_threshold_ibe_witness :
  ThresholdIBE (B := group_blst small_group) (G := toy_gcm) sha (@enc1 small_group (f.[0] *: gen1 small_group))
    (Z.of_nat 2) (fun i => i \in [:: Z.of_nat 2; Z.of_nat 1]) (fun i => @ser small_group f.[pt (S := small_group) i])
    (fun id => @enc2 small_group (f.[0] *: hash2 small_group id hashDST)).
Proof.
  apply: (@group_threshold_ibe small_group toy_gcm sha f 2).
  - by [].
  - by [].
  - exact: size_Poly.
  - exact: small_indices.
  - by move=> i Hi; rewrite shareE; apply: share_neq0; move: Hi; rewrite !inE orbC.
Defined.

Lemma ibe_threshold_decrypts_witness : exists u ct sk,
    [/\ ibe_Encrypt (B := group_blst small_group) (G := toy_gcm) sha
          (@enc1 small_group (share 0 *: gen1 small_group)) id id [::] (List.repeat Byte.x00 12) = inr (u, ct),
        CombineShares (B := group_blst small_group) shares (Z.of_nat 2) = inr sk &
        ibe_Decrypt (B := group_blst small_group) (G := toy_gcm) sha sk u ct = inr id].
Proof.
  rewrite -shareE -[pt 0]/(0 : 'F_7).
  apply: (@ibe_threshold_decrypts small_group toy_gcm sha f 2 shares id id [::] (List.repeat Byte.x00 12) 1).
  - by [].
  - exact: size_Poly.
  - by [].
  - exact: small_indices.
  - by case=> [i v] [<-|[<-|[]]]; rewrite shareE; apply: DeriveShare_ok; apply: share_neq0.
  - by [].
  - by [].
  - by [].
Defined.

Let pk := @enc1 small_group (share 0 *: gen1 small_group).
Let ct0 : KeyCiphertext :=
  if EncryptKey (B := group_blst small_group) pk (@ser small_group 1) [::] is inr ct then ct else mkKeyCiphertext [::] [::].

Let ct1 : KeyCiphertext :=
  if AddCiphertexts (B := group_blst small_group) [:: ct0; ct0] is inr ct then ct else mkKeyCiphertext [::] [::].
Let part (i : nat) : PartialDecryptShare :=
  if PartialDecrypt (B := group_blst small_group) ct1 (@ser small_group (share (Z.of_nat i))) (Z.of_nat i) is inr d
  then d else mkPartial 0 [::].

(** Two ciphertexts of the key 1, and two partial decryptions of their sum. *)
Lemma bte_batch_decrypts_witness :
  AddCiphertexts (B := group_blst small_group) [:: ct0; ct0] = inr ct1 /\
  DecryptKeyG (B := group_blst small_group) ct1 [:: part 2; part 1] (Z.of_nat 2) =
    inr (@enc1 small_group ((\sum_(p <- [:: (1 : 'F_7, [::] : bytes); (1 : 'F_7, [::] : bytes)]) p.1) *: gen1 small_group)).
Proof.
  have Hk : EncryptKey (B := group_blst small_group) pk (@ser small_group 1) [::] = inr ct0 by vm_compute.
  have Ha : AddCiphertexts (B := group_blst small_group) [:: ct0; ct0] = inr ct1 by vm_compute.
  have [] := @bte_batch_decrypts small_group f 2 [:: (1 : 'F_7, [::]); (1 : 'F_7, [::])] [:: ct0; ct0].
  - by [].
  - exact: size_Poly.
  - by [].
  - rewrite -[0]/(pt (S := small_group) 0) shareE. by do 2 (constructor; first exact: Hk); constructor.
  - move=> ct; rewrite Ha => -[<-] H. split; first by []. apply: H; [by []|exact: small_indices|].
    by move=> d [<-|[<-|[]]]; rewrite shareE; vm_compute.
Defined.
End witness.
