(* ===== verification/PprfCorrect.v ===== *)
(** Correctness of the puncturable PRF (pprf/pprf_blst.go) and of its batched
    evaluation (bte/batch_blst.go) over any pairing group: the power tables the
    setup builds, and that the evaluations under a key, under its group
    element, under a punctured key and from a batch all agree. *)
From Stdlib Require Import ZArith Lia Permutation.
From mathcomp Require Import boot algebra.
From S2P Require Import CryptoOps Beast PairingGroups.
Import GRing.Theory.
#[local] Set Warnings "-rewrite-rw".
Set Implicit Arguments.
Unset Strict Implicit.
Unset Printing Implicit Defensive.
Local Open Scope ring_scope.

Section pprf.
Variable S : PairingGroup.
Let F := pF S.

(** ** Setup *)
Definition row (n : nat) (x : F) (j : nat) : bytes * bytes :=
  if j == n.+1 then ([::], [::]) else (enc1 (x ^+ j *: gen1 S), enc2 (x ^+ j *: gen2 S)).

(** The parameters of domain 1..[n] and secret [x]. *)
Definition params (n : nat) (x : F) : LinearParams :=
  let rows := List.map (row n x) (List.seq 1 (Nat.add (Nat.add n n) 1)) in
  mkLinearParams (Z.of_nat n) ([::] :: List.map fst rows) ([::] :: List.map snd rows).

Lemma build_powsE (n : nat) (x : F) (i steps : nat) :
  x != 0 -> (0 < i)%coq_nat ->
  build_pows (Z.of_nat n) x (x ^+ i.-2.+1) (Z.of_nat i) steps =
    inr (List.map (row n x) (List.seq i steps)).
Proof.
  move=> Hx. elim: steps i => [|steps IH] i Hi //. cbn [build_pows].
  set pow := if Z.ltb 1 (Z.of_nat i) then _ else _.
  have -> : pow = inr (x ^+ i).
    rewrite /pow. case: Z.ltb_spec => H.
      have -> : i = i.-2.+2 by lia.
      by rewrite /checked /= -exprSr expf_neq0.
    have -> : i = 1%N by lia. by [].
  cbn [bind]. have -> : Z.add (Z.of_nat i) 1 = Z.of_nat i.+1 by lia.
  have := IH i.+1 ltac:(lia). have -> : i.+1.-2.+1 = i by lia.
  move=> ->. cbn [bind List.seq List.map]. congr (inr (_ :: _)).
  rewrite /row. have -> : Z.eqb (Z.of_nat i) (Z.add (Z.of_nat n) 1) = (i == n.+1).
    by apply/Z.eqb_spec/eqP; lia.
  by [].
Qed.

Definition xpow (x : F) (j : Z) : F := x ^+ Z.to_nat j.

Lemma xpowD x i j : Z.le 0 i -> Z.le 0 j -> xpow x (Z.add i j) = xpow x i * xpow x j.
Proof. by move=> Hi Hj; rewrite /xpow Z2Nat.inj_add // exprD. Qed.

(** The tables hold the powers, but for the one in the middle. *)
Definition in_table (n : nat) (j : Z) : Prop := Z.le 1 j /\ Z.le j (2 * Z.of_nat n + 1) /\ j <> Z.of_nat n.+1.

Lemma nth_rows A (d : A) (g : nat -> A) (n : nat) (j : Z) : in_table n j ->
  List.nth (Z.to_nat j) (d :: List.map g (List.seq 1 (Nat.add (Nat.add n n) 1))) d = g (Z.to_nat j).
Proof.
  move=> [H1 [H2 _]]. have -> : Z.to_nat j = (Z.to_nat j).-1.+1 by lia. cbn [List.nth].
  rewrite (List.nth_indep _ d (g 0%N)); first by rewrite List.length_map List.length_seq; lia.
  rewrite List.map_nth List.seq_nth //. by lia.
Qed.

Lemma pows_at (n : nat) (x : F) (j : Z) : in_table n j ->
  pow_at (G1Pows (params n x)) j = enc1 (xpow x j *: gen1 S) /\
  pow_at (G2Pows (params n x)) j = enc2 (xpow x j *: gen2 S).
Proof.
  move=> Hj. rewrite /pow_at /params. cbn [G1Pows G2Pows]. rewrite !List.map_map !nth_rows // /row.
  have -> : (Z.to_nat j == n.+1) = false by apply/eqP; case: Hj; lia. by [].
Qed.

Lemma params_valid (n : nat) (x : F) : (0 < n)%coq_nat -> lp_valid (params n x).
Proof.
  move=> Hn. rewrite /lp_valid. cbn [lp_N params G1Pows G2Pows length].
  rewrite !List.length_map !List.length_seq.
  have -> : Z.ltb 0 (Z.of_nat n) by apply/Z.ltb_lt; lia.
  have -> : Z.eqb (Z.of_nat (Nat.add (Nat.add n n) 1).+1) (2 * Z.of_nat n + 2) by apply/Z.eqb_eq; lia.
  cbn [andb]. apply/List.forallb_forall => i /List.in_seq Hi.
  case: Z.eqb_spec => [//|Hne]. cbn [orb].
  have Ht : in_table n (Z.of_nat i) by split; [|split]; lia.
  have [-> ->] := pows_at x Ht. by rewrite length_enc1 length_enc2.
Qed.

Lemma buildLinearParamsE (n : nat) (x : F) : (0 < n)%coq_nat -> x != 0 ->
  buildLinearParams (Z.of_nat n) x = inr (params n x).
Proof.
  move=> Hn Hx. rewrite /buildLinearParams.
  have -> : Z.leb (Z.of_nat n) 0 = false by apply/Z.leb_gt; lia.
  have := @build_powsE n x 1 (Nat.add (Nat.add n n) 1) Hx ltac:(lia). rewrite expr1.
  have -> : Z.to_nat (2 * Z.of_nat n + 1) = (Nat.add (Nat.add n n) 1) by lia.
  move=> ->. cbn [bind]. by rewrite params_valid.
Qed.

(** ** Evaluation *)
Definition domain (n : nat) (i : Z) : Prop := Z.le 1 i /\ Z.le i (Z.of_nat n).

Lemma domain_pos n i : domain n i -> (0 < n)%coq_nat.
Proof. by case; lia. Qed.

Lemma out_domain n i : domain n i -> orb (Z.leb i 0) (Z.ltb (Z.of_nat n) i) = false.
Proof. by move=> [H1 H2]; apply/Bool.orb_false_iff; split; [apply/Z.leb_gt|apply/Z.ltb_ge]; lia. Qed.

Lemma domain_table n i : domain n i -> in_table n i.
Proof. by move=> [H1 H2]; split; [|split]; lia. Qed.

(** The index of the table an evaluation at [i] reads under a key punctured at [j]. *)
Lemma shifted_table n i j : domain n i -> domain n j -> i <> j ->
  in_table n (Z.sub (Z.add (Z.add (Z.of_nat n) 1) i) j).
Proof. by move=> [H1 H2] [H3 H4] Hne; split; [|split]; lia. Qed.

Lemma top_table n i : domain n i -> in_table n (Z.add (Z.add (Z.of_nat n) 1) i).
Proof. by move=> [H1 H2]; split; [|split]; lia. Qed.

(** The value of the function under key [k] at [i]. *)
Definition prf (n : nat) (x k : F) (i : Z) : bytes :=
  encT ((k * xpow x (Z.add (Z.add (Z.of_nat n) 1) i)) *: pair (gen2 S) (gen1 S)).

Lemma key_scalarE (k : F) : k != 0 -> key_scalar (ser k) = inr k.
Proof. by move=> Hk; rewrite /key_scalar length_ser /= serK. Qed.

Lemma EvalE n (x k : F) i : domain n i -> k != 0 -> Eval (params n x) (ser k) i = inr (prf n x k i).
Proof.
  move=> Hi Hk. rewrite /Eval params_valid; first exact: (domain_pos Hi). cbn [negb lp_N params].
  rewrite out_domain // key_scalarE //. cbn [bind].
  have [-> _] := pows_at x (top_table Hi). cbn [p1_uncompress group_blst]. rewrite enc1K. cbn [must bind].
  by rewrite /prf /= big_seq1 /= !pairZr scalerA.
Qed.

Lemma EvalFromGKE n (x k : F) i : domain n i ->
  EvalFromGK (params n x) (enc1 (k *: gen1 S)) i = inr (prf n x k i).
Proof.
  move=> Hi. rewrite /EvalFromGK params_valid; first exact: (domain_pos Hi). cbn [negb lp_N params].
  rewrite out_domain // length_enc1. cbn [Nat.eqb negb]. cbv iota. cbn [p1_uncompress group_blst].
  rewrite enc1K. cbn [must bind]. have [_ ->] := pows_at x (top_table Hi).
  cbn [p2_uncompress group_blst]. rewrite enc2K. cbn [must bind].
  by rewrite /prf /= big_seq1 /= pairZl pairZr scalerA mulrC.
Qed.

Lemma PunctureE n (x k : F) j : domain n j -> k != 0 ->
  Puncture (params n x) (ser k) j = inr (enc1 (k *: (xpow x j *: gen1 S))).
Proof.
  move=> Hj Hk. rewrite /Puncture params_valid; first exact: (domain_pos Hj). cbn [negb lp_N params].
  rewrite out_domain // key_scalarE //. cbn [bind].
  have [-> _] := pows_at x (domain_table Hj). cbn [p1_uncompress group_blst]. by rewrite enc1K.
Qed.

(** A product of the exponents that sum to the one of the value. *)
Lemma punctured_pair n (x k : F) i j : domain n i -> domain n j ->
  pair (xpow x (Z.sub (Z.add (Z.add (Z.of_nat n) 1) i) j) *: gen2 S) (k *: (xpow x j *: gen1 S)) =
    (k * xpow x (Z.add (Z.add (Z.of_nat n) 1) i)) *: pair (gen2 S) (gen1 S).
Proof.
  move=> [H1 H2] [H3 H4]. rewrite pairZl !pairZr !scalerA. congr (_ *: _).
  rewrite -mulrA mulrCA -xpowD; [lia|lia|]. congr (_ * xpow _ _). lia.
Qed.

Lemma PuncturedEvalE n (x k : F) i j : domain n i -> domain n j -> i <> j ->
  PuncturedEval (params n x) (enc1 (k *: (xpow x j *: gen1 S))) j i = inr (prf n x k i).
Proof.
  move=> Hi Hj Hne. rewrite /PuncturedEval params_valid; first exact: (domain_pos Hi).
  cbn [negb lp_N params]. have -> : forall a b c d, orb (orb (orb a b) c) d = orb (orb a b) (orb c d).
    by move=> a b c d; rewrite !Bool.orb_assoc.
  rewrite !out_domain //. cbn [orb]. have /Z.eqb_neq -> := Hne. rewrite length_enc1.
  cbn [Nat.eqb negb]. cbv iota. cbn [p1_uncompress group_blst]. rewrite enc1K. cbn [must bind].
  have Ht := shifted_table Hi Hj Hne. set e := Z.sub _ j in Ht *.
  have -> : orb (Z.leb e 0) (Z.leb (Z.of_nat (length (G2Pows (params n x)))) e) = false.
    rewrite /params. cbn [G2Pows length]. rewrite !List.length_map List.length_seq.
    by case: Ht => ? [? _]; apply/Bool.orb_false_iff; split; apply/Z.leb_gt; lia.
  have [_ ->] := pows_at x Ht. cbn [p2_uncompress group_blst]. rewrite enc2K. cbn [must bind].
  by rewrite /prf /= big_seq1 /= punctured_pair.
Qed.

(** The puncturable PRF is correct. Under the parameters the setup builds,
    at every index of the domain, evaluating under a key, under its group
    element and under the key punctured at another index all give the same
    value, and the punctured index itself is refused. *)
Theorem pprf_evaluations_agree (n : nat) (x k : F) (i j : Z) :
  x != 0 -> k != 0 -> domain n i -> domain n j ->
  exists pp pk v,
    [/\ buildLinearParams (Z.of_nat n) x = inr pp, Puncture pp (ser k) j = inr pk,
        Eval pp (ser k) i = inr v, EvalFromGK pp (enc1 (k *: gen1 S)) i = inr v &
        PuncturedEval pp pk j i = if Z.eqb i j then inl ErrPunctured else inr v].
Proof.
  move=> Hx Hk Hi Hj. exists (params n x), (enc1 (k *: (xpow x j *: gen1 S))), (prf n x k i).
  split; [exact: buildLinearParamsE (domain_pos Hi) Hx|exact: PunctureE|exact: EvalE|exact: EvalFromGKE|].
  case: Z.eqb_spec => [<-|Hne]; last exact: PuncturedEvalE.
  rewrite /PuncturedEval params_valid; first exact: (domain_pos Hi). cbn [negb lp_N params].
  have -> : forall a b c d, orb (orb (orb a b) c) d = orb (orb a b) (orb c d).
    by move=> a b c d; rewrite !Bool.orb_assoc.
  by rewrite !out_domain // Z.eqb_refl.
Qed.

(** ** Batches *)
Section batch.
Variables (n : nat) (x : F) (key : Z -> F) (i : Z).

(** An entry of the map of punctured keys. *)
Definition entry (jk : Z * bytes) : Prop :=
  domain n jk.1 /\ jk.2 = enc1 (key jk.1 *: (xpow x jk.1 *: gen1 S)).

Definition factor (j : Z) : pV2 S * pV1 S :=
  (xpow x (Z.sub (Z.add (Z.add (Z.of_nat n) 1) i) j) *: gen2 S, 0 - key j *: (xpow x j *: gen1 S)).

Lemma punctured_factorE jk : domain n i -> entry jk -> jk.1 <> i ->
  punctured_factor (params n x) i jk = Returns (inr (factor jk.1)).
Proof.
  case: jk => j b Hi [Hj /= ->] Hne. rewrite /punctured_factor length_enc1. cbn [Nat.eqb negb lp_N params]. cbv iota.
  have Ht := shifted_table Hi Hj (not_eq_sym Hne). rewrite /factor. set e := Z.sub _ j in Ht *.
  have -> : orb (Z.ltb e 0) (Z.leb (Z.of_nat (length (G2Pows (params n x)))) e) = false.
    rewrite /params. cbn [G2Pows length]. rewrite !List.length_map List.length_seq.
    by case: Ht => ? [? _]; apply/Bool.orb_false_iff; split; [apply/Z.ltb_ge|apply/Z.leb_gt]; lia.
  have [_ ->] := pows_at x Ht. cbn [p2_uncompress p1_uncompress group_blst]. by rewrite enc2K enc1K.
Qed.

Lemma punctured_factorsE ks : domain n i ->
  (forall jk, List.In jk ks -> entry jk /\ jk.1 <> i) ->
  punctured_factors (params n x) i ks = Returns (inr (List.map (fun jk => factor jk.1) ks)).
Proof.
  move=> Hi. elim: ks => [//|jk ks IH] H. cbn [punctured_factors].
  have [He Hne] := H _ (or_introl erefl). rewrite punctured_factorE // IH // => jk' Hin.
  by apply: H; right.
Qed.

Lemma sum_Permutation A (V : nmodType) (h : A -> V) (l l' : list A) :
  Permutation l l' -> \sum_(a <- l) h a = \sum_(a <- l') h a.
Proof.
  elim=> [//|a m m' _ IH|a b m|m1 m2 m3 _ -> _ ->] //; rewrite !big_cons; first by rewrite IH.
  by rewrite addrCA.
Qed.

Lemma sum_filter A (V : nmodType) (h : A -> V) (c : A -> bool) (l : list A) :
  \sum_(a <- List.filter c l) h a = \sum_(a <- l | c a) h a.
Proof.
  elim: l => [|a l IH]; first by rewrite !big_nil.
  rewrite big_cons /=. by case: (c a); rewrite ?big_cons IH.
Qed.

Let top := xpow x (Z.add (Z.add (Z.of_nat n) 1) i).

Lemma factor_pair j : domain n i -> domain n j ->
  pair (factor j).1 (factor j).2 = - ((key j * top) *: pair (gen2 S) (gen1 S)).
Proof. by move=> Hi Hj; rewrite /factor sub0r pairNr punctured_pair. Qed.

Lemma factors_sum (l : list (Z * bytes)) :
  domain n i -> (forall jk, List.In jk l -> domain n jk.1) ->
  \sum_(jk <- l) pair (factor jk.1).1 (factor jk.1).2 =
    - (((\sum_(jk <- l) key jk.1) * top) *: pair (gen2 S) (gen1 S)).
Proof.
  move=> Hi. elim: l => [|jk l IH] H; first by rewrite !big_nil mul0r scale0r oppr0.
  rewrite !big_cons factor_pair //; first by apply: H; left.
  rewrite IH; first by move=> jk' Hjk; apply: H; right.
  by rewrite mulrDl scalerDl opprD.
Qed.

(** Dividing the other keys' shares of the product out leaves the own one. *)
Lemma batch_sum (punctured other : list (Z * bytes)) :
  let js := [seq jk.1 | jk <- punctured] in
  uniq js -> i \in js -> {in js, forall j, domain n j} ->
  Permutation other (List.filter (fun jk => negb (Z.eqb jk.1 i)) punctured) ->
  \sum_(qp <- (top *: gen2 S, (\sum_(j <- js) key j) *: gen1 S) :: List.map (fun jk => factor jk.1) other)
    pair qp.1 qp.2 = (key i * top) *: pair (gen2 S) (gen1 S).
Proof.
  move=> js Hu Hin Hdom HP. have Hi := Hdom _ Hin.
  have Hother jk : List.In jk other -> domain n jk.1.
    move=> /(Permutation_in _ HP) /List.filter_In [Hjk _].
    by apply/Hdom/In_mem/List.in_map_iff; exists jk.
  have Hsum : \sum_(jk <- other) key jk.1 = \sum_(j <- js | j != i) key j.
    by rewrite (sum_Permutation _ HP) sum_filter /js big_map.
  rewrite big_cons [X in _ + X = _]big_map factors_sum // Hsum pairZl pairZr scalerA -scalerBl (bigD1_seq i) //=.
  congr (_ *: _). by rewrite mulrDr [top * key i]mulrC [top * _]mulrC addrK.
Qed.
End batch.

(** C28. Batched evaluation of the puncturable PRF is correct. From the group
    element of the sum of the keys of a batch and the keys punctured at their
    own positions, in any order, RecoverPRFAt computes at a position of the
    batch exactly the value of that position's own key there, and reads its
    tables within their bounds. *)
Theorem pprf_batch_recovers (n : nat) (x : F) (key : Z -> F) (i : Z) (punctured : list (Z * bytes)) :
  let js := [seq jk.1 | jk <- punctured] in
  x != 0 -> uniq js -> {in js, forall j, domain n j /\ key j != 0} -> i \in js ->
  (forall j b, List.In (j, b) punctured -> Puncture (params n x) (ser (key j)) j = inr b) ->
  exists pp v,
    [/\ buildLinearParams (Z.of_nat n) x = inr pp, Eval pp (ser (key i)) i = inr v &
        RecoverPRFAt pp (enc1 ((\sum_(j <- js) key j) *: gen1 S)) i punctured = Returns (inr v)].
Proof.
  move=> js Hx Hu Hdom Hin Hp. have [Hi Hki] := Hdom _ Hin.
  exists (params n x), (prf n x (key i) i). split; [exact: buildLinearParamsE (domain_pos Hi) Hx|exact: EvalE|].
  rewrite /RecoverPRFAt params_valid; first exact: (domain_pos Hi). cbn [negb lp_N params].
  rewrite out_domain // length_enc1. cbn [Nat.eqb negb]. cbv iota.
  have -> : Nat.eqb (length punctured) 0 = false by move: Hin; rewrite /js; case: (punctured).
  cbn [p1_uncompress p2_uncompress group_blst]. rewrite enc1K.
  have [_ ->] := pows_at x (top_table Hi). rewrite enc2K.
  set other := sort_by_index _ _.
  have HP : Permutation other _ := sort_by_index_perm _ _.
  rewrite (@punctured_factorsE n x key) //.
    move=> [j b] /(Permutation_in _ HP) /List.filter_In /= [Hjb /Bool.negb_true_iff /Z.eqb_neq Hne].
    have Hj : j \in js by apply/In_mem/List.in_map_iff; exists (j, b).
    have [Hd Hk] := Hdom _ Hj. split=> //. split=> //=.
    by move: (Hp _ _ Hjb); rewrite PunctureE // => -[].
  congr (Returns (inr _)). cbn [pairing group_blst gt_bytes]. rewrite /prf. congr encT.
  exact: (@batch_sum n x key i _ _ Hu Hin (fun j Hj => proj1 (Hdom j Hj)) HP).
Qed.
End pprf.

(** ** The domain 1..3 over the small group *)
Section witness.
Let x : 'F_7 := 2%:R.
Let key (j : Z) : 'F_7 := pt (S := small_group) j.
Let entry_of (j : Z) : Z * bytes :=
  (j, if Puncture (B := group_blst small_group) (params (S := small_group) 3 x) (@ser small_group (key j)) j is inr b
      then b else [::]).

Lemma pprf_evaluations_agree_witness : exists pp pk v,
    [/\ buildLinearParams (B := group_blst small_group) (Z.of_nat 3) x = inr pp,
        Puncture (B := group_blst small_group) pp (@ser small_group 3%:R) (Z.of_nat 2) = inr pk,
        Eval (B := group_blst small_group) pp (@ser small_group 3%:R) (Z.of_nat 1) = inr v,
        EvalFromGK (B := group_blst small_group) pp (@enc1 small_group (3%:R *: gen1 small_group)) (Z.of_nat 1) = inr v &
        PuncturedEval (B := group_blst small_group) pp pk (Z.of_nat 2) (Z.of_nat 1) =
          if Z.eqb (Z.of_nat 1) (Z.of_nat 2) then inl ErrPunctured else inr v].
Proof.
  by apply: (@pprf_evaluations_agree small_group 3 x 3%:R (Z.of_nat 1) (Z.of_nat 2)) => //; split; lia.
Defined.

Let punctured := [:: entry_of (Z.of_nat 3); entry_of (Z.of_nat 1)].

Lemma pprf_batch_recovers_witness : exists pp v,
    [/\ buildLinearParams (B := group_blst small_group) (Z.of_nat 3) x = inr pp,
        Eval (B := group_blst small_group) pp (@ser small_group (key (Z.of_nat 1))) (Z.of_nat 1) = inr v &
        RecoverPRFAt (B := group_blst small_group) pp
          (@enc1 small_group ((\sum_(j <- [seq jk.1 | jk <- punctured]) key j) *: gen1 small_group))
          (Z.of_nat 1) punctured = Returns (inr v)].
Proof.
  apply: (@pprf_batch_recovers small_group 3 x key (Z.of_nat 1) punctured).
  - by [].
  - by [].
  - by move=> j; rewrite !inE => /orP [/eqP ->|/eqP ->]; split=> //; split; lia.
  - by [].
  - have H j : Puncture (B := group_blst small_group) (params (S := small_group) 3 x) (@ser small_group (key j)) j =
        inr (entry_of j).2 -> forall j' b, entry_of j = (j', b) ->
        Puncture (B := group_blst small_group) (params (S := small_group) 3 x) (@ser small_group (key j')) j' = inr b.
      by move=> E j' b [<- <-].
    by move=> j b [|[|[]]]; apply: H; vm_compute.
Defined.
End witness.
