(* ===== verification/FeldmanCorrect.v ===== *)
(** Correctness of Feldman secret sharing and of the in-memory DKG
    (src/internal/tss/dkg/feldman_crypto_blst.go) over any pairing group, and
    of the keys it deals in the identity-based encryption of BEAST. *)
From Stdlib Require Import ZArith Lia.
From mathcomp Require Import boot algebra.
From S2P Require Import CryptoOps Beast Feldman PairingGroups BeastCorrect.
Import GRing.Theory.
#[local] Set Warnings "-rewrite-rw".
Set Implicit Arguments.
Unset Strict Implicit.
Unset Printing Implicit Defensive.
Local Open Scope ring_scope.

Section feldman.
Variable S : PairingGroup.
Let F := pF S.
Implicit Types (coeffs : seq F).

(** ** Sequences of fallible steps *)
Lemma checked_inr A err (r : A * bool) a : checked err r = inr a -> a = r.1.
Proof. by rewrite /checked; case: r => b [] //= [->]. Qed.

Lemma map_res_map A B (f : A -> res B) (h : A -> B) (l : list A) bs :
  (forall a b, List.In a l -> f a = inr b -> b = h a) -> map_res f l = inr bs -> bs = List.map h l.
Proof.
  elim: l bs => [|a l IH] bs H; first by case.
  cbn [map_res] => E. unbind E b Eb. unbind E bs' Ebs. case: E => <-. cbn [List.map].
  rewrite (H _ _ (or_introl erefl) Eb) (IH _ _ Ebs) // => a' b' Hin. by apply: H; right.
Qed.

Lemma map_res_all A B (f : A -> res B) (P : B -> Prop) (l : list A) bs :
  (forall a b, f a = inr b -> P b) -> map_res f l = inr bs -> List.Forall P bs /\ length bs = length l.
Proof.
  move=> H. elim: l bs => [|a l IH] bs; first by case=> <-.
  cbn [map_res] => E. unbind E b Eb. unbind E bs' Ebs. case: E => <-. have [H1 H2] := IH _ Ebs.
  by split; [constructor; [exact: H Eb|]|rewrite /= H2].
Qed.

(** ** Shares and commitments *)
Definition commit (c : F) : bytes := enc1 (c *: gen1 S).

Lemma eval_fold xs coeffs (acc pow acc' pow' : F) :
  fold_res (eval_step xs) coeffs (acc, pow) = inr (acc', pow') -> acc' = acc + pow * horner_rec coeffs xs.
Proof.
  elim: coeffs acc pow => [|c coeffs IH] acc pow; first by case=> <- _; rewrite /= mulr0 addr0.
  cbn [fold_res] => H. unbind H st Est. move: Est. rewrite /eval_step => Est.
  unbind Est term Et. unbind Est acc1 Ea. unbind Est nxt En. case: Est H => <- /IH ->.
  rewrite (checked_inr En) (checked_inr Ea) (checked_inr Et) /=.
  by rewrite mulrDr -!mulrA (mulrC xs) (mulrC c) -addrA (addrC (pow * c)).
Qed.

(** [evalPolyAt] is the value of the polynomial. *)
Lemma evalPolyAtE coeffs x v : evalPolyAt coeffs x = inr v -> v = (Poly coeffs).[pt x].
Proof.
  rewrite /evalPolyAt. case: orb => // H. unbind H st E. case: H => <-. case: st E => a b.
  rewrite !scalarFromIntE pt0 pt1 => /eval_fold -> /=. by rewrite horner_Poly add0r mul1r.
Qed.

Lemma verify_fold (xs : F) coeffs (acc : pV1 S) (pow : F) :
  xs != 0 -> pow != 0 ->
  fold_res (verify_step xs) (List.map commit coeffs) (acc, pow) =
    inr (acc + (pow * horner_rec coeffs xs) *: gen1 S, pow * xs ^+ length coeffs).
Proof.
  move=> Hxs. elim: coeffs acc pow => [|c coeffs IH] acc pow Hp.
    by rewrite /= mulr0 scale0r addr0 mulr1.
  cbn [List.map fold_res]. rewrite /verify_step. cbn [p1_uncompress group_blst fst snd]. rewrite enc1K.
  cbn [must bind]. have Hm : pow * xs != 0 by rewrite mulf_neq0.
  rewrite (chk_mul _ Hm). cbn [bind]. rewrite IH // /= exprS mulrA. congr (inr (_, _)).
  by rewrite scalerA -addrA -scalerDl mulrDr -mulrA (mulrC xs) [pow * c + _]addrC.
Qed.

Lemma bytes_eqbP a b : bytes_eqb a b = true <-> a = b.
Proof.
  elim: a b => [|x a IH] [|y b] //=. split.
  - by case/andP => /Byte.byte_dec_bl -> /IH ->.
  - by case=> -> <-; rewrite (Byte.byte_dec_lb erefl); apply/IH.
Qed.

Lemma commit_inj : injective commit.
Proof.
  move=> a b E. have : enc1 (a *: gen1 S) = enc1 (b *: gen1 S) by [].
  move=> /(congr1 dec1). rewrite !enc1K => -[H]. apply/eqP. rewrite -subr_eq0. apply/eqP/gen1_free.
  by rewrite scalerBl H subrr.
Qed.

(** What [verifyFeldmanShare] answers, for commitments to a polynomial. *)
Lemma verifyFeldmanShareE (s : F) x coeffs :
  Z.lt 0 x -> pt x != 0 -> coeffs <> [::] ->
  verifyFeldmanShare s x (List.map commit coeffs) = inr (s == (Poly coeffs).[pt x]).
Proof.
  move=> Hx Hpt Hc. rewrite /verifyFeldmanShare. have -> : Z.leb x 0 = false by apply/Z.leb_gt.
  rewrite List.length_map. have -> : Nat.eqb (length coeffs) 0 = false by case: (coeffs) Hc.
  cbn [orb]. rewrite !scalarFromIntE pt1 verify_fold ?oner_neq0 //. cbn [bind fst p1_zero group_blst].
  rewrite add0r mul1r -horner_Poly. congr inr. rewrite -[p1_compress _]/(commit s) -[p1_compress _]/(commit _).
  by apply/idP/eqP => [/bytes_eqbP /commit_inj|->]; last apply/bytes_eqbP.
Qed.

Lemma commitmentsFromPolyE coeffs com :
  commitmentsFromPoly coeffs = inr com -> coeffs <> [::] /\ com = List.map commit coeffs.
Proof. by rewrite /commitmentsFromPoly; case: coeffs => // c coeffs [<-]. Qed.

Lemma feldman_check coeffs (x : Z) (com : list bytes) (dealt s : F) :
  commitmentsFromPoly coeffs = inr com -> evalPolyAt coeffs x = inr dealt -> pt x != 0 ->
  verifyFeldmanShare s x com = inr (s == dealt).
Proof.
  move=> /commitmentsFromPolyE [Hc ->] Hv Hpt. have Hx : Z.lt 0 x.
    case: (Z.ltb_spec 0 x) => // /Z.leb_le Hx. by move: Hv; rewrite /evalPolyAt Hx Bool.orb_true_r.
  by rewrite verifyFeldmanShareE // (evalPolyAtE Hv).
Qed.

(** Feldman verification is complete and sound. Against the commitments of
    a polynomial, a participant accepts the share the dealer computes for it
    and rejects every other scalar. *)
Theorem feldman_accepts_only_dealt coeffs (x : Z) (com : list bytes) (dealt s : F) :
  commitmentsFromPoly coeffs = inr com -> evalPolyAt coeffs x = inr dealt -> pt x != 0 ->
  verifyFeldmanShare s x com = inr (s == dealt).
Proof. exact: feldman_check. Qed.

(** ** The DKG *)
Definition dealer_poly (d : dealer) : {poly F} := Poly (dl_coeffs d).

Definition honest (t : nat) (d : dealer) : Prop :=
  dl_commitments d = List.map commit (dl_coeffs d) /\ length (dl_coeffs d) = t /\ dl_coeffs d <> [::].

Lemma deal_honest t ikm d : deal t ikm = inr d -> honest (Z.to_nat t) d.
Proof.
  rewrite /deal => H. unbind H cs Ecs. unbind H com Ecom. case: H => <-.
  have [_ Hl] := map_res_all (P := fun _ => True) (fun _ _ _ => I) Ecs.
  have [Hne ->] := commitmentsFromPolyE Ecom. split; [|split] => //=. by rewrite Hl List.length_seq.
Qed.

(** The polynomial that the dealers share together. *)
Definition joint (ds : list dealer) : {poly F} := \sum_(d <- ds) dealer_poly d.

Lemma size_joint t ds : List.Forall (honest t) ds -> (size (joint ds) <= t)%N.
Proof.
  rewrite /joint. elim=> [|d ds' [_ [Hl _]] _ IH]; first by rewrite big_nil size_poly0.
  rewrite big_cons. apply: (leq_trans (size_polyD _ _)). rewrite geq_max IH andbT.
  by rewrite -Hl; exact: size_Poly.
Qed.

Lemma pk_fold t ds (acc acc' : pV1 S) : List.Forall (honest t) ds ->
  fold_res pk_step ds acc = inr acc' -> acc' = acc + (joint ds).[0] *: gen1 S.
Proof.
  rewrite /joint. move=> H. elim: H acc => [|d ds' [Hc [_ Hne]] _ IH] acc.
    by case=> <-; rewrite big_nil horner0 scale0r addr0.
  cbn [fold_res] => E. unbind E acc1 E1. rewrite (IH _ E) big_cons hornerD. move: E1.
  rewrite /pk_step Hc. case Ed: (dl_coeffs d) Hne => [//|c cs] _. cbn [List.map List.nth].
  rewrite /commit. cbn [p1_uncompress group_blst]. rewrite enc1K. cbn [must bind p1_add group_blst] => -[<-].
  by rewrite -addrA -scalerDl /dealer_poly Ed horner_Poly /= mulr0 add0r.
Qed.

Lemma participant_fold i ds (acc acc' : F) :
  fold_res (share_step i) ds acc = inr acc' -> acc' = acc + (joint ds).[pt i].
Proof.
  rewrite /joint. elim: ds acc => [|d ds IH] acc; first by case=> <-; rewrite big_nil horner0 addr0.
  cbn [fold_res] => E. unbind E acc1 E1. rewrite (IH _ E) big_cons hornerD.
  move: E1. rewrite /share_step => E1. unbind E1 si Es. unbind E1 ok Eok. case: (negb ok) E1 => // E1.
  by rewrite (checked_inr E1) (evalPolyAtE Es) addrA.
Qed.

Lemma participantE ds i r : participant ds i = inr r -> r = (i, ser (joint ds).[pt i]).
Proof.
  rewrite /participant => E. unbind E tot Es. case: E => <-.
  move: Es. rewrite scalarFromIntE pt0 => /participant_fold ->. by rewrite add0r.
Qed.

(** What the DKG outputs: a group key and the shares of one polynomial. *)
Lemma SimulateFeldmanDKGE n t ikm pk shares :
  SimulateFeldmanDKG n t ikm = inr (pk, shares) ->
  [/\ Z.lt 0 t, Z.le t n & exists f : {poly F}, [/\ (size f <= Z.to_nat t)%N, pk = enc1 (f.[0] *: gen1 S) &
    shares = List.map (fun i => (Z.of_nat i, ser f.[pt (Z.of_nat i)])) (List.seq 1 (Z.to_nat n))]].
Proof.
  rewrite /SimulateFeldmanDKG. case E: (orb _ _) => // H.
  move: E => /Bool.orb_false_iff [/Bool.orb_false_iff [_ /Z.leb_gt Ht] /Z.ltb_ge Hn].
  unbind H ds Ed. unbind H acc Ea. unbind H sh Es. case: H => <- <-.
  have [Hh _] := map_res_all (fun _ _ => @deal_honest _ _ _) Ed.
  split=> //. exists (joint ds). split; first exact: size_joint.
  - by rewrite (pk_fold Hh Ea) /= add0r.
  - by apply: map_res_map Es => i r _ /participantE.
Qed.

(** The DKG and threshold decryption fit together. The shares that the
    in-memory Feldman DKG hands out are shares of the secret under the group
    key it returns: what is encrypted to that key for an identity is decrypted
    by the key that any [t] of the participants combine. *)
Theorem dkg_shares_decrypt {G : AESGCM} (sha256 : bytes -> bytes) n t ikm pk shares
    (quorum : list Share) (id msg seed nonce : bytes) (r : F) :
  SimulateFeldmanDKG n t ikm = inr (pk, shares) ->
  (Z.to_nat t <= length quorum)%N -> good_indices (List.map sh_Index quorum) ->
  (forall a, List.In a quorum ->
     exists2 sk, List.In (sh_Index a, sk) shares & DeriveShare sk id = inr (sh_Value a)) ->
  keygen S seed = Some r -> length nonce = 12%N -> (forall b, length (sha256 b) = 32%N) ->
  exists u ct sk,
    [/\ ibe_Encrypt sha256 pk id msg seed nonce = inr (u, ct),
        CombineShares quorum t = inr sk &
        ibe_Decrypt sha256 sk u ct = inr msg].
Proof.
  move=> /SimulateFeldmanDKGE [Ht _ [f [Hs -> ->]]] Hl Hg Hv Hr Hn Hsha. set h := hash2 S id hashDST.
  have [u [ct [-> Hdec]]] := ibe_encrypt_opens f.[0] id msg Hr Hn Hsha.
  exists u, ct, (enc2 (f.[0] *: h)). split=> //.
  rewrite -{1}(Z2Nat.id t); first exact: Z.lt_le_incl. apply: CombineSharesE Hs Hl Hg _; first by apply/ltP; lia.
  move=> a /Hv [sk /List.in_map_iff [i [[Hi <-] _]] /DeriveShareE ->]. by rewrite Hi.
Qed.

(** ** Verified shares, whoever dealt them

    A dealer may commit to any points, and is known to have shared one
    polynomial only through the shares that were verified. *)
Definition points (com : list bytes) : seq (pV1 S) := [seq odflt 0 (dec1 b) | b <- com].

(** The value at [x] of the polynomial with these coefficients. *)
Definition value_at (Ps : seq (pV1 S)) (x : F) : pV1 S := \sum_(j < size Ps) x ^+ j *: Ps`_j.

Lemma value_at_cons P Ps x : value_at (P :: Ps) x = P + x *: value_at Ps x.
Proof.
  rewrite /value_at /= big_ord_recl expr0 scale1r. congr (_ + _).
  rewrite scaler_sumr. apply: eq_bigr => j _. by rewrite /= /bump /= add1n exprS scalerA.
Qed.

Lemma value_at0 Ps : value_at Ps 0 = Ps`_0.
Proof.
  case: Ps => [|P Ps]; first by rewrite /value_at big_ord0.
  by rewrite value_at_cons scale0r addr0.
Qed.

Lemma verify_points (xs : F) com (acc acc' : pV1 S) (pow pow' : F) :
  fold_res (verify_step xs) com (acc, pow) = inr (acc', pow') ->
  acc' = acc + pow *: value_at (points com) xs.
Proof.
  elim: com acc pow => [|b com IH] acc pow.
    by case=> <- _; rewrite /value_at big_ord0 scaler0 addr0.
  cbn [fold_res] => H. unbind H st Est. move: Est. rewrite /verify_step => Est.
  unbind Est P EP. unbind Est nxt En. case: Est H => <- /IH ->. rewrite (checked_inr En) /= value_at_cons.
  have -> : dec1 b = Some P := must_inr EP. by rewrite /= scalerDr scalerA addrA.
Qed.

Lemma verified_value (s : F) i com :
  verifyFeldmanShare s i com = inr true -> s *: gen1 S = value_at (points com) (pt i).
Proof.
  rewrite /verifyFeldmanShare. case: orb => // H. unbind H st Est. case: st Est H => acc pow.
  rewrite !scalarFromIntE pt1 => /verify_points E. cbn [fst] => -[] /bytes_eqbP.
  move/(congr1 (@dec1 S)). cbn [p1_compress p1_mult p1_gen group_blst]. rewrite !enc1K => -[->].
  by rewrite E scale1r; cbn [p1_zero group_blst]; rewrite add0r.
Qed.

(** What the qualified dealers committed to, at [x]. *)
Definition joint_value (coms : list (list bytes)) (x : F) : pV1 S := \sum_(com <- coms) value_at (points com) x.

Lemma qual_public_keyE coms gpk : qual_public_key coms = inr gpk ->
  (forall com, List.In com coms -> com <> [::]) -> gpk = enc1 (joint_value coms 0).
Proof.
  rewrite /qual_public_key => H Hne. unbind H acc Ea. case: H => <-. congr enc1.
  suff H acc0 : fold_res qual_step coms acc0 = inr acc -> acc = acc0 + joint_value coms 0.
    by rewrite (H _ Ea); cbn [p1_zero group_blst]; rewrite add0r.
  rewrite /joint_value. elim: coms acc0 Hne {Ea} => [|com coms IH] acc0 Hne; first by case=> <-; rewrite big_nil addr0.
  cbn [fold_res] => E. unbind E acc1 E1. rewrite (IH acc1) //; first by move=> c Hc; apply: Hne; right.
  move: E1. rewrite /qual_step => E1. unbind E1 P EP. case: E1 => <-. rewrite big_cons value_at0 addrA. congr (_ + _ + _).
  have {}EP := must_inr EP. case: com {IH} Hne EP => [/(_ [::] (or_introl erefl))//|b com _] EP.
  by rewrite /= (EP : dec1 b = Some P).
Qed.

Lemma qual_shareE (dealt : seq F) sk : qual_share dealt = inr sk -> sk = ser (\sum_(s <- dealt) s).
Proof.
  rewrite /qual_share => H. unbind H tot Et. case: H => <-. congr ser. move: Et. rewrite scalarFromIntE pt0.
  suff H (acc0 : F) : @fold_res F F (fun acc s => checked fe_share (@sk_add (group_blst S) acc s)) dealt acc0 = inr tot ->
      tot = acc0 + \sum_(s <- dealt) s by move/H ->; rewrite add0r.
  elim: dealt acc0 => [|s dealt IH] acc0; first by case=> <-; rewrite big_nil addr0.
  cbn [fold_res] => E. unbind E acc1 E1. by rewrite (IH _ E) (checked_inr E1) big_cons addrA.
Qed.

(** Each share fits the commitments of its dealer. *)
Definition verified (i : Z) (dealt : seq F) (coms : list (list bytes)) : Prop :=
  List.Forall2 (fun (s : F) com => verifyFeldmanShare s i com = inr true) dealt coms.

Lemma dealt_value i (dealt : seq F) coms : verified i dealt coms ->
  (\sum_(s <- dealt) s) *: gen1 S = joint_value coms (pt i).
Proof.
  rewrite /joint_value. elim=> [|s com dealt' coms' Hs _ IH]; first by rewrite !big_nil scale0r.
  by rewrite !big_cons scalerDl IH (verified_value Hs).
Qed.

(** The values at enough points determine the value at any other. *)
Lemma weigh_value (xs : seq F) Ps z : uniq xs -> (size Ps <= size xs)%N ->
  \sum_(x <- xs) (basis xs x).[z] *: value_at Ps x = value_at Ps z.
Proof.
  move=> Hu Hs. rewrite /value_at. under eq_bigr do rewrite scaler_sumr. rewrite exchange_big /=.
  apply: eq_bigr => j _. under eq_bigr do rewrite scalerA. rewrite -scaler_suml. congr (_ *: _).
  have Hj : (size ('X^j : {poly F}) <= size xs)%N by rewrite size_polyXn; apply: leq_trans (ltn_ord j) Hs.
  by move: (interpolate_at z Hu Hj); rewrite hornerXn => <-; apply: eq_bigr => x _; rewrite hornerXn.
Qed.

Lemma weigh_joint (xs : seq F) (t : nat) coms z : uniq xs -> (t <= size xs)%N ->
  (forall com, List.In com coms -> length com = t) ->
  \sum_(x <- xs) (basis xs x).[z] *: joint_value coms x = joint_value coms z.
Proof.
  move=> Hu Ht. rewrite /joint_value. elim: coms => [|com coms IH] H.
    by rewrite big_nil big1 // => x _; rewrite big_nil scaler0.
  under eq_bigr do rewrite big_cons scalerDr. rewrite big_split /= big_cons IH; first by move=> c Hc; apply: H; right.
  by rewrite weigh_value // /points size_map; have -> : size com = t := H com (or_introl erefl).
Qed.

(** A polynomial with given values at good indices. *)
Lemma poly_through (js : seq Z) (v : Z -> F) : good_indices js ->
  exists2 f : {poly F}, (size f <= size js)%N & {in js, forall i, f.[pt i] = v i}.
Proof.
  move=> [Hu Hinj _]. set xs := [seq pt j | j <- js]. have Hux : uniq xs by rewrite map_inj_in_uniq.
  exists (\sum_(j <- js) v j *: basis xs (pt j)).
  - rewrite big_seq. elim/big_ind: _ => [|a b Ha Hb|j Hj]; first by rewrite size_poly0.
      by apply: (leq_trans (size_polyD _ _)); rewrite geq_max Ha.
    apply: (leq_trans (size_scale_leq _ _)). have -> : size js = size xs by rewrite size_map.
    by apply: size_basis => //; apply: map_f.
  - move=> i Hi. rewrite horner_sum (bigD1_seq i) //= hornerZ basis_same mulr1 big1_seq ?addr0 //.
    move=> j /andP [Hne Hj]. rewrite hornerZ basis_other ?mulr0 //; first exact: map_f.
    by apply: contra Hne => /eqP /(Hinj _ _ Hi Hj) ->.
Qed.

(** Verified shares of enough participants lie on one polynomial, which the
    commitments of the dealers commit to. *)
Lemma joint_poly (js : seq Z) (t : nat) coms (dealt : Z -> seq F) :
  good_indices js -> (t <= size js)%N -> (forall com, List.In com coms -> length com = t) ->
  {in js, forall i, verified i (dealt i) coms} ->
  exists f : {poly F}, [/\ (size f <= t)%N, forall z, joint_value coms z = f.[z] *: gen1 S &
    {in js, forall i, f.[pt i] = \sum_(s <- dealt i) s}].
Proof.
  move=> Hg Ht Hlen Hver. set js' := take t js.
  have Hsub : {subset js' <= js} by move=> i; apply: mem_take.
  have Hsize : size js' = t by rewrite size_takel.
  have Hg' : good_indices js' by have [Hu _ _] := Hg; apply: good_sub Hg (take_uniq _ Hu) Hsub.
  have [f Hf Hv] := poly_through (fun i => \sum_(s <- dealt i) s) Hg'.
  have Hz z : joint_value coms z = f.[z] *: gen1 S.
    have [Hu Hinj _] := Hg'. set xs := [seq pt j | j <- js'].
    have Hux : uniq xs by rewrite map_inj_in_uniq. have Hsx : size xs = size js' by rewrite size_map.
    rewrite -(interpolate_at z Hux); first by rewrite Hsx.
    rewrite scaler_suml -(weigh_joint z Hux _ Hlen); first by rewrite Hsx Hsize.
    rewrite /xs !(@big_map _ _ _ _ _ (pt (S := S))) big_seq [RHS]big_seq. apply: eq_bigr => j Hj.
    by rewrite -scalerA Hv // (dealt_value (Hver j (Hsub j Hj))).
  exists f. split=> //; first by rewrite -Hsize.
  move=> i Hi. apply/eqP. rewrite -subr_eq0. apply/eqP/gen1_free.
  by rewrite scalerBl -Hz -(dealt_value (Hver i Hi)) subrr.
Qed.

Lemma joint_key coms gpk (f : {poly F}) (t : nat) :
  (0 < t)%N -> (forall com, List.In com coms -> length com = t) -> qual_public_key coms = inr gpk ->
  (forall z, joint_value coms z = f.[z] *: gen1 S) -> gpk = enc1 (f.[0] *: gen1 S).
Proof.
  move=> Ht Hlen Hgpk Hz. rewrite -Hz. apply: qual_public_keyE => // com /Hlen Hl E.
  by move: Ht; rewrite -Hl E.
Qed.

(** A DKG among dishonest dealers still works for those who verify. Take any
    commitments of the qualified dealers, as many points each as the threshold,
    and that many participants, each with a share from every dealer that passed
    the check of Feldman against the same commitments. Then what is encrypted
    for an identity to the group key computed from the commitments is opened by
    the key that these participants combine from their summed shares. *)
Theorem verified_shares_decrypt {G : AESGCM} (sha256 : bytes -> bytes) (coms : list (list bytes)) (t : nat)
    (gpk : bytes) (dealt : Z -> seq F) (sk : Z -> bytes) (quorum : list Share)
    (id msg seed nonce : bytes) (r : F) :
  (0 < t)%N -> (forall com, List.In com coms -> length com = t) -> qual_public_key coms = inr gpk ->
  length quorum = t -> good_indices (List.map sh_Index quorum) ->
  (forall a, List.In a quorum ->
    [/\ List.Forall2 (fun s com => verifyFeldmanShare s (sh_Index a) com = inr true) (dealt (sh_Index a)) coms,
        qual_share (dealt (sh_Index a)) = inr (sk (sh_Index a)) &
        DeriveShare (sk (sh_Index a)) id = inr (sh_Value a)]) ->
  keygen S seed = Some r -> length nonce = 12%N -> (forall b, length (sha256 b) = 32%N) ->
  exists u ct key,
    [/\ ibe_Encrypt sha256 gpk id msg seed nonce = inr (u, ct),
        CombineShares quorum (Z.of_nat t) = inr key &
        ibe_Decrypt sha256 key u ct = inr msg].
Proof.
  move=> Ht Hlen Hgpk Hq Hg Hsh Hr Hn Hsha. set js := List.map sh_Index quorum in Hg.
  have Hjs : size js = t by rewrite /js -Hq; exact: List.length_map.
  have Hver : {in js, forall i, verified i (dealt i) coms}.
    by move=> i /In_mem /List.in_map_iff [a [<- /Hsh []]].
  have [f [Hf Hz Hv]] := joint_poly Hg (eq_leq (esym Hjs)) Hlen Hver.
  have [u [ct [Henc Hdec]]] := ibe_encrypt_opens f.[0] id msg Hr Hn Hsha.
  exists u, ct, (enc2 (f.[0] *: hash2 S id hashDST)). split=> //; first by rewrite (joint_key Ht Hlen Hgpk Hz).
  apply: CombineSharesE Ht Hf _ Hg _; first by rewrite Hq.
  move=> a Ha. have [_ Hs Hd] := Hsh a Ha. move: Hd. rewrite (qual_shareE Hs) => /DeriveShareE ->.
  by rewrite Hv //; apply/In_mem/List.in_map.
Qed.

(** ** The interface of the DKG *)
Lemma checked_neq0 err (a b c : F) : checked err (@sk_add (group_blst S) a b) = inr c -> c = a + b /\ c != 0.
Proof. by rewrite /checked /=; case: ifP => // H [<-]. Qed.

(** A sum that the code accepts is not zero: the last step checked it. *)
Lemma eval_fold_neq0 xs coeffs (st st' : F * F) :
  coeffs <> [::] -> fold_res (@eval_step (group_blst S) xs) coeffs st = inr st' -> st'.1 != 0.
Proof.
  elim: coeffs st => [//|c coeffs IH] st _ /=. move=> E. unbind E st1 E1. case: (coeffs) IH E => [_|c' cs IH].
  - case=> <-. move: E1. rewrite /eval_step => E1. unbind E1 term Et. unbind E1 acc Ea. unbind E1 nxt En.
    by case: E1 => <-; case: (checked_neq0 Ea).
  - by apply: IH.
Qed.

Lemma evalPolyAt_neq0 coeffs i (s : F) : evalPolyAt coeffs i = inr s -> s != 0.
Proof.
  rewrite /evalPolyAt. case E: (orb _ _) => // H. unbind H st Est. case: H => <-.
  by apply: eval_fold_neq0 Est => Enil; move: E; rewrite Enil.
Qed.

Lemma qual_share_neq0 (dealt : seq F) sk : dealt <> [::] -> qual_share dealt = inr sk -> \sum_(s <- dealt) s != 0.
Proof.
  move=> Hne H. have Hsk := qual_shareE H. move: H. rewrite /qual_share => H. unbind H tot Et. case: H => Hser.
  suff [Htot Hn] : tot = \sum_(s <- dealt) s /\ tot != 0 by rewrite -Htot.
  move: Et {Hsk Hser}. rewrite scalarFromIntE pt0.
  suff Hf (acc : F) : @fold_res F F (fun acc s => checked fe_share (@sk_add (group_blst S) acc s)) dealt acc = inr tot ->
      tot = acc + \sum_(s <- dealt) s /\ tot != 0 by move=> /Hf []; rewrite add0r.
  elim: dealt acc Hne => [//|s dealt IH] acc _ /= E. unbind E acc1 E1. case: (dealt) IH E => [_|s' ds IH].
  - case=> <-. have [-> Hn] := checked_neq0 E1. by rewrite big_cons big_nil addr0.
  - move=> /IH [//|-> Hn]. by split=> //; rewrite (checked_inr E1) [in RHS]big_cons addrA.
Qed.

(** C12. Over a pairing group, verified sharing keeps what the DKG relies on: what a
    dealer commits to are points, the shares it computes pass the check and
    survive serialization, and enough participants that verified their shares
    against the same commitments, whoever dealt them, hold a threshold scheme
    for the group key computed from the commitments. *)
Theorem group_verified_dkg {G : AESGCM} (sha256 : bytes -> bytes) (ks : seq Z) :
  good_indices ks -> (forall b, length (sha256 b) = 32%N) -> VerifiedDKG sha256 (fun i => i \in ks).
Proof.
  move=> Hks Hsha. split.
  - move=> coeffs com c /commitmentsFromPolyE [_ ->] /List.in_map_iff [a [<- _]].
    by cbn [p1_uncompress group_blst]; rewrite length_enc1 enc1K.
  - move=> coeffs com i s Hi Hcom Hs. have [_ _ Hpos] := Hks. have [_ Hpt] := Hpos _ Hi.
    rewrite (feldman_check s Hcom Hs Hpt) eqxx. cbn [sk_Deserialize sk_Serialize group_blst].
    by rewrite serK ?(evalPolyAt_neq0 Hs) // length_ser.
  - move=> js t coms gpk dealt sk Hok Hnd [/ltP Ht /leP Hl] Hne Hlen Hgpk Hsh.
    have Hsub : {subset js <= ks} by move=> i /In_mem /Hok.
    have Hg := good_sub Hks (uniq_NoDup Hnd) Hsub.
    have Hver : {in js, forall i, verified i (dealt i) coms}.
      by move=> i /In_mem /Hsh [].
    have [f [Hf Hz Hv]] := joint_poly Hg Hl Hlen Hver.
    exists (fun id => enc2 (f.[0] *: hash2 S id hashDST)). rewrite (joint_key Ht Hlen Hgpk Hz).
    apply: ThresholdIBE_sub (group_threshold_ibe Hsha Ht Hf Hg _).
    + move=> i Hi. split; first exact/In_mem. have [_ Hq] := Hsh i Hi. by rewrite Hv ?(qual_shareE Hq) //; apply/In_mem.
    + move=> i Hi. rewrite Hv //. have [Hvi Hq] := Hsh i (proj2 (In_mem _ _) Hi). apply: qual_share_neq0 Hq.
      by move=> E; move: Hvi Hne; rewrite E => H; inversion H.
Qed.
End feldman.

(** ** The DKG of three participants, two of which decrypt, over the small group *)
Section witness.
Let B := group_blst small_group.
Let coeffs : seq 'F_7 := [:: 1; 1].
Let dealt : 'F_7 := if evalPolyAt (B := B) coeffs (Z.of_nat 1) is inr v then v else 0.

Lemma feldman_accepts_only_dealt_witness :
  verifyFeldmanShare (B := B) (1 : 'F_7) (Z.of_nat 1) (List.map (commit (S := small_group)) coeffs) = inr (1 == dealt).
Proof.
  apply: (@feldman_accepts_only_dealt small_group coeffs) => //.
Defined.

Let dkg : bytes * list (Z * bytes) :=
  if SimulateFeldmanDKG (B := B) (Z.of_nat 3) (Z.of_nat 2) (fun _ _ => [::]) is inr r then r else ([::], [::]).
Let share_of (i : nat) : bytes := (List.nth i dkg.2 (Z0, [::])).2.
Let id := IdentityForHeight (Z.to_N 5).
Let part (i : nat) : Share :=
  mkShare (Z.of_nat i.+1) (if DeriveShare (B := B) (share_of i) id is inr v then v else [::]).
Let sha (_ : bytes) : bytes := List.repeat Byte.x00 32.

Lemma dkg_shares_decrypt_witness : exists u ct sk,
    [/\ ibe_Encrypt (B := B) (G := toy_gcm) sha dkg.1 id id [::] (List.repeat Byte.x00 12) = inr (u, ct),
        CombineShares (B := B) [:: part 2; part 0] (Z.of_nat 2) = inr sk &
        ibe_Decrypt (B := B) (G := toy_gcm) sha sk u ct = inr id].
Proof.
  apply: (@dkg_shares_decrypt small_group toy_gcm sha (Z.of_nat 3) (Z.of_nat 2) (fun _ _ => [::]) dkg.1 dkg.2
    [:: part 2; part 0] id id [::] (List.repeat Byte.x00 12) 1) => //.
  - split=> //.
    + by move=> i j; rewrite !inE => /orP [/eqP ->|/eqP ->] /orP [/eqP ->|/eqP ->].
    + by move=> i; rewrite !inE => /orP [/eqP ->|/eqP ->].
  - by move=> a [<-|[<-|[]]]; [exists (share_of 2)|exists (share_of 0)]; vm_compute; tauto.
Defined.

(** Two dealers with the polynomial 1 + x. *)
Let com : list bytes := List.map (commit (S := small_group)) coeffs.
Let gpk : bytes := if qual_public_key (B := B) [:: com; com] is inr k then k else [::].
Let dealt_to (i : Z) : seq 'F_7 :=
  if evalPolyAt (B := B) coeffs i is inr v then [:: v; v] else [::].
Let sk (i : Z) : bytes := if qual_share (B := B) (dealt_to i) is inr b then b else [::].
Let holder (i : Z) : Share :=
  mkShare i (if DeriveShare (B := B) (sk i) id is inr v then v else [::]).

Lemma verified_shares_decrypt_witness : exists u ct key,
    [/\ ibe_Encrypt (B := B) (G := toy_gcm) sha gpk id id [::] (List.repeat Byte.x00 12) = inr (u, ct),
        CombineShares (B := B) [:: holder (Z.of_nat 3); holder (Z.of_nat 1)] (Z.of_nat 2) = inr key &
        ibe_Decrypt (B := B) (G := toy_gcm) sha key u ct = inr id].
Proof.
  apply: (@verified_shares_decrypt small_group toy_gcm sha [:: com; com] 2 gpk dealt_to sk
    [:: holder (Z.of_nat 3); holder (Z.of_nat 1)] id id [::] (List.repeat Byte.x00 12) 1).
  - by [].
  - by move=> c [<-|[<-|[]]].
  - by vm_compute.
  - by [].
  - split=> //.
    + by move=> i j; rewrite !inE => /orP [/eqP ->|/eqP ->] /orP [/eqP ->|/eqP ->].
    + by move=> i; rewrite !inE => /orP [/eqP ->|/eqP ->].
  - move=> a [<-|[<-|[]]]; split; try by vm_compute.
    + by repeat constructor; vm_compute.
    + by repeat constructor; vm_compute.
  - by [].
  - by [].
  - by [].
Defined.

Lemma group_verified_dkg_witness :
  VerifiedDKG (B := B) (G := toy_gcm) sha (fun i => i \in [:: Z.of_nat 1; Z.of_nat 2; Z.of_nat 3]).
Proof.
  apply: (@group_verified_dkg small_group toy_gcm sha [:: Z.of_nat 1; Z.of_nat 2; Z.of_nat 3]) => //.
  split=> //.
  - by move=> i j; rewrite !inE => /or3P [] /eqP -> /or3P [] /eqP ->.
  - by move=> i; rewrite !inE => /or3P [] /eqP ->.
Defined.
End witness.
