(* ===== verification/ClientCorrect.v ===== *)
(** The command line tools over pairing groups: what beast-keygen writes are
    shares that implement the threshold interface, what beast-encrypt sends in
    batched mode opens at the node that holds the share, and opens just as well
    for anyone who sees it. *)
From Stdlib Require Import ZArith Nnat Lia.
From mathcomp Require Import boot algebra.
From S2P Require Import CryptoOps Beast PairingGroups BeastCorrect PprfCorrect Client.
Import GRing.Theory.
#[local] Set Warnings "-rewrite-rw".
Set Implicit Arguments.
Unset Strict Implicit.
Unset Printing Implicit Defensive.
Local Open Scope ring_scope.

Section client.
Variable S : PairingGroup.
Let F := pF S.

(** [KeyGen] of blst never returns zero. *)
Hypothesis keygen_neq0 : forall ikm r, PairingGroups.keygen S ikm = Some r -> r != 0.

(** ** beast-keygen *)
Lemma horner_stepE (xs acc c s : F) : horner_step xs acc c = inr s -> s = acc * xs + c /\ s != 0.
Proof.
  rewrite /horner_step => H. unbind H m Em. move: Em H. rewrite /checked /=.
  case: ifP => // _ [<-]. by case: ifP => // Hs [<-].
Qed.

Lemma horner_fold (xs acc s : F) cs :
  acc != 0 -> fold_res (horner_step xs) cs acc = inr s -> s = foldl (fun a c => a * xs + c) acc cs /\ s != 0.
Proof.
  elim: cs acc => [|c cs IH] acc Ha; first by case=> <-.
  cbn [fold_res] => H. unbind H a Ea. have [Ea1 Hne] := horner_stepE Ea. by have := IH _ Hne H; rewrite Ea1.
Qed.

Lemma rev_rev A (l : list A) : List.rev l = rev l.
Proof. elim: l => [//|a l IH]. by rewrite rev_cons -cats1 -IH. Qed.

Lemma foldl_horner (coeffs : seq F) (x : F) :
  foldl (fun a c => a * x + c) 0 (rev coeffs) = horner_rec coeffs x.
Proof. elim: coeffs => [//|c cs IH]. by rewrite rev_cons foldl_rcons IH. Qed.

(** [evalPoly] is Horner's rule, and the value it returns is not zero. *)
Lemma evalPolyE coeffs x (s : F) :
  List.Forall (fun c : F => c != 0) coeffs -> evalPoly coeffs x = inr s -> s = (Poly coeffs).[pt x] /\ s != 0.
Proof.
  move=> Hc. rewrite /evalPoly scalarFromIntE horner_Poly -foldl_horner -rev_rev.
  case E : (List.rev coeffs) => [//|c cs].
  have Hne : c != 0.
    move/List.Forall_forall: Hc; apply. by apply/List.in_rev; rewrite E; left.
  by move=> /(horner_fold Hne) /=; rewrite mul0r add0r.
Qed.

Lemma map_res_in A R (f : A -> res R) (l : list A) bs b :
  map_res f l = inr bs -> List.In b bs -> exists2 a, List.In a l & f a = inr b.
Proof.
  elim: l bs => [|a l IH] bs; first by case=> <-.
  cbn [map_res] => E. unbind E b' Eb. unbind E bs' Ebs. case: E => <- [<-|Hin]; first by exists a; [left|].
  by have [a' Ha' Hf] := IH _ Ebs Hin; exists a' => //; right.
Qed.

(** The polynomial behind the files, and what a node's file holds. *)
Lemma keygen_inv (n t : Z) (ikm : nat -> bytes) pub nodes :
  Client.keygen n t ikm = inr (pub, nodes) ->
  exists f : {poly F}, [/\ (size f <= Z.to_nat t)%N, Z.lt 0 t /\ Z.le t n,
    pub = mkPublic (enc1 (f.[0] *: gen1 S)) t n, f.[0] != 0 &
    forall c, List.In c nodes -> exists i : nat,
      [/\ Z.lt 0 (Z.of_nat i) /\ Z.le (Z.of_nat i) n, f.[pt (Z.of_nat i)] != 0 &
          c = mkNodeConfig mode_threshold (pc_GroupPubKey pub) t (Z.of_nat i) (ser f.[pt (Z.of_nat i)]) n]].
Proof.
  rewrite /Client.keygen. case Hnt : orb => // H. unbind H coeffs Ec.
  have Hne : List.Forall (fun c : F => c != 0) coeffs.
    apply/List.Forall_forall => c /(map_res_in Ec) [j _]. rewrite /kg_randScalar => E. exact: (keygen_neq0 (must_inr E)).
  have Hlen := length_map_res _ _ _ Ec. rewrite List.length_seq in Hlen.
  case: coeffs => [//|msk cs] in Ec Hne Hlen H *. unbind H ns En. case: H => <- <-.
  move: Hnt => /Bool.orb_false_iff [/Bool.orb_false_iff [/Z.leb_gt Hn /Z.leb_gt Ht] /Z.ltb_ge Htn].
  have H0 : (Poly (msk :: cs)).[0] = msk by rewrite horner_Poly /= mulr0 add0r.
  exists (Poly (msk :: cs)). rewrite H0. split=> //.
  - by rewrite -Hlen; exact: size_Poly.
  - by inversion Hne.
  - move=> c /(map_res_in En) [i /List.in_seq Hi]. rewrite /node_config => E. unbind E s Es.
    have [Ev Hs] := evalPolyE Hne Es. case: E => <-. exists i. rewrite -Ev. split=> //. lia.
Qed.

(** The share a list of node files gives for an index. *)
Definition share_of (nodes : list nodeConfig) (i : Z) : bytes :=
  match List.find (fun c => Z.eqb (kc_Index c) i) nodes with Some c => kc_Share c | None => [::] end.

(** C9. The dealer's files implement the threshold interface of the private
    mempool: the shares beast-keygen writes for its nodes are such that any
    threshold of the nodes derive and combine the key that opens what a client
    encrypts to the public file, and each file passes the checks of the node. *)
Theorem keygen_implements_threshold {G : AESGCM} (sha256 : bytes -> bytes) (n t : Z) (ikm : nat -> bytes)
    pub nodes :
  (forall b, length (sha256 b) = 32%N) ->
  good_indices [seq Z.of_nat i | i <- iota 1 (Z.to_nat n)] ->
  Client.keygen n t ikm = inr (pub, nodes) ->
  (exists hkey, ThresholdIBE sha256 (pc_GroupPubKey pub) (pc_Threshold pub)
     (fun i => exists2 c, List.In c nodes & kc_Index c = i) (share_of nodes) hkey) /\
  forall c, List.In c nodes ->
    [/\ kc_GroupPubKey c = pc_GroupPubKey pub, kc_Threshold c = pc_Threshold pub, length (kc_GroupPubKey c) = 48%N,
        length (kc_Share c) = 32%N & kc_Share c = share_of nodes (kc_Index c)].
Proof.
  move=> Hsha Hg /keygen_inv [f [Hs [Ht Htn] -> _ Hc]].
  have Hshare c : List.In c nodes -> share_of nodes (kc_Index c) = ser f.[pt (kc_Index c)].
    move=> Hin. rewrite /share_of. case Ef : List.find => [c'|].
    - have [Hin' /Z.eqb_eq <-] := List.find_some _ _ Ef. by have [i [_ _ ->]] := Hc _ Hin'.
    - by move: (List.find_none _ _ Ef _ Hin); rewrite Z.eqb_refl.
  split=> [|c Hin].
  - exists (fun id => enc2 (f.[0] *: hash2 S id hashDST)) => /=.
    have -> : t = Z.of_nat (Z.to_nat t) by lia.
    have Hk : (0 < Z.to_nat t)%N by apply/ltP; lia.
    set js := [seq i <- [seq Z.of_nat i | i <- iota 1 (Z.to_nat n)] | f.[pt i] != 0].
    have Hsub : {subset js <= [seq Z.of_nat i | i <- iota 1 (Z.to_nat n)]} by move=> i; rewrite mem_filter => /andP [].
    have Hjs : good_indices js by apply: (good_sub Hg) => //; case: Hg => Hu _ _; exact: filter_uniq.
    have Hne : {in js, forall i, f.[pt i] != 0} by move=> i; rewrite mem_filter => /andP [].
    apply: ThresholdIBE_sub (group_threshold_ibe Hsha Hk Hs Hjs Hne) => i [c Hin <-]. split; last exact: Hshare.
    have [i' [[H1 H2] Hv ->]] := Hc _ Hin. rewrite mem_filter /= Hv /=.
    apply/mapP. exists i' => //. rewrite mem_iota add1n ltnS. apply/andP. split; apply/leP; lia.
  - have [i [_ _ E]] := Hc _ Hin. rewrite Hshare // E /=. by rewrite length_enc1 length_ser.
Qed.

(** ** beast-encrypt in batched mode *)
Variable sha256 : bytes -> bytes.

Lemma batch_index_domain (n : nat) nonce : (0 < n)%coq_nat -> domain n (batch_index (Z.of_nat n) nonce).
Proof.
  move=> Hn. rewrite /batch_index /domain.
  have Hne : Z.to_N (Z.of_nat n) <> N0 by lia.
  have := N.mod_lt nonce _ Hne. set m := N.modulo _ _. by lia.
Qed.

(** What a client's transaction is made of. *)
Lemma encrypt_batched_inv pub target inner pt rnd o :
  encrypt_batched sha256 pub target inner pt rnd = inr o ->
  exists (n : nat) (x k : F) (idx : Z) (ct : KeyCiphertext),
    [/\ pc_N pub = Z.of_nat n /\ domain n idx, PairingGroups.keygen S (sha256 (pc_GroupPubKey pub)) = Some x /\ k != 0,
        SetupLinearDeterministic sha256 (pc_N pub) (pc_GroupPubKey pub) = inr (params n x),
        EncryptKey (pc_GroupPubKey pub) (ser k) (cr_bte rnd) = inr ct &
        o = mkOuter mode_private (in_From inner) (in_Nonce inner) (RecoverXOR sha256 pt (prf n x k idx))
              (List.app (C1 ct) (C2 ct)) target (Z.to_N idx) (enc1 (k *: (xpow x idx *: gen1 S)))].
Proof.
  rewrite /encrypt_batched. case En : (Z.leb (pc_N pub) 0) => // H. move/Z.leb_gt: En => Hn.
  have [n En] : exists n, pc_N pub = Z.of_nat n by exists (Z.to_nat (pc_N pub)); lia.
  rewrite En in H Hn *. have {}Hn : (0 < n)%coq_nat by lia. have Hi := batch_index_domain (in_Nonce inner) Hn.
  unbind H pp Epp. unbind H key Ek. unbind H v Ev. unbind H ct Ect. unbind H kStar Es. case: H => <-.
  have [x Ex Hpp] : exists2 x, PairingGroups.keygen S (sha256 (pc_GroupPubKey pub)) = Some x & pp = params n x.
    move: (Epp). rewrite /SetupLinearDeterministic. case: Z.leb => //. case: Nat.eqb => // E. unbind E x Ex.
    have {}Ex := must_inr Ex. exists x => //. move: E. rewrite buildLinearParamsE //; first exact: (keygen_neq0 Ex).
    by case.
  move: Ek. rewrite /pprf_KeyGen /pprf_randScalar => E. unbind E k Ek. have Hk := keygen_neq0 (must_inr Ek).
  case: E => Ekey. rewrite -Ekey Hpp in Ev Ect Es Epp *. rewrite EvalE // in Ev. rewrite PunctureE // in Es.
  case: Ev => <-. case: Es => <-. by exists n, x, k, (batch_index (Z.of_nat n) (in_Nonce inner)), ct.
Qed.

(** C10. Batched mode hides nothing. The secret exponent of the public parameters is
    derived from the public key, so whoever sees a transaction that
    beast-encrypt made in batched mode computes its plaintext from the public
    file alone, without any share and before the target height. *)
Theorem batched_mode_is_public pub target inner pt rnd o :
  encrypt_batched sha256 pub target inner pt rnd = inr o -> eavesdrop sha256 pub o = inr pt.
Proof.
  move=> /encrypt_batched_inv [n [x [k [idx [ct [[En Hi] [Ex Hk] _ _ ->]]]]]].
  rewrite /eavesdrop En /=. rewrite Ex enc1K. cbn [must bind]. congr inr.
  rewrite -[RHS](RecoverXOR_involutive sha256 _ (prf n x k idx)). congr (RecoverXOR _ _ _).
  have Hiter m : Nat.iter m (fun q => x *: q) (gen2 S) = x ^+ m *: gen2 S.
    by elim: m => [|m IH]; rewrite /= ?expr0 ?scale1r // IH scalerA exprS.
  rewrite Nat2Z.id Hiter scalerA -exprS.
  rewrite big_seq1 /= /prf. congr encT. rewrite pairZl !pairZr !scalerA. congr (_ *: _).
  case: Hi => H1 H2. have -> : Z.add (Z.add (Z.of_nat n) 1) idx = Z.add (Z.of_nat n.+1) idx by lia.
  rewrite xpowD; [lia|lia|]. by rewrite [xpow x (Z.of_nat _)]/xpow Nat2Z.id mulrA (mulrC k).
Qed.

Lemma lagrange_one err i : lagrangeAtZero err i [:: i] = inr (1 : F).
Proof.
  rewrite /lagrangeAtZero. cbn [fold_res]. rewrite /lagrange_step Z.eqb_refl. cbn [bind fst snd].
  rewrite scalarFromIntE pt1. have H : (1 : F) * 1^-1 = 1 by rewrite invr1 mulr1.
  by rewrite -[in RHS]H; apply: chk_mul; rewrite H oner_neq0.
Qed.

Lemma DecryptKeyG_one (a r kappa : F) ct i :
  Z.lt 0 i -> C1 ct = enc1 (r *: gen1 S) -> C2 ct = enc1 (r *: (a *: gen1 S) + kappa *: gen1 S) ->
  DecryptKeyG ct [:: mkPartial i (enc1 (a *: (r *: gen1 S)))] 1 = inr (enc1 (kappa *: gen1 S)).
Proof.
  move=> Hi H1 H2. set s := mkPartial _ _. rewrite /DecryptKeyG.
  have -> : List.firstn (Z.to_nat 1) (sort_by_index pd_Index [:: s]) = [:: s] by [].
  have -> : orb (Z.leb 1 0) (Z.ltb (Z.of_nat (length [:: s])) 1) = false by [].
  have -> : check_indices pd_Index (fun s => Nat.eqb (length (pd_Share s)) 48) [::] [:: s] = true.
    rewrite /check_indices /s. cbn [pd_Index pd_Share List.existsb negb]. rewrite length_enc1.
    by have /Z.ltb_lt -> := Hi.
  rewrite H2 length_enc1. cbn [Nat.eqb negb]. cbv iota. cbn [List.map fold_res].
  rewrite /decrypt_step /bte_lagrangeAtZeroScalar lagrange_one.
  rewrite /s. cbn [bind pd_Share p1_uncompress group_blst]. rewrite !enc1K. cbn [must bind].
  congr (inr (enc1 _)). cbn [p1_sub p1_add p1_mult p1_zero group_blst].
  by rewrite add0r scale1r !scalerA (mulrC r) addrAC subrr add0r.
Qed.
Lemma RecoverPRFAt_one (n : nat) (x k : F) (i : Z) (b : bytes) : domain n i ->
  RecoverPRFAt (params n x) (enc1 (k *: gen1 S)) i [:: (i, b)] = Returns (inr (prf n x k i)).
Proof.
  move=> Hi. rewrite /RecoverPRFAt params_valid; first exact: (domain_pos Hi). cbn [negb lp_N params].
  rewrite out_domain // length_enc1. cbn [Nat.eqb negb length]. cbv iota.
  cbn [p1_uncompress p2_uncompress group_blst]. rewrite enc1K.
  have [_ ->] := pows_at x (top_table Hi). rewrite enc2K.
  cbn [List.filter fst]. rewrite Z.eqb_refl. cbn [negb sort_by_index List.fold_right punctured_factors].
  congr (Returns (inr _)). cbn [pairing group_blst gt_bytes]. rewrite big_seq1 /= /prf. congr encT.
  by rewrite pairZl pairZr scalerA mulrC.
Qed.

(** The holder of the whole secret opens batched transactions. *)
Lemma batched_opening (a : F) (pub : publicConfig) (i : Z) :
  a != 0 -> Z.lt 0 i -> pc_GroupPubKey pub = enc1 (a *: gen1 S) -> BatchedOpening sha256 pub i (ser a).
Proof.
  move=> Ha Hi Hg. split=> target inner pt rnd o
    /encrypt_batched_inv [n [x [k [idx [ct [[En Hd] [Ex Hk] Epp Ect ->]]]]]].
  rewrite Hg in Ect. have [r [H1 H2]] := EncryptKeyE Ect.
  cbn [oe_BatchIndex oe_EphemeralKey oe_PuncturedKey oe_Ciphertext].
  rewrite En H1 H2 List.length_app !length_enc1 length_RecoverXOR. case: (Hd) => Hd1 Hd2.
  have -> : Z.of_N (Z.to_N idx) = idx by lia. do 4 split=> //.
  exists (params n x), (enc1 (a *: (r *: gen1 S))), (enc1 (k *: gen1 S)), (prf n x k idx).
  set c2 := enc1 (_ + _). have Hc1 : length (enc1 (r *: gen1 S)) = 48%N by rewrite length_enc1.
  rewrite (firstn_prefix _ _ _ Hc1) (skipn_prefix _ _ _ Hc1) -En.
  have Hpart : PartialDecrypt (mkKeyCiphertext (enc1 (r *: gen1 S)) c2) (ser a) i =
      inr (mkPartial i (enc1 (a *: (r *: gen1 S)))).
    rewrite /PartialDecrypt. have /Z.leb_gt -> := Hi. cbn [C1]. rewrite length_enc1 length_ser.
    cbn [Nat.eqb negb]. cbv iota. cbn [sk_Deserialize p1_uncompress group_blst].
    by rewrite serK // enc1K.
  split; first by []. split; first exact: Hpart. split; first by rewrite length_enc1.
  split; first exact: DecryptKeyG_one. split; first exact: RecoverPRFAt_one.
  exact: RecoverXOR_involutive.
Qed.

(** C24. The batched mode of a committee with threshold one works. With the
    keys that beast-keygen writes for a threshold of one, every node opens exactly
    the plaintext of what beast-encrypt sends in batched mode, step by step
    through the operations that the node performs. *)
Theorem keygen_batched_opens (n : Z) (ikm : nat -> bytes) pub nodes c :
  Client.keygen n 1 ikm = inr (pub, nodes) -> List.In c nodes ->
  BatchedOpening sha256 pub (kc_Index c) (kc_Share c).
Proof.
  move=> /keygen_inv [f [Hs _ -> H0 Hc]] /Hc [i [[Hi _] _ ->]] /=.
  have Ef : f = (f`_0)%:P by apply: size1_polyC.
  have -> : f.[pt (Z.of_nat i)] = f.[0] by rewrite Ef !hornerC.
  exact: batched_opening.
Qed.
End client.

(** ** Concrete inputs, over the small group *)
Section witness.
Let B := group_blst small_group.
Let ikm (_ : nat) : bytes := [::].
Let sha (_ : bytes) : bytes := List.repeat Byte.x00 32.
Let inner : innerEnvelope := mkInner mode_private mode_private 1 1 1 0 mode_private.
Let rnd : ClientRand := mkClientRand [::] [::] [::] [::].
Let target : N := 5.
Let pt : bytes := [:: Byte.x01; Byte.x02].

Definition succeeds A (r : res A) : bool := if r is inr _ then true else false.

Lemma small_neq0 (b : bytes) (r : 'F_7) : PairingGroups.keygen small_group b = Some r -> r != 0.
Proof. by case=> <-. Qed.

Lemma keygen_two : succeeds (Client.keygen (B := B) 2 2 ikm).
Proof. by vm_compute. Qed.

Lemma keygen_one : succeeds (Client.keygen (B := B) 2 1 ikm).
Proof. by vm_compute. Qed.

Lemma keygen_implements_threshold_witness :
  if Client.keygen (B := B) 2 2 ikm is inr (pub, nodes) then
    (exists hkey, ThresholdIBE (B := B) (G := toy_gcm) sha (pc_GroupPubKey pub) (pc_Threshold pub)
       (fun i => exists2 c, List.In c nodes & kc_Index c = i) (share_of nodes) hkey) /\
    forall c, List.In c nodes ->
      [/\ kc_GroupPubKey c = pc_GroupPubKey pub, kc_Threshold c = pc_Threshold pub, length (kc_GroupPubKey c) = 48%N,
          length (kc_Share c) = 32%N & kc_Share c = share_of nodes (kc_Index c)]
  else False.
Proof.
  have := keygen_two. case E : (Client.keygen _ _ _) => [//|[pub nodes]] _.
  apply: (keygen_implements_threshold (S := small_group) small_neq0 (sha256 := sha) (ikm := ikm)); [by []| |exact: E].
  split=> //.
  - by move=> i j; rewrite !inE => /orP [/eqP ->|/eqP ->] /orP [/eqP ->|/eqP ->].
  - by move=> i; rewrite !inE => /orP [/eqP ->|/eqP ->].
Defined.

Lemma keygen_batched_opens_witness :
  if Client.keygen (B := B) 2 1 ikm is inr (pub, nodes) then
    forall c, List.In c nodes -> BatchedOpening (B := B) sha pub (kc_Index c) (kc_Share c)
  else False.
Proof.
  have := keygen_one. case E : (Client.keygen _ _ _) => [//|[pub nodes]] _ c.
  exact: (keygen_batched_opens (S := small_group) small_neq0 sha E).
Defined.

Let small_pub : publicConfig := mkPublic (@enc1 small_group 1) 1 2.

Lemma client_encrypts : succeeds (encrypt_batched (B := B) sha small_pub target inner pt rnd).
Proof. by vm_compute. Qed.

(** Two bytes sent to position two of two are read by anyone. *)
Lemma batched_mode_is_public_witness :
  if encrypt_batched (B := B) sha small_pub target inner pt rnd is inr o
  then eavesdrop (B := B) sha small_pub o = inr pt else False.
Proof.
  have := client_encrypts. case E : (encrypt_batched _ _ _ _ _ _) => [//|o] _.
  exact: (batched_mode_is_public (S := small_group) small_neq0 E).
Defined.
End witness.
